(* ===== verification/_CoqProject ===== *)
-Q . S2P
Prelude.v
BTree.v
Link.v
Agentx.v
Mib.v
Duration.v
Monitor.v
MonitorRuns.v
Timed.v
Recovery.v
Responsive.v
Netlink.v
NetlinkSource.v
SocketIo.v
Config.v
Notify.v
Session.v
Promptness.v
Main.v
Timing.v
Delivery.v
System.v
Freshness.v
Stack.v
Sockets.v
Production.v
Process.v
Descriptors.v
EndToEnd.v
Scenarios.v
Conformance.v
UnitTests.v
NetlinkTests.v
SessionTests.v
ProcessTests.v
IntegrationTests.v
Witnesses.v
SystemWitnesses.v
