(* ===== verification/Prelude.v ===== *)
(** * agentx-ifstack: a verification development

    The program is a subagent of an SNMP master. It watches the kernel's
    network interfaces over netlink, derives which interface directly runs
    over which, and serves the result as the ifStackTable of RFC 2863 through
    the AgentX protocol of RFC 2741. This library models its Rust code
    ([src/src/*.rs]) as Rocq functions and proves what makes it correct.

    ** The parts and how they interact

    [main] reads the configuration, starts the monitor thread and keeps an
    AgentX session open. The monitor ([monitor::run]) drives an acquisition
    source: it subscribes to link notifications, takes complete inventories
    ([NetlinkSource] over [SocketIo]), turns each into a topology
    ([Topology::from_observed]) and a table ([Mib::from_topology]), and writes
    the table to a cell that the session reads with [snapshot]. The session
    ([session::run]) answers each request from the table it finds there.

    ** Files

    - Prelude.v: errors, [result] with its monad, [foldM] for loops that may
      leave with [?], [iterate] for [loop] under a bound and [loops] without
      one, [slice], machine integers, tactics, and [chain] for sequences of
      labelled steps.
    - BTree.v: ordered maps and sets ([BTreeMap], [BTreeSet]) as sorted lists,
      over a class of total orders that may identify different keys.
    - Link.v ([link.rs]): [register_link] is the body of the first loop of
      [from_observed], [relate_controller] and [relate_kind] the blocks of the
      second. [valid_inventory] and [topology_of] specify it.
    - Agentx.v: the interface to the agentx crate's identifiers, [IdOps] with
      its laws [IdLaws], its plain data, and the instance [Oid].
    - Mib.v ([mib.rs]): the table and GET, GETNEXT and GETBULK. [table_of],
      [in_window] and [repetitions] specify them.
    - Duration.v: [std::time::Duration] in nanoseconds.
    - Monitor.v ([monitor.rs]): the record [State] with one function per
      method, the loop body as [run_step] (its blocks are [try_subscribe],
      [acquire] and [wait_step]) and [run] for [n] iterations, against the
      class [Acquisition] (the trait). A run yields the list of its actions.
    - MonitorRuns.v: the contract [AcquisitionLaws] of a source, the abstract
      actor ([transition]), the refinement of [run] to it, the properties of
      whole runs by induction over its steps, and the calls that a run makes on
      its source, one after the other ([source_call], [performs]).
    - Timed.v: how far ahead the state of a run can put the next attempt.
    - Recovery.v: what a run publishes is well typed and sorted; a source that
      works again ([works]) gets the table of a fresh inventory published.
    - Responsive.v: the times at which attempts start, over sources whose
      calls overshoot by a bounded time (the class [AcqTiming]).
    - Netlink.v ([netlink.rs], the pure half): [decode_datagram],
      [decode_link], [consume_dump]. [framed], [describes] and [dump_entry]
      specify them. Native byte order is that of the one target the program is
      built for, x86_64 ([from_ne_bytes]).
    - NetlinkSource.v ([netlink.rs]): [NetlinkSource] with every method, over
      the class [DatagramIo] (the trait, plus the clock and [sleep]), as an
      instance of [Acquisition]; the contract [IoLaws] below it. [dumped]
      says that a source went from one state to another by one uninterrupted
      dump: the calls made on the interface in between, in order ([io_call]),
      and all that they read from the socket of the dump ([complete_dump]).
    - SocketIo.v ([netlink.rs]): the adapter to the system calls, an instance
      of [DatagramIo] over the class [Sys]; it discharges [IoLaws]. Its calls
      are those of the code's unbounded loops where signals are few
      ([FewSignals], [few_signals_loops]).
    - Config.v ([config.rs]), Notify.v ([notify.rs]).
    - Session.v ([session.rs]): framing ([receive], [read_before]), the
      handshake, [dispatch] and the request loop ([serve_step]) over the class
      [Stream]; the agentx crate's PDUs are the class [PduOps]. [answers],
      [reacts] and [rounds] specify it.
    - Promptness.v: over a connection that works (the class [Prompt]) a frame
      that comes in time is received, a request is answered, and a master that
      acknowledges gets a session.
    - Main.v ([main.rs]): start-up, exit statuses, the reconnect loop.
    - Timing.v, Delivery.v: how long an inventory takes (the classes
      [IoTiming], [SysTiming]), and that it accepts the dump it is sent.
    - System.v: the monitor over the netlink source, and requests answered
      from the cell it writes ([from_kernel]: a table, and the dump in the run
      that it comes from).
    - Freshness.v: a kernel that answers and whose links do not change
      ([quiet_kernel]) makes the source work in the sense of Recovery.v.
    - Stack.v: monitor, [NetlinkSource] and [SocketIo] put together as
      [NetlinkSource::new] does, down to the system calls ([from_recv]:
      [from_kernel] with the answers of [recv_from]).
    - Production.v: [quiet_kernel] from the system calls up ([quiet_system]).
    - Sockets.v: the monitor thread's descriptors, owned in the sense of the
      classes [IoOwnership] and, below the adapter, [SysOwnership].
    - Process.v ([main.rs]): the process with both of its threads. A step of
      the monitor thread plays one action of its iteration ([monitor_step]),
      one of the main thread is one stage of its loops ([main_step]): connect,
      the three stages of the request loop of [session::run]
      ([session_receive], [session_react], [session_write]), pause.
      [interleave] runs any schedule.
    - Descriptors.v: the main thread's descriptors (the class
      [MainOwnership]): the session's stream, the notification's socket.
    - EndToEnd.v: the monitor thread's steps counted ([plays]), and what the
      requests find once the kernel is quiet.
    - Scenarios.v: concrete instances of every class with its laws.
    - Conformance.v ([monitor.rs]), UnitTests.v ([link.rs], [mib.rs]),
      NetlinkTests.v ([netlink.rs]), SessionTests.v ([session.rs]) and
      ProcessTests.v ([config.rs], [notify.rs], [main.rs]): the unit tests of
      the code with their scripted sources and streams, run against the model;
      IntegrationTests.v: the tests of the command line and of the service
      ([src/tests/config_cli.rs], [src/tests/systemd_readiness.rs]).
    - Witnesses.v, SystemWitnesses.v: each theorem with hypotheses, applied in
      a scenario.

    ** How the code is modelled

    Functions with [?] return [result], with the kind and the formatted
    message of each error; a function that can panic returns [option], [None]
    being the panic. Code that acts on the outside passes a world along: the
    classes [Acquisition], [DatagramIo], [Sys] and [Stream] have one operation
    per call, and nothing is assumed of a world but the named laws ([...Laws]),
    which say that the monotonic clock does not run backwards, that reads take
    the incoming bytes in order, and the like; [...Timing] bounds how long a
    call takes, and [...Ownership] says which calls open and close a
    descriptor. A value that goes out of scope is closed where the source
    drops it ([io_drop], [sys_close], [st_drop]). Unsigned integers are [N] with
    wrap-around and saturation written out where the code can meet them
    ([wrapping_add], [saturating_add], [aligned_length]). The publication cell
    (a lock around a shared pointer) is a field of the monitor's
    configuration; a reader's snapshot is its value.

    Code outside the repository is a parameter: [IdOps], [PduOps],
    [deserialize] and [serialize_get_link] of the netlink message crates,
    [from_str] of toml, the [SocketAddr] constructors.

    ** Fuel

    [decode_loop] runs with the datagram's length plus one, since an iteration
    consumes a header at least ([decode_datagram_framing]). The loop of
    [inventory] has one iteration more than its three-second deadline has
    nanoseconds, and [read_before] one more than five seconds have; both
    counts are binary, [iterate] stops at the first exit, and both loops leave
    before if a wait and a read take time ([inventory_returns],
    [read_before_returns]; [production_inventory_bounded] from the system
    calls up). [rounds_of] counts the same rounds in unary, for induction. The
    loops that retry interrupted calls ([retry] of the adapter, [read_exact] of
    the standard library) have no bound in the code; the model follows them for
    a number of calls that every theorem leaves open. For a number that is large
    enough, bounded and unbounded loop leave with the same result
    ([loops_iterate], [retry_unbounded], [read_exact_unbounded]), so that each
    theorem speaks of every execution of the code in which signals do not
    interrupt a call for ever; where time is bounded, the number is a hypothesis
    ([FewSignals], [production_inventory_bounded]). [monitor::run],
    the request loop and the reconnect loop do not end in the code; the model
    runs any number of their iterations, and a schedule of any length.

    ** What the theorems show

    - The whole process: under every interleaving, what a manager reads is the
      table of a valid inventory that the monitor took before in one complete,
      uninterrupted kernel dump ([interleaved_reads_serve_kernel]), and, once the kernel is quiet
      and the monitor thread has had a few turns, the table of exactly its
      current links ([requests_see_links]); the interleaving is one run of
      the monitor and one of the main thread that meet in the cell
      ([interleaving_linearizes]); requests and responses alternate
      ([responses_follow_requests]).
    - The production stack: it refines the abstract actor and publishes what
      all of [recv_from]'s answers to one request amount to
      ([production_stack]), and its inventories end in bounded time
      ([production_inventory_bounded]).
    - Topology and table: exactly the valid inventories are accepted
      ([from_observed_decides]), the topology holds exactly the declared
      relationships in whatever order the links come, the table exactly the
      rows of RFC 2863 with values of the right types, and the three read
      operations match their references; a walk visits every row once.
    - Freshness and resources: once the kernel answers and is quiet, the table
      of exactly its links is published within a bounded time and stays
      ([kernel_links_published]; [production_links_published] from the system
      calls up, for intervals that a poll can wait for); attempts start when they are due
      ([attempts_on_time]); neither thread leaks a descriptor, and the monitor
      uses none it has closed ([sockets_released], [descriptors_released]).
    - Monitor: refinement, the scheduling invariant and the inventory behind
      each available table ([run_invariant]), exact deadlines and backoffs, the hard retry floor, availability only after a fresh
      inventory, and a table again once the source works ([recovery_live],
      [recovery_in_time]).
    - Netlink: framing is exact and never slices out of range
      ([decode_datagram_framing]), link decoding is exact, an inventory is the
      whole of one dump ([inventory_is_complete]), loss is recognised exactly, a complete dump is accepted ([inventory_accepts])
      within its deadline ([inventory_meets_deadline]), the source keeps the
      monitor's contract.
    - Session: framing does not depend on how the stream is cut, each request
      gets one response and the one RFC 2741 asks for, with the identifiers of
      the request and the error code in its place ([replies_echo]), and gets it
      if it came in time ([request_served], [handshake_succeeds]).
    - Process: the command line has the outcomes that are documented
      ([load_exact]), reconnection backs off ([reconnect_backoff]).

    ** Not modelled

    What the logger is told while the program runs, and its set-up; lock
    poisoning; the [cfg(test)] variants [WaitOutcome::Shutdown] and
    [Ready::shutdown]; the overflow panics of adding a few seconds to the
    monotonic clock; the lossy display of arguments that are not UTF-8; the
    parsing of TOML text (the derived [Deserialize] is generated code), so that
    the tests of it are given what the parser makes of a file; the tests that
    read the machine's own interfaces or open a network namespace
    ([src/tests/real_namespace.rs]). The two threads share the publication cell
    and nothing else, so that Process.v computes an iteration of the monitor
    when its first action is due and plays its actions one by one: the worlds
    of the two threads are separate, with a clock each. *)

From stdpp Require Export base list strings gmap.
From Stdlib Require Export ZArith Lia Sorting.Sorted.

#[export] Set Default Goal Selector "!".

(** ** Errors and fallible code *)

(** The [std::io::ErrorKind] values the source names. *)
Inductive ErrorKind :=
| InvalidData
| InvalidInput
| UnexpectedEof
| TimedOut
| WouldBlock
| Interrupted
| WriteZero
| NotFound
| OtherKind.

#[export] Instance ErrorKind_eq_dec : EqDecision ErrorKind.
Proof. solve_decision. Defined.

(** The arguments of a [format!] call in source order: a literal, a string
    printed with [{:?}], a string printed with [{}], an integer printed
    with [{}]. *)
Inductive Piece :=
| Lit (text : string)
| DebugStr (text : string)
| DisplayStr (text : string)
| DisplayInt (value : N).

#[export] Instance Piece_eq_dec : EqDecision Piece.
Proof. solve_decision. Defined.

(** [std::io::Error] with its kind and its formatted message. *)
Record Error := mkError { error_kind : ErrorKind; error_message : list Piece }.

#[export] Instance Error_eq_dec : EqDecision Error.
Proof. solve_decision. Defined.

(** [Error::other(message)] *)
Definition error_other (message : string) : Error := mkError OtherKind [Lit message].

(** Rust's [Result<A, E>]. *)
Inductive result (E A : Type) :=
| Ok (value : A)
| Err (error : E).
Arguments Ok {E A} value.
Arguments Err {E A} error.

#[export] Instance result_ret {E} : MRet (result E) := λ A x, Ok x.
#[export] Instance result_bind {E} : MBind (result E) := λ A B f m,
  match m with Ok x => f x | Err e => Err e end.
#[export] Instance result_fmap {E} : FMap (result E) := λ A B f m,
  match m with Ok x => Ok (f x) | Err e => Err e end.

(** [option.ok_or_else(..)] *)
Definition ok_or {E A} (o : option A) (e : E) : result E A :=
  match o with Some x => Ok x | None => Err e end.

(** [result.map_err(..)] *)
Definition map_err {E F A} (f : E → F) (r : result E A) : result F A :=
  match r with Ok x => Ok x | Err e => Err (f e) end.

Definition is_ok {E A} (r : result E A) : bool :=
  match r with Ok _ => true | Err _ => false end.

(** A [for] loop whose body threads a state and may leave with [?]. *)
Fixpoint foldM {E S A} (f : S → A → result E S) (s : S) (l : list A) : result E S :=
  match l with
  | [] => Ok s
  | x :: l' => s' ← f s x; foldM f s' l'
  end.

(** A [loop] of at most [p] iterations: [inl] goes round again with the new
    state, [inr] leaves. The count is binary so that a bound of billions is
    still a small term, and the loop stops at the first exit. *)
Fixpoint iterate {S R} (p : positive) (body : S → S + R) (s : S) : S + R :=
  let twice q s := match iterate q body s with
                   | inl s' => iterate q body s'
                   | inr r => inr r
                   end in
  match p with
  | xH => body s
  | xO q => twice q s
  | xI q => match body s with inl s' => twice q s' | inr r => inr r end
  end.

(** ** Machine integers *)

(** The moduli of Rust's unsigned integers, kept folded. *)
Definition U16_MODULUS : N := 2 ^ 16.
Definition U32_MODULUS : N := 2 ^ 32.
Definition U64_MODULUS : N := 2 ^ 64.

(** [a.wrapping_add(b)] on a type of the given modulus. *)
Definition wrapping_add (modulus a b : N) : N := ((a + b) mod modulus)%N.

Lemma wrapping_add_lt modulus a b : (modulus ≠ 0 → wrapping_add modulus a b < modulus)%N.
Proof. intros Hm. by apply N.mod_lt. Qed.

(** Residues of different numbers less than a modulus apart differ. *)
Lemma mod_window (m a b : N) :
  (m ≠ 0 → a < b → b < a + m → a mod m = b mod m → False)%N.
Proof.
  intros Hm Hab Hwin Heq.
  pose proof (N.div_mod' a m) as Ha. pose proof (N.div_mod' b m) as Hb. rewrite <- Heq in Hb.
  assert (m * (b / m) = m * (a / m) + (b - a))%N as Hmul by lia.
  destruct (N.le_gt_cases (b / m) (a / m)) as [Hle|Hgt]; [nia|].
  assert (a / m + 1 <= b / m)%N by lia. nia.
Qed.

(** ** Tactics *)

(** Case analysis on the first [result] a bind inspects. *)
Ltac bind_case :=
  match goal with
  | H : context [mbind _ ?m] |- _ =>
      let E := fresh "Hm" in destruct m eqn:E; simpl in H; try discriminate H
  | |- context [mbind _ ?m] =>
      let E := fresh "Hm" in destruct m eqn:E; simpl; try discriminate
  end.

(** Turn the boolean integer tests in the context into propositions. *)
Ltac bool_to_prop :=
  repeat match goal with
  | H : _ && _ = true |- _ => apply andb_prop in H as [? ?]
  | H : _ || _ = false |- _ => apply orb_false_elim in H as [? ?]
  | H : negb _ = true |- _ => apply negb_true_iff in H
  | H : negb _ = false |- _ => apply negb_false_iff in H
  | H : (_ =? _)%N = true |- _ => apply N.eqb_eq in H
  | H : (_ =? _)%N = false |- _ => apply N.eqb_neq in H
  | H : (_ <? _)%N = true |- _ => apply N.ltb_lt in H
  | H : (_ <? _)%N = false |- _ => apply N.ltb_ge in H
  | H : (_ <=? _)%N = true |- _ => apply N.leb_le in H
  | H : (_ <=? _)%N = false |- _ => apply N.leb_gt in H
  | H : bool_decide _ = true |- _ => apply bool_decide_eq_true in H
  | H : bool_decide _ = false |- _ => apply bool_decide_eq_false in H
  end.

(** ** Lemmas on [result] and [foldM] *)

Lemma bind_Ok {E A B} (f : A → result E B) m b :
  m ≫= f = Ok b ↔ ∃ a, m = Ok a ∧ f a = Ok b.
Proof. destruct m; simpl; naive_solver. Qed.

Lemma bind_Err {E A B} (f : A → result E B) m e :
  m ≫= f = Err e ↔ m = Err e ∨ ∃ a, m = Ok a ∧ f a = Err e.
Proof. destruct m; simpl; naive_solver. Qed.

Lemma ok_or_Ok {E A} (o : option A) (e : E) a : ok_or o e = Ok a ↔ o = Some a.
Proof. destruct o; simpl; naive_solver. Qed.

Lemma foldM_app {E S A} (f : S → A → result E S) s l k :
  foldM f s (l ++ k) = (s' ← foldM f s l; foldM f s' k).
Proof.
  revert s; induction l as [|x l IH]; intros s; simpl; [done|].
  destruct (f s x); simpl; auto.
Qed.

Lemma foldM_snoc {E S A} (f : S → A → result E S) s l x :
  foldM f s (l ++ [x]) = (s' ← foldM f s l; f s' x).
Proof. rewrite foldM_app. destruct (foldM f s l) as [s'|]; simpl; [|done]. by destruct (f s' x). Qed.

(** An error of the loop comes from its first failing iteration. *)
Lemma foldM_Err {E S A} (f : S → A → result E S) s l e :
  foldM f s l = Err e ↔
  ∃ pre x post s', l = pre ++ x :: post ∧ foldM f s pre = Ok s' ∧ f s' x = Err e.
Proof.
  split.
  - revert s; induction l as [|x l IH]; intros s; simpl; [done|].
    rewrite bind_Err. intros [He|(s' & Hs & He)].
    + exists [], x, l, s. naive_solver.
    + destruct (IH _ He) as (pre & y & post & s'' & -> & Hpre & Hy).
      exists (x :: pre), y, post, s''. simpl. rewrite Hs. naive_solver.
  - intros (pre & x & post & s' & -> & Hpre & Hx).
    rewrite foldM_app, Hpre. simpl. by rewrite Hx.
Qed.

(** A property of every prefix state is a loop invariant. *)
Lemma foldM_invariant {E S A} (P : list A → S → Prop) (f : S → A → result E S) s :
  P [] s →
  (∀ done x s1 s2, P done s1 → f s1 x = Ok s2 → P (done ++ [x]) s2) →
  ∀ l s', foldM f s l = Ok s' → P l s'.
Proof.
  intros Hinit Hstep l. induction l as [|x l IH] using rev_ind; intros s'.
  - intros [= <-]. done.
  - rewrite foldM_snoc, bind_Ok. intros (s1 & Hl & Hx). eauto.
Qed.

(** ** Lemmas on loops *)

(** An invariant of the loop that every exit turns into the result's claim. *)
Lemma iterate_ind {S R} (I : S → Prop) (Q : R → Prop) (body : S → S + R) :
  (∀ s, I s → match body s with inl s' => I s' | inr r => Q r end) →
  ∀ p s, I s → match iterate p body s with inl s' => I s' | inr r => Q r end.
Proof.
  intros Hbody p. induction p as [q IH|q IH|]; intros s Hs; simpl; [| |by apply Hbody].
  - specialize (Hbody s Hs). destruct (body s) as [s1|]; [|done].
    specialize (IH s1 Hbody) as Hq. destruct (iterate q body s1); [by apply IH|done].
  - specialize (IH s Hs) as Hq. destruct (iterate q body s); [by apply IH|done].
Qed.

(** The same with the number of iterations done so far. *)
Lemma iterate_ind_count {S R} (I : N → S → Prop) (Q : N → R → Prop) (body : S → S + R) :
  (∀ k s, I k s → match body s with inl s' => I (k + 1)%N s' | inr r => Q (k + 1)%N r end) →
  (∀ k k' r, (k ≤ k')%N → Q k r → Q k' r) →
  ∀ p k s, I k s →
    match iterate p body s with inl s' => I (k + N.pos p)%N s' | inr r => Q (k + N.pos p)%N r end.
Proof.
  intros Hbody Hmono p. induction p as [q IH|q IH|]; intros k s Hs; simpl; [| |by apply Hbody].
  - specialize (Hbody k s Hs). destruct (body s) as [s1|r].
    2: { eapply Hmono; [|done]. lia. }
    specialize (IH (k + 1)%N s1 Hbody) as Hq. destruct (iterate q body s1) as [s2|r].
    + specialize (IH _ _ Hq). destruct (iterate q body s2);
        [|eapply Hmono; [|done]]; [|lia].
      by replace (k + N.pos q~1)%N with (k + 1 + N.pos q + N.pos q)%N by lia.
    + eapply Hmono; [|done]. lia.
  - specialize (IH k s Hs) as Hq. destruct (iterate q body s) as [s1|r].
    + specialize (IH _ _ Hq). destruct (iterate q body s1); [|eapply Hmono; [|done]]; [|lia].
      by replace (k + N.pos q~0)%N with (k + N.pos q + N.pos q)%N by lia.
    + eapply Hmono; [|done]. lia.
Qed.

(** Exactly [n] iterations, counted in unary. *)
Fixpoint rounds_of {S R} (n : nat) (body : S → S + R) (s : S) : S + R :=
  match n with
  | O => inl s
  | S n => match body s with inl s' => rounds_of n body s' | inr r => inr r end
  end.

Lemma rounds_of_add {S R} n m (body : S → S + R) s :
  rounds_of (n + m) body s =
  match rounds_of n body s with inl s' => rounds_of m body s' | inr r => inr r end.
Proof. revert s. induction n as [|n IH]; intros s; simpl; [done|]. by destruct (body s). Qed.

Lemma iterate_rounds_of {S R} p (body : S → S + R) s :
  iterate p body s = rounds_of (Pos.to_nat p) body s.
Proof.
  revert s. induction p as [q IH|q IH|]; intros s; cbn [iterate].
  3: { simpl. by destruct (body s). }
  - rewrite Pos2Nat.inj_xI. simpl. destruct (body s) as [s1|]; [|done].
    rewrite Nat.add_0_r, rounds_of_add, IH. by destruct (rounds_of _ body s1).
  - rewrite Pos2Nat.inj_xO. simpl. rewrite Nat.add_0_r, rounds_of_add, IH.
    by destruct (rounds_of _ body s).
Qed.

(** A loop that leaves within [n] iterations leaves with the same result
    whatever larger bound it is given. *)
Lemma iterate_leaves {S R} p n (body : S → S + R) s r :
  rounds_of n body s = inr r → (N.of_nat n ≤ N.pos p)%N → iterate p body s = inr r.
Proof.
  intros Hr Hn. rewrite iterate_rounds_of.
  replace (Pos.to_nat p) with (n + (Pos.to_nat p - n)) by lia. by rewrite rounds_of_add, Hr.
Qed.

(** A loop whose measure stays positive and shrinks leaves within as many
    iterations as the measure says. *)
Lemma iterate_exits {S R} (I : S → Prop) (measure : S → N) (body : S → S + R) p s :
  (∀ s s', I s → body s = inl s' → I s' ∧ (measure s' < measure s)%N) →
  I s → (measure s < N.pos p)%N → ∃ r, iterate p body s = inr r.
Proof.
  intros Hbody Hs Hp.
  assert (∀ p s, I s →
    match iterate p body s with
    | inl s' => I s' ∧ (measure s' + N.pos p <= measure s)%N
    | inr _ => True
    end) as Hrun.
  { clear p s Hs Hp. intros p. induction p as [q IH|q IH|]; intros s Hs; simpl.
    - destruct (body s) as [s1|] eqn:H1; [|done]. apply Hbody in H1 as [Hs1 ?]; [|done].
      specialize (IH s1 Hs1) as Hq. destruct (iterate q body s1) as [s2|]; [|done].
      destruct Hq as [Hs2 ?]. specialize (IH s2 Hs2). destruct (iterate q body s2); [|done].
      destruct IH. split; [done|lia].
    - specialize (IH s Hs) as Hq. destruct (iterate q body s) as [s2|]; [|done].
      destruct Hq as [Hs2 ?]. specialize (IH s2 Hs2). destruct (iterate q body s2); [|done].
      destruct IH. split; [done|lia].
    - destruct (body s) as [s1|] eqn:H1; [|done]. apply Hbody in H1 as [Hs1 ?]; [|done].
      split; [done|lia]. }
  specialize (Hrun p s Hs). destruct (iterate p body s); [lia|eauto].
Qed.

(** *** Loops without a bound *)

(** A [loop] of the code, which nothing bounds: [body] is repeated until it leaves
    with a result. *)
Inductive loops {S R} (body : S → S + R) : S → R → Prop :=
| loops_exit s r : body s = inr r → loops body s r
| loops_again s s' r : body s = inl s' → loops body s' r → loops body s r.

Lemma loops_det {S R} (body : S → S + R) s r r' : loops body s r → loops body s r' → r = r'.
Proof.
  intros Hl. revert r'. induction Hl as [s r Hb|s s1 r Hb Hl IH]; intros r' Hl'.
  - inversion Hl'; congruence.
  - inversion Hl'; simplify_eq; [congruence|]. apply IH. congruence.
Qed.

Lemma iterate_loops {S R} p (body : S → S + R) s r : iterate p body s = inr r → loops body s r.
Proof.
  rewrite iterate_rounds_of. generalize (Pos.to_nat p) as n. intros n. revert s.
  induction n as [|n IH]; intros s; simpl; [done|].
  destruct (body s) eqn:Hb; intros Hr; simplify_eq; [|by apply loops_exit].
  eapply loops_again; eauto.
Qed.

Lemma loops_rounds {S R} (body : S → S + R) s r :
  loops body s r → ∃ n, rounds_of n body s = inr r.
Proof.
  induction 1 as [s r Hb|s s' r Hb _ [n Hn]]; [exists 1%nat|exists (Datatypes.S n)]; simpl; by rewrite Hb.
Qed.

(** The bound is no part of the code: the unbounded loop leaves with [r] exactly
    when the bounded one does under every bound that is large enough. *)
Lemma loops_iterate {S R} (body : S → S + R) s r :
  loops body s r ↔ ∃ p0, ∀ p, (p0 ≤ p)%positive → iterate p body s = inr r.
Proof.
  split.
  - intros [n Hn]%loops_rounds. exists (Pos.of_succ_nat n). intros p Hp.
    eapply iterate_leaves; [done|]. lia.
  - intros [p0 Hp]. by eapply iterate_loops, (Hp p0).
Qed.

(** ** Slices *)

(** [bytes[a..b]]; [None] is the panic of a range outside the slice. *)
Definition slice {A} (a b : nat) (bytes : list A) : option (list A) :=
  if (a <=? b)%nat && (b <=? length bytes)%nat then Some (take (b - a) (drop a bytes)) else None.

(** [bytes[a..b].copy_from_slice(new)] with [new] of that length. *)
Definition copy_at {A} (a b : nat) (new bytes : list A) : option (list A) :=
  _ ← slice a b bytes;
  if (length new =? b - a)%nat then Some (take a bytes ++ new ++ drop b bytes) else None.

Lemma slice_Some {A} (a b : nat) (l : list A) :
  (a <= b)%nat → (b <= length l)%nat → slice a b l = Some (take (b - a) (drop a l)).
Proof.
  intros Ha Hb. unfold slice.
  by rewrite (proj2 (Nat.leb_le _ _) Ha), (proj2 (Nat.leb_le _ _) Hb).
Qed.

Lemma copy_at_Some {A} (a b : nat) (new l : list A) :
  (a <= b)%nat → (b <= length l)%nat → length new = (b - a)%nat →
  copy_at a b new l = Some (take a l ++ new ++ drop b l).
Proof. intros Ha Hb Hn. unfold copy_at. rewrite slice_Some by done. simpl. by rewrite Hn, Nat.eqb_refl. Qed.

(** ** Chains of labelled steps *)

Section chain.
Context {S L : Type}.
Implicit Types (step : S → L → S → Prop) (ls : list L).

(** The steps [ls], one after the other, lead from [s] to [s']. *)
Fixpoint chain step (s : S) ls (s' : S) : Prop :=
  match ls with
  | [] => s' = s
  | l :: ls => ∃ s1, step s l s1 ∧ chain step s1 ls s'
  end.

Lemma chain_app step s ls1 ls2 s' :
  chain step s (ls1 ++ ls2) s' ↔ ∃ s1, chain step s ls1 s1 ∧ chain step s1 ls2 s'.
Proof.
  revert s. induction ls1 as [|l ls1 IH]; intros s; cbn; [naive_solver|].
  setoid_rewrite IH. naive_solver.
Qed.

Lemma chain_one step s l s' : chain step s [l] s' ↔ step s l s'.
Proof. cbn. naive_solver. Qed.

Lemma chain_join step s ls1 s1 ls2 s' :
  chain step s ls1 s1 → chain step s1 ls2 s' → chain step s (ls1 ++ ls2) s'.
Proof. rewrite chain_app. eauto. Qed.

Lemma chain_impl step step' s ls s' :
  (∀ s l s', step s l s' → step' s l s') → chain step s ls s' → chain step' s ls s'.
Proof.
  intros Hstep. revert s. induction ls as [|l ls IH]; intros s; cbn; [done|].
  intros (s1 & ? & ?). eauto.
Qed.
End chain.

(** ** Lemmas on lists *)

Lemma existsb_false_elem {A} (f : A → bool) l x : existsb f l = false → x ∈ l → f x = false.
Proof.
  intros Hl Hx. destruct (f x) eqn:Hf; [|done]. rewrite <- Hl. symmetry.
  apply existsb_exists. exists x. by rewrite <- list_elem_of_In.
Qed.

Lemma filter_id {A} (P : A → Prop) `{∀ x, Decision (P x)} (l : list A) :
  Forall P l → base.filter P l = l.
Proof. induction 1; simpl; [done|]. rewrite filter_cons_True by done. by f_equal. Qed.

Lemma take_app_take {A} (n : nat) (l k : list A) : take n (take n l ++ k) = take n (l ++ k).
Proof.
  destruct (decide (length l ≤ n)) as [Hl|Hl]; [by rewrite (take_ge l)|].
  rewrite !take_app_le; [|lia|rewrite length_take; lia]. by rewrite take_take, Nat.min_id.
Qed.
