(* ===== verification/BTree.v ===== *)
(** Ordered maps and sets: the parts of [std::collections::BTreeMap] and
    [BTreeSet] the source uses, as association lists sorted by a comparison
    that satisfies the laws of a total preorder. *)

From S2P Require Import Prelude.

(** ** The order interface: Rust's [Ord] *)

Class Compare (K : Type) := cmp : K → K → comparison.

Class CompareLaws (K : Type) `{!Compare K} : Prop := {
  cmp_refl : ∀ x : K, cmp x x = Eq;
  cmp_opp : ∀ x y : K, cmp y x = CompOpp (cmp x y);
  cmp_eq_l : ∀ x y z : K, cmp x y = Eq → cmp x z = cmp y z;
  cmp_lt_trans : ∀ x y z : K, cmp x y = Lt → cmp y z = Lt → cmp x z = Lt;
}.

(** Keys that compare equal are equal. *)
Class CompareExt (K : Type) `{!Compare K} : Prop :=
  cmp_eq : ∀ x y : K, cmp x y = Eq → x = y.

(** ** Operations *)

(** [Bound] of a range of keys. *)
Inductive Bound (K : Type) :=
| Included (k : K)
| Excluded (k : K)
| Unbounded.
Arguments Included {K} k.
Arguments Excluded {K} k.
Arguments Unbounded {K}.

Section operations.
Context {K V : Type} `{!Compare K}.

(** [BTreeMap::get] *)
Fixpoint bt_get (k : K) (m : list (K * V)) : option V :=
  match m with
  | [] => None
  | (k', v) :: m' => match cmp k k' with Eq => Some v | _ => bt_get k m' end
  end.

(** [BTreeMap::insert]: an equal key keeps its place and takes the new value. *)
Fixpoint bt_insert (k : K) (v : V) (m : list (K * V)) : list (K * V) :=
  match m with
  | [] => [(k, v)]
  | (k', v') :: m' =>
      match cmp k k' with
      | Lt => (k, v) :: m
      | Eq => (k', v) :: m'
      | Gt => (k', v') :: bt_insert k v m'
      end
  end.

(** [iter.collect::<BTreeMap<_, _>>()] *)
Definition bt_collect (l : list (K * V)) : list (K * V) :=
  foldl (λ m '(k, v), bt_insert k v m) [] l.

(** Whether a key satisfies a lower bound. *)
Definition above (b : Bound K) (k : K) : bool :=
  match b with
  | Included s => match cmp s k with Gt => false | _ => true end
  | Excluded s => match cmp s k with Lt => true | _ => false end
  | Unbounded => true
  end.

(** [map.range((start, Unbounded))], in ascending key order. *)
Definition bt_range (start : Bound K) (m : list (K * V)) : list (K * V) :=
  base.filter (λ p : K * V, above start p.1 = true) m.

(** The representation invariant: strictly ascending keys. *)
Definition bt_wf (m : list (K * V)) : Prop :=
  StronglySorted (λ p q : K * V, cmp p.1 q.1 = Lt) m.

End operations.

(** [BTreeSet<K>], which the standard library defines as [BTreeMap<K, ()>]. *)
Section sets.
Context {K : Type} `{!Compare K}.

(** [BTreeSet::insert] *)
Definition bs_insert (k : K) (s : list (K * unit)) : list (K * unit) := bt_insert k tt s.

(** [BTreeSet::contains] *)
Definition bs_contains (k : K) (s : list (K * unit)) : bool :=
  match bt_get k s with Some _ => true | None => false end.

(** [BTreeSet::iter], ascending. *)
Definition bs_iter (s : list (K * unit)) : list K := map fst s.

(** [iter.collect::<BTreeSet<_>>()] *)
Definition bs_collect (l : list K) : list (K * unit) := bt_collect (map (λ k, (k, tt)) l).
End sets.

(** ** Orders the source uses *)

(** [u32] *)
#[export] Instance N_compare : Compare N := N.compare.

(** [Vec<u32>] and tuples compare lexicographically. *)
Fixpoint list_compare (l k : list N) : comparison :=
  match l, k with
  | [], [] => Eq
  | [], _ :: _ => Lt
  | _ :: _, [] => Gt
  | x :: l', y :: k' => match N.compare x y with Eq => list_compare l' k' | c => c end
  end.

#[export] Instance list_N_compare : Compare (list N) := list_compare.

(** [#[derive(Ord)]] on a pair. *)
#[export] Instance pair_compare : Compare (N * N) := λ p q,
  match N.compare p.1 q.1 with Eq => N.compare p.2 q.2 | c => c end.

(** ** Laws of the comparison *)

Section laws.
Context {K : Type} `{CompareLaws K}.

Lemma cmp_gt_iff (x y : K) : cmp x y = Gt ↔ cmp y x = Lt.
Proof. rewrite (cmp_opp x y). destruct (cmp x y); simpl; naive_solver. Qed.

Lemma cmp_eq_sym (x y : K) : cmp x y = Eq → cmp y x = Eq.
Proof. intros Hxy. rewrite (cmp_opp x y), Hxy. done. Qed.

Lemma cmp_eq_r (x y z : K) : cmp x y = Eq → cmp z x = cmp z y.
Proof. intros Hxy. rewrite (cmp_opp x z), (cmp_opp y z). f_equal. by apply cmp_eq_l. Qed.

Lemma cmp_lt_irrefl (x : K) : cmp x x ≠ Lt.
Proof. by rewrite cmp_refl. Qed.

Lemma cmp_le_lt_trans (x y z : K) : cmp x y ≠ Gt → cmp y z = Lt → cmp x z = Lt.
Proof.
  destruct (cmp x y) eqn:Hxy; intros Hne Hyz; [|eauto using cmp_lt_trans|done].
  by rewrite (cmp_eq_l x y).
Qed.

(** Keys that compare equal, as an equivalence for setoid rewriting. *)
Definition key_equiv (x y : K) : Prop := cmp x y = Eq.

#[export] Instance key_equiv_equivalence : Equivalence key_equiv.
Proof.
  split; [intros x; apply cmp_refl|intros x y; apply cmp_eq_sym|].
  intros x y z Hxy Hyz. unfold key_equiv. by rewrite (cmp_eq_l x y).
Qed.

#[export] Instance cmp_proper : Proper (key_equiv ==> key_equiv ==> eq) cmp.
Proof. intros x x' Hx y y' Hy. by rewrite (cmp_eq_l x x' y Hx), (cmp_eq_r y y' x' Hy). Qed.

#[export] Instance bt_get_proper {V} : Proper (key_equiv ==> eq ==> eq) (@bt_get K V _).
Proof.
  intros k k' Hk m ? <-. induction m as [|[j v] m IH]; simpl; [done|].
  by rewrite (cmp_eq_l k k' j Hk), IH.
Qed.
End laws.

(** ** Lookup and insertion *)

Section maps.
Context {K V : Type} `{CompareLaws K}.
Implicit Types (m : list (K * V)) (k : K).

Lemma bt_get_insert_eq k k' (v : V) m : cmp k k' = Eq → bt_get k (bt_insert k' v m) = Some v.
Proof.
  intros Hk. induction m as [|[j w] m IH]; simpl; [by rewrite Hk|].
  destruct (cmp k' j) eqn:Hj; simpl; [| by rewrite Hk |].
  - by rewrite (cmp_eq_l k k'), Hj.
  - by rewrite (cmp_eq_l k k'), Hj.
Qed.

Lemma bt_get_insert_ne k k' (v : V) m : cmp k k' ≠ Eq → bt_get k (bt_insert k' v m) = bt_get k m.
Proof.
  intros Hk. induction m as [|[j w] m IH]; simpl.
  - destruct (cmp k k') eqn:?; done.
  - destruct (cmp k' j) eqn:Hj; simpl.
    + rewrite <-(cmp_eq_r k' j k) by done. destruct (cmp k k'); done.
    + destruct (cmp k k'); done.
    + by rewrite IH.
Qed.

Lemma bt_get_insert k k' (v : V) m :
  bt_get k (bt_insert k' v m) = match cmp k k' with Eq => Some v | _ => bt_get k m end.
Proof.
  destruct (cmp k k') eqn:Hk; [by apply bt_get_insert_eq| |]; apply bt_get_insert_ne; congruence.
Qed.

Lemma bt_insert_Forall (P : K → V → Prop) k (v : V) m :
  (∀ k' v', P k' v' → cmp k k' = Eq → P k' v) →
  P k v → Forall (λ p, P p.1 p.2) m → Forall (λ p, P p.1 p.2) (bt_insert k v m).
Proof.
  intros Heq Hk. induction 1 as [|[j w] m Hj Hm IH]; simpl; [repeat constructor; done|].
  destruct (cmp k j) eqn:Hc; repeat constructor; simpl in *; eauto.
Qed.

Lemma bt_insert_wf k (v : V) m : bt_wf m → bt_wf (bt_insert k v m).
Proof.
  unfold bt_wf. induction 1 as [|[j w] m Hm IH Hj]; simpl; [repeat constructor|].
  destruct (cmp k j) eqn:Hc.
  - constructor; done.
  - constructor; [by constructor|]. constructor; [done|].
    eapply Forall_impl; [exact Hj|]. intros p Hp. by apply cmp_lt_trans with j.
  - constructor; [done|].
    apply (bt_insert_Forall (λ k' _, cmp j k' = Lt)); [done| by apply cmp_gt_iff|done].
Qed.

Lemma bt_get_elem k (v : V) m : bt_get k m = Some v → ∃ k', (k', v) ∈ m ∧ cmp k k' = Eq.
Proof.
  induction m as [|[j w] m IH]; simpl; [done|].
  destruct (cmp k j) eqn:Hc; intros Hg.
  1: { simplify_eq. exists j. split; [left|done]. }
  all: destruct (IH Hg) as (k' & ? & ?); exists k'; split; [by right|done].
Qed.

Lemma bt_elem_get k (v : V) m : bt_wf m → (k, v) ∈ m → bt_get k m = Some v.
Proof.
  induction 1 as [|[j w] m Hm IH Hj]; [by intros ?%elem_of_nil|].
  intros [Heq|Hin]%elem_of_cons; simpl.
  - simplify_eq. by rewrite cmp_refl.
  - rewrite Forall_forall in Hj. specialize (Hj _ Hin). simpl in Hj.
    by rewrite (proj2 (cmp_gt_iff k j) Hj), IH.
Qed.

(** ** Collecting an iterator *)

Lemma bt_collect_snoc (l : list (K * V)) k v :
  bt_collect (l ++ [(k, v)]) = bt_insert k v (bt_collect l).
Proof. unfold bt_collect. by rewrite foldl_app. Qed.

Lemma bt_collect_wf (l : list (K * V)) : bt_wf (bt_collect l).
Proof.
  induction l as [|[k v] l IH] using rev_ind; [constructor|].
  rewrite bt_collect_snoc. by apply bt_insert_wf.
Qed.

Lemma bt_collect_Forall (P : K → V → Prop) (l : list (K * V)) :
  (∀ k k' v v', P k v → P k' v' → cmp k k' = Eq → P k' v) →
  Forall (λ p, P p.1 p.2) l → Forall (λ p, P p.1 p.2) (bt_collect l).
Proof.
  intros Heq. induction l as [|[k v] l IH] using rev_ind; [done|].
  rewrite Forall_app, Forall_singleton, bt_collect_snoc. intros [Hl Hk].
  apply bt_insert_Forall; eauto.
Qed.

(** When every pair of the iterator carries the same value, lookup is
    membership up to equal keys. *)
Lemma bt_get_collect_const (v : V) (l : list K) k :
  bt_get k (bt_collect (map (λ j, (j, v)) l)) = Some v ↔ ∃ j, j ∈ l ∧ cmp k j = Eq.
Proof.
  induction l as [|j l IH] using rev_ind.
  - split; [done|]. by intros (j & ?%elem_of_nil & _).
  - rewrite map_app. simpl. rewrite bt_collect_snoc, bt_get_insert.
    setoid_rewrite elem_of_app. setoid_rewrite list_elem_of_singleton.
    destruct (cmp k j) eqn:Hc; [naive_solver| |]; rewrite IH;
      split; [naive_solver| |naive_solver|]; intros (j' & [?| ->] & ?); naive_solver congruence.
Qed.

Lemma bt_get_collect_none (v : V) (l : list K) k :
  bt_get k (bt_collect (map (λ j, (j, v)) l)) = None ↔ ∀ j, j ∈ l → cmp k j ≠ Eq.
Proof.
  pose proof (bt_get_collect_const v l k) as Hs.
  destruct (bt_get k _) as [w|] eqn:Hg; [|naive_solver].
  split; [done|]. intros Hno. exfalso.
  apply bt_get_elem in Hg as (k' & Hin & Hc).
  assert (Forall (λ p : K * V, p.1 ∈ l) (bt_collect (map (λ j, (j, v)) l))) as Hall.
  { apply (bt_collect_Forall (λ j _, j ∈ l)); [done|].
    apply Forall_forall. intros p (j & -> & ?)%list_elem_of_fmap. done. }
  rewrite Forall_forall in Hall. apply Hall in Hin. naive_solver.
Qed.
End maps.

(** ** Ranges *)

Section ranges.
Context {K V : Type} `{CompareLaws K}.
Implicit Types (m : list (K * V)) (k : K) (b : Bound K).

Lemma above_trans b k k' : above b k = true → cmp k k' = Lt → above b k' = true.
Proof.
  destruct b as [s|s|]; simpl; [| |done]; intros Hs Hk.
  - rewrite (cmp_le_lt_trans s k k'); [done| |done]. by destruct (cmp s k).
  - rewrite (cmp_lt_trans s k k'); [done| |done]. by destruct (cmp s k).
Qed.

Lemma bt_range_elem b m k v : (k, v) ∈ bt_range b m ↔ above b k = true ∧ (k, v) ∈ m.
Proof. unfold bt_range. by rewrite list_elem_of_filter. Qed.

Lemma bt_wf_filter (P : K * V → Prop) `{∀ p, Decision (P p)} m :
  bt_wf m → bt_wf (base.filter P m).
Proof.
  unfold bt_wf. induction 1 as [|p m Hm IH Hp]; [constructor|].
  rewrite filter_cons. case_decide; [|done]. constructor; [done|].
  rewrite Forall_forall in Hp |- *. intros q [_ Hq]%list_elem_of_filter. eauto.
Qed.

Lemma bt_range_equiv k k' m : key_equiv k k' → bt_range (Excluded k) m = bt_range (Excluded k') m.
Proof.
  intros Hk. apply list_filter_iff. intros p. simpl. by rewrite (cmp_eq_l k k' _ Hk).
Qed.

Lemma bt_range_wf b m : bt_wf m → bt_wf (bt_range b m).
Proof. apply bt_wf_filter. Qed.

Lemma bt_wf_cons_lt p m q : bt_wf (p :: m) → q ∈ m → cmp p.1 q.1 = Lt.
Proof. intros [_ Hp]%StronglySorted_inv Hq. rewrite Forall_forall in Hp. eauto. Qed.

(** The first entry of a range is the least key the bound admits. *)
Lemma bt_range_first b m k v rest :
  bt_wf m → bt_range b m = (k, v) :: rest →
  (k, v) ∈ m ∧ above b k = true ∧
  (∀ k' v', (k', v') ∈ m → above b k' = true → (k', v') = (k, v) ∨ cmp k k' = Lt).
Proof.
  intros Hwf Hr.
  assert ((k, v) ∈ bt_range b m) as [Ha Hin]%bt_range_elem by (rewrite Hr; left).
  split_and!; [done..|]. intros k' v' Hin' Ha'.
  assert ((k', v') ∈ bt_range b m) as Hk' by by apply bt_range_elem.
  rewrite Hr in Hk'. apply elem_of_cons in Hk' as [->|Hk']; [by left|right].
  apply (bt_range_wf b) in Hwf. rewrite Hr in Hwf. exact (bt_wf_cons_lt _ _ _ Hwf Hk').
Qed.

Lemma bt_range_nil b m : bt_range b m = [] ↔ ∀ k v, (k, v) ∈ m → above b k = false.
Proof.
  split.
  - intros Hr k v Hin. apply not_true_iff_false. intros Ha.
    assert ((k, v) ∈ bt_range b m) as Hx by by apply bt_range_elem.
    rewrite Hr in Hx. by apply elem_of_nil in Hx.
  - intros Hno. apply elem_of_nil_inv. intros [k v] [Ha Hin]%bt_range_elem.
    rewrite (Hno _ _ Hin) in Ha. done.
Qed.

(** Past the first entry of a range starts the range above its key. *)
Lemma bt_range_next b m k v rest :
  bt_wf m → bt_range b m = (k, v) :: rest → bt_range (Excluded k) m = rest.
Proof.
  unfold bt_wf. intros Hwf. revert k v rest. induction Hwf as [|p m Hm IH Hp]; [done|].
  intros k v rest. unfold bt_range in *. rewrite !filter_cons.
  case_decide as Ha.
  - intros [= -> <-]. simpl in *. rewrite cmp_refl. case_decide; [done|].
    rewrite !filter_id; [done| |].
    + eapply Forall_impl; [exact Hp|]. intros q Hq. by apply (above_trans _ k).
    + eapply Forall_impl; [exact Hp|]. by intros q ->.
  - intros Hr. rewrite (IH _ _ _ Hr). case_decide as Hc; [|done]. exfalso.
    assert ((k, v) ∈ base.filter (λ q : K * V, above b q.1 = true) m) as Hin
      by (rewrite Hr; left).
    apply list_elem_of_filter in Hin as [_ Hin]. rewrite Forall_forall in Hp.
    specialize (Hp _ Hin). simpl in Hp, Hc. destruct (cmp k p.1) eqn:Hc'; try done.
    apply (cmp_lt_irrefl k). by apply cmp_lt_trans with p.1.
Qed.
End ranges.

(** ** Sets *)

Section set_lemmas.
Context {K : Type} `{CompareLaws K}.
Implicit Types (s : list (K * unit)) (k : K).

Lemma bs_contains_insert k k' s :
  bs_contains k (bs_insert k' s) = true ↔ cmp k k' = Eq ∨ bs_contains k s = true.
Proof. unfold bs_contains, bs_insert. rewrite bt_get_insert. destruct (cmp k k'); naive_solver. Qed.

Lemma bs_contains_collect k (l : list K) :
  bs_contains k (bs_collect l) = true ↔ ∃ j, j ∈ l ∧ cmp k j = Eq.
Proof.
  rewrite <-(bt_get_collect_const tt). unfold bs_contains, bs_collect.
  destruct (bt_get k _) as [[]|]; naive_solver.
Qed.

Lemma bs_contains_iter_weak k s : bt_wf s → k ∈ bs_iter s → bs_contains k s = true.
Proof.
  intros Hwf ([j []] & -> & Hin)%list_elem_of_fmap. unfold bs_contains. simpl.
  by rewrite (bt_elem_get j tt).
Qed.

Context `{!CompareExt K}.

Lemma cmp_eq_iff k k' : cmp k k' = Eq ↔ k = k'.
Proof. split; [apply cmp_eq|]. intros ->. apply cmp_refl. Qed.

Lemma bs_contains_iter k s : bt_wf s → bs_contains k s = true ↔ k ∈ bs_iter s.
Proof.
  intros Hwf. split; [|by apply bs_contains_iter_weak]. unfold bs_contains, bs_iter.
  destruct (bt_get k s) as [[]|] eqn:Hg; [|done]. intros _.
  apply bt_get_elem in Hg as (j & Hin & <-%cmp_eq).
  apply list_elem_of_fmap. by exists (k, tt).
Qed.

Lemma elem_of_bs_collect k (l : list K) : k ∈ bs_iter (bs_collect l) ↔ k ∈ l.
Proof.
  rewrite <-bs_contains_iter by apply bt_collect_wf. rewrite bs_contains_collect.
  setoid_rewrite cmp_eq_iff. naive_solver.
Qed.

Lemma elem_of_bs_insert k k' s :
  bt_wf s → k ∈ bs_iter (bs_insert k' s) ↔ k = k' ∨ k ∈ bs_iter s.
Proof.
  intros Hwf. rewrite <-!bs_contains_iter; [|done|by apply bt_insert_wf].
  by rewrite bs_contains_insert, cmp_eq_iff.
Qed.
End set_lemmas.

(** Sorted maps with the same lookups are the same list. *)
Section extensionality.
Context {K V : Type} `{CompareLaws K} `{!CompareExt K}.

Lemma bt_get_below (k j : K) (v : V) m : bt_wf ((j, v) :: m) → cmp k j = Lt → bt_get k m = None.
Proof.
  intros Hwf Hlt. destruct (bt_get k m) as [w|] eqn:Hg; [|done]. exfalso.
  apply bt_get_elem in Hg as (k' & Hin & <-%cmp_eq).
  pose proof (bt_wf_cons_lt _ _ _ Hwf Hin) as Hjk. simpl in Hjk.
  apply (cmp_lt_irrefl k). by apply cmp_lt_trans with j.
Qed.

Lemma bt_get_tail (k j : K) (v : V) m :
  bt_wf ((j, v) :: m) → cmp k j = Eq → bt_get k m = None.
Proof.
  intros Hwf <-%cmp_eq. destruct (bt_get k m) as [w|] eqn:Hg; [|done]. exfalso.
  apply bt_get_elem in Hg as (k' & Hin & <-%cmp_eq).
  by pose proof (bt_wf_cons_lt _ _ _ Hwf Hin) as ?%cmp_lt_irrefl.
Qed.

Lemma bt_ext (m1 m2 : list (K * V)) :
  bt_wf m1 → bt_wf m2 → (∀ k, bt_get k m1 = bt_get k m2) → m1 = m2.
Proof.
  intros Hwf1. revert m2. induction m1 as [|[k1 v1] m1 IH]; intros m2 Hwf2 Hext.
  { destruct m2 as [|[k2 v2] m2]; [done|]. specialize (Hext k2). simpl in Hext.
    by rewrite cmp_refl in Hext. }
  destruct m2 as [|[k2 v2] m2].
  { specialize (Hext k1). simpl in Hext. by rewrite cmp_refl in Hext. }
  assert (k1 = k2) as <-.
  { pose proof (Hext k1) as H1. pose proof (Hext k2) as H2. simpl in H1, H2.
    rewrite cmp_refl in H1, H2. destruct (cmp k1 k2) eqn:Hc; [by apply cmp_eq| |].
    - by rewrite (bt_get_below _ _ _ _ Hwf2 Hc) in H1.
    - apply cmp_gt_iff in Hc. rewrite Hc, (bt_get_below _ _ _ _ Hwf1 Hc) in H2. done. }
  pose proof (Hext k1) as Hv. simpl in Hv. rewrite cmp_refl in Hv. injection Hv as <-.
  f_equal. apply IH; [by inversion Hwf1|by inversion Hwf2|].
  intros k. specialize (Hext k). simpl in Hext. destruct (cmp k k1) eqn:Hc; [|done..].
  by rewrite (bt_get_tail _ _ _ _ Hwf1 Hc), (bt_get_tail _ _ _ _ Hwf2 Hc).
Qed.
End extensionality.

Lemma bs_ext {K} `{CompareLaws K} `{!CompareExt K} (s1 s2 : list (K * unit)) :
  bt_wf s1 → bt_wf s2 → (∀ k, k ∈ bs_iter s1 ↔ k ∈ bs_iter s2) → s1 = s2.
Proof.
  intros Hwf1 Hwf2 Hext. apply bt_ext; [done..|]. intros k. specialize (Hext k).
  rewrite <-!bs_contains_iter in Hext by done. unfold bs_contains in Hext.
  destruct (bt_get k s1) as [[]|], (bt_get k s2) as [[]|]; naive_solver.
Qed.

(** ** The orders of the source are total orders *)

#[export] Instance N_compare_laws : CompareLaws N.
Proof.
  split; unfold cmp, N_compare; intros.
  - apply N.compare_refl.
  - apply N.compare_antisym.
  - by apply N.compare_eq in H as ->.
  - rewrite N.compare_lt_iff in *. lia.
Qed.

#[export] Instance N_compare_ext : CompareExt N.
Proof. intros x y. apply N.compare_eq. Qed.

(** Split a lexicographic comparison on its leading integers. *)
Ltac split_compare :=
  repeat match goal with
  | H : context [N.compare ?x ?y] |- _ => destruct (N.compare_spec x y); subst
  | |- context [N.compare ?x ?y] => destruct (N.compare_spec x y); subst
  end.

#[export] Instance pair_compare_laws : CompareLaws (N * N).
Proof.
  split; unfold cmp, pair_compare; intros [x1 x2] [y1 y2] || intros [x1 x2]; simpl.
  - by rewrite !N.compare_refl.
  - split_compare; simpl; try lia; reflexivity.
  - intros [z1 z2]; simpl. split_compare; simpl; try lia; try done.
  - intros [z1 z2]; simpl. split_compare; simpl; try lia; try done.
Qed.

#[export] Instance pair_compare_ext : CompareExt (N * N).
Proof.
  intros [x1 x2] [y1 y2]. unfold cmp, pair_compare. simpl. split_compare; simpl; try lia; done.
Qed.

#[export] Instance list_compare_laws : CompareLaws (list N).
Proof.
  split; unfold cmp, list_N_compare; intros x.
  - induction x as [|a x IH]; simpl; [done|]. by rewrite N.compare_refl.
  - induction x as [|a x IH]; intros [|b y]; simpl; try done.
    split_compare; simpl; try lia; [apply IH|done..].
  - induction x as [|a x IH]; intros [|b y] [|c z]; simpl; try done.
    split_compare; simpl; try lia; try done. apply IH.
  - induction x as [|a x IH]; intros [|b y] [|c z]; simpl; try done.
    split_compare; simpl; try lia; try done. apply IH.
Qed.

#[export] Instance list_compare_ext : CompareExt (list N).
Proof.
  intros x. unfold cmp, list_N_compare. induction x as [|a x IH]; intros [|b y]; simpl; try done.
  split_compare; [|done..]. intros ->%IH. done.
Qed.

Create HintDb btree.
#[export] Hint Resolve bt_insert_wf bt_collect_wf bt_range_wf : btree.
