(* ===== verification/Link.v ===== *)
(** The interface model of [src/src/link.rs]: observed links, the stack
    relationships they declare and the validated topology. *)

From S2P Require Import Prelude BTree.

(** ** Data *)

Inductive LinkKind :=
| Bond
| Bridge
| Vlan
| MacVlan
| IpVlan
| MacVtap
| Vxlan
| Veth
| Other.

#[export] Instance LinkKind_eq_dec : EqDecision LinkKind.
Proof. solve_decision. Defined.

(** Indices are [u32], namespace identifiers [i32]. *)
Record ObservedLink := mkLink {
  index : N;
  name : string;
  kind : LinkKind;
  controller : option N;
  lower : option N;
  lower_netnsid : option Z;
  vxlan_lower : option N;
}.

#[export] Instance ObservedLink_eq_dec : EqDecision ObservedLink.
Proof. solve_decision. Defined.

(** [StackRelationship { higher, lower }], ordered as the derived [Ord]
    orders it: by [higher], then by [lower]. *)
Definition StackRelationship : Type := N * N.
Definition rel_higher (r : N * N) : N := r.1.
Definition rel_lower (r : N * N) : N := r.2.

Record Topology := mkTopology {
  interfaces : list (N * unit);
  relationships : list (N * N * unit);
}.

(** [i32::MAX as u32] *)
Definition i32_max : N := 2147483647.

(** ** Operations *)

(** [fn invalid] *)
Definition invalid (message : list Piece) : Error := mkError InvalidData message.

(** The body of the first loop of [Topology::from_observed], over the maps
    [by_index] and [by_name]. *)
Definition register_link (maps : gmap N ObservedLink * gmap string ObservedLink)
    (link : ObservedLink)
    : result Error (gmap N ObservedLink * gmap string ObservedLink) :=
  let '(by_index, by_name) := maps in
  if ((link.(index) =? 0) || (i32_max <? link.(index)))%N then
    Err (invalid [Lit "interface "; DebugStr link.(name);
                  Lit " has invalid index "; DisplayInt link.(index)])
  else if bool_decide (link.(name) = EmptyString) then
    Err (invalid [Lit "interface at index "; DisplayInt link.(index);
                  Lit " has an empty name"])
  else match by_index !! link.(index) with
  | Some existing =>
      Err (invalid [Lit "interface "; DebugStr link.(name);
                    Lit " duplicates index "; DisplayInt link.(index);
                    Lit " of interface "; DebugStr existing.(name)])
  | None =>
  match by_name !! link.(name) with
  | Some existing =>
      Err (invalid [Lit "interface "; DebugStr link.(name);
                    Lit " (index "; DisplayInt link.(index);
                    Lit ") duplicates the name of interface at index ";
                    DisplayInt existing.(index)])
  | None => Ok (<[link.(index) := link]> by_index, <[link.(name) := link]> by_name)
  end end.

(** The opening of most relationship errors. *)
Definition named (link : ObservedLink) (rest : list Piece) : Error :=
  invalid ([Lit "interface "; DebugStr link.(name);
            Lit " (index "; DisplayInt link.(index)] ++ rest).

(** The [if let Some(controller_index)] block of the second loop. *)
Definition relate_controller (by_index : gmap N ObservedLink)
    (rels : list (N * N * unit)) (link : ObservedLink)
    : result Error (list (N * N * unit)) :=
  match link.(controller) with
  | None => Ok rels
  | Some controller_index =>
      c ← ok_or (by_index !! controller_index)
            (named link [Lit ") references unknown controller index ";
                         DisplayInt controller_index]);
      if (c.(index) =? link.(index))%N then
        Err (named link [Lit ") references itself as controller"])
      else match c.(kind) with
      | Bond | Bridge => Ok (bs_insert (c.(index), link.(index)) rels)
      | _ => Ok rels
      end
  end.

(** The [match link.kind] block of the second loop. *)
Definition relate_kind (by_index : gmap N ObservedLink)
    (rels : list (N * N * unit)) (link : ObservedLink)
    : result Error (list (N * N * unit)) :=
  match link.(kind) with
  | Vlan | MacVlan | IpVlan | MacVtap =>
      low ← ok_or link.(lower)
              (named link [Lit ") has no lower sub-layer reference"]);
      if bool_decide (is_Some link.(lower_netnsid)) then
        Err (named link [Lit ") references lower sub-layer index "; DisplayInt low;
                         Lit " in another network namespace"])
      else if (low =? link.(index))%N then
        Err (named link [Lit ") references itself as lower sub-layer"])
      else if bool_decide (by_index !! low = None) then
        Err (named link [Lit ") references unknown lower sub-layer index ";
                         DisplayInt low])
      else Ok (bs_insert (link.(index), low) rels)
  | Vxlan =>
      if bool_decide (link.(lower_netnsid) = None) then
        match link.(vxlan_lower) with
        | Some low =>
            if bool_decide (is_Some (by_index !! low)) then
              if (low =? link.(index))%N then
                Err (named link [Lit ") references itself as lower sub-layer"])
              else Ok (bs_insert (link.(index), low) rels)
            else Ok rels
        | None => Ok rels
        end
      else Ok rels
  | _ => Ok rels
  end.

(** The body of the second loop. *)
Definition relate_link (by_index : gmap N ObservedLink)
    (rels : list (N * N * unit)) (link : ObservedLink)
    : result Error (list (N * N * unit)) :=
  rels ← relate_controller by_index rels link;
  relate_kind by_index rels link.

(** [Topology::from_observed] *)
Definition from_observed (links : list ObservedLink) : result Error Topology :=
  '(by_index, by_name) ← foldM register_link (∅, ∅) links;
  rels ← foldM (relate_link by_index) [] links;
  Ok {| interfaces := bs_collect (map fst (map_to_list by_index));
        relationships := rels |}.

(** ** Specification *)

(** The kinds that carry members: a controller of any other kind forms no
    stack relationship. *)
Definition controls (k : LinkKind) : bool :=
  match k with Bond | Bridge => true | _ => false end.

(** The controller reference of [link] names another interface. *)
Definition controller_ok (indices : list N) (link : ObservedLink) : Prop :=
  ∀ c, link.(controller) = Some c → c ∈ indices ∧ c ≠ link.(index).

(** The lower sub-layer reference of [link] is usable: mandatory and local
    for the VLAN-like kinds, optional for VXLAN. *)
Definition lower_ok (indices : list N) (link : ObservedLink) : Prop :=
  match link.(kind) with
  | Vlan | MacVlan | IpVlan | MacVtap =>
      ∃ low, link.(lower) = Some low ∧ link.(lower_netnsid) = None ∧
        low ≠ link.(index) ∧ low ∈ indices
  | Vxlan => ∀ low, link.(lower_netnsid) = None → link.(vxlan_lower) = Some low →
        low ∈ indices → low ≠ link.(index)
  | _ => True
  end.

(** [link] is a member of a bond or a bridge. *)
Definition controller_declares (links : list ObservedLink) (link : ObservedLink)
    (h l : N) : Prop :=
  ∃ c, c ∈ links ∧ link.(controller) = Some c.(index) ∧ controls c.(kind) = true ∧
    h = c.(index) ∧ l = link.(index).

(** [link] runs over the interface its kind refers to. *)
Definition lower_declares (links : list ObservedLink) (link : ObservedLink)
    (h l : N) : Prop :=
  h = link.(index) ∧
  match link.(kind) with
  | Vlan | MacVlan | IpVlan | MacVtap => link.(lower) = Some l
  | Vxlan => link.(lower_netnsid) = None ∧ link.(vxlan_lower) = Some l ∧
      l ∈ map index links
  | _ => False
  end.

(** The inventory says that [h] runs over [l]. *)
Definition declares (links : list ObservedLink) (h l : N) : Prop :=
  ∃ link, link ∈ links ∧
    (controller_declares links link h l ∨ lower_declares links link h l).

(** Every interface has a usable index and name, neither of them twice. *)
Record registrable (links : list ObservedLink) : Prop := {
  valid_index : ∀ link, link ∈ links → (0 < link.(index) ≤ i32_max)%N;
  valid_name : ∀ link, link ∈ links → link.(name) ≠ EmptyString;
  valid_unique_index : NoDup (map index links);
  valid_unique_name : NoDup (map name links);
}.

(** The inventories the program accepts. *)
Definition valid_inventory (links : list ObservedLink) : Prop :=
  registrable links ∧
  ∀ link, link ∈ links →
    controller_ok (map index links) link ∧ lower_ok (map index links) link.

(** ** The first loop *)

(** What the maps [by_index] and [by_name] hold after the first loop. *)
Definition registered (links : list ObservedLink)
    (maps : gmap N ObservedLink * gmap string ObservedLink) : Prop :=
  (∀ i link, maps.1 !! i = Some link ↔ link ∈ links ∧ link.(index) = i) ∧
  (∀ n link, maps.2 !! n = Some link ↔ link ∈ links ∧ link.(name) = n).

Lemma registered_none_index links maps i :
  registered links maps → maps.1 !! i = None ↔ i ∉ map index links.
Proof.
  intros [Hi _]. rewrite eq_None_not_Some. apply not_iff_compat. split.
  - intros [link [Hin <-]%Hi]. by apply list_elem_of_fmap_2.
  - intros (link & -> & Hin)%list_elem_of_fmap. exists link. by apply Hi.
Qed.

Lemma registered_none_name links maps n :
  registered links maps → maps.2 !! n = None ↔ n ∉ map name links.
Proof.
  intros [_ Hn]. rewrite eq_None_not_Some. apply not_iff_compat. split.
  - intros [link [Hin <-]%Hn]. by apply list_elem_of_fmap_2.
  - intros (link & -> & Hin)%list_elem_of_fmap. exists link. by apply Hn.
Qed.

Lemma registered_snoc links maps link :
  registered links maps → maps.1 !! link.(index) = None → maps.2 !! link.(name) = None →
  registered (links ++ [link])
    (<[link.(index) := link]> maps.1, <[link.(name) := link]> maps.2).
Proof.
  intros Hreg Hi Hn. apply (registered_none_index _ _ _ Hreg) in Hi as Hi'.
  apply (registered_none_name _ _ _ Hreg) in Hn as Hn'. destruct Hreg as [Hri Hrn].
  split; intros k l; simpl; rewrite elem_of_app, list_elem_of_singleton, lookup_insert_Some;
    rewrite ?Hri, ?Hrn; (split; [naive_solver|]).
  - intros [[?| ->] <-]; [right|left; done]. split; [|done]. intros Heq. apply Hi'.
    rewrite Heq. by apply list_elem_of_fmap_2.
  - intros [[?| ->] <-]; [right|left; done]. split; [|done]. intros Heq. apply Hn'.
    rewrite Heq. by apply list_elem_of_fmap_2.
Qed.

(** One iteration of the first loop, success and failure. *)
Lemma register_link_spec maps link :
  match register_link maps link with
  | Ok maps' => (0 < link.(index) ≤ i32_max)%N ∧ link.(name) ≠ EmptyString ∧
      maps.1 !! link.(index) = None ∧ maps.2 !! link.(name) = None ∧
      maps' = (<[link.(index) := link]> maps.1, <[link.(name) := link]> maps.2)
  | Err e => error_kind e = InvalidData
  end.
Proof.
  destruct maps as [bi bn]. unfold register_link.
  destruct (_ || _) eqn:Hidx; [done|]. case_bool_decide; [done|].
  destruct (bi !! _) eqn:?; [done|]. destruct (bn !! _) eqn:?; [done|].
  bool_to_prop. unfold i32_max in *. split_and!; done || lia.
Qed.

Lemma register_links_Ok links maps :
  foldM register_link (∅, ∅) links = Ok maps → registered links maps ∧ registrable links.
Proof.
  revert links maps. apply (foldM_invariant (λ links maps, registered links maps ∧ registrable links)).
  - split.
    { split; intros ? ?; simpl; rewrite lookup_empty; (split; [done|]); by intros [?%elem_of_nil _]. }
    split; [by intros ? ?%elem_of_nil..|constructor|constructor].
  - intros links link maps maps' [Hreg [Hidx Hname Hui Hun]] Hstep.
    pose proof (register_link_spec maps link) as Hs. rewrite Hstep in Hs.
    destruct Hs as (? & ? & Hni & Hnn & ->). split; [by apply registered_snoc|].
    apply (registered_none_index _ _ _ Hreg) in Hni.
    apply (registered_none_name _ _ _ Hreg) in Hnn.
    split; [intros l [?| ->%list_elem_of_singleton]%elem_of_app; eauto..| |];
      rewrite map_app; apply NoDup_app; simpl; split_and!; try done;
      try (by apply NoDup_singleton); intros x ? ->%list_elem_of_singleton; done.
Qed.

Lemma registrable_app links links' : registrable (links ++ links') → registrable links.
Proof.
  intros [Hi Hn Hui Hun]. rewrite map_app in Hui, Hun. apply NoDup_app in Hui as (? & _ & _).
  apply NoDup_app in Hun as (? & _ & _). split; [| |done|done]; intros l Hl;
    [apply Hi|apply Hn]; apply elem_of_app; by left.
Qed.

Lemma register_links_complete links :
  registrable links → ∃ maps, foldM register_link (∅, ∅) links = Ok maps.
Proof.
  induction links as [|link links IH] using rev_ind; [eauto|]. intros Hall.
  destruct IH as [maps Hm]; [by apply (registrable_app _ [link])|].
  destruct (register_links_Ok _ _ Hm) as [Hreg _]. destruct Hall as [Hi Hn Hui Hun].
  rewrite map_app in Hui, Hun. apply NoDup_app in Hui as (_ & Hui & _).
  apply NoDup_app in Hun as (_ & Hun & _). rewrite foldM_snoc, Hm. simpl.
  assert (link ∈ links ++ [link]) as Hin by (apply elem_of_app; right; by left).
  specialize (Hi _ Hin). specialize (Hn _ Hin). destruct maps as [bi bn]. unfold register_link.
  replace ((index link =? 0)%N) with false by (symmetry; apply N.eqb_neq; lia).
  replace ((i32_max <? index link)%N) with false by (symmetry; apply N.ltb_ge; lia).
  rewrite bool_decide_eq_false_2 by done. simpl.
  rewrite (proj2 (registered_none_index _ (bi, bn) _ Hreg)), (proj2 (registered_none_name _ (bi, bn) _ Hreg)).
  - eauto.
  - intros Hx. apply (Hun _ Hx). by left.
  - intros Hx. apply (Hui _ Hx). by left.
Qed.

(** ** The second loop *)

(** What one pass over a link does to the relationship set: it fails exactly
    when [ok] does not hold, and otherwise adds the pairs of [adds]. *)
Definition relates (rels : list (N * N * unit)) (ok : Prop) (adds : N → N → Prop)
    (r : result Error (list (N * N * unit))) : Prop :=
  match r with
  | Ok rels' => ok ∧ bt_wf rels' ∧
      ∀ h l, (h, l) ∈ bs_iter rels' ↔ (h, l) ∈ bs_iter rels ∨ adds h l
  | Err e => error_kind e = InvalidData ∧ ¬ ok
  end.

Lemma relates_keep rels (ok : Prop) (adds : N → N → Prop) :
  bt_wf rels → ok → (∀ h l, ¬ adds h l) → relates rels ok adds (Ok rels).
Proof. intros Hwf Hok Hno. split_and!; [done..|]. naive_solver. Qed.

Lemma relates_insert rels (ok : Prop) (adds : N → N → Prop) h l :
  bt_wf rels → ok → (∀ h' l', adds h' l' ↔ h' = h ∧ l' = l) →
  relates rels ok adds (Ok (bs_insert (h, l) rels)).
Proof.
  intros Hwf Hok Hadds. split_and!; [done|by apply bt_insert_wf|]. intros h' l'.
  rewrite elem_of_bs_insert by done. rewrite Hadds. naive_solver.
Qed.

Section second_loop.
Context (links : list ObservedLink) (maps : gmap N ObservedLink * gmap string ObservedLink).
Hypothesis (Hreg : registered links maps).

Lemma registered_elem i : i ∈ map index links ↔ is_Some (maps.1 !! i).
Proof.
  rewrite <-not_eq_None_Some, (registered_none_index _ _ _ Hreg).
  destruct (decide (i ∈ map index links)); tauto.
Qed.

Lemma relate_controller_spec rels link :
  bt_wf rels →
  relates rels (controller_ok (map index links) link) (controller_declares links link)
    (relate_controller maps.1 rels link).
Proof.
  intros Hwf. unfold relate_controller, controller_ok.
  destruct (link.(controller)) as [i|] eqn:Hc.
  2: { apply relates_keep; [done..|]. intros h l (c & _ & ? & _). congruence. }
  destruct (maps.1 !! i) as [c|] eqn:Hi; simpl.
  2: { split; [done|]. intros Hok. destruct (Hok i eq_refl) as [Hin%registered_elem _].
       rewrite Hi in Hin. by destruct Hin. }
  assert (i ∈ map index links) as Hin by (apply registered_elem; rewrite Hi; eauto).
  apply Hreg in Hi as [Hcin <-]. destruct (_ =? _)%N eqn:Hself; bool_to_prop.
  { split; [done|]. intros Hok. by destruct (Hok _ eq_refl). }
  assert (∀ c', c' ∈ links → Some c.(index) = Some c'.(index) → c = c') as Huniq.
  { intros c' Hc' [= Heq]. destruct Hreg as [Hr _].
    pose proof (proj2 (Hr (index c) c) (conj Hcin eq_refl)) as H1.
    pose proof (proj2 (Hr (index c') c') (conj Hc' eq_refl)) as H2. congruence. }
  assert (∀ c', Some c.(index) = Some c' → c' ∈ map index links ∧ c' ≠ link.(index)) as Hok
    by naive_solver.
  set (r := match c.(kind) with Bond | Bridge => _ | _ => _ end).
  assert (r = if controls c.(kind) then Ok (bs_insert (c.(index), link.(index)) rels) else Ok rels)
    as -> by by destruct (kind c).
  unfold controller_declares. rewrite Hc. destruct (controls c.(kind)) eqn:Hk.
  - apply relates_insert; [done..|]. intros h l. split; [|naive_solver].
    intros (c' & Hc' & Heq & _ & -> & ->). by rewrite (Huniq c' Hc' Heq).
  - apply relates_keep; [done..|]. intros h l (c' & Hc' & Heq & Hk' & _).
    rewrite <-(Huniq c' Hc' Heq) in Hk'. congruence.
Qed.

(** The branch of the kinds that require a local lower sub-layer. *)
Lemma relate_required_lower rels link missing remote self unknown :
  bt_wf rels → Forall (λ f : N → Error, ∀ low, error_kind (f low) = InvalidData)
    [missing; remote; self; unknown] →
  relates rels
    (∃ low, link.(lower) = Some low ∧ link.(lower_netnsid) = None ∧
       low ≠ link.(index) ∧ low ∈ map index links)
    (λ h l, h = link.(index) ∧ link.(lower) = Some l)
    (low ← ok_or link.(lower) (missing 0%N);
     if bool_decide (is_Some link.(lower_netnsid)) then Err (remote low)
     else if (low =? link.(index))%N then Err (self low)
     else if bool_decide (maps.1 !! low = None) then Err (unknown low)
     else Ok (bs_insert (link.(index), low) rels)).
Proof.
  intros Hwf Herr. rewrite !Forall_cons in Herr. destruct Herr as (H1 & H2 & H3 & H4 & _).
  destruct (link.(lower)) as [low|]; simpl; [|split; [done|naive_solver]].
  case_bool_decide as Hns.
  { split; [done|]. intros (? & _ & Hn & _). rewrite Hn in Hns. by destruct Hns. }
  apply eq_None_not_Some in Hns. destruct (low =? index link)%N eqn:Hself; bool_to_prop.
  { split; [done|]. naive_solver. }
  case_bool_decide as Hu.
  { split; [done|]. intros (? & [= <-] & _ & _ & Hs%registered_elem).
    rewrite Hu in Hs. by destruct Hs. }
  apply not_eq_None_Some, registered_elem in Hu.
  apply relates_insert; [done|by exists low|naive_solver].
Qed.

Lemma relate_kind_spec rels link :
  bt_wf rels →
  relates rels (lower_ok (map index links) link) (lower_declares links link)
    (relate_kind maps.1 rels link).
Proof.
  intros Hwf. unfold relate_kind, lower_ok, lower_declares.
  destruct (link.(kind)); try (apply relates_keep; [done..|]; naive_solver).
  1-4: by apply (relate_required_lower rels link
         (λ _, named link [Lit ") has no lower sub-layer reference"])
         (λ low, named link [Lit ") references lower sub-layer index "; DisplayInt low;
                             Lit " in another network namespace"])
         (λ low, named link [Lit ") references itself as lower sub-layer"])
         (λ low, named link [Lit ") references unknown lower sub-layer index ";
                             DisplayInt low])); repeat constructor.
  case_bool_decide as Hns; [|apply relates_keep; [done|naive_solver|naive_solver]].
  destruct (link.(vxlan_lower)) as [low|]; [|apply relates_keep; [done|naive_solver|naive_solver]].
  case_bool_decide as Hin; rewrite <-registered_elem in Hin;
    [|apply relates_keep; [done|naive_solver|naive_solver]].
  destruct (low =? index link)%N eqn:Hself; bool_to_prop.
  - split; [done|]. naive_solver.
  - apply relates_insert; [done|naive_solver|naive_solver].
Qed.
End second_loop.

Definition link_ok (links : list ObservedLink) (link : ObservedLink) : Prop :=
  controller_ok (map index links) link ∧ lower_ok (map index links) link.

Definition link_declares (links : list ObservedLink) (link : ObservedLink) (h l : N) : Prop :=
  controller_declares links link h l ∨ lower_declares links link h l.

Lemma relate_link_spec links maps rels link :
  registered links maps → bt_wf rels →
  relates rels (link_ok links link) (link_declares links link)
    (relate_link maps.1 rels link).
Proof.
  intros Hreg Hwf. unfold relate_link, link_ok, link_declares.
  pose proof (relate_controller_spec links maps Hreg rels link Hwf) as Hc.
  destruct (relate_controller _ _ _) as [rels1|e]; simpl.
  2: { destruct Hc as [? ?]. split; [done|tauto]. }
  destruct Hc as (Hok1 & Hwf1 & Hin1).
  pose proof (relate_kind_spec links maps Hreg rels1 link Hwf1) as Hk.
  destruct (relate_kind _ _ _) as [rels2|e].
  2: { destruct Hk as [? ?]. split; [done|tauto]. }
  destruct Hk as (Hok2 & Hwf2 & Hin2). split_and!; [done..|].
  intros h l. rewrite Hin2, Hin1. tauto.
Qed.

Lemma relate_links_spec links maps ls :
  registered links maps →
  relates [] (∀ link, link ∈ ls → link_ok links link)
    (λ h l, ∃ link, link ∈ ls ∧ link_declares links link h l)
    (foldM (relate_link maps.1) [] ls).
Proof.
  intros Hreg. induction ls as [|link ls IH] using rev_ind.
  { split_and!; [by intros ? ?%elem_of_nil|constructor|]. intros h l. split; [by left|].
    intros [?|(? & ?%elem_of_nil & _)]; done. }
  rewrite foldM_snoc. destruct (foldM _ _ _) as [rels|e]; simpl.
  2: { destruct IH as [? Hno]. split; [done|]. intros Hall. apply Hno. intros l Hl.
       apply Hall, elem_of_app. by left. }
  destruct IH as (Hok & Hwf & Hin).
  pose proof (relate_link_spec links maps rels link Hreg Hwf) as Hs.
  destruct (relate_link _ _ _) as [rels'|e]; simpl.
  - destruct Hs as (Hok' & Hwf' & Hin'). split_and!; [|done|].
    + intros l [?| ->%list_elem_of_singleton]%elem_of_app; auto.
    + intros h l. rewrite Hin', Hin. setoid_rewrite elem_of_app.
      setoid_rewrite list_elem_of_singleton. naive_solver.
  - destruct Hs as [? Hno]. split; [done|]. intros Hall. apply Hno, Hall, elem_of_app.
    right. by left.
Qed.

(** ** The whole function *)

(** What the program promises of a topology built from [links]. *)
Record topology_of (links : list ObservedLink) (t : Topology) : Prop := {
  topology_interfaces_wf : bt_wf t.(interfaces);
  topology_relationships_wf : bt_wf t.(relationships);
  topology_interfaces : ∀ i, i ∈ bs_iter t.(interfaces) ↔ i ∈ map index links;
  topology_relationships : ∀ h l, (h, l) ∈ bs_iter t.(relationships) ↔ declares links h l;
}.

Lemma interfaces_of_maps links maps i :
  registered links maps →
  i ∈ bs_iter (bs_collect (map fst (map_to_list maps.1))) ↔ i ∈ map index links.
Proof.
  intros Hreg. rewrite elem_of_bs_collect, (registered_elem links maps Hreg). split.
  - intros ([j l] & -> & Hin)%list_elem_of_fmap. apply elem_of_map_to_list in Hin. eauto.
  - intros [l Hl]. apply list_elem_of_fmap. exists (i, l). by rewrite elem_of_map_to_list.
Qed.

Lemma from_observed_spec (links : list ObservedLink) :
  match from_observed links with
  | Ok t => valid_inventory links ∧ topology_of links t
  | Err e => ¬ valid_inventory links ∧ error_kind e = InvalidData
  end.
Proof.
  unfold from_observed. destruct (foldM register_link _ links) as [maps|e] eqn:Hm; simpl.
  2: { split.
       - intros [Hr _]. apply register_links_complete in Hr as [maps Hm']. congruence.
       - apply foldM_Err in Hm as (_ & link & _ & maps & _ & _ & He).
         pose proof (register_link_spec maps link) as Hs. by rewrite He in Hs. }
  destruct (register_links_Ok _ _ Hm) as [Hreg Hr]. destruct maps as [bi bn].
  pose proof (relate_links_spec links (bi, bn) links Hreg) as Hs. simpl in *.
  destruct (foldM (relate_link bi) [] links) as [rels|e]; simpl.
  - destruct Hs as (Hok & Hwf & Hin). split; [by split|]. split; simpl; [apply bt_collect_wf|done| |].
    + intros i. by apply (interfaces_of_maps links (bi, bn)).
    + intros h l. rewrite Hin. split; [|by right]. intros [?%elem_of_nil|?]; done.
  - destruct Hs as [? Hno]. split; [|done]. intros [_ Hall]. by apply Hno.
Qed.

Lemma from_observed_Ok links t :
  from_observed links = Ok t → valid_inventory links ∧ topology_of links t.
Proof. intros Ht. pose proof (from_observed_spec links) as Hs. by rewrite Ht in Hs. Qed.

(** *** Independence of the order of the inventory *)

Section permutation.
Context (links links' : list ObservedLink) (Hperm : links ≡ₚ links').

Lemma registrable_perm : registrable links → registrable links'.
Proof.
  intros [Hi Hn Hui Hun]. split.
  - intros l. rewrite <-Hperm. apply Hi.
  - intros l. rewrite <-Hperm. apply Hn.
  - by rewrite <-Hperm.
  - by rewrite <-Hperm.
Qed.

Lemma elem_of_indices_perm i : i ∈ map index links ↔ i ∈ map index links'.
Proof. by rewrite Hperm. Qed.

Lemma link_ok_perm link : link_ok links link → link_ok links' link.
Proof.
  unfold link_ok, controller_ok, lower_ok. intros [Hc Hl]. split.
  { intros c. rewrite <-elem_of_indices_perm. apply Hc. }
  destruct (kind link); try done.
  1-4: by destruct Hl as (low & ? & ? & ? & ?%elem_of_indices_perm); exists low.
  intros low. rewrite <-elem_of_indices_perm. apply Hl.
Qed.

Lemma declares_perm h l : declares links h l → declares links' h l.
Proof.
  unfold declares, controller_declares, lower_declares.
  intros (link & Hin & Hd). exists link. split; [by rewrite <-Hperm|].
  destruct Hd as [(c & Hcin & Hc)|[Hh Hl]].
  - left. exists c. by rewrite <-Hperm.
  - right. split; [done|]. destruct (kind link); try done.
    by rewrite <-elem_of_indices_perm.
Qed.
End permutation.

Lemma valid_inventory_perm links links' :
  links ≡ₚ links' → valid_inventory links → valid_inventory links'.
Proof.
  intros Hp [Hr Hok]. split; [by apply (registrable_perm links)|].
  intros l Hl. rewrite <-Hp in Hl. by apply (link_ok_perm links links' Hp), Hok.
Qed.

Lemma topology_of_perm links links' t t' :
  links ≡ₚ links' → topology_of links t → topology_of links' t' → t = t'.
Proof.
  destruct t as [ifs rels], t' as [ifs' rels'].
  intros Hp [Hw1 Hw2 Hi Hr] [Hw1' Hw2' Hi' Hr']; simpl in *. f_equal.
  - apply bs_ext; [done..|]. intros i. by rewrite Hi, Hi', (elem_of_indices_perm _ _ Hp).
  - apply bs_ext; [done..|]. intros [h l]. rewrite Hr, Hr'.
    split; by apply declares_perm.
Qed.

(** *** The ends of declared relationships *)

Lemma index_in_range links i :
  valid_inventory links → i ∈ map index links → (0 < i ≤ i32_max)%N.
Proof. intros [Hr _] (link & -> & Hin)%list_elem_of_fmap. by apply (valid_index _ Hr). Qed.

Lemma declares_observed links h l :
  valid_inventory links → declares links h l →
  h ≠ l ∧ h ∈ map index links ∧ l ∈ map index links.
Proof.
  intros [_ Hok] (link & Hin & Hd). destruct (Hok _ Hin) as [Hc Hl].
  assert (index link ∈ map index links) as Hlink by by apply list_elem_of_fmap_2.
  destruct Hd as [(c & Hcin & Hci & _ & -> & ->)|[-> Hd]].
  - destruct (Hc _ Hci). done.
  - unfold lower_ok in Hl. destruct (kind link); try done; naive_solver.
Qed.

(** Both ends of a relationship are observed interfaces, and different. *)
Lemma relationships_ends links t h l :
  from_observed links = Ok t → (h, l) ∈ bs_iter t.(relationships) →
  h ≠ l ∧ h ∈ bs_iter t.(interfaces) ∧ l ∈ bs_iter t.(interfaces).
Proof.
  intros [Hv Ht]%from_observed_Ok Hr%(topology_relationships _ _ Ht).
  rewrite !(topology_interfaces _ _ Ht). by apply declares_observed.
Qed.

(** ** Theorems *)

(** C7. [Topology::from_observed] accepts exactly the valid inventories: indices in
    1..=i32::MAX and names, both unique and the names nonempty; every controller another
    observed interface; every VLAN-like link with a local lower link that is another
    observed interface; no VXLAN over itself. It never rejects with another error kind
    than [InvalidData]. *)
Theorem from_observed_decides (links : list ObservedLink) :
  (is_ok (from_observed links) = true ↔ valid_inventory links) ∧
  (∀ e, from_observed links = Err e → error_kind e = InvalidData).
Proof.
  pose proof (from_observed_spec links) as Hs. destruct (from_observed links); simpl.
  - split; [tauto|done].
  - destruct Hs. split; [split; [done|tauto]|]. by intros ? [= <-].
Qed.

(** C8. The topology of an accepted inventory holds exactly the observed indices and
    exactly the direct relationships the links declare (bond and bridge members, VLAN-like
    lower links, resolved local VXLAN underlays), each set strictly ascending. *)
Theorem from_observed_topology (links : list ObservedLink) (t : Topology) :
  from_observed links = Ok t → topology_of links t.
Proof. intros Ht. by apply from_observed_Ok. Qed.

(** No published relationship has an interface over itself, and both its ends are
    observed interfaces with a valid SNMP index. *)
Theorem relationships_well_formed (links : list ObservedLink) (t : Topology) (h l : N) :
  from_observed links = Ok t → (h, l) ∈ bs_iter t.(relationships) →
  h ≠ l ∧ h ∈ bs_iter t.(interfaces) ∧ l ∈ bs_iter t.(interfaces) ∧
  (0 < h ≤ i32_max)%N ∧ (0 < l ≤ i32_max)%N.
Proof.
  intros Ho Hr. destruct (relationships_ends _ _ _ _ Ho Hr) as (Hne & Hh & Hl).
  apply from_observed_Ok in Ho as [Hv Ht]. pose proof Hh as Hh'. pose proof Hl as Hl'.
  rewrite (topology_interfaces _ _ Ht) in Hh', Hl'. split_and!; try done.
  all: by eapply index_in_range.
Qed.

(** The topology does not depend on the order in which the kernel lists the links. *)
Theorem from_observed_order_independent (links links' : list ObservedLink) (t : Topology) :
  links ≡ₚ links' → from_observed links = Ok t → from_observed links' = Ok t.
Proof.
  intros Hp [Hv Ht]%from_observed_Ok. apply (valid_inventory_perm _ _ Hp) in Hv.
  pose proof (from_observed_spec links') as Hs. destruct (from_observed links') as [t'|e].
  - destruct Hs as [_ Ht']. by rewrite (topology_of_perm _ _ _ _ Hp Ht Ht').
  - by destruct Hs.
Qed.
