(* ===== verification/Agentx.v ===== *)
(** The interface to the [agentx] crate: the operations of
    [agentx::encodings::ID] the source calls, the documented behaviour it
    relies on, the plain data the crate's public fields expose, and a
    concrete instance that shows the assumptions can hold. *)

From Stdlib Require Import Ascii.
From stdpp Require Import pretty.
From S2P Require Import Prelude BTree.

(** ** Object identifiers *)

(** The operations of [ID] the source calls. [id_components] is the view the
    laws speak about: the sub-identifiers after prefix expansion. *)
Class IdOps (ID : Type) := {
  id_components : ID → list N;
  id_include : ID → N;                 (* the public field [include : u8] *)
  id_set_include : N → ID → ID;        (* assignment to that field *)
  id_try_from : list N → option ID;    (* [ID::try_from(Vec<u32>)] *)
  id_cmp : ID → ID → comparison;       (* [Ord::cmp], which also gives [==] and [<] *)
  id_is_null : ID → bool;
  id_to_string : ID → string;
}.

(** How many times [c] occurs in [s]. *)
Fixpoint count_char (c : Ascii.ascii) (s : string) : nat :=
  match s with
  | EmptyString => 0
  | String d s' => (if bool_decide (c = d) then 1 else 0) + count_char c s'
  end.

(** The documented behaviour the source relies on. *)
Class IdLaws (ID : Type) `{!IdOps ID} : Prop := {
  id_try_from_spec : ∀ cs, 0 < length cs ≤ 128 →
    ∃ id, id_try_from cs = Some id ∧ id_components id = cs ∧ id_include id = 0%N;
  id_cmp_components : ∀ a b, id_cmp a b = list_compare (id_components a) (id_components b);
  id_components_set_include : ∀ i a, id_components (id_set_include i a) = id_components a;
  id_include_set_include : ∀ i a, id_include (id_set_include i a) = i;
  id_null_components : ∀ a, id_is_null a = true → id_components a = [];
  id_components_null : ∀ a, id_components a = [] → id_include a = 0%N → id_is_null a = true;
  (* [Display] prints the sub-identifiers separated by dots. *)
  id_to_string_dots : ∀ a, count_char "."%char (id_to_string a) = pred (length (id_components a));
}.

#[export] Instance id_compare {ID : Type} `{!IdOps ID} : Compare ID := id_cmp.

#[export] Instance id_compare_laws {ID : Type} `{IdLaws ID} : CompareLaws ID.
Proof.
  split; unfold cmp, id_compare; intros *; rewrite ?id_cmp_components.
  - apply (cmp_refl (K := list N)).
  - apply (cmp_opp (K := list N)).
  - apply (cmp_eq_l (K := list N)).
  - apply (cmp_lt_trans (K := list N)).
Qed.

(** ** Plain data with public fields *)

(** [Value]: the variants the source names; [VOther] stands for the others,
    which it neither builds nor tells apart. *)
Inductive Value (ID : Type) :=
| VInteger (i : Z)
| VObjectIdentifier (oid : ID)
| VNoSuchObject
| VNoSuchInstance
| VEndOfMibView
| VOther (raw : list N).
Arguments VInteger {ID} i.
Arguments VObjectIdentifier {ID} oid.
Arguments VNoSuchObject {ID}.
Arguments VNoSuchInstance {ID}.
Arguments VEndOfMibView {ID}.
Arguments VOther {ID} raw.

Record VarBind (ID : Type) := mkVarBind { vb_name : ID; vb_data : Value ID }.
Arguments mkVarBind {ID} vb_name vb_data.
Arguments vb_name {ID} v.
Arguments vb_data {ID} v.

Record SearchRange (ID : Type) := mkRange { range_start : ID; range_end : ID }.
Arguments mkRange {ID} range_start range_end.
Arguments range_start {ID} s.
Arguments range_end {ID} s.

(** [data == Value::EndOfMibView] *)
Definition is_end_of_mib {ID} (v : Value ID) : bool :=
  match v with VEndOfMibView => true | _ => false end.

(** ** A concrete instance *)

Record Oid := mkOid { oid_components : list N; oid_include : N }.

(** The components joined by dots. *)
Fixpoint join_dots (cs : list N) : string :=
  match cs with
  | [] => EmptyString
  | [c] => pretty c
  | c :: cs' => pretty c +:+ String "."%char (join_dots cs')
  end.

#[export] Instance Oid_ops : IdOps Oid := {
  id_components := oid_components;
  id_include := oid_include;
  id_set_include i a := mkOid (oid_components a) i;
  id_try_from cs := if bool_decide (length cs ≤ 128) then Some (mkOid cs 0%N) else None;
  id_cmp a b := list_compare (oid_components a) (oid_components b);
  id_is_null a := bool_decide (oid_components a = []);
  id_to_string a := join_dots (oid_components a);
}.

Lemma count_char_app c s1 s2 : count_char c (s1 +:+ s2) = count_char c s1 + count_char c s2.
Proof. induction s1 as [|d s1 IH]; simpl; [done|]. rewrite IH. lia. Qed.

Lemma pretty_N_go_no_dot (x : N) (s : string) :
  count_char "."%char (pretty_N_go x s) = count_char "."%char s.
Proof.
  revert s. induction (N.lt_wf_0 x) as [x _ IH]; intros s.
  destruct (decide (0 < x)%N) as [Hx|Hx].
  2: { assert (x = 0)%N as -> by lia. by rewrite pretty_N_go_0. }
  rewrite pretty_N_go_step by done. rewrite IH by (apply N.div_lt; lia). simpl.
  assert (pretty_N_char (x `mod` 10) ≠ "."%char) as Hne.
  { assert (x `mod` 10 < 10)%N as Hm by (apply N.mod_lt; lia).
    revert Hm. generalize (x `mod` 10)%N. intros y Hm.
    destruct y as [|p]; [done|]. do 4 (destruct p as [p|p|]; try done; try lia). }
  rewrite bool_decide_eq_false_2 by congruence. done.
Qed.

Lemma pretty_no_dot (n : N) : count_char "."%char (pretty n) = 0.
Proof. unfold pretty, pretty_N. case_decide; [done|]. apply pretty_N_go_no_dot. Qed.

Lemma join_dots_count cs : count_char "."%char (join_dots cs) = pred (length cs).
Proof.
  induction cs as [|c [|d cs] IH]; [done| |].
  - apply pretty_no_dot.
  - change (join_dots (c :: d :: cs)) with (pretty c +:+ String "."%char (join_dots (d :: cs))).
    rewrite count_char_app, pretty_no_dot. cbn [count_char].
    by rewrite bool_decide_eq_true_2, IH by done.
Qed.

#[export] Instance Oid_laws : IdLaws Oid.
Proof.
  split; simpl.
  - intros cs [_ Hlen]. exists (mkOid cs 0). by rewrite bool_decide_eq_true_2.
  - done.
  - done.
  - done.
  - intros a Ha. by apply bool_decide_eq_true in Ha.
  - intros a Ha _. by apply bool_decide_eq_true.
  - intros a. apply join_dots_count.
Qed.
