(* ===== verification/Mib.v ===== *)
(** The table of [src/src/mib.rs]: the rows derived from a topology and the
    GET, GETNEXT and GETBULK lookups. [None] is a Rust panic throughout. *)

From S2P Require Import Prelude BTree Link Agentx.

(** ** Constants *)

Definition TABLE : list N := [1; 3; 6; 1; 2; 1; 31; 1; 2]%N.
Definition STATUS : list N := [1; 3; 6; 1; 2; 1; 31; 1; 2; 1; 3]%N.
Definition MAX_BULK_BINDINGS : nat := 4096.

Section mib.
Context {ID : Type} `{!IdOps ID}.

(** ** Data *)

(** [struct Mib(BTreeMap<ID, Value>)] *)
Definition Mib : Type := list (ID * Value ID).

(** ** Construction *)

(** One row of [from_rows]: the [expect] is the only way to panic. *)
Definition row_entry (row : N * N) : option (ID * Value ID) :=
  id ← id_try_from (STATUS ++ [row.1; row.2]);
  Some (id, VInteger 1%Z).

(** [Mib::from_rows] *)
Definition from_rows (rows : list (N * N)) : option (list (ID * Value ID)) :=
  entries ← mapM row_entry rows;
  Some (bt_collect entries).

(** The rows [Mib::from_topology] builds: the relationships, then the
    boundary rows of every interface with a missing side. *)
Definition topology_rows (topology : Topology) : list (N * N) :=
  let rels := bs_iter topology.(relationships) in
  let higher := bs_collect (map rel_higher rels) in
  let low := bs_collect (map rel_lower rels) in
  foldl (λ rows i,
    let rows := if negb (bs_contains i low) then rows ++ [(0%N, i)] else rows in
    if negb (bs_contains i higher) then rows ++ [(i, 0%N)] else rows)
    (map (λ r, (rel_higher r, rel_lower r)) rels)
    (bs_iter topology.(interfaces)).

(** [Mib::from_topology] *)
Definition from_topology (topology : Topology) : option (list (ID * Value ID)) :=
  from_rows (topology_rows topology).

(** ** Lookups *)

(** [fn binding] *)
Definition binding (name : ID) (data : Value ID) : VarBind ID :=
  mkVarBind (id_set_include 0%N name) data.

Definition id_ge (a b : ID) : bool := match id_cmp a b with Lt => false | _ => true end.
Definition id_lt (a b : ID) : bool := match id_cmp a b with Lt => true | _ => false end.

(** [Mib::get] *)
Definition get (m : list (ID * Value ID)) (name : ID) : option (VarBind ID) :=
  data ← match bt_get name m with
         | Some data => Some data
         | None =>
             status ← id_try_from STATUS;
             following ← id_try_from (alter N.succ 10 STATUS);
             Some (if id_ge name status && id_lt name following
                   then VNoSuchInstance else VNoSuchObject)
         end;
  Some (binding name data).

(** The lower bound of a GETNEXT search. *)
Definition start_bound (range : SearchRange ID) : Bound ID :=
  if (id_include range.(range_start) =? 1)%N
  then Included range.(range_start) else Excluded range.(range_start).

(** Whether a name lies before the end of a search range. *)
Definition before_end (range : SearchRange ID) (name : ID) : bool :=
  id_is_null range.(range_end) || id_lt name range.(range_end).

(** [Mib::get_next] *)
Definition get_next (m : list (ID * Value ID)) (range : SearchRange ID) : VarBind ID :=
  match bt_range (start_bound range) m with
  | (name, data) :: _ =>
      if before_end range name then binding name data
      else binding range.(range_start) VEndOfMibView
  | [] => binding range.(range_start) VEndOfMibView
  end.

(** [range.start = next.name.clone()] *)
Definition set_start (range : SearchRange ID) (name : ID) : SearchRange ID :=
  mkRange name range.(range_end).

(** The inner loop of [Mib::get_bulk] over the repeaters still to visit:
    [inl] is the early return at the cap, [inr] carries [exhausted], the
    result and the repeaters with their new starts. *)
Fixpoint bulk_row (m : list (ID * Value ID)) (exhausted : bool)
    (res : list (VarBind ID)) (todo : list (SearchRange ID))
    : list (VarBind ID) + (bool * list (VarBind ID) * list (SearchRange ID)) :=
  match todo with
  | [] => inr (exhausted, res, [])
  | range :: todo' =>
      if Nat.eqb (length res) MAX_BULK_BINDINGS then inl res
      else
        let next := get_next m range in
        match bulk_row m (exhausted && is_end_of_mib next.(vb_data)) (res ++ [next]) todo' with
        | inl r => inl r
        | inr (ex, r, ranges) => inr (ex, r, set_start range next.(vb_name) :: ranges)
        end
  end.

(** The outer loop, [for _ in 0..max_repetitions]. *)
Fixpoint bulk_repeat (m : list (ID * Value ID)) (n : nat) (res : list (VarBind ID))
    (repeaters : list (SearchRange ID)) : list (VarBind ID) :=
  match n with
  | O => res
  | S n' =>
      match bulk_row m true res repeaters with
      | inl r => r
      | inr (exhausted, r, repeaters') => if exhausted then r else bulk_repeat m n' r repeaters'
      end
  end.

(** [Mib::get_bulk]; the [u16] counts are given as [nat]. *)
Definition get_bulk (m : list (ID * Value ID)) (ranges : list (SearchRange ID))
    (non_repeaters max_repetitions : nat) : list (VarBind ID) :=
  let count := Nat.min non_repeaters (length ranges) in
  let res := map (get_next m) (take MAX_BULK_BINDINGS (take count ranges)) in
  bulk_repeat m max_repetitions res (drop count ranges).

(** ** Specifications *)

(** The ifStackTable of a topology: the direct relationships and the
    boundary rows of the interfaces nothing runs over or that run over
    nothing. *)
Definition table_row (topology : Topology) (h l : N) : Prop :=
  (h, l) ∈ bs_iter topology.(relationships) ∨
  (h = 0%N ∧ l ∈ bs_iter topology.(interfaces) ∧
    ∀ h', (h', l) ∉ bs_iter topology.(relationships)) ∨
  (l = 0%N ∧ h ∈ bs_iter topology.(interfaces) ∧
    ∀ l', (h, l') ∉ bs_iter topology.(relationships)).

(** A table that holds exactly the given instances of ifStackStatus, all of
    them active. *)
Record table_of (rows : N → N → Prop) (m : list (ID * Value ID)) : Prop := {
  table_wf : bt_wf m;
  table_sound : ∀ id v, (id, v) ∈ m →
    id_include id = 0%N ∧ v = VInteger 1%Z ∧
    ∃ h l, rows h l ∧ id_components id = STATUS ++ [h; l];
  table_complete : ∀ h l, rows h l →
    ∃ id, (id, VInteger 1%Z) ∈ m ∧ id_components id = STATUS ++ [h; l];
}.

(** The rows a search range admits, ascending. *)
Definition eligible (range : SearchRange ID) (id : ID) : bool :=
  above (start_bound range) id && before_end range id.

Definition window (range : SearchRange ID) (m : list (ID * Value ID)) : list (ID * Value ID) :=
  base.filter (λ p, before_end range p.1 = true) (bt_range (start_bound range) m).

(** The same, in terms of sub-identifiers: at or after an inclusive start,
    strictly after an exclusive one, and before a non-null end. *)
Definition in_window (range : SearchRange ID) (id : ID) : Prop :=
  (list_compare (id_components range.(range_start)) (id_components id) = Lt ∨
   (id_include range.(range_start) = 1%N ∧
    id_components range.(range_start) = id_components id)) ∧
  (id_is_null range.(range_end) = true ∨
   list_compare (id_components id) (id_components range.(range_end)) = Lt).

(** The repeaters after one more repetition. *)
Definition advance (m : list (ID * Value ID)) (range : SearchRange ID) : SearchRange ID :=
  set_start range (get_next m range).(vb_name).

Definition row_exhausted (row : list (VarBind ID)) : bool :=
  forallb (λ vb, is_end_of_mib vb.(vb_data)) row.

(** RFC 2741 section 7.2.3.3 without the response limit: repetition after
    repetition, up to and including the first in which every repeater is
    exhausted. *)
Fixpoint repetitions (m : list (ID * Value ID)) (n : nat)
    (repeaters : list (SearchRange ID)) : list (VarBind ID) :=
  match n with
  | O => []
  | S n' =>
      let row := map (get_next m) repeaters in
      row ++ if row_exhausted row then [] else repetitions m n' (map (advance m) repeaters)
  end.

(** A manager's walk: GETNEXT from each returned name until the end of the
    view; [None] if the fuel does not reach it. *)
Fixpoint walk (fuel : nat) (m : list (ID * Value ID)) (range : SearchRange ID)
    : option (list (VarBind ID)) :=
  match fuel with
  | O => None
  | S fuel' =>
      let vb := get_next m range in
      if is_end_of_mib vb.(vb_data) then Some []
      else rest ← walk fuel' m (set_start range vb.(vb_name)); Some (vb :: rest)
  end.
End mib.

(** ** The rows of a topology *)

Lemma elem_of_boundary_rows (low higher : list (N * unit)) (ifs : list N) acc h l :
  (h, l) ∈ foldl (λ rows i,
     let rows := if negb (bs_contains i low) then rows ++ [(0%N, i)] else rows in
     if negb (bs_contains i higher) then rows ++ [(i, 0%N)] else rows) acc ifs ↔
  (h, l) ∈ acc ∨
  (h = 0%N ∧ l ∈ ifs ∧ bs_contains l low = false) ∨
  (l = 0%N ∧ h ∈ ifs ∧ bs_contains h higher = false).
Proof.
  revert acc. induction ifs as [|i ifs IH]; intros acc; cbn [foldl].
  { setoid_rewrite elem_of_nil. tauto. }
  rewrite IH. setoid_rewrite elem_of_cons.
  destruct (bs_contains i low) eqn:Hl, (bs_contains i higher) eqn:Hh; cbn -[bs_contains];
    rewrite ?elem_of_app, ?list_elem_of_singleton; naive_solver congruence.
Qed.

Lemma bs_contains_image (f : N * N → N) (rels : list (N * N)) i :
  bs_contains i (bs_collect (map f rels)) = false ↔ ∀ r, r ∈ rels → f r ≠ i.
Proof.
  rewrite <-not_true_iff_false, bs_contains_collect. setoid_rewrite cmp_eq_iff.
  setoid_rewrite list_elem_of_fmap. naive_solver.
Qed.

Lemma elem_of_topology_rows t h l : (h, l) ∈ topology_rows t ↔ table_row t h l.
Proof.
  unfold topology_rows, table_row. rewrite elem_of_boundary_rows, !bs_contains_image.
  assert ((h, l) ∈ map (λ r, (rel_higher r, rel_lower r)) (bs_iter (relationships t)) ↔
          (h, l) ∈ bs_iter (relationships t)) as ->.
  { rewrite list_elem_of_fmap. unfold rel_higher, rel_lower. split.
    - intros ([h' l'] & ? & ?). simpl in *. congruence.
    - intros ?. by exists (h, l). }
  unfold rel_higher, rel_lower. split.
  - intros [?|[(-> & ? & Hno)|(-> & ? & Hno)]]; [by left|right; left|right; right].
    + split_and!; [done..|]. intros h' Hin. by apply (Hno _ Hin).
    + split_and!; [done..|]. intros l' Hin. by apply (Hno _ Hin).
  - intros [?|[(-> & ? & Hno)|(-> & ? & Hno)]]; [by left|right; left|right; right].
    + split_and!; [done..|]. intros [h' l'] Hin <-. by apply (Hno h').
    + split_and!; [done..|]. intros [h' l'] Hin <-. by apply (Hno l').
Qed.

(** Between a prefix and the prefix with its last component incremented lie
    exactly the lists that start with the prefix. *)
Lemma prefix_interval (p : list N) (x : N) (cs : list N) :
  (list_compare cs (p ++ [x]) ≠ Lt ∧ list_compare cs (p ++ [N.succ x]) = Lt) ↔
  (p ++ [x]) `prefix_of` cs.
Proof.
  split.
  - revert cs. induction p as [|y p IH]; intros [|c cs]; simpl.
    + naive_solver.
    + intros [Hge Hlt]. assert (c = x) as ->; [|by apply prefix_cons, prefix_nil].
      destruct (N.compare_spec c x), (N.compare_spec c (N.succ x)); try done; try lia.
      by destruct cs.
    + naive_solver.
    + destruct (N.compare_spec c y) as [->|?|?]; [|naive_solver..].
      intros Hb. by apply prefix_cons, IH.
  - intros [k ->]. rewrite <-app_assoc. induction p as [|y p IH]; simpl.
    + rewrite N.compare_refl. destruct (N.compare_spec x (N.succ x)); try lia.
      split; [|done]. by destruct k.
    + by rewrite N.compare_refl.
Qed.

Section lookups.
Context {ID : Type} `{IdLaws ID}.
Implicit Types (m : list (ID * Value ID)) (id : ID) (range : SearchRange ID).

(** ** Building the table *)

Lemma cmp_components (a b : ID) : cmp a b = Eq ↔ id_components a = id_components b.
Proof.
  unfold cmp, id_compare. rewrite id_cmp_components. apply (cmp_eq_iff (K := list N)).
Qed.

Lemma row_entry_Some (row : N * N) :
  ∃ id, row_entry row = Some (id, VInteger 1%Z) ∧ id_include id = 0%N ∧
    id_components id = STATUS ++ [row.1; row.2].
Proof.
  destruct (id_try_from_spec (STATUS ++ [row.1; row.2])) as (id & Hid & Hc & Hi).
  { simpl. lia. }
  exists id. unfold row_entry. by rewrite Hid.
Qed.

Lemma row_entries (rows : list (N * N)) :
  ∃ ids : list ID, mapM row_entry rows = Some (map (λ id, (id, VInteger 1%Z)) ids) ∧
    Forall2 (λ row id, id_include id = 0%N ∧ id_components id = STATUS ++ [row.1; row.2])
      rows ids.
Proof.
  induction rows as [|row rows (ids & Hm & Hall)]; [by exists []; split; [done|constructor]|].
  destruct (row_entry_Some row) as (id & Hid & ? & ?). exists (id :: ids). simpl.
  rewrite Hid. simpl. rewrite Hm. split; [done|]. by constructor.
Qed.

Lemma from_rows_spec (rows : list (N * N)) :
  ∃ m, from_rows rows = Some m ∧ table_of (λ h l, (h, l) ∈ rows) m.
Proof.
  destruct (row_entries rows) as (ids & Hm & Hall). unfold from_rows. rewrite Hm.
  eexists. split; [done|]. split; [apply bt_collect_wf| |].
  - intros id v Hin.
    pose (P := λ (id : ID) (v : Value ID), id_include id = 0%N ∧ v = VInteger 1%Z ∧
      ∃ h l, (h, l) ∈ rows ∧ id_components id = STATUS ++ [h; l]).
    assert (Forall (λ p, P p.1 p.2) (bt_collect (map (λ id, (id, VInteger 1%Z)) ids))) as HP.
    { apply bt_collect_Forall; [unfold P; naive_solver|]. apply Forall_forall.
      intros p (id' & -> & [i Hi]%list_elem_of_lookup)%list_elem_of_fmap.
      destruct (Forall2_lookup_r _ _ _ _ _ Hall Hi) as ([h l] & Hrow & ? & ?).
      split_and!; [done..|]. exists h, l. split; [|done]. by apply list_elem_of_lookup_2 in Hrow. }
    rewrite Forall_forall in HP. by apply HP in Hin.
  - intros h l [i Hi]%list_elem_of_lookup.
    destruct (Forall2_lookup_l _ _ _ _ _ Hall Hi) as (id & Hid & _ & Hc).
    assert (bt_get id (bt_collect (map (λ id, (id, VInteger (ID := ID) 1%Z)) ids)) =
            Some (VInteger 1%Z))
      as (id' & Hin & Heq%cmp_components)%bt_get_elem.
    { apply bt_get_collect_const. exists id. split; [|apply cmp_refl].
      by apply list_elem_of_lookup_2 in Hid. }
    exists id'. split; [done|]. by rewrite <-Heq, Hc.
Qed.

Lemma table_of_iff (P Q : N → N → Prop) m :
  (∀ h l, P h l ↔ Q h l) → table_of P m → table_of Q m.
Proof.
  intros HPQ [Hwf Hs Hc]. split; [done| |].
  - intros id v (? & ? & h & l & ?%HPQ & ?)%Hs. eauto 10.
  - intros h l ?%HPQ. eauto.
Qed.

Lemma from_topology_spec t : ∃ m, from_topology t = Some m ∧ table_of (table_row t) m.
Proof.
  destruct (from_rows_spec (topology_rows t)) as (m & Hm & Ht). exists m. split; [done|].
  eapply table_of_iff; [|done]. intros h l. apply elem_of_topology_rows.
Qed.

(** ** GET *)

Lemma id_ge_lt_prefix (p : list N) (x : N) (name a b : ID) :
  id_components a = p ++ [x] → id_components b = p ++ [N.succ x] →
  id_ge name a && id_lt name b = true ↔ (p ++ [x]) `prefix_of` id_components name.
Proof.
  intros Ha Hb. rewrite <-prefix_interval, <-Ha, <-Hb, <-!id_cmp_components.
  unfold id_ge, id_lt. destruct (id_cmp name a), (id_cmp name b); naive_solver.
Qed.

(** A GET never panics, and for a name that is not a row it answers by the
    column the name lies in. *)
Lemma get_spec m name :
  ∃ vb, get m name = Some vb ∧ vb.(vb_name) = id_set_include 0%N name ∧
  match bt_get name m with
  | Some data => vb.(vb_data) = data
  | None => vb.(vb_data) =
      if bool_decide (STATUS `prefix_of` id_components name)
      then VNoSuchInstance else VNoSuchObject
  end.
Proof.
  unfold get. destruct (bt_get name m) as [data|]; simpl.
  { eexists. by split_and!. }
  destruct (id_try_from_spec STATUS) as (status & Hst & Hcs & _); [simpl; lia|].
  destruct (id_try_from_spec (alter N.succ 10 STATUS)) as (following & Hf & Hcf & _);
    [simpl; lia|].
  change (list_alter N.succ 10 STATUS) with (alter N.succ 10 STATUS).
  unfold STATUS in *. simpl in *. rewrite Hst. simpl. rewrite Hf. simpl.
  eexists. split_and!; [done..|]. simpl.
  pose proof (id_ge_lt_prefix [1; 3; 6; 1; 2; 1; 31; 1; 2; 1]%N 3%N name _ _ Hcs Hcf) as Hp.
  simpl in Hp. case_bool_decide as Hd.
  - by rewrite (proj2 Hp Hd).
  - destruct (_ && _); [|done]. exfalso. tauto.
Qed.

Lemma table_get (rows : N → N → Prop) m name h l :
  table_of rows m → id_components name = STATUS ++ [h; l] →
  bt_get name m = Some (VInteger 1%Z) ↔ rows h l.
Proof.
  intros [Hwf Hs Hc] Hname. split.
  - intros (id & Hin & Heq%cmp_components)%bt_get_elem.
    destruct (Hs _ _ Hin) as (_ & _ & h' & l' & Hr & Hid). rewrite Hname, Hid in Heq.
    by apply app_inj_1 in Heq as [_ [= -> ->]].
  - intros (id & Hin & Hid)%Hc. rewrite <-(bt_elem_get id (VInteger 1%Z) m) by done.
    apply bt_get_proper; [|done]. apply cmp_components. by rewrite Hid, Hname.
Qed.

Lemma table_get_other (rows : N → N → Prop) m name v :
  table_of rows m → bt_get name m = Some v →
  v = VInteger 1%Z ∧ ∃ h l, rows h l ∧ id_components name = STATUS ++ [h; l].
Proof.
  intros [_ Hs _] (id & Hin & Heq%cmp_components)%bt_get_elem.
  destruct (Hs _ _ Hin) as (_ & -> & h & l & ? & ?). split; [done|]. exists h, l.
  by rewrite Heq.
Qed.

(** What GET answers in a table of [rows]. *)
Definition get_answer (rows : N → N → Prop) (cs : list N) (data : Value ID) : Prop :=
  (data = VInteger 1%Z ∧ ∃ h l, rows h l ∧ cs = STATUS ++ [h; l]) ∨
  ((∀ h l, cs = STATUS ++ [h; l] → ¬ rows h l) ∧
   ((data = VNoSuchInstance ∧ STATUS `prefix_of` cs) ∨
    (data = VNoSuchObject ∧ ¬ STATUS `prefix_of` cs))).

Lemma get_table (rows : N → N → Prop) m name :
  table_of rows m →
  ∃ vb, get m name = Some vb ∧ vb.(vb_name) = id_set_include 0%N name ∧
    get_answer rows (id_components name) vb.(vb_data).
Proof.
  intros Ht. destruct (get_spec m name) as (vb & Hvb & Hname & Hdata).
  exists vb. split_and!; [done..|]. destruct (bt_get name m) as [v|] eqn:Hg.
  - left. rewrite Hdata. by apply (table_get_other rows m name).
  - right. split.
    + intros h l Hcs Hr. apply (table_get rows m name h l Ht Hcs) in Hr. congruence.
    + rewrite Hdata. case_bool_decide; auto.
Qed.

(** ** GETNEXT *)

Lemma before_end_lt range id id' :
  cmp id id' = Lt → before_end range id' = true → before_end range id = true.
Proof.
  unfold before_end, id_lt. destruct (id_is_null _); [done|]. simpl. intros Hlt.
  destruct (id_cmp id' (range_end range)) eqn:Hc; try done. intros _.
  pose proof (cmp_lt_trans id id' (range_end range) Hlt Hc) as Ht.
  unfold cmp, id_compare in Ht. by rewrite Ht.
Qed.

Lemma elem_of_window range m id v :
  (id, v) ∈ window range m ↔ (id, v) ∈ m ∧ eligible range id = true.
Proof.
  unfold window, eligible. rewrite list_elem_of_filter, bt_range_elem, andb_true_iff.
  simpl. tauto.
Qed.

(** The head of the search decides: past the end, nothing is eligible. *)
Lemma window_of_range range m id v rest :
  bt_wf m → bt_range (start_bound range) m = (id, v) :: rest →
  window range m =
    if before_end range id then (id, v) :: base.filter (λ p, before_end range p.1 = true) rest
    else [].
Proof.
  intros Hwf Hr. unfold window. rewrite Hr. destruct (before_end range id) eqn:Hb.
  { by rewrite filter_cons_True. }
  rewrite filter_cons_False by (simpl; congruence).
  apply elem_of_nil_inv. intros [id' v'] [Hb' Hin]%list_elem_of_filter.
  pose proof (bt_range_wf (start_bound range) m Hwf) as Hw. rewrite Hr in Hw.
  pose proof (bt_wf_cons_lt _ _ _ Hw Hin) as Hlt.
  rewrite (before_end_lt range id id' Hlt Hb') in Hb. done.
Qed.

Lemma get_next_window range m :
  bt_wf m →
  get_next m range = match window range m with
                     | (id, v) :: _ => binding id v
                     | [] => binding range.(range_start) VEndOfMibView
                     end.
Proof.
  intros Hwf. unfold get_next.
  destruct (bt_range (start_bound range) m) as [|[id v] rest] eqn:Hr.
  - unfold window. by rewrite Hr.
  - rewrite (window_of_range _ _ _ _ _ Hwf Hr). by destruct (before_end range id).
Qed.

Lemma start_bound_set_start range id :
  start_bound (set_start range (id_set_include 0%N id)) = Excluded (id_set_include 0%N id).
Proof. unfold start_bound. simpl. by rewrite id_include_set_include. Qed.

Lemma set_include_equiv i id : key_equiv (id_set_include i id) id.
Proof. apply cmp_components. apply id_components_set_include. Qed.

(** Searching on from a returned name leaves the rest of the window. *)
Lemma window_next range m id v rest :
  bt_wf m → window range m = (id, v) :: rest →
  window (set_start range (id_set_include 0%N id)) m = rest.
Proof.
  intros Hwf Hw.
  destruct (bt_range (start_bound range) m) as [|[id' v'] rest'] eqn:Hr.
  { unfold window in Hw. by rewrite Hr in Hw. }
  rewrite (window_of_range _ _ _ _ _ Hwf Hr) in Hw.
  destruct (before_end range id'); [|done]. injection Hw as -> -> <-.
  unfold window. rewrite start_bound_set_start, (bt_range_equiv _ id) by apply set_include_equiv.
  by rewrite (bt_range_next _ _ _ _ _ Hwf Hr).
Qed.

Lemma window_wf range m : bt_wf m → bt_wf (window range m).
Proof. intros Hwf. by apply bt_wf_filter, bt_range_wf. Qed.

(** ** Walks *)

Lemma walk_window fuel range m :
  bt_wf m → Forall (λ p, is_end_of_mib p.2 = false) m →
  length (window range m) < fuel →
  walk fuel m range = Some (map (λ p, binding p.1 p.2) (window range m)).
Proof.
  intros Hwf Hdata. revert range. induction fuel as [|fuel IH]; intros range Hlen; [lia|].
  simpl. rewrite get_next_window by done.
  destruct (window range m) as [|[id v] rest] eqn:Hw; simpl; [done|].
  assert (is_end_of_mib v = false) as ->.
  { assert ((id, v) ∈ window range m) as [Hin _]%elem_of_window by (rewrite Hw; left).
    rewrite Forall_forall in Hdata. by apply (Hdata _ Hin). }
  pose proof (window_next _ _ _ _ _ Hwf Hw) as Hn.
  rewrite IH; rewrite Hn; [done|]. simpl in Hlen. lia.
Qed.

Lemma table_data (rows : N → N → Prop) m :
  table_of rows m → Forall (λ p, is_end_of_mib p.2 = false) m.
Proof.
  intros [_ Hs _]. apply Forall_forall. intros [id v] Hin. by destruct (Hs _ _ Hin) as (_ & -> & _).
Qed.
End lookups.

(** ** GETBULK *)

Section bulk.
Context {ID : Type} `{!IdOps ID}.
Implicit Types (m : list (ID * Value ID)) (range : SearchRange ID) (res : list (VarBind ID)).

Lemma bulk_row_spec m exhausted res todo :
  length res ≤ MAX_BULK_BINDINGS →
  let row := map (get_next m) todo in
  bulk_row m exhausted res todo =
    if decide (length res + length todo ≤ MAX_BULK_BINDINGS)
    then inr (exhausted && row_exhausted row, res ++ row, map (advance m) todo)
    else inl (take MAX_BULK_BINDINGS (res ++ row)).
Proof.
  simpl. revert exhausted res. induction todo as [|range todo IH]; intros exhausted res Hlen.
  { simpl. rewrite decide_True by lia. by rewrite andb_true_r, app_nil_r. }
  cbn [bulk_row map]. destruct (Nat.eqb_spec (length res) MAX_BULK_BINDINGS) as [Heq|Hne].
  { rewrite decide_False by (simpl; lia). by rewrite take_app_length' by done. }
  rewrite IH by (rewrite length_app; simpl; lia). rewrite length_app, <-app_assoc. simpl.
  destruct (decide (length res + 1 + length todo ≤ MAX_BULK_BINDINGS)).
  - rewrite decide_True by lia. by rewrite andb_assoc.
  - by rewrite decide_False by lia.
Qed.

Lemma bulk_repeat_spec m n res repeaters :
  length res ≤ MAX_BULK_BINDINGS →
  bulk_repeat m n res repeaters = take MAX_BULK_BINDINGS (res ++ repetitions m n repeaters).
Proof.
  revert res repeaters. induction n as [|n IH]; intros res repeaters Hlen.
  { simpl. by rewrite app_nil_r, take_ge. }
  cbn [bulk_repeat repetitions]. rewrite bulk_row_spec by done.
  case_decide as Hfit; rewrite app_assoc.
  - assert (length (res ++ map (get_next m) repeaters) ≤ MAX_BULK_BINDINGS)
      by (by rewrite length_app, length_map).
    simpl. destruct (row_exhausted _); [by rewrite app_nil_r, take_ge|by apply IH].
  - rewrite (take_app_le (res ++ _)); [done|]. rewrite length_app, length_map. lia.
Qed.

Lemma get_bulk_spec m ranges non_repeaters max_repetitions :
  get_bulk m ranges non_repeaters max_repetitions =
  let count := Nat.min non_repeaters (length ranges) in
  take MAX_BULK_BINDINGS
    (map (get_next m) (take count ranges) ++ repetitions m max_repetitions (drop count ranges)).
Proof.
  unfold get_bulk. cbn zeta. rewrite bulk_repeat_spec by (rewrite length_map, length_take; lia).
  by rewrite <-firstn_map, take_app_take.
Qed.

(** Every repetition of a GETBULK response asks each repeater once. *)
Lemma length_repetitions m n repeaters :
  length (repetitions m n repeaters) ≤ n * length repeaters.
Proof.
  revert repeaters. induction n as [|n IH]; intros repeaters; [done|].
  cbn [repetitions]. rewrite length_app, length_map. destruct (row_exhausted _); simpl; [lia|].
  specialize (IH (map (advance m) repeaters)). rewrite length_map in IH. lia.
Qed.
End bulk.

Section theorems.
Context {ID : Type} `{IdLaws ID}.
Implicit Types (m : list (ID * Value ID)) (range : SearchRange ID).

Lemma eligible_iff range id : eligible range id = true ↔ in_window range id.
Proof.
  unfold eligible, in_window, before_end, id_lt, start_bound.
  rewrite andb_true_iff, orb_true_iff, <-!id_cmp_components, <-cmp_components.
  apply Morphisms_Prop.and_iff_morphism.
  - destruct (N.eqb_spec (id_include (range_start range)) 1); simpl;
      unfold cmp, id_compare; destruct (id_cmp (range_start range) id); naive_solver.
  - apply Morphisms_Prop.or_iff_morphism; [done|].
    destruct (id_cmp id (range_end range)); naive_solver.
Qed.

Lemma elem_of_window_iff range m id v :
  (id, v) ∈ window range m ↔ (id, v) ∈ m ∧ in_window range id.
Proof. by rewrite elem_of_window, eligible_iff. Qed.

(** An exclusive start at or above the column and no end admit every row. *)
Lemma window_whole_table (rows : N → N → Prop) m range :
  table_of rows m → id_components range.(range_start) `prefix_of` STATUS →
  id_is_null range.(range_end) = true → window range m = m.
Proof.
  intros [Hwf Hs _] [k Hk] Hend. unfold window, bt_range.
  rewrite (filter_id _ m).
  - apply filter_id, Forall_forall. intros p _. unfold before_end. by rewrite Hend.
  - apply Forall_forall. intros [id v] Hin. simpl.
    destruct (Hs _ _ Hin) as (_ & _ & h & l & _ & Hid).
    assert (cmp (range_start range) id = Lt) as Hlt.
    { unfold cmp, id_compare. rewrite id_cmp_components, Hid, Hk, <-app_assoc.
      generalize (id_components (range_start range)). intros p.
      induction p as [|x p IH]; simpl; [by destruct k|]. by rewrite N.compare_refl. }
    unfold start_bound. by case_match; simpl; rewrite Hlt.
Qed.

Lemma repetitions_single n m range :
  bt_wf m → Forall (λ p, is_end_of_mib p.2 = false) m → length (window range m) < n →
  ∃ last, repetitions m n [range] =
    map (λ p, binding p.1 p.2) (window range m) ++ [binding last VEndOfMibView].
Proof.
  intros Hwf Hdata. revert range. induction n as [|n IH]; intros range Hlen; [lia|].
  cbn [repetitions map row_exhausted forallb]. rewrite get_next_window by done.
  destruct (window range m) as [|[id v] rest] eqn:Hw; simpl; [by eexists|].
  assert ((id, v) ∈ window range m) as [Hin _]%elem_of_window by (rewrite Hw; left).
  rewrite Forall_forall in Hdata. pose proof (Hdata _ Hin) as Hv. simpl in Hv. rewrite Hv.
  unfold advance. rewrite get_next_window, Hw by done. cbn [binding vb_name].
  pose proof (window_next _ _ _ _ _ Hwf Hw) as Hn.
  destruct (IH (set_start range (id_set_include 0%N id))) as [last Hlast].
  { rewrite Hn. simpl in Hlen. lia. }
  exists last. by rewrite Hlast, Hn.
Qed.

(** A repeater yields a binding per repetition as long as its window lasts. *)
Lemma repetitions_min n m range :
  bt_wf m → Forall (λ p, is_end_of_mib p.2 = false) m →
  Nat.min n (length (window range m)) ≤ length (repetitions m n [range]).
Proof.
  intros Hwf Hdata. revert range. induction n as [|n IH]; intros range; [done|].
  cbn [repetitions map row_exhausted forallb]. rewrite get_next_window by done.
  destruct (window range m) as [|[id v] rest] eqn:Hw; simpl; [lia|].
  assert ((id, v) ∈ window range m) as [Hin _]%elem_of_window by (rewrite Hw; left).
  rewrite Forall_forall in Hdata. pose proof (Hdata _ Hin) as Hv. simpl in Hv. rewrite Hv. simpl.
  unfold advance. rewrite get_next_window, Hw by done. cbn [binding vb_name].
  specialize (IH (set_start range (id_set_include 0%N id))).
  rewrite (window_next _ _ _ _ _ Hwf Hw) in IH. lia.
Qed.

(** Distinct rows make distinct instances. *)
Lemma length_table (rows : list (N * N)) m :
  NoDup rows → table_of (λ h l, (h, l) ∈ rows) m → length rows ≤ length m.
Proof.
  intros Hnd [_ _ Hc].
  rewrite <- (length_map (λ row : N * N, STATUS ++ [row.1; row.2]) rows).
  rewrite <- (length_map (λ p, id_components p.1) m).
  apply submseteq_length, NoDup_submseteq.
  - apply NoDup_fmap_2; [|done]. by intros [h l] [h' l'] [= -> ->].
  - intros cs ([h l] & -> & Hin)%list_elem_of_fmap.
    destruct (Hc _ _ Hin) as (id & Hid & Hcomp). apply list_elem_of_fmap. exists (id, VInteger 1%Z). split; [by simpl; rewrite Hcomp|done].
Qed.

(** ** Theorems *)

(** C9. [Mib::from_topology] never panics, and the table it builds holds exactly the
    rows of RFC 2863: one active ifStackStatus instance per direct relationship,
    [0.i] for an interface nothing runs over, [i.0] for one that runs over nothing. *)
Theorem from_topology_table (t : Topology) :
  ∃ m, from_topology t = Some m ∧ table_of (table_row t) m.
Proof. apply from_topology_spec. Qed.

(** C37. GET on a published table never panics, echoes the name with a cleared include
    flag, and answers 1 for a row, noSuchInstance inside the ifStackStatus column and
    noSuchObject outside it. *)
Theorem get_answers (t : Topology) m (name : ID) :
  from_topology t = Some m →
  ∃ vb, get m name = Some vb ∧ vb.(vb_name) = id_set_include 0%N name ∧
    get_answer (table_row t) (id_components name) vb.(vb_data).
Proof.
  intros Hm. destruct (from_topology_spec t) as (m' & Hm' & Ht).
  rewrite Hm in Hm'. injection Hm' as <-. by apply get_table.
Qed.

(** C10. GETNEXT returns the least row of the search window, or endOfMibView under the
    requested name when the window holds no row. *)
Theorem get_next_least m range :
  bt_wf m →
  (∃ id v, (id, v) ∈ m ∧ in_window range id ∧ get_next m range = binding id v ∧
     ∀ id' v', (id', v') ∈ m → in_window range id' →
       (id', v') = (id, v) ∨ list_compare (id_components id) (id_components id') = Lt) ∨
  ((∀ id v, (id, v) ∈ m → ¬ in_window range id) ∧
   get_next m range = binding range.(range_start) VEndOfMibView).
Proof.
  intros Hwf. rewrite get_next_window by done. pose proof (window_wf range m Hwf) as Hw.
  destruct (window range m) as [|[id v] rest] eqn:Heq.
  - right. split; [|done]. intros id v Hin Hr.
    assert ((id, v) ∈ window range m) as Hx by by apply elem_of_window_iff.
    rewrite Heq in Hx. by apply elem_of_nil in Hx.
  - left. exists id, v.
    assert ((id, v) ∈ window range m) as [Hin Hr]%elem_of_window_iff by (rewrite Heq; left).
    split_and!; [done..|]. intros id' v' Hin' Hr'.
    assert ((id', v') ∈ window range m) as Hx by by apply elem_of_window_iff.
    rewrite Heq in Hx. apply elem_of_cons in Hx as [->|Hx]; [by left|right].
    pose proof (bt_wf_cons_lt _ _ _ Hw Hx) as Hlt. unfold cmp, id_compare in Hlt.
    by rewrite id_cmp_components in Hlt.
Qed.

(** C11. A GETNEXT walk of the table from a name at or above the column terminates and
    returns every row exactly once, in strictly ascending order. *)
Theorem walk_complete (t : Topology) m range :
  from_topology t = Some m →
  id_components range.(range_start) `prefix_of` STATUS →
  id_is_null range.(range_end) = true →
  ∃ vbs, walk (S (length m)) m range = Some vbs ∧
    StronglySorted (λ a b, list_compare (id_components a.(vb_name)) (id_components b.(vb_name)) = Lt) vbs ∧
    (∀ h l, table_row t h l ↔
       ∃ vb, vb ∈ vbs ∧ vb.(vb_data) = VInteger 1%Z ∧
         id_components vb.(vb_name) = STATUS ++ [h; l]).
Proof.
  intros Hm Hstart Hend. destruct (from_topology_spec t) as (m' & Hm' & Ht).
  rewrite Hm in Hm'. injection Hm' as <-.
  pose proof (window_whole_table _ _ _ Ht Hstart Hend) as Hw.
  destruct Ht as [Hwf Hs Hc]. eexists. split.
  { apply walk_window; [done|by eapply table_data|rewrite Hw; lia]. }
  rewrite Hw. split.
  - clear -Hwf H. induction Hwf as [|[id v] m Hm IH Hall]; [constructor|].
    constructor; [done|]. apply Forall_fmap. eapply Forall_impl; [exact Hall|].
    intros [id' v'] Hlt. simpl in *. unfold cmp, id_compare in Hlt.
    by rewrite !id_components_set_include, <-id_cmp_components.
  - intros h l. split.
    + intros (id & Hin & Hid)%Hc. exists (binding id (VInteger 1%Z)). split_and!; [|done|].
      * apply list_elem_of_fmap. by exists (id, VInteger 1%Z).
      * simpl. by rewrite id_components_set_include.
    + intros (vb & ([id v] & -> & Hin)%list_elem_of_fmap & _ & Hid). cbn [binding vb_name fst] in Hid.
      rewrite id_components_set_include in Hid.
      destruct (Hs _ _ Hin) as (_ & _ & h' & l' & Hr & Hid').
      rewrite Hid' in Hid. by apply app_inj_1 in Hid as [_ [= -> ->]].
Qed.

(** C12. GETBULK is the RFC 2741 response, non-repeaters first and then repetition by
    repetition up to the first exhausted one, cut at 4096 bindings. *)
Theorem get_bulk_reference m (ranges : list (SearchRange ID)) (non_repeaters max_repetitions : nat) :
  get_bulk m ranges non_repeaters max_repetitions =
  take MAX_BULK_BINDINGS
    (map (get_next m) (take non_repeaters ranges) ++
     repetitions m max_repetitions (drop non_repeaters ranges)).
Proof.
  rewrite get_bulk_spec. simpl.
  destruct (decide (non_repeaters ≤ length ranges)); [by rewrite Nat.min_l|].
  by rewrite Nat.min_r, (take_ge ranges non_repeaters), firstn_all,
    (drop_ge ranges non_repeaters), drop_all by lia.
Qed.

(** A GETBULK response never holds more than 4096 bindings, nor more than the request
    asked for. *)
Theorem get_bulk_bounded m (ranges : list (SearchRange ID)) (non_repeaters max_repetitions : nat) :
  length (get_bulk m ranges non_repeaters max_repetitions) ≤ 4096 ∧
  length (get_bulk m ranges non_repeaters max_repetitions) ≤
    Nat.min non_repeaters (length ranges) +
    max_repetitions * (length ranges - Nat.min non_repeaters (length ranges)).
Proof.
  rewrite get_bulk_spec. cbn zeta. rewrite length_take, length_app, length_map, length_take.
  pose proof (length_repetitions m max_repetitions
    (drop (Nat.min non_repeaters (length ranges)) ranges)) as Hlen.
  rewrite length_drop in Hlen. unfold MAX_BULK_BINDINGS. lia.
Qed.

(** The cap is reached: a repeater over the whole of a table with as many rows, and as
    many repetitions, fills the response. *)
Theorem get_bulk_saturates (rows : list (N * N)) m range (n : nat) :
  from_rows rows = Some m → NoDup rows → MAX_BULK_BINDINGS ≤ length rows →
  id_components range.(range_start) `prefix_of` STATUS →
  id_is_null range.(range_end) = true → MAX_BULK_BINDINGS ≤ n →
  length (get_bulk m [range] 0 n) = MAX_BULK_BINDINGS.
Proof.
  intros Hm Hnd Hlen Hstart Hend Hn. destruct (from_rows_spec rows) as (m' & Hm' & Ht).
  rewrite Hm in Hm'. injection Hm' as <-. pose proof (length_table _ _ Hnd Ht).
  pose proof (repetitions_min n m range (table_wf _ _ Ht) (table_data _ _ Ht)) as Hrep.
  rewrite (window_whole_table _ _ _ Ht Hstart Hend) in Hrep.
  rewrite get_bulk_spec. cbn [Nat.min length take drop map app]. rewrite length_take. lia.
Qed.

(** A single-repeater GETBULK with enough repetitions returns the same bindings as a
    GETNEXT walk of the window, then one endOfMibView. *)
Theorem get_bulk_walk (t : Topology) m range (n : nat) :
  from_topology t = Some m → length m < n → length m < 4096 →
  ∃ vbs last, walk (S (length m)) m range = Some vbs ∧
    get_bulk m [range] 0 n = vbs ++ [binding last VEndOfMibView].
Proof.
  intros Hm Hn Hcap. destruct (from_topology_spec t) as (m' & Hm' & Ht).
  rewrite Hm in Hm'. injection Hm' as <-. pose proof (table_data _ _ Ht) as Hdata.
  destruct Ht as [Hwf _ _].
  assert (length (window range m) ≤ length m) as Hlen.
  { unfold window, bt_range. etrans; [apply length_filter|apply length_filter]. }
  destruct (repetitions_single n m range Hwf Hdata) as [last Hlast]; [lia|].
  exists (map (λ p, binding p.1 p.2) (window range m)), last. split.
  { apply walk_window; [done..|lia]. }
  rewrite get_bulk_spec. simpl. rewrite Hlast. apply take_ge.
  rewrite length_app, length_map. unfold MAX_BULK_BINDINGS. simpl. lia.
Qed.
End theorems.
