(* ===== verification/Duration.v ===== *)
(** [std::time::Duration] as a number of nanoseconds, with the operations
    the source uses. An [Instant] is the duration since a fixed origin. *)

From S2P Require Import Prelude.
Open Scope N_scope.

Definition NANOS_PER_SEC : N := 1000000000.
Definition NANOS_PER_MILLI : N := 1000000.

(** [Duration::MAX]: [u64::MAX] seconds and 999,999,999 nanoseconds. *)
Definition DURATION_MAX : N := (2 ^ 64 - 1) * NANOS_PER_SEC + 999999999.

Definition from_secs (secs : N) : N := secs * NANOS_PER_SEC.
Definition saturating_add (a b : N) : N := N.min (a + b) DURATION_MAX.

(** Subtraction on [N] stops at zero, as [saturating_sub] does. *)
Definition saturating_sub (a b : N) : N := a - b.

Definition is_zero (d : N) : bool := d =? 0.
Definition as_millis (d : N) : N := d / NANOS_PER_MILLI.
Definition subsec_nanos (d : N) : N := d mod NANOS_PER_SEC.

(** ** Lemmas *)

Lemma saturating_add_le_max a b : saturating_add a b ≤ DURATION_MAX.
Proof. unfold saturating_add. lia. Qed.

Lemma saturating_add_mono a b a' b' :
  a ≤ a' → b ≤ b' → saturating_add a b ≤ saturating_add a' b'.
Proof. unfold saturating_add. lia. Qed.

Lemma saturating_add_ge a b : a ≤ DURATION_MAX → a ≤ saturating_add a b.
Proof. unfold saturating_add. lia. Qed.
