(* ===== verification/Monitor.v ===== *)
(** The topology monitor of [src/src/monitor.rs]: the publication cell, the
    scheduling state, and the actor's loop against the acquisition
    interface. *)

From S2P Require Import Prelude BTree Link Agentx Mib Duration.
Open Scope N_scope.

(** ** Constants *)

Definition INITIAL_DELAY : N := from_secs 1.
Definition MAX_DELAY : N := from_secs 30.
Definition EVENT_RESET : N := from_secs 60.

(** ** The acquisition interface *)

Record Attempt := mkAttempt { attempt_continuity : N }.

Record EventBatch := mkBatch { first : option N; last : option N }.

(** [EventBatch::default()] *)
Definition empty_batch : EventBatch := mkBatch None None.

Record Inventory := mkInventory {
  inv_attempt : Attempt;
  inv_links : list ObservedLink;
  inv_events : EventBatch;
}.

Inductive AcquisitionError :=
| Ordinary (error : Error) (events : EventBatch)
| Lost (error : Error) (events : EventBatch).

Inductive WaitOutcome :=
| Deadline
| LinkChanged (at_time : N).

(** [trait Acquisition], over a world [W] that holds the adapter and
    everything outside the process. *)
Class Acquisition (W : Type) := {
  acq_now : W → N * W;
  acq_subscribe : W → result Error unit * W;
  acq_inventory : Attempt → W → result AcquisitionError Inventory * W;
  acq_wait : N → W → result Error WaitOutcome * W;
}.

(** ** Scheduling state *)

Record State := mkState {
  reconcile : N;
  continuity : N;
  subscribed : bool;
  needs_inventory : bool;
  retry_not_before : option N;
  failure_delay : N;
  event_deadline : option N;
  event_delay : N;
  last_event : option N;
  last_success : option N;
}.

(** [State::new] *)
Definition State_new (reconcile : N) : State := {|
  reconcile := reconcile;
  continuity := 0;
  subscribed := false;
  needs_inventory := true;
  retry_not_before := None;
  failure_delay := INITIAL_DELAY;
  event_deadline := None;
  event_delay := INITIAL_DELAY;
  last_event := None;
  last_success := None;
|}.

(** Field assignments. *)
Definition set_subscription (sub needs : bool) (s : State) : State :=
  mkState s.(reconcile) s.(continuity) sub needs s.(retry_not_before) s.(failure_delay)
    s.(event_deadline) s.(event_delay) s.(last_event) s.(last_success).
Definition set_continuity (c : N) (s : State) : State :=
  mkState s.(reconcile) c s.(subscribed) s.(needs_inventory) s.(retry_not_before)
    s.(failure_delay) s.(event_deadline) s.(event_delay) s.(last_event) s.(last_success).
Definition set_retry (retry : option N) (delay : N) (s : State) : State :=
  mkState s.(reconcile) s.(continuity) s.(subscribed) s.(needs_inventory) retry delay
    s.(event_deadline) s.(event_delay) s.(last_event) s.(last_success).
Definition set_event (deadline : option N) (delay : N) (ev : option N) (s : State) : State :=
  mkState s.(reconcile) s.(continuity) s.(subscribed) s.(needs_inventory)
    s.(retry_not_before) s.(failure_delay) deadline delay ev s.(last_success).
Definition set_success (success : option N) (s : State) : State :=
  mkState s.(reconcile) s.(continuity) s.(subscribed) s.(needs_inventory)
    s.(retry_not_before) s.(failure_delay) s.(event_deadline) s.(event_delay)
    s.(last_event) success.

(** [option.is_none_or(f)] and [option.is_some_and(f)] *)
Definition is_none_or (o : option N) (f : N → bool) : bool :=
  match o with None => true | Some x => f x end.
Definition is_some_and (o : option N) (f : N → bool) : bool :=
  match o with None => false | Some x => f x end.

(** [fn next_delay] *)
Definition next_delay (delay : N) : N := N.min (delay * 2) MAX_DELAY.

Definition retry_ready (s : State) (now : N) : bool :=
  is_none_or s.(retry_not_before) (λ deadline, deadline <=? now).

Definition acquisition_ready (s : State) (now : N) : bool :=
  if negb (retry_ready s now) then false
  else s.(needs_inventory)
    || is_some_and s.(event_deadline) (λ deadline, deadline <=? now)
    || is_some_and s.(last_success)
         (λ success, saturating_add success s.(reconcile) <=? now).

Definition start_acquisition (s : State) : State :=
  let s := set_subscription s.(subscribed) false s in
  match s.(event_deadline) with
  | Some _ => set_event None (next_delay s.(event_delay)) s.(last_event) s
  | None => s
  end.

Definition record_event (s : State) (at_time : N) : State :=
  let s := if is_none_or s.(last_event)
                (λ last, EVENT_RESET <=? saturating_sub at_time last)
           then set_event s.(event_deadline) INITIAL_DELAY s.(last_event) s else s in
  let s := set_event s.(event_deadline) s.(event_delay) (Some at_time) s in
  match s.(event_deadline) with
  | None => set_event (Some (saturating_add at_time s.(event_delay))) s.(event_delay)
              s.(last_event) s
  | Some _ => s
  end.

Definition record_batch (s : State) (batch : EventBatch) : result Error State :=
  match batch.(first), batch.(last) with
  | None, None => Ok s
  | Some first, Some last =>
      if (first <=? last) && (last - first <? EVENT_RESET) then
        let s := record_event s first in
        Ok (if negb (first =? last) then record_event s last else s)
      else Err (error_other "invalid inventory notification timestamps")
  | _, _ => Err (error_other "invalid inventory notification timestamps")
  end.

Definition retain_failed_events (s : State) (events : EventBatch) : State :=
  match record_batch s events with Ok s' => s' | Err _ => s end.

(** The state is kept on every path: a batch recorded before the inventory
    is found invalid stays recorded. *)
Definition accept_inventory (s : State) (inventory : Inventory) (now : N)
    : State * result Error Topology :=
  if negb (inventory.(inv_attempt).(attempt_continuity) =? s.(continuity)) then
    (s, Err (error_other "stale inventory from an earlier continuity generation"))
  else match record_batch s inventory.(inv_events) with
  | Err e => (s, Err e)
  | Ok s =>
      match from_observed inventory.(inv_links) with
      | Err e => (s, Err e)
      | Ok topology => (set_success (Some now) (set_retry None INITIAL_DELAY s), Ok topology)
      end
  end.

Definition fail (s : State) (now : N) : State :=
  set_retry (Some (saturating_add now s.(failure_delay))) (next_delay s.(failure_delay))
    (set_subscription s.(subscribed) true s).

Definition next_deadline (s : State) (now : N) : N :=
  match s.(retry_not_before) with
  | Some deadline => N.max deadline now
  | None =>
      if negb s.(subscribed) || s.(needs_inventory) then now
      else
        let event := default DURATION_MAX s.(event_deadline) in
        let reconcile := match s.(last_success) with
                         | None => now
                         | Some success => saturating_add success s.(reconcile)
                         end in
        N.max (N.min event reconcile) now
  end.

(** ** The publication cell and the loop *)

Section monitor.
Context {ID : Type} `{!IdOps ID}.

(** [Arc<RwLock<Option<Arc<Mib>>>>]: readers and the publisher share one
    cell, and a reader's snapshot is the cell's current table. *)
Definition Cell : Type := option (list (ID * Value ID)).

Definition publication : option (list (ID * Value ID)) := None.
Definition snapshot (cell : option (list (ID * Value ID))) : option (list (ID * Value ID)) := cell.
Definition publish (mib : list (ID * Value ID)) (cell : option (list (ID * Value ID)))
  : option (list (ID * Value ID)) := Some mib.
Definition unavailable (cell : option (list (ID * Value ID)))
  : option (list (ID * Value ID)) := None.

Definition lose_continuity (s : State) (now : N) (cell : option (list (ID * Value ID)))
    : State * option (list (ID * Value ID)) :=
  let cell := unavailable cell in
  let s := set_continuity (wrapping_add U64_MODULUS s.(continuity) 1) s in
  let s := set_subscription false true s in
  (fail s now, cell).

Context {W : Type} `{!Acquisition W}.

(** What one iteration does to the outside: the calls on the source and the
    writes to the publication cell, with the clock reading that led to them. *)
Inductive Action :=
| Subscribe (now : N) (ok : bool)
| Acquire (now : N) (attempt : Attempt)
| Publish (mib : list (ID * Value ID))
| Unavailable
| Wait (now : N) (timeout : N).

Record Config := mkConfig {
  world : W;
  state : State;
  cell : option (list (ID * Value ID));
}.

(** The subscription block of the loop body. *)
Definition try_subscribe (c : Config) : list Action * Config :=
  let '(now, w) := acq_now c.(world) in
  if negb c.(state).(subscribed) && retry_ready c.(state) now then
    match acq_subscribe w with
    | (Ok _, w) => ([Subscribe now true], mkConfig w (set_subscription true true c.(state)) c.(cell))
    | (Err _, w) =>
        let '(at_time, w) := acq_now w in
        ([Subscribe now false], mkConfig w (fail c.(state) at_time) c.(cell))
    end
  else ([], mkConfig w c.(state) c.(cell)).

(** The acquisition block, entered at the reading [now]; [None] is a panic. *)
Definition acquire (now : N) (c : Config) : option (list Action * Config) :=
  let s := start_acquisition c.(state) in
  let attempt := mkAttempt s.(continuity) in
  match acq_inventory attempt c.(world) with
  | (Ok inventory, w) =>
      let '(at_time, w) := acq_now w in
      match accept_inventory s inventory at_time with
      | (s, Ok topology) =>
          mib ← from_topology topology;
          Some ([Acquire now attempt; Publish mib], mkConfig w s (publish mib c.(cell)))
      | (s, Err _) =>
          let '(at_time, w) := acq_now w in
          Some ([Acquire now attempt], mkConfig w (fail s at_time) c.(cell))
      end
  | (Err (Ordinary _ events), w) =>
      let s := retain_failed_events s events in
      let '(at_time, w) := acq_now w in
      Some ([Acquire now attempt], mkConfig w (fail s at_time) c.(cell))
  | (Err (Lost _ events), w) =>
      let s := retain_failed_events s events in
      let '(at_time, w) := acq_now w in
      let '(s, cell) := lose_continuity s at_time c.(cell) in
      Some ([Acquire now attempt; Unavailable], mkConfig w s cell)
  end.

(** The wait at the end of the loop body. *)
Definition wait_step (now : N) (c : Config) : list Action * Config :=
  let timeout := saturating_sub (next_deadline c.(state) now) now in
  match acq_wait timeout c.(world) with
  | (Ok Deadline, w) => ([Wait now timeout], mkConfig w c.(state) c.(cell))
  | (Ok (LinkChanged at_time), w) =>
      ([Wait now timeout], mkConfig w (record_event c.(state) at_time) c.(cell))
  | (Err _, w) =>
      let '(at_time, w) := acq_now w in
      let '(s, cell) := lose_continuity c.(state) at_time c.(cell) in
      ([Wait now timeout; Unavailable], mkConfig w s cell)
  end.

(** One iteration of the loop of [monitor::run]. *)
Definition run_step (c : Config) : option (list Action * Config) :=
  let '(acts, c) := try_subscribe c in
  let '(now, w) := acq_now c.(world) in
  let c := mkConfig w c.(state) c.(cell) in
  if c.(state).(subscribed) && acquisition_ready c.(state) now then
    '(acts', c) ← acquire now c; Some (acts ++ acts', c)
  else
    let '(acts', c) := wait_step now c in Some (acts ++ acts', c).

(** The configuration [monitor::run] starts its loop from. *)
Definition run_start (w : W) (reconcile : N) : Config :=
  mkConfig w (State_new reconcile) publication.

(** [n] iterations, with the actions in order; [None] is a panic. *)
Fixpoint run (n : nat) (c : Config) : option (list Action * Config) :=
  match n with
  | O => Some ([], c)
  | S n' =>
      '(acts, c) ← run_step c;
      '(acts', c) ← run n' c;
      Some (acts ++ acts', c)
  end.
End monitor.
Arguments Config ID W : clear implicits.
Arguments Action ID : clear implicits.

(** ** The state invariant *)

(** The delays both backoffs run through. *)
Definition backoff_delays : list N := map from_secs [1; 2; 4; 8; 16; 30].

(** What holds of the state whenever the loop is at its head. *)
Record state_inv (s : State) : Prop := {
  inv_failure_delay : s.(failure_delay) ∈ backoff_delays;
  inv_event_delay : s.(event_delay) ∈ backoff_delays;
  inv_continuity : s.(continuity) < U64_MODULUS;
  inv_unsubscribed : s.(subscribed) = false → s.(needs_inventory) = true;
  inv_retry : is_Some s.(retry_not_before) → s.(needs_inventory) = true;
  inv_idle : s.(needs_inventory) = false → is_Some s.(last_success);
  inv_event : is_Some s.(event_deadline) → is_Some s.(last_event);
}.

(** The part that also holds while an acquisition is in flight. *)
Record flight_inv (s : State) : Prop := {
  flight_failure_delay : s.(failure_delay) ∈ backoff_delays;
  flight_event_delay : s.(event_delay) ∈ backoff_delays;
  flight_continuity : s.(continuity) < U64_MODULUS;
  flight_event : is_Some s.(event_deadline) → is_Some s.(last_event);
}.

Create HintDb monitor.
#[export] Hint Constructors flight_inv state_inv : monitor.

Lemma state_inv_flight s : state_inv s → flight_inv s.
Proof. intros []. by constructor. Qed.

Lemma initial_delay_backoff : INITIAL_DELAY ∈ backoff_delays.
Proof. left. Qed.

Lemma next_delay_backoff d : d ∈ backoff_delays → next_delay d ∈ backoff_delays.
Proof.
  assert (Forall (λ d, next_delay d ∈ backoff_delays) backoff_delays) as Hall.
  { eapply bool_decide_unpack. vm_compute. exact I. }
  rewrite Forall_forall in Hall. apply Hall.
Qed.

Lemma backoff_le_next d : d ∈ backoff_delays → d ≤ next_delay d.
Proof.
  assert (Forall (λ d, d ≤ next_delay d) backoff_delays) as Hall.
  { eapply bool_decide_unpack. vm_compute. exact I. }
  rewrite Forall_forall in Hall. apply Hall.
Qed.

Lemma backoff_bounds d : d ∈ backoff_delays → INITIAL_DELAY ≤ d ≤ MAX_DELAY.
Proof.
  assert (Forall (λ d, INITIAL_DELAY ≤ d ∧ d ≤ MAX_DELAY) backoff_delays) as Hall.
  { eapply bool_decide_unpack. vm_compute. exact I. }
  rewrite Forall_forall in Hall. apply Hall.
Qed.

#[export] Hint Resolve state_inv_flight initial_delay_backoff next_delay_backoff : monitor.

(** Prove an invariant field by field. *)
Ltac solve_inv :=
  constructor; simpl in *; auto with monitor; try done; try congruence;
  try (intros [? ?]; congruence); eauto.

(** *** Each operation keeps it *)

Lemma State_new_inv r : state_inv (State_new r).
Proof. solve_inv. Qed.

Lemma set_subscription_inv s : state_inv s → state_inv (set_subscription true true s).
Proof. intros []. by constructor. Qed.

Lemma start_acquisition_inv s : flight_inv s → flight_inv (start_acquisition s).
Proof.
  intros []. unfold start_acquisition. simpl.
  destruct (event_deadline s) eqn:?; solve_inv.
Qed.

Lemma record_event_inv s t : flight_inv s → flight_inv (record_event s t).
Proof.
  intros []. unfold record_event. destruct (is_none_or _ _); simpl;
    destruct (event_deadline s) eqn:?; solve_inv.
Qed.

(** [record_event] leaves the subscription, the retry floor, the failure
    delay and the last success alone. *)
Lemma record_event_frame s t :
  let s' := record_event s t in
  s'.(reconcile) = s.(reconcile) ∧ s'.(continuity) = s.(continuity) ∧
  s'.(subscribed) = s.(subscribed) ∧ s'.(needs_inventory) = s.(needs_inventory) ∧
  s'.(retry_not_before) = s.(retry_not_before) ∧ s'.(failure_delay) = s.(failure_delay) ∧
  s'.(last_success) = s.(last_success).
Proof.
  unfold record_event. destruct (is_none_or _ _); simpl; by destruct (event_deadline s).
Qed.

Lemma record_batch_cases s b s' :
  record_batch s b = Ok s' →
  s' = s ∨ (∃ f, s' = record_event s f) ∨ (∃ f l, s' = record_event (record_event s f) l).
Proof.
  unfold record_batch. destruct (first b) as [f|], (last b) as [l|]; try naive_solver.
  destruct (_ && _); [|done]. destruct (negb _); naive_solver.
Qed.

Lemma retain_cases s b :
  retain_failed_events s b = s ∨ (∃ f, retain_failed_events s b = record_event s f) ∨
  (∃ f l, retain_failed_events s b = record_event (record_event s f) l).
Proof.
  unfold retain_failed_events. destruct (record_batch s b) eqn:Hb; [|by left].
  by apply record_batch_cases in Hb.
Qed.

Lemma record_batch_inv s b s' : record_batch s b = Ok s' → flight_inv s → flight_inv s'.
Proof. intros [->|[[? ->]|(? & ? & ->)]]%record_batch_cases ?; auto using record_event_inv. Qed.

Lemma retain_inv s b : flight_inv s → flight_inv (retain_failed_events s b).
Proof. destruct (retain_cases s b) as [->|[[? ->]|(? & ? & ->)]]; auto using record_event_inv. Qed.

Lemma fail_inv s t : flight_inv s → state_inv (fail s t).
Proof. intros []. solve_inv. Qed.

Lemma record_event_state_inv s t : state_inv s → state_inv (record_event s t).
Proof.
  intros Hs. pose proof (record_event_inv s t (state_inv_flight _ Hs)) as [].
  destruct (record_event_frame s t) as (? & ? & Hsub & Hneed & Hretry & _ & Hsucc).
  destruct Hs. constructor; rewrite ?Hsub, ?Hneed, ?Hretry, ?Hsucc; done.
Qed.

(** Every path of [accept_inventory]. *)
Lemma accept_inventory_cases s inv now s' r :
  accept_inventory s inv now = (s', r) →
  (s' = s ∧ (∃ e, r = Err e)) ∨
  (∃ s1, record_batch s inv.(inv_events) = Ok s1 ∧
     inv.(inv_attempt).(attempt_continuity) = s.(continuity) ∧
     ((s' = s1 ∧ ∃ e, r = Err e ∧ from_observed inv.(inv_links) = Err e) ∨
      (s' = set_success (Some now) (set_retry None INITIAL_DELAY s1) ∧
       ∃ t, r = Ok t ∧ from_observed inv.(inv_links) = Ok t))).
Proof.
  unfold accept_inventory. destruct (negb _) eqn:Hc; [naive_solver|]. bool_to_prop.
  destruct (record_batch _ _) as [s1|e] eqn:Hb; [|naive_solver].
  destruct (from_observed _) eqn:Ho; intros [= <- <-]; right; exists s1; naive_solver.
Qed.

Lemma accept_success_inv s t : flight_inv s →
  s.(subscribed) = true → state_inv (set_success (Some t) (set_retry None INITIAL_DELAY s)).
Proof.
  intros [] Hsub. solve_inv.
Qed.

(** The monitor's view of its subscription changes with the source only. *)
Lemma retain_subscribed s b : (retain_failed_events s b).(subscribed) = s.(subscribed).
Proof.
  destruct (retain_cases s b) as [->|[[f ->]|(f & l & ->)]]; [done|..].
  - by destruct (record_event_frame s f) as (_ & _ & -> & _).
  - destruct (record_event_frame (record_event s f) l) as (_ & _ & -> & _).
    by destruct (record_event_frame s f) as (_ & _ & -> & _).
Qed.

Lemma accept_subscribed s inv t s' r :
  accept_inventory s inv t = (s', r) → s'.(subscribed) = s.(subscribed).
Proof.
  assert (∀ s1, record_batch s inv.(inv_events) = Ok s1 → s1.(subscribed) = s.(subscribed)) as Hb.
  { intros s1 Hs1. pose proof (retain_subscribed s inv.(inv_events)) as Hr.
    unfold retain_failed_events in Hr. by rewrite Hs1 in Hr. }
  intros [[-> _]|(s1 & Hs1 & _ & [[-> _]|[-> _]])]%accept_inventory_cases;
    simpl; auto.
Qed.

Lemma start_acquisition_frame s :
  let s' := start_acquisition s in
  s'.(continuity) = s.(continuity) ∧ s'.(subscribed) = s.(subscribed) ∧
  s'.(retry_not_before) = s.(retry_not_before) ∧ s'.(failure_delay) = s.(failure_delay) ∧
  s'.(last_success) = s.(last_success) ∧ s'.(event_deadline) = None.
Proof. unfold start_acquisition. simpl. destruct (event_deadline s) eqn:Hd; simpl; by rewrite ?Hd. Qed.

(** ** Scheduling lemmas *)

(** Whether an iteration that reads the clock at [t] starts work: a
    subscription when there is none, an acquisition otherwise. *)
Definition would_act (s : State) (t : N) : bool :=
  if s.(subscribed) then acquisition_ready s t else retry_ready s t.

Lemma retry_ready_mono s t t' : retry_ready s t = true → t ≤ t' → retry_ready s t' = true.
Proof.
  unfold retry_ready. destruct (retry_not_before s); simpl; [|done]. rewrite !N.leb_le. lia.
Qed.

Lemma next_deadline_correct s now t :
  state_inv s → would_act s now = false → now ≤ t →
  would_act s t = true ↔ next_deadline s now ≤ t.
Proof.
  intros Hinv Hno Ht. unfold would_act, acquisition_ready, next_deadline, retry_ready in *.
  destruct (retry_not_before s) as [d|] eqn:Hd; simpl in *.
  - assert (now < d) as Hlt.
    { destruct (subscribed s); [|by apply N.leb_gt].
      destruct (N.leb_spec d now); [|done]. simpl in Hno.
      rewrite (inv_retry _ Hinv) in Hno by (rewrite Hd; eauto). done. }
    rewrite (inv_retry _ Hinv) by (rewrite Hd; eauto). simpl.
    destruct (subscribed s), (N.leb_spec d t); simpl; split; intros; try done; try lia.
  - destruct (subscribed s) eqn:Hsub; simpl in *; [|done].
    destruct (needs_inventory s) eqn:Hneed; simpl in *; [done|].
    destruct (inv_idle _ Hinv Hneed) as [su Hsu]. rewrite Hsu in *. simpl in *.
    destruct (event_deadline s) as [d|]; simpl in *;
      rewrite ?orb_false_iff, ?orb_true_iff, ?N.leb_gt, ?N.leb_le in *;
      pose proof (saturating_add_le_max su (reconcile s)); lia.
Qed.

(** The delay after [n] doublings. *)
Definition nth_delay (n : nat) : N := from_secs (N.min (2 ^ N.of_nat n) 30).

Lemma next_delay_nth n : next_delay (nth_delay n) = nth_delay (S n).
Proof.
  unfold next_delay, nth_delay, MAX_DELAY, from_secs.
  rewrite Nat2N.inj_succ, N.pow_succ_r'. generalize (2 ^ N.of_nat n). unfold NANOS_PER_SEC. lia.
Qed.

Lemma failure_delay_after s ts n :
  s.(failure_delay) = nth_delay n →
  (foldl fail s ts).(failure_delay) = nth_delay (n + length ts).
Proof.
  revert s n. induction ts as [|t ts IH]; intros s n Hs; simpl; [by rewrite Nat.add_0_r|].
  rewrite (IH _ (S n)); [f_equal; lia|]. simpl. by rewrite Hs, next_delay_nth.
Qed.

(** An event followed by the acquisition it triggers. *)
Definition event_round (s : State) (t : N) : State := start_acquisition (record_event s t).

Lemma record_event_idle s t :
  s.(event_deadline) = None →
  let delay := if is_none_or s.(last_event) (λ l, EVENT_RESET <=? saturating_sub t l)
               then INITIAL_DELAY else s.(event_delay) in
  (record_event s t).(event_deadline) = Some (saturating_add t delay) ∧
  (record_event s t).(event_delay) = delay ∧ (record_event s t).(last_event) = Some t.
Proof.
  intros Hd. unfold record_event. destruct (is_none_or _ _); simpl; rewrite Hd; simpl; auto.
Qed.

Lemma record_event_pending s t d :
  s.(event_deadline) = Some d →
  (record_event s t).(event_deadline) = Some d ∧ (record_event s t).(last_event) = Some t.
Proof.
  intros Hd. unfold record_event. destruct (is_none_or _ _); simpl; rewrite Hd; simpl; auto.
Qed.

Lemma event_round_state s t :
  s.(event_deadline) = None →
  let delay := if is_none_or s.(last_event) (λ l, EVENT_RESET <=? saturating_sub t l)
               then INITIAL_DELAY else s.(event_delay) in
  (event_round s t).(event_deadline) = None ∧
  (event_round s t).(event_delay) = next_delay delay ∧
  (event_round s t).(last_event) = Some t.
Proof.
  intros Hd. destruct (record_event_idle s t Hd) as (Hr & Hdel & Hl).
  unfold event_round, start_acquisition. simpl. rewrite Hr. simpl. by rewrite Hdel, Hl.
Qed.

Lemma event_rounds s ts t l n :
  s.(event_deadline) = None → s.(event_delay) = nth_delay n → s.(last_event) = Some l →
  Sorted (λ a b, b - a < EVENT_RESET) (l :: ts ++ [t]) →
  (record_event (foldl event_round s ts) t).(event_deadline) =
    Some (saturating_add t (nth_delay (n + length ts))).
Proof.
  revert s l n. induction ts as [|u ts IH]; intros s l n Hd Hdel Hl Hs;
    apply Sorted_inv in Hs as [Hs Hgap]; apply HdRel_inv in Hgap; simpl.
  - destruct (record_event_idle s t Hd) as (-> & _ & _). rewrite Hl, Hdel. simpl.
    unfold saturating_sub. destruct (N.leb_spec EVENT_RESET (t - l)); [lia|].
    by rewrite Nat.add_0_r.
  - destruct (event_round_state s u Hd) as (Hd' & Hdel' & Hl'). rewrite Hl, Hdel in Hdel'.
    simpl in Hdel'. unfold saturating_sub in Hdel'.
    destruct (N.leb_spec EVENT_RESET (u - l)); [lia|]. rewrite next_delay_nth in Hdel'.
    rewrite (IH _ u (S n)); [do 2 f_equal; f_equal; lia|done..].
Qed.

(** A batch is accepted exactly when it is empty or spans less than the
    quiet period in order; then the first event is pending. *)
Definition batch_ok (b : EventBatch) : Prop :=
  match b.(first), b.(last) with
  | None, None => True
  | Some f, Some l => f ≤ l ∧ l - f < EVENT_RESET
  | _, _ => False
  end.

Lemma record_batch_ok s b : is_ok (record_batch s b) = true ↔ batch_ok b.
Proof.
  unfold record_batch, batch_ok. destruct (first b) as [f|], (last b) as [l|]; try done.
  destruct (N.leb_spec f l), (N.ltb_spec (l - f) EVENT_RESET); simpl; split; try done; lia.
Qed.

Lemma record_batch_event s f l s' :
  s.(event_deadline) = None → record_batch s (mkBatch (Some f) (Some l)) = Ok s' →
  s'.(event_deadline) = (record_event s f).(event_deadline) ∧ s'.(last_event) = Some l.
Proof.
  intros Hd. unfold record_batch. simpl.
  destruct (record_event_idle s f Hd) as (Hr & _ & Hl).
  destruct (_ && _); [|done]. destruct (N.eqb_spec f l) as [->|]; simpl; intros [= <-]; [done|].
  destruct (record_event_pending _ l _ Hr) as [-> ->]. by rewrite Hr.
Qed.

(** ** Theorems *)

(** C33. The wait deadline is exact: when the loop has nothing to do at its reading of the
    clock, a later reading starts work (a subscription, or an acquisition for a retry, an
    event or the reconciliation) if and only if it has reached [next_deadline]; so the
    computed timeout is never zero and no wake-up is early or late. *)
Theorem next_deadline_exact (s : State) (now t : N) :
  state_inv s → would_act s now = false → now ≤ t →
  (would_act s t = true ↔ next_deadline s now ≤ t) ∧
  0 < saturating_sub (next_deadline s now) now.
Proof.
  intros Hinv Hno Ht. split; [by apply next_deadline_correct|].
  unfold saturating_sub. destruct (N.le_gt_cases (next_deadline s now) now) as [Hle|]; [|lia].
  apply (next_deadline_correct s now now Hinv Hno) in Hle; [congruence|lia].
Qed.

(** Consecutive failures back off through 1, 2, 4, 8, 16 and then 30 seconds: from the
    initial delay, the failure after [n] others at [ts] sets the retry floor
    [min (2^n) 30] seconds after its own time. *)
Theorem failure_backoff (s : State) (ts : list N) (t : N) :
  s.(failure_delay) = INITIAL_DELAY →
  (foldl fail s (ts ++ [t])).(retry_not_before) =
    Some (saturating_add t (from_secs (N.min (2 ^ N.of_nat (length ts)) 30))).
Proof.
  intros Hs. rewrite foldl_app. simpl. by rewrite (failure_delay_after s ts 0 Hs).
Qed.

(** Under sustained link events, with less than 60 seconds between them and an
    acquisition after each, the event delay also runs through 1, 2, 4, 8, 16 and 30
    seconds; a gap of 60 seconds or more returns it to one second. *)
Theorem event_backoff (s : State) (ts : list N) (l t : N) :
  s.(event_deadline) = None → s.(event_delay) = INITIAL_DELAY → s.(last_event) = Some l →
  (Sorted (λ a b, b - a < EVENT_RESET) (l :: ts ++ [t]) →
   (record_event (foldl event_round s ts) t).(event_deadline) =
     Some (saturating_add t (from_secs (N.min (2 ^ N.of_nat (length ts)) 30)))) ∧
  (∀ quiet, EVENT_RESET ≤ quiet - List.last ts l →
   (record_event (foldl event_round s ts) quiet).(event_deadline) =
     Some (saturating_add quiet (from_secs 1))).
Proof.
  intros Hd Hdel Hl. split; [by apply (event_rounds s ts t l 0)|].
  intros quiet Hq.
  assert (∀ ts s l, s.(event_deadline) = None → s.(last_event) = Some l →
    (foldl event_round s ts).(event_deadline) = None ∧
    (foldl event_round s ts).(last_event) = Some (List.last ts l)) as Hlast.
  { clear. intros ts. induction ts as [|u ts IH]; intros s l Hd Hl; [done|]. cbn [foldl].
    destruct (event_round_state s u Hd) as (Hd' & _ & Hl').
    destruct (IH _ u Hd' Hl') as [-> ->]. split; [done|]. f_equal.
    destruct ts as [|v ts]; [done|]. symmetry. clear. revert v.
    induction ts as [|w ts IH]; intros v; [done|]. exact (IH w). }
  destruct (Hlast ts s l Hd Hl) as [Hd' Hl'].
  destruct (record_event_idle _ quiet Hd') as (-> & _ & _). rewrite Hl'. simpl.
  unfold saturating_sub. by rewrite (proj2 (N.leb_le _ _) Hq).
Qed.

(** An inventory is accepted exactly when it belongs to the current continuity
    generation, its event batch is well formed and its links are a valid inventory. An
    accepted one clears the retry floor, resets the failure delay and records the success
    time; a stale one leaves the whole state alone. *)
Theorem accept_inventory_decides (s : State) (inv : Inventory) (now : N) :
  let '(s', r) := accept_inventory s inv now in
  (is_ok r = true ↔
     inv.(inv_attempt).(attempt_continuity) = s.(continuity) ∧
     batch_ok inv.(inv_events) ∧ valid_inventory inv.(inv_links)) ∧
  (∀ t, r = Ok t → topology_of inv.(inv_links) t ∧ s'.(retry_not_before) = None ∧
     s'.(failure_delay) = INITIAL_DELAY ∧ s'.(last_success) = Some now) ∧
  (inv.(inv_attempt).(attempt_continuity) ≠ s.(continuity) → s' = s).
Proof.
  unfold accept_inventory.
  destruct (N.eqb_spec (attempt_continuity (inv_attempt inv)) (continuity s)) as [Hc|Hc]; simpl.
  2: { split; [split; [done|tauto]|]. by split. }
  pose proof (record_batch_ok s (inv_events inv)) as Hb.
  destruct (record_batch s (inv_events inv)) as [s1|e]; simpl in *.
  2: { split; [split; [done|]|by split]. intros (_ & Hok & _). by apply Hb in Hok. }
  pose proof (from_observed_spec (inv_links inv)) as Hs.
  destruct (from_observed (inv_links inv)) as [topo|e]; simpl; destruct Hs as [Hv Ht].
  - split; [split; [|done]; intros _; split_and!; [done|by apply Hb|done]|].
    split; [|done]. intros t [= <-]. by split_and!.
  - split; [split; [done|tauto]|]. by split.
Qed.

(** C38. Link events seen while an inventory runs are not lost: after the acquisition has
    taken the pending deadline, a batch from [f] to [l] leaves a new deadline one event
    delay after [f], whether the inventory is accepted or fails. *)
Theorem inventory_events_stay_pending (s : State) (f l now : N) (att : Attempt)
    (links : list ObservedLink) (topology : Topology) (s' : State) :
  accept_inventory (start_acquisition s) (mkInventory att links (mkBatch (Some f) (Some l))) now
    = (s', Ok topology) →
  let s1 := start_acquisition s in
  let delay := if is_none_or s1.(last_event) (λ e, EVENT_RESET <=? saturating_sub f e)
               then INITIAL_DELAY else s1.(event_delay) in
  s'.(event_deadline) = Some (saturating_add f delay) ∧ s'.(last_event) = Some l ∧
  (fail (retain_failed_events s1 (mkBatch (Some f) (Some l))) now).(event_deadline) =
    Some (saturating_add f delay).
Proof.
  intros Ha. cbv zeta. pose proof (start_acquisition_frame s) as (_ & _ & _ & _ & _ & Hnone).
  destruct (record_event_idle _ f Hnone) as (Hr & _ & _). cbv zeta in Hr.
  apply accept_inventory_cases in Ha as [[_ [e ?]]|(s2 & Hb & _ & Hcase)]; [done|]. simpl in Hb.
  destruct (record_batch_event _ _ _ _ Hnone Hb) as [Hd Hl]. rewrite Hr in Hd.
  unfold retain_failed_events. rewrite Hb. simpl.
  destruct Hcase as [[_ (e & ? & _)]|[-> _]]; [done|]. simpl. done.
Qed.
