(* ===== verification/MonitorRuns.v ===== *)
(** Runs of the topology monitor: an abstract transition system for the
    actor, the refinement of [monitor::run] to it under the contract of the
    acquisition interface, and the safety properties of whole runs. *)

From S2P Require Import Prelude BTree Link Agentx Mib Duration Monitor.
Open Scope N_scope.

(** ** The contract of an acquisition source *)

(** A batch of event times observed between [lo] and [hi]. *)
Definition batch_within (lo hi : N) (b : EventBatch) : Prop :=
  match b.(first), b.(last) with
  | None, None => True
  | Some f, Some l => lo ≤ f ∧ f ≤ l ∧ l ≤ hi
  | _, _ => False
  end.

(** What the monitor may rely on: a clock that never runs backwards and that
    [now] reads, event times inside the call that reports them, and an
    inventory that echoes its attempt. *)
Class AcquisitionLaws (W : Type) `{!Acquisition W} (clock : W → N) : Prop := {
  acq_now_law : ∀ w t w', acq_now w = (t, w') → clock w ≤ t ∧ t ≤ clock w';
  acq_subscribe_law : ∀ w r w', acq_subscribe w = (r, w') → clock w ≤ clock w';
  acq_inventory_law : ∀ a w r w', acq_inventory a w = (r, w') →
    clock w ≤ clock w' ∧
    match r with
    | Ok inv => inv.(inv_attempt) = a ∧ batch_within (clock w) (clock w') inv.(inv_events)
    | Err (Ordinary _ b) | Err (Lost _ b) => batch_within (clock w) (clock w') b
    end;
  acq_wait_law : ∀ d w r w', acq_wait d w = (r, w') →
    clock w ≤ clock w' ∧
    match r with Ok (LinkChanged t) => clock w ≤ t ∧ t ≤ clock w' | _ => True end;
}.

(** ** The abstract actor *)

Section actor.
Context {ID : Type} `{IdLaws ID}.

(** Time, scheduling state and publication cell. *)
Record View := mkView {
  v_time : N;
  v_state : State;
  v_cell : option (list (ID * Value ID));
}.

(** The state after an acquisition started in [s] ends in lost continuity. *)
Definition after_loss (s : State) (t : N) : State :=
  fail (set_subscription false true
    (set_continuity (wrapping_add U64_MODULUS s.(continuity) 1) s)) t.

Inductive transition : View → list (Action ID) → View → Prop :=
| tr_tick t t' s c :
    t ≤ t' → transition (mkView t s c) [] (mkView t' s c)
| tr_subscribed t now t' s c :
    t ≤ now → now ≤ t' → s.(subscribed) = false → retry_ready s now = true →
    transition (mkView t s c) [Subscribe now true]
      (mkView t' (set_subscription true true s) c)
| tr_subscribe_failed t now at_time t' s c :
    t ≤ now → now ≤ at_time → at_time ≤ t' →
    s.(subscribed) = false → retry_ready s now = true →
    transition (mkView t s c) [Subscribe now false] (mkView t' (fail s at_time) c)
| tr_published t now at_time t' s c inv s' topology mib :
    t ≤ now → now ≤ at_time → at_time ≤ t' →
    s.(subscribed) = true → acquisition_ready s now = true →
    inv.(inv_attempt) = mkAttempt s.(continuity) →
    batch_within now at_time inv.(inv_events) →
    accept_inventory (start_acquisition s) inv at_time = (s', Ok topology) →
    from_topology topology = Some mib →
    transition (mkView t s c) [Acquire now (mkAttempt s.(continuity)); Publish mib]
      (mkView t' s' (Some mib))
| tr_rejected t now at_time at_time' t' s c inv s' e :
    t ≤ now → now ≤ at_time → at_time ≤ at_time' → at_time' ≤ t' →
    s.(subscribed) = true → acquisition_ready s now = true →
    inv.(inv_attempt) = mkAttempt s.(continuity) →
    batch_within now at_time inv.(inv_events) →
    accept_inventory (start_acquisition s) inv at_time = (s', Err e) →
    transition (mkView t s c) [Acquire now (mkAttempt s.(continuity))]
      (mkView t' (fail s' at_time') c)
| tr_ordinary t now at_time t' s c events :
    t ≤ now → now ≤ at_time → at_time ≤ t' →
    s.(subscribed) = true → acquisition_ready s now = true →
    batch_within now at_time events →
    transition (mkView t s c) [Acquire now (mkAttempt s.(continuity))]
      (mkView t' (fail (retain_failed_events (start_acquisition s) events) at_time) c)
| tr_lost t now at_time t' s c events :
    t ≤ now → now ≤ at_time → at_time ≤ t' →
    s.(subscribed) = true → acquisition_ready s now = true →
    batch_within now at_time events →
    transition (mkView t s c) [Acquire now (mkAttempt s.(continuity)); Unavailable]
      (mkView t' (after_loss (retain_failed_events (start_acquisition s) events) at_time) None)
| tr_waited t now t' s c :
    t ≤ now → now ≤ t' → s.(subscribed) && acquisition_ready s now = false →
    transition (mkView t s c) [Wait now (saturating_sub (next_deadline s now) now)]
      (mkView t' s c)
| tr_event t now at_time t' s c :
    t ≤ now → t ≤ at_time → now ≤ t' → at_time ≤ t' →
    s.(subscribed) && acquisition_ready s now = false →
    transition (mkView t s c) [Wait now (saturating_sub (next_deadline s now) now)]
      (mkView t' (record_event s at_time) c)
| tr_wait_lost t now at_time t' s c :
    t ≤ now → now ≤ at_time → at_time ≤ t' →
    s.(subscribed) && acquisition_ready s now = false →
    transition (mkView t s c) [Wait now (saturating_sub (next_deadline s now) now); Unavailable]
      (mkView t' (after_loss s at_time) None).

(** Finite sequences of transitions, with the actions in order. *)
Inductive steps : View → list (Action ID) → View → Prop :=
| steps_nil v : steps v [] v
| steps_cons v1 a1 v2 a2 v3 :
    transition v1 a1 v2 → steps v2 a2 v3 → steps v1 (a1 ++ a2) v3.

Lemma steps_one v a v' : transition v a v' → steps v a v'.
Proof. intros Ht. rewrite <-(app_nil_r a). eapply steps_cons; [done|constructor]. Qed.

Lemma steps_app v1 a1 v2 a2 v3 : steps v1 a1 v2 → steps v2 a2 v3 → steps v1 (a1 ++ a2) v3.
Proof.
  induction 1 as [|v1 b1 v2 b2 v3' Ht Hs IH]; intros Hs'; [done|].
  rewrite <-app_assoc. eapply steps_cons; eauto.
Qed.

(** ** The refinement *)

Section refinement.
Context {W : Type} `{!Acquisition W} (clock : W → N) `{!AcquisitionLaws W clock}.

(** The abstraction function. *)
Definition view (c : Config ID W) : View := mkView (clock c.(world)) c.(state) c.(cell).

(** Collect what the contract says of each call on the source. *)
Ltac source_laws :=
  repeat match goal with
  | E : acq_now _ = (_, _) |- _ => apply acq_now_law in E as [? ?]
  | E : acq_subscribe _ = (_, _) |- _ => apply acq_subscribe_law in E
  | E : acq_wait _ _ = (_, _) |- _ => apply acq_wait_law in E as [? ?]; simpl in *
  | E : acq_inventory _ _ = (_, _) |- _ => apply acq_inventory_law in E as [? ?]; simpl in *
  end; destruct_and?; simpl in *.

Lemma batch_within_mono lo lo' hi hi' b :
  lo' ≤ lo → hi ≤ hi' → batch_within lo hi b → batch_within lo' hi' b.
Proof. unfold batch_within. destruct (first b), (last b); intuition lia. Qed.

Lemma try_subscribe_refines c acts c' :
  try_subscribe c = (acts, c') → steps (view c) acts (view c').
Proof.
  unfold try_subscribe, view. destruct c as [w s cl]; simpl.
  destruct (acq_now w) as [now w1] eqn:Hnow. destruct (negb _ && _) eqn:Hready.
  2: { intros [= <- <-]. source_laws. apply steps_one, tr_tick. simpl. lia. }
  bool_to_prop. destruct (acq_subscribe w1) as [[[]|e] w2] eqn:Hsub.
  - intros [= <- <-]. source_laws. apply steps_one, tr_subscribed; simpl; done || lia.
  - destruct (acq_now w2) as [at_time w3] eqn:Hnow2. intros [= <- <-]. source_laws.
    apply steps_one, tr_subscribe_failed; simpl; done || lia.
Qed.

Lemma wait_step_refines w now t s cl acts c' :
  t ≤ now → now ≤ clock w → s.(subscribed) && acquisition_ready s now = false →
  wait_step now (mkConfig w s cl) = (acts, c') →
  steps (mkView t s cl) acts (view c').
Proof.
  intros Ht Hw Hidle. unfold wait_step, view. simpl.
  destruct (acq_wait _ w) as [[[|at_time]|e] w1] eqn:Hwait.
  - intros [= <- <-]. source_laws. apply steps_one, tr_waited; simpl; done || lia.
  - intros [= <- <-]. source_laws. apply steps_one, tr_event; simpl; done || lia.
  - destruct (acq_now w1) as [at_time w2] eqn:Hnow. simpl. intros [= <- <-]. source_laws.
    apply steps_one, tr_wait_lost; simpl; done || lia.
Qed.

Lemma acquire_refines w now t s cl acts c' :
  t ≤ now → now ≤ clock w → s.(subscribed) = true → acquisition_ready s now = true →
  acquire now (mkConfig w s cl) = Some (acts, c') →
  steps (mkView t s cl) acts (view c').
Proof.
  intros Ht Hw Hsub Hready. unfold acquire, view. simpl.
  destruct (start_acquisition_frame s) as [-> _].
  destruct (acq_inventory _ w) as [[inv|[e events|e events]] w1] eqn:Hinv.
  - destruct (acq_now w1) as [at_time w2] eqn:Hnow.
    destruct (accept_inventory _ _ _) as [s' [topo|e]] eqn:Hacc.
    + destruct (from_topology topo) as [mib|] eqn:Hmib; [|done].
      intros [= <- <-]. source_laws.
      eapply steps_one, tr_published with (at_time := at_time); eauto; simpl; try lia.
      eapply batch_within_mono; [| |done]; lia.
    + destruct (acq_now w2) as [at_time' w3] eqn:Hnow2. intros [= <- <-]. source_laws.
      eapply steps_one, tr_rejected with (at_time := at_time); eauto; simpl; try lia.
      eapply batch_within_mono; [| |done]; lia.
  - destruct (acq_now w1) as [at_time w2] eqn:Hnow. intros [= <- <-]. source_laws.
    apply steps_one, tr_ordinary; simpl; try done; try lia.
    eapply batch_within_mono; [| |done]; lia.
  - destruct (acq_now w1) as [at_time w2] eqn:Hnow. simpl. intros [= <- <-]. source_laws.
    apply steps_one, tr_lost; simpl; try done; try lia.
    eapply batch_within_mono; [| |done]; lia.
Qed.

Lemma run_step_refines c acts c' :
  run_step c = Some (acts, c') → steps (view c) acts (view c').
Proof.
  unfold run_step. destruct (try_subscribe c) as [acts1 c1] eqn:Hsub.
  apply try_subscribe_refines in Hsub. destruct c1 as [w1 s1 cl1]; simpl.
  destruct (acq_now w1) as [now w2] eqn:Hnow. simpl. apply acq_now_law in Hnow as [? ?].
  destruct (subscribed s1 && acquisition_ready s1 now) eqn:Hready.
  - destruct (acquire _ _) as [[acts2 c2]|] eqn:Hacq; [|done]. intros [= <- <-].
    bool_to_prop. eapply steps_app; [done|]. unfold view at 1. simpl. by eapply acquire_refines.
  - destruct (wait_step _ _) as [acts2 c2] eqn:Hwait. intros [= <- <-].
    eapply steps_app; [done|]. unfold view at 1. simpl. by eapply wait_step_refines.
Qed.

Lemma run_refines n c acts c' :
  run n c = Some (acts, c') → steps (view c) acts (view c').
Proof.
  revert c acts. induction n as [|n IH]; intros c acts; simpl.
  { intros [= <- <-]. constructor. }
  destruct (run_step c) as [[acts1 c1]|] eqn:H1; [|done]. simpl.
  destruct (run n c1) as [[acts2 c2]|] eqn:H2; [|done]. intros [= <- <-].
  eapply steps_app; [by apply run_step_refines|by apply IH].
Qed.
End refinement.
End actor.
Arguments View ID : clear implicits.

(** ** The calls of a run *)

(** A call of the monitor on its source, with the answer. *)
Inductive SourceCall :=
| SNow (t : N)
| SSubscribe (r : result Error unit)
| SInventory (a : Attempt) (r : result AcquisitionError Inventory)
| SWait (timeout : N) (r : result Error WaitOutcome).

Definition source_call {W} `{!Acquisition W} (w : W) (c : SourceCall) (w' : W) : Prop :=
  match c with
  | SNow t => acq_now w = (t, w')
  | SSubscribe r => acq_subscribe w = (r, w')
  | SInventory a r => acq_inventory a w = (r, w')
  | SWait timeout r => acq_wait timeout w = (r, w')
  end.

(** No answer that breaks the continuity of notifications. *)
Definition keeps_continuity (c : SourceCall) : Prop :=
  match c with SInventory _ (Err (Lost _ _)) | SWait _ (Err _) => False | _ => True end.

Section calls.
Context {ID : Type} `{!IdOps ID}.
Implicit Types (acts : list (Action ID)) (m : list (ID * Value ID)).

(** [m] is the table of the whole inventory [inv]. *)
Definition built (inv : Inventory) m : Prop :=
  ∃ topology, from_observed inv.(inv_links) = Ok topology ∧ from_topology topology = Some m.

(** What the monitor does, given what its calls were answered. *)
Inductive performs : list SourceCall → list (Action ID) → Prop :=
| performs_nil : performs [] []
| performs_now t cs acts : performs cs acts → performs (SNow t :: cs) acts
| performs_subscribe now r cs acts :
    performs cs acts → performs (SSubscribe r :: cs) (Subscribe now (is_ok r) :: acts)
| performs_published now a inv m cs acts :
    built inv m → performs cs acts →
    performs (SInventory a (Ok inv) :: cs) (Acquire now a :: Publish m :: acts)
| performs_failed now a r cs acts :
    keeps_continuity (SInventory a r) → performs cs acts →
    performs (SInventory a r :: cs) (Acquire now a :: acts)
| performs_lost now a e events cs acts :
    performs cs acts →
    performs (SInventory a (Err (Lost e events)) :: cs) (Acquire now a :: Unavailable :: acts)
| performs_waited now timeout o cs acts :
    performs cs acts → performs (SWait timeout (Ok o) :: cs) (Wait now timeout :: acts)
| performs_wait_lost now timeout e cs acts :
    performs cs acts → performs (SWait timeout (Err e) :: cs) (Wait now timeout :: Unavailable :: acts).

Create HintDb performs.
#[local] Hint Constructors performs : performs.

Lemma performs_app cs1 acts1 cs2 acts2 :
  performs cs1 acts1 → performs cs2 acts2 → performs (cs1 ++ cs2) (acts1 ++ acts2).
Proof. induction 1; cbn; auto with performs. Qed.

Lemma performs_starts cs acts : performs cs acts →
  match acts with Publish _ :: _ => False | _ => True end.
Proof. by induction 1. Qed.

(** The inventory behind a publication. *)
Lemma performs_publication cs acts : performs cs acts → ∀ pre now a m post,
  acts = pre ++ Acquire now a :: Publish m :: post →
  ∃ cs1 inv cs2, cs = cs1 ++ SInventory a (Ok inv) :: cs2 ∧ built inv m ∧ performs cs2 post.
Proof.
  assert (∀ c cs a m post,
    (∃ cs1 inv cs2, cs = cs1 ++ SInventory a (Ok inv) :: cs2 ∧ built inv m ∧ performs cs2 post) →
    ∃ cs1 inv cs2, c :: cs = cs1 ++ SInventory a (Ok inv) :: cs2 ∧ built inv m ∧ performs cs2 post)
    as Hcons by (intros c cs0 a m post (cs1 & inv & cs2 & -> & ?); by exists (c :: cs1), inv, cs2).
  induction 1; intros [|act1 [|act2 pre]] now' a' m' post Heq; simplify_eq/=;
    try (match goal with Hp : performs _ (Publish _ :: _) |- _ => by apply performs_starts in Hp end);
    try (apply Hcons; first
      [ by eapply (IHperforms []) | by eapply (IHperforms [_]) | by eapply (IHperforms (_ :: pre))
      | by eapply (IHperforms (_ :: _ :: pre)) | by eapply (IHperforms pre) ]).
  by eexists [], _, _.
Qed.

Lemma performs_publish cs acts m : performs cs acts → Publish m ∈ acts →
  ∃ cs1 a inv cs2, cs = cs1 ++ SInventory a (Ok inv) :: cs2 ∧ built inv m.
Proof.
  induction 1; rewrite ?elem_of_cons; intros Hin; [by apply elem_of_nil in Hin|..].
  all: destruct_or? Hin; simplify_eq; try (by eexists [], _, _, _).
  all: destruct (IHperforms Hin) as (cs1 & a1 & inv1 & cs2 & -> & ?).
  all: by eexists (_ :: cs1), a1, inv1, cs2.
Qed.

Lemma performs_keeps cs acts :
  performs cs acts → Forall (λ act, act ≠ Unavailable) acts → Forall keeps_continuity cs.
Proof.
  induction 1; rewrite ?Forall_cons; intuition (done || auto). 
Qed.

Context {W : Type} `{!Acquisition W}.

(** The calls that led from [w] to [w'], and what the monitor did meanwhile. *)
Definition did (w : W) acts (w' : W) : Prop :=
  ∃ cs, chain source_call w cs w' ∧ performs cs acts.

Lemma did_app w acts1 w1 acts2 w' : did w acts1 w1 → did w1 acts2 w' → did w (acts1 ++ acts2) w'.
Proof.
  intros (cs1 & ? & ?) (cs2 & ? & ?). exists (cs1 ++ cs2).
  split; [by eapply chain_join|by apply performs_app].
Qed.

Lemma did_now w t w' : acq_now w = (t, w') → did w [] w'.
Proof. intros Hn. exists [SNow t]. split; [by apply chain_one|auto with performs]. Qed.

Lemma did_one w c acts w' : source_call w c w' → performs [c] acts → did w acts w'.
Proof. intros Hc Hp. exists [c]. split; [by apply chain_one|done]. Qed.

Lemma try_subscribe_did (c : Config ID W) acts c' :
  try_subscribe c = (acts, c') → did c.(world) acts c'.(world).
Proof.
  unfold try_subscribe. destruct (acq_now (world c)) as [now w1] eqn:Hnow.
  apply did_now in Hnow. destruct (_ && _); [|by intros [= <- <-]].
  destruct (acq_subscribe w1) as [r w2] eqn:Hs.
  assert (did w1 [Subscribe now (is_ok r)] w2) as Hd
    by (eapply (did_one _ (SSubscribe r)); [done|auto with performs]).
  pose proof (did_app _ _ _ _ _ Hnow Hd) as Hd'.
  destruct r as [[]|e]; [by intros [= <- <-]|].
  destruct (acq_now w2) as [t w3] eqn:Hnow2. intros [= <- <-].
  by apply (did_app _ _ _ [] _ Hd'), (did_now _ t).
Qed.

Lemma wait_step_did now (c : Config ID W) acts c' :
  wait_step now c = (acts, c') → did c.(world) acts c'.(world).
Proof.
  unfold wait_step. set (d := saturating_sub _ _).
  destruct (acq_wait d (world c)) as [[o|e] w1] eqn:Hw.
  - assert (did (world c) [Wait now d] w1)
      by (eapply (did_one _ (SWait d (Ok o))); [done|auto with performs]).
    by destruct o; intros [= <- <-].
  - destruct (acq_now w1) as [t w2] eqn:Hnow. intros [= <- <-].
    apply (did_app _ [Wait now d; Unavailable] w1 []); [|by eapply did_now].
    eapply (did_one _ (SWait d (Err e))); [done|auto with performs].
Qed.

Lemma acquire_did now (c : Config ID W) acts c' :
  acquire now c = Some (acts, c') → did c.(world) acts c'.(world).
Proof.
  unfold acquire. set (s := start_acquisition _). set (a := mkAttempt _).
  destruct (acq_inventory a (world c)) as [r w1] eqn:Hi.
  assert (∀ acts1, performs [SInventory a r] acts1 → did (world c) acts1 w1) as Hd
    by (intros acts1; by apply did_one).
  destruct (acq_now w1) as [t w2] eqn:Hnow. apply did_now in Hnow.
  assert (∀ acts1, performs [SInventory a r] acts1 → did (world c) acts1 w2) as Hd2
    by (intros acts1 ?; rewrite <- (app_nil_r acts1); by eapply did_app; [apply Hd|]).
  destruct r as [inv|[e events|e events]].
  - destruct (accept_inventory s inv t) as [s' [topo|e]] eqn:Ha.
    + destruct (from_topology topo) as [m|] eqn:Hm; [|done]. intros [= <- <-].
      apply Hd2, performs_published; [|constructor]. exists topo. split; [|done].
      by apply accept_inventory_cases in Ha as [[_ [? ?]]|(? & _ & _ & [[_ (? & ? & _)]|
        (_ & ? & [= <-] & Ho)])].
    + destruct (acq_now w2) as [t2 w3] eqn:Hnow2. intros [= <- <-].
      apply (did_app _ [Acquire now a] w2 []); [|by eapply did_now].
      apply Hd2. by apply performs_failed; [|constructor].
  - intros [= <- <-]. apply Hd2. by apply performs_failed; [|constructor].
  - destruct (lose_continuity _ _ _). intros [= <- <-]. auto with performs.
Qed.

Lemma run_step_did (c : Config ID W) acts c' :
  run_step c = Some (acts, c') → did c.(world) acts c'.(world).
Proof.
  unfold run_step. destruct (try_subscribe c) as [acts1 c1] eqn:Ht. apply try_subscribe_did in Ht.
  destruct (acq_now (world c1)) as [now w] eqn:Hnow. apply did_now in Hnow.
  destruct (_ && _).
  - destruct (acquire _ _) as [[acts2 c2]|] eqn:Ha; [|done]. apply acquire_did in Ha.
    intros [= <- <-]. exact (did_app _ _ _ _ _ Ht (did_app _ [] _ _ _ Hnow Ha)).
  - destruct (wait_step _ _) as [acts2 c2] eqn:Ha. apply wait_step_did in Ha.
    intros [= <- <-]. exact (did_app _ _ _ _ _ Ht (did_app _ [] _ _ _ Hnow Ha)).
Qed.

Lemma run_did n (c : Config ID W) acts c' :
  run n c = Some (acts, c') → did c.(world) acts c'.(world).
Proof.
  revert c acts. induction n as [|n IH]; intros c acts; simpl.
  { intros [= <- <-]. exists []. split; [done|constructor]. }
  destruct (run_step c) as [[acts1 c1]|] eqn:Hs; [|done]. simpl.
  destruct (run n c1) as [[acts2 c2]|] eqn:Hr; [|done]. intros [= <- <-].
  eapply did_app; [by apply run_step_did|by apply IH].
Qed.
End calls.

(** ** Invariants of the source *)

(** What every call on the source keeps, a run keeps. *)
Section kept.
Context {ID : Type} `{!IdOps ID} {W : Type} `{!Acquisition W} (P : W → Prop).

Record world_kept : Prop := {
  kept_now : ∀ w t w', acq_now w = (t, w') → P w → P w';
  kept_subscribe : ∀ w r w', acq_subscribe w = (r, w') → P w → P w';
  kept_inventory : ∀ a w r w', acq_inventory a w = (r, w') → P w → P w';
  kept_wait : ∀ d w r w', acq_wait d w = (r, w') → P w → P w';
}.
Context (Hkept : world_kept).

Lemma run_step_kept (c : Config ID W) acts c' :
  run_step c = Some (acts, c') → P c.(world) → P c'.(world).
Proof using Hkept.
  destruct Hkept as [Hnow Hsub Hinv Hwait].
  assert (∀ acts1 c1, try_subscribe c = (acts1, c1) → P c.(world) → P c1.(world)) as Htry.
  { intros acts1 c1. unfold try_subscribe. intros. repeat case_match; simplify_eq/=; eauto 10. }
  assert (∀ t (c1 c2 : Config ID W) acts1, acquire t c1 = Some (acts1, c2) → P c1.(world) → P c2.(world)) as Hacq.
  { intros t c1 c2 acts1. unfold acquire. intros.
    repeat case_match; simplify_option_eq; eauto 10. }
  assert (∀ t (c1 c2 : Config ID W) acts1, wait_step t c1 = (acts1, c2) → P c1.(world) → P c2.(world)) as Hws.
  { intros t c1 c2 acts1. unfold wait_step. intros. repeat case_match; simplify_eq/=; eauto 10. }
  unfold run_step. destruct (try_subscribe c) as [acts1 c1] eqn:Ht. intros Hr Hw.
  destruct (acq_now (world c1)) as [t w] eqn:Hn. destruct (_ && _).
  - destruct (acquire _ _) as [[acts2 c2]|] eqn:Ha; [|done]. injection Hr as <- <-.
    eapply Hacq; [done|]. eauto.
  - destruct (wait_step _ _) as [acts2 c2] eqn:Hws2. injection Hr as <- <-.
    eapply Hws; [done|]. eauto.
Qed.

Lemma run_kept n (c : Config ID W) acts c' :
  run n c = Some (acts, c') → P c.(world) → P c'.(world).
Proof using Hkept.
  revert c acts. induction n as [|n IH]; intros c acts; simpl; [by intros [= <- <-]|].
  destruct (run_step c) as [[acts1 c1]|] eqn:Hs; [|done]. simpl.
  destruct (run n c1) as [[acts2 c2]|] eqn:Hr; [|done]. intros [= <- <-] Hw.
  eapply IH; [done|]. by eapply run_step_kept.
Qed.
End kept.

(** ** Invariants of reachable views *)

Section invariants.
Context {ID : Type} `{IdLaws ID}.
Implicit Types (v : View ID) (acts : list (Action ID)).

Lemma after_loss_inv s t : flight_inv s → state_inv (after_loss s t).
Proof.
  intros []. apply fail_inv. constructor; simpl; auto with monitor.
  by apply wrapping_add_lt.
Qed.

(** The operations an acquisition applies to the state it started from. *)
Lemma retained_inv s b : state_inv s → flight_inv (retain_failed_events (start_acquisition s) b).
Proof. intros Hs. by apply retain_inv, start_acquisition_inv, state_inv_flight. Qed.

Lemma accepted_inv s inv t s' r :
  state_inv s → accept_inventory (start_acquisition s) inv t = (s', r) → flight_inv s'.
Proof.
  intros Hs%state_inv_flight%start_acquisition_inv Ha.
  apply accept_inventory_cases in Ha as [[-> _]|(s1 & Hb & _ & Hr)]; [done|].
  apply record_batch_inv in Hb; [|done].
  destruct Hr as [[-> _]|[-> _]]; [done|]. destruct Hb. constructor; simpl; auto with monitor.
Qed.

(** An operation that leaves the subscription, the floor and the failure
    delay of [s] alone. *)
Definition same_floor (s s' : State) : Prop :=
  s'.(continuity) = s.(continuity) ∧ s'.(subscribed) = s.(subscribed) ∧
  s'.(retry_not_before) = s.(retry_not_before) ∧ s'.(failure_delay) = s.(failure_delay) ∧
  s'.(last_success) = s.(last_success).

Lemma record_event_floor s t : same_floor s (record_event s t).
Proof. destruct (record_event_frame s t) as (? & ? & ? & ? & ? & ? & ?). by split_and!. Qed.

Lemma same_floor_trans s1 s2 s3 : same_floor s1 s2 → same_floor s2 s3 → same_floor s1 s3.
Proof. unfold same_floor. intuition congruence. Qed.

Lemma retained_floor s b : same_floor s (retain_failed_events (start_acquisition s) b).
Proof.
  assert (same_floor s (start_acquisition s)) as Hst.
  { destruct (start_acquisition_frame s) as (? & ? & ? & ? & ? & _). by split_and!. }
  destruct (retain_cases (start_acquisition s) b) as [->|[[f ->]|(f & l & ->)]]; [done| |];
    eauto using same_floor_trans, record_event_floor.
Qed.

Lemma record_batch_floor s b s' : record_batch s b = Ok s' → same_floor s s'.
Proof.
  intros [->|[[f ->]|(f & l & ->)]]%record_batch_cases; [by split_and!| |];
    eauto using same_floor_trans, record_event_floor.
Qed.

Lemma accepted_cases s inv t s' r :
  accept_inventory (start_acquisition s) inv t = (s', r) →
  s'.(continuity) = s.(continuity) ∧ s'.(subscribed) = s.(subscribed) ∧
  match r with
  | Ok topo => from_observed inv.(inv_links) = Ok topo ∧ s'.(retry_not_before) = None ∧
      s'.(failure_delay) = INITIAL_DELAY ∧ s'.(last_success) = Some t
  | Err _ => same_floor s s'
  end.
Proof.
  destruct (start_acquisition_frame s) as (Hc & Hs & Hr & Hd & Hl & _).
  assert (same_floor s (start_acquisition s)) as Hst by by split_and!.
  intros [[-> [e ->]]|(s1 & Hb%record_batch_floor & _ & Hcase)]%accept_inventory_cases; [done|].
  pose proof (same_floor_trans _ _ _ Hst Hb) as Hf. pose proof Hf as (? & ? & _).
  by destruct Hcase as [[-> (e & -> & _)]|[-> (topo & -> & Ho)]].
Qed.

(** *** The scheduling invariant *)

Lemma transition_state_inv v acts v' :
  transition v acts v' → state_inv v.(v_state) → state_inv v'.(v_state).
Proof.
  destruct 1; simpl; intros Hs; try done.
  - by apply set_subscription_inv.
  - by apply fail_inv, state_inv_flight.
  - match goal with Ha : accept_inventory _ _ _ = _ |- _ => pose proof Ha as Ha' end.
    apply accept_inventory_cases in Ha' as [[_ [e ?]]|(s1 & Hb & _ & [[_ (e & ? & _)]|[-> _]])];
      [done..|].
    apply accept_success_inv.
    + eapply record_batch_inv; [done|]. by apply start_acquisition_inv, state_inv_flight.
    + apply record_batch_floor in Hb as (_ & -> & _).
      by destruct (start_acquisition_frame s) as (_ & -> & _).
  - eapply fail_inv, accepted_inv; done.
  - by apply fail_inv, retained_inv.
  - by apply after_loss_inv, retained_inv.
  - by apply record_event_state_inv.
  - by apply after_loss_inv, state_inv_flight.
Qed.

(** *** Availability of the table *)

(** A table came from a complete, validated inventory. *)
Definition validated (m : list (ID * Value ID)) : Prop :=
  ∃ links topo, from_observed links = Ok topo ∧ from_topology topo = Some m.

Definition table_inv v : Prop :=
  ∀ m, v.(v_cell) = Some m →
    v.(v_state).(subscribed) = true ∧ is_Some v.(v_state).(last_success) ∧ validated m.

Lemma transition_table_inv v acts v' : transition v acts v' → table_inv v → table_inv v'.
Proof.
  destruct 1; unfold table_inv; simpl; intros Hv m Hm; try (by apply Hv); try done.
  - destruct (Hv m Hm) as (? & ? & ?). by split_and!.
  - injection Hm as <-.
    match goal with Ha : accept_inventory _ _ _ = _ |- _ =>
      apply accepted_cases in Ha as (_ & -> & Ho & _ & _ & ->) end.
    split_and!; [done|by eexists|by exists (inv_links inv), topology].
  - match goal with Ha : accept_inventory _ _ _ = _ |- _ =>
      apply accepted_cases in Ha as (_ & -> & _ & _ & _ & _ & ->) end.
    by apply Hv.
  - destruct (retained_floor s events) as (_ & -> & _ & _ & ->). by apply Hv.
  - destruct (record_event_frame s at_time) as (_ & _ & -> & _ & _ & _ & ->). by apply Hv.
Qed.

(** *** The retry floor *)

Definition floor_inv v : Prop :=
  ∀ d, v.(v_state).(retry_not_before) = Some d →
    d ≤ saturating_add v.(v_time) v.(v_state).(failure_delay).

Lemma fail_floor s t t' :
  s.(failure_delay) ∈ backoff_delays → t ≤ t' →
  ∀ d, (fail s t).(retry_not_before) = Some d → d ≤ saturating_add t' (fail s t).(failure_delay).
Proof.
  intros Hb Ht d [= <-]. simpl. apply saturating_add_mono; [done|]. by apply backoff_le_next.
Qed.

Lemma transition_floor_inv v acts v' :
  transition v acts v' → state_inv v.(v_state) → floor_inv v → floor_inv v'.
Proof.
  destruct 1; unfold floor_inv; simpl; intros Hs Hv d Hd.
  1-2: etrans; [by apply Hv|]; apply saturating_add_mono; simpl; lia.
  - eapply (fail_floor s at_time); [by destruct Hs|lia|done].
  - match goal with Ha : accept_inventory _ _ _ = _ |- _ =>
      apply accepted_cases in Ha as (_ & _ & _ & Hn & _) end. congruence.
  - eapply (fail_floor s' at_time'); [|lia|done].
    by apply (flight_failure_delay _ (accepted_inv _ _ _ _ _ Hs ltac:(eassumption))).
  - eapply fail_floor; [|done|done]. by apply (flight_failure_delay _ (retained_inv s events Hs)).
  - eapply (fail_floor _ at_time); [|done|done]. simpl.
    by apply (flight_failure_delay _ (retained_inv s events Hs)).
  - etrans; [by apply Hv|]; apply saturating_add_mono; simpl; lia.
  - destruct (record_event_frame s at_time) as (_ & _ & _ & _ & Hr & Hf & _).
    rewrite Hr in Hd. rewrite Hf. etrans; [by apply Hv|]; apply saturating_add_mono; simpl; lia.
  - eapply (fail_floor _ at_time); [|done|done]. by destruct Hs.
Qed.

Record view_inv v : Prop := {
  view_state : state_inv v.(v_state);
  view_table : table_inv v;
  view_floor : floor_inv v;
}.

Lemma steps_view_inv v acts v' : steps v acts v' → view_inv v → view_inv v'.
Proof.
  induction 1 as [|v1 a1 v2 a2 v3 Ht _ IH]; [done|]. intros [Hs Htab Hf]. apply IH.
  split; eauto using transition_state_inv, transition_table_inv, transition_floor_inv.
Qed.

Lemma start_view_inv t r : view_inv (mkView t (State_new r) publication).
Proof. split; [apply State_new_inv|by intros m|by intros d]. Qed.
End invariants.

(** ** Properties of traces *)

Section traces.
Context {ID : Type} `{IdLaws ID}.
Implicit Types (v : View ID) (act : Action ID) (acts : list (Action ID)).

(** The clock reading that led to an attempt to subscribe or acquire. *)
Definition attempt_time act : option N :=
  match act with Subscribe t _ | Acquire t _ => Some t | _ => None end.

(** The earliest time [d] an attempt may have in the future of [v]. *)
Definition floored (d : N) v : Prop :=
  d ≤ v.(v_time) ∨ ∃ d', v.(v_state).(retry_not_before) = Some d' ∧ d ≤ d'.

Lemma acquisition_ready_retry s t : acquisition_ready s t = true → retry_ready s t = true.
Proof. unfold acquisition_ready. by destruct (retry_ready s t). Qed.

Lemma floored_attempt d v now :
  floored d v → v.(v_time) ≤ now → retry_ready v.(v_state) now = true → d ≤ now.
Proof.
  unfold retry_ready. intros [Hd|(d' & Hr & Hd)] Hnow; [lia|]. rewrite Hr. simpl.
  rewrite N.leb_le. lia.
Qed.

Lemma transition_floored d v acts v' :
  transition v acts v' → floor_inv v → floored d v →
  floored d v' ∧ ∀ act t, act ∈ acts → attempt_time act = Some t → d ≤ t.
Proof.
  intros Ht Hfl Hd.
  assert (∀ now, v.(v_time) ≤ now → retry_ready v.(v_state) now = true → d ≤ now) as Hnow
    by (intros; by eapply floored_attempt).
  destruct Ht; simpl in *;
    repeat match goal with E : acquisition_ready _ _ = true |- _ =>
      apply acquisition_ready_retry in E end;
    (split; [|intros act ta; rewrite ?elem_of_cons, elem_of_nil; naive_solver]);
    try (left; simpl; assert (d ≤ now) by (by apply Hnow); lia).
  - destruct Hd as [?|?]; [left; simpl in *; lia|by right].
  - destruct Hd as [?|?]; [left; simpl in *; lia|by right].
  - destruct Hd as [?|(d' & Hr & ?)]; [left; simpl in *; lia|right]. exists d'. simpl in *.
    by destruct (record_event_frame s at_time) as (_ & _ & _ & _ & -> & _).
  - destruct Hd as [?|(d' & Hr & ?)]; [left; simpl in *; lia|right]. eexists. split; [done|].
    simpl in *. specialize (Hfl d' Hr). simpl in Hfl. etrans; [done|]. etrans; [done|].
    apply saturating_add_mono; lia.
Qed.

Lemma steps_floored d v acts v' :
  steps v acts v' → view_inv v → floored d v →
  ∀ act t, act ∈ acts → attempt_time act = Some t → d ≤ t.
Proof.
  induction 1 as [v|v1 a1 v2 a2 v3 Ht _ IH]; intros Hv Hd act t; [by intros ?%elem_of_nil|].
  destruct (transition_floored _ _ _ _ Ht (view_floor _ Hv) Hd) as [Hd' Hacts].
  rewrite elem_of_app. intros [Hin|Hin] Hact; [by eapply Hacts|].
  eapply IH; [|done..]. eapply steps_view_inv; [by apply steps_one|done].
Qed.

(** What the actions of a run do to the publication cell. *)
Definition apply_action (cl : option (list (ID * Value ID))) act : option (list (ID * Value ID)) :=
  match act with Publish m => Some m | Unavailable => None | _ => cl end.

Lemma steps_cell v acts v' :
  steps v acts v' → v'.(v_cell) = foldl apply_action v.(v_cell) acts.
Proof.
  induction 1 as [|v1 a1 v2 a2 v3 Ht _ IH]; [done|]. rewrite foldl_app, IH. f_equal.
  by destruct Ht.
Qed.

Lemma applied_published acts m : foldl apply_action None acts = Some m → Publish m ∈ acts.
Proof.
  induction acts as [|act acts IH] using rev_ind; [done|].
  rewrite foldl_app, elem_of_app, list_elem_of_singleton. cbn.
  destruct act; cbn; auto; [|done]. intros [= ->]. by right.
Qed.

Lemma run_step_cell {W} `{!Acquisition W} (c : Config ID W) acts c' :
  run_step c = Some (acts, c') → c'.(cell) = foldl apply_action c.(cell) acts.
Proof.
  unfold run_step, try_subscribe, acquire, wait_step. intros Hr.
  repeat case_match; simplify_option_eq; try done; by unfold lose_continuity, unavailable in *; simplify_eq.
Qed.

Lemma run_cell {W} `{!Acquisition W} n (c : Config ID W) acts c' :
  run n c = Some (acts, c') → c'.(cell) = foldl apply_action c.(cell) acts.
Proof.
  revert c acts. induction n as [|n IH]; intros c acts; simpl; [by intros [= <- <-]|].
  destruct (run_step c) as [[acts1 c1]|] eqn:Hs; [|done]. simpl.
  destruct (run n c1) as [[acts2 c2]|] eqn:Hr; [|done]. intros [= <- <-].
  rewrite foldl_app, <- (run_step_cell _ _ _ Hs). by apply IH.
Qed.

(** Neither a publication nor a withdrawal. *)
Definition keeps_cell act : Prop :=
  match act with Publish _ | Unavailable => False | _ => True end.

(** How a table that is available at the end of a run got there. *)
Definition published_in v acts v' (m : list (ID * Value ID)) : Prop :=
  ∃ pre now post,
    acts = pre ++ Acquire now (mkAttempt v'.(v_state).(continuity)) :: Publish m :: post ∧
    Forall keeps_cell post ∧
    (v.(v_state).(subscribed) = false → ∃ t, Subscribe t true ∈ pre).

Lemma transition_cell v acts v' m :
  transition v acts v' → v'.(v_cell) = Some m →
  v'.(v_state).(continuity) = v.(v_state).(continuity) ∧
  ((v.(v_cell) = Some m ∧ Forall keeps_cell acts) ∨
   (v.(v_state).(subscribed) = true ∧
    ∃ now, acts = [Acquire now (mkAttempt v.(v_state).(continuity)); Publish m])).
Proof.
  destruct 1; simpl; intros Hm; try done;
    try (split; [done|]; left; split; [done|]; repeat constructor).
  - injection Hm as <-. match goal with Ha : accept_inventory _ _ _ = _ |- _ =>
      apply accepted_cases in Ha as (-> & _) end. split; [done|]. right. eauto.
  - match goal with Ha : accept_inventory _ _ _ = _ |- _ =>
      apply accepted_cases in Ha as (-> & _) end. split; [done|].
    left. split; [done|]. repeat constructor.
  - destruct (retained_floor s events) as (-> & _). split; [done|].
    left. split; [done|]. repeat constructor.
  - destruct (record_event_frame s at_time) as (_ & -> & _). split; [done|].
    left. split; [done|]. repeat constructor.
Qed.

Lemma transition_subscribes v acts v' :
  transition v acts v' → v.(v_state).(subscribed) = false →
  v'.(v_state).(subscribed) = false ∨ ∃ t, Subscribe t true ∈ acts.
Proof.
  destruct 1; simpl; intros Hs; try congruence; try (by left).
  - right. exists now. by left.
  - left. by destruct (record_event_frame s at_time) as (_ & _ & -> & _).
Qed.

Lemma steps_published v acts v' m :
  steps v acts v' → v'.(v_cell) = Some m →
  (v.(v_cell) = Some m ∧ Forall keeps_cell acts ∧
   v'.(v_state).(continuity) = v.(v_state).(continuity)) ∨ published_in v acts v' m.
Proof.
  intros Hs Hm. induction Hs as [|v1 a1 v2 a2 v3 Ht _ IH]; [by left; split_and!|].
  destruct (IH Hm) as [(Hm2 & Hk & Hc)|(pre & now & post & -> & Hk & Hsub)].
  - destruct (transition_cell _ _ _ _ Ht Hm2) as [Hc1 [[Hm1 Hk1]|(Hsub1 & now & ->)]].
    + left. split_and!; [done|by apply Forall_app|congruence].
    + right. exists [], now, a2. rewrite Hc, Hc1. split_and!; [done..|congruence].
  - right. exists (a1 ++ pre), now, post. split_and!; [by rewrite <-app_assoc|done|].
    intros Hs1. destruct (transition_subscribes _ _ _ Ht Hs1) as [Hs2|[t Ht']].
    + destruct (Hsub Hs2) as [t Ht']. exists t. apply elem_of_app. by right.
    + exists t. apply elem_of_app. by left.
Qed.

(** An acquisition attempt. *)
Definition is_acquire act : bool := match act with Acquire _ _ => true | _ => false end.

Definition is_wait act : bool := match act with Wait _ _ => true | _ => false end.

Lemma steps_pending v acts v' d :
  steps v acts v' → Forall (λ act, is_acquire act = false) acts →
  v.(v_state).(event_deadline) = Some d → v'.(v_state).(event_deadline) = Some d.
Proof.
  induction 1 as [|v1 a1 v2 a2 v3 Ht _ IH]; [done|]. rewrite Forall_app. intros [Ha1 Ha2] Hd.
  apply IH; [done|]. destruct Ht; simpl in *; try done;
    try (by apply Forall_cons in Ha1 as [? _]).
  by destruct (record_event_pending s at_time d Hd) as [-> _].
Qed.
End traces.

(** ** Failed attempts and what follows them *)

Section failures.
Context {ID : Type} `{IdLaws ID}.
Implicit Types (v : View ID) (act : Action ID) (acts : list (Action ID)).

(** An attempt that does not end in a publication, given what follows it. *)
Definition failed act (rest : list (Action ID)) : Prop :=
  match act with
  | Subscribe _ ok => ok = false
  | Acquire _ _ => match rest with Publish _ :: _ => False | _ => True end
  | _ => False
  end.

Lemma fail_floored s now at_time t' (cl : option (list (ID * Value ID))) :
  s.(failure_delay) ∈ backoff_delays → now ≤ at_time →
  floored (saturating_add now INITIAL_DELAY) (mkView t' (fail s at_time) cl).
Proof.
  intros Hb%backoff_bounds Hle. right. eexists. split; [done|].
  apply saturating_add_mono; lia.
Qed.

Lemma transition_failed v a1 v' pre act rest t post :
  transition v a1 v' → state_inv v.(v_state) → a1 = pre ++ act :: rest →
  failed act (rest ++ post) → attempt_time act = Some t →
  floored (saturating_add t INITIAL_DELAY) v' ∧
  ∀ act', act' ∈ rest → attempt_time act' = None.
Proof.
  intros Ht Hs Ha1 Hf Hat.
  destruct Ht; simpl in Hs; destruct pre as [|? [|? pre]]; simplify_eq/=;
    try (by destruct pre); try done.
  - split; [|by intros ? ?%elem_of_nil]. apply fail_floored; [by destruct Hs|done].
  - split; [|by intros ? ?%elem_of_nil]. apply fail_floored; [|lia].
    by apply (flight_failure_delay _ (accepted_inv _ _ _ _ _ Hs ltac:(eassumption))).
  - split; [|by intros ? ?%elem_of_nil]. apply fail_floored; [|lia].
    by apply (flight_failure_delay _ (retained_inv s events Hs)).
  - split; [|by intros ? ->%list_elem_of_singleton]. apply fail_floored; [|lia].
    by apply (flight_failure_delay _ (retained_inv s events Hs)).
Qed.

Lemma steps_failed v acts v' pre act post t :
  steps v acts v' → view_inv v → acts = pre ++ act :: post → failed act post →
  attempt_time act = Some t →
  ∀ act' t', act' ∈ post → attempt_time act' = Some t' → saturating_add t INITIAL_DELAY ≤ t'.
Proof.
  intros Hsteps. revert pre. induction Hsteps as [v|v1 a1 v2 a2 v3 Ht Hs IH];
    intros pre Hv Heq Hf Hat act' t' Hin Hat'; [by destruct pre|].
  assert (view_inv v2) as Hv2 by (eapply steps_view_inv; [by apply steps_one|done]).
  apply app_eq_app in Heq as (k & [[-> Heq]|[-> ->]]); [|by eapply (IH k)].
  destruct k as [|act0 rest]; simplify_eq/=; [by eapply (IH [])|].
  destruct (transition_failed _ _ _ pre _ rest t a2 Ht (view_state _ Hv) eq_refl Hf Hat)
    as [Hfl Hno].
  apply elem_of_app in Hin as [Hin|Hin]; [rewrite (Hno _ Hin) in Hat'; done|].
  by eapply (steps_floored _ v2 a2 v3).
Qed.
End failures.

(** ** Theorems *)

Section theorems.
Context {ID : Type} `{IdLaws ID} {W : Type} `{!Acquisition W}.

Lemma run_step_total (c : Config ID W) : ∃ acts c', run_step c = Some (acts, c').
Proof.
  unfold run_step. destruct (try_subscribe c) as [acts c1]. destruct (acq_now _) as [now w].
  destruct (_ && _); [|destruct (wait_step _ _); eauto].
  unfold acquire. destruct (acq_inventory _ _) as [[inv|[e b|e b]] w1]; simpl.
  - destruct (acq_now w1) as [t w2]. destruct (accept_inventory _ _ _) as [s [topo|e]].
    + destruct (from_topology_spec (ID := ID) topo) as (m & -> & _). simpl. eauto.
    + destruct (acq_now w2). simpl. eauto.
  - destruct (acq_now w1). simpl. eauto.
  - destruct (acq_now w1). simpl. eauto.
Qed.

(** The monitor loop never panics: every number of iterations from any start yields a
    configuration. *)
Theorem run_total (n : nat) (c : Config ID W) : ∃ acts c', run n c = Some (acts, c').
Proof.
  revert c. induction n as [|n IH]; intros c; simpl; [eauto|].
  destruct (run_step_total c) as (acts & c1 & ->). simpl.
  destruct (IH c1) as (acts' & c2 & ->). simpl. eauto.
Qed.

Context (clock : W → N) `{!AcquisitionLaws W clock}.

Lemma run_view_inv w r n acts (c : Config ID W) :
  run n (run_start w r) = Some (acts, c) → view_inv (view clock c).
Proof.
  intros Hr%(run_refines clock). eapply steps_view_inv; [done|]. apply start_view_inv.
Qed.

(** C6. The loop refines the abstract actor: against any source that keeps the
    acquisition contract, the actions and states of [n] iterations are a sequence of the
    actor's transitions. *)
Theorem run_refines_actor (n : nat) (c c' : Config ID W) (acts : list (Action ID)) :
  run n c = Some (acts, c') → steps (view clock c) acts (view clock c').
Proof. intros Hr. exact (run_refines clock n c acts c' Hr). Qed.

(** C34. In every reachable configuration the scheduling invariant holds, and a table that is
    available was built, in this run, from the whole of an inventory that the source
    answered to an attempt of the current continuity generation, with no break of
    continuity since; with it go a live subscription and an earlier success. *)
Theorem run_invariant (w : W) (r : N) (n : nat) (acts : list (Action ID)) (c : Config ID W) :
  run n (run_start w r) = Some (acts, c) →
  state_inv c.(state) ∧
  ∀ m, snapshot c.(cell) = Some m →
    c.(state).(subscribed) = true ∧ is_Some c.(state).(last_success) ∧
    ∃ pre inv post,
      chain source_call w
        (pre ++ SInventory (mkAttempt c.(state).(continuity)) (Ok inv) :: post) c.(world) ∧
      Forall keeps_continuity post ∧ built inv m.
Proof.
  intros Hr. destruct (run_view_inv _ _ _ _ _ Hr) as [Hs Ht _]. split; [done|].
  intros m Hm. destruct (Ht m Hm) as (? & ? & _). split_and!; [done..|].
  destruct (run_did _ _ _ _ Hr) as (cs & Hcs & Hp).
  apply (run_refines clock) in Hr.
  destruct (steps_published _ _ _ m Hr Hm) as [(? & _)|(pre & now & post & -> & Hk & _)]; [done|].
  destruct (performs_publication _ _ Hp _ _ _ _ _ eq_refl) as (cs1 & inv & cs2 & -> & Hb & Hp2).
  exists cs1, inv, cs2. split_and!; [done| |done].
  eapply performs_keeps; [done|]. eapply Forall_impl; [done|]. by intros [].
Qed.

(** C22. The retry floor is hard: once it is at [d], no later subscription or acquisition
    attempt happens on a clock reading before [d], whatever events, reconciliation
    deadlines and continuity losses come in between. *)
Theorem retry_floor_holds (w : W) (r : N) (n k : nat) (acts0 acts : list (Action ID))
    (c c' : Config ID W) (d : N) :
  run n (run_start w r) = Some (acts0, c) → c.(state).(retry_not_before) = Some d →
  run k c = Some (acts, c') →
  ∀ act t, act ∈ acts → attempt_time act = Some t → d ≤ t.
Proof.
  intros Hr%run_view_inv Hd Hk%(run_refines clock). eapply steps_floored; [done..|].
  right. by exists d.
Qed.

(** C23. After a failed attempt (a failed subscription, or an acquisition that publishes
    nothing) at [t], every later attempt of the run is at least one second after [t]. *)
Theorem failed_attempts_spaced (w : W) (r : N) (n : nat) (pre post : list (Action ID))
    (act : Action ID) (c : Config ID W) (t : N) :
  run n (run_start w r) = Some (pre ++ act :: post, c) →
  failed act post → attempt_time act = Some t →
  ∀ act' t', act' ∈ post → attempt_time act' = Some t' → saturating_add t INITIAL_DELAY ≤ t'.
Proof.
  intros Hr%(run_refines clock) Hf Hat. eapply steps_failed; [done|apply start_view_inv|done..].
Qed.

(** C21. Recovery: if a table is unavailable and later available, the run in between
    published it from an acquisition of the final continuity generation with no withdrawal
    after it, and if the subscription was lost, after a new successful subscription. *)
Theorem availability_needs_inventory (k : nat) (acts : list (Action ID)) (c c' : Config ID W)
    (m : list (ID * Value ID)) :
  snapshot c.(cell) = None →
  run k c = Some (acts, c') → snapshot c'.(cell) = Some m →
  ∃ pre now post,
    acts = pre ++ Acquire now (mkAttempt c'.(state).(continuity)) :: Publish m :: post ∧
    Forall keeps_cell post ∧
    (c.(state).(subscribed) = false → ∃ t, Subscribe t true ∈ pre).
Proof.
  intros Hnone Hk%(run_refines clock) Hm.
  destruct (steps_published _ _ _ m Hk Hm) as [(Hm' & _)|Hp]; [|exact Hp].
  unfold snapshot in Hnone. simpl in Hm'. congruence.
Qed.

(** Later events neither postpone nor drop a scheduled update: a pending event
    deadline stays as it is until an acquisition starts. *)
Theorem pending_update_kept (n : nat) (c c' : Config ID W) (acts : list (Action ID)) (d : N) :
  run n c = Some (acts, c') → c.(state).(event_deadline) = Some d →
  Forall (λ act, is_acquire act = false) acts → c'.(state).(event_deadline) = Some d.
Proof. intros Hr%(run_refines clock) Hd Ha. by eapply (steps_pending _ _ _ d Hr Ha). Qed.

(** Readers see the last published table: the cell after a run is what the
    publications and withdrawals of the run make of it, so an ordinary inventory failure
    keeps the previous table and a continuity loss removes it. *)
Theorem cell_is_last_publication (n : nat) (c c' : Config ID W) (acts : list (Action ID)) :
  run n c = Some (acts, c') → snapshot c'.(cell) = foldl apply_action (snapshot c.(cell)) acts.
Proof. intros Hr%(run_refines clock). by apply (steps_cell _ _ _ Hr). Qed.
End theorems.
