(* ===== verification/Timed.v ===== *)
(** What a run says of times: pending updates, successes and retries lie close to
    the present, so that the next attempt is never due further ahead than the
    longest backoff or the reconciliation interval. *)

From S2P Require Import Prelude BTree Link Agentx Mib Duration Monitor MonitorRuns.
Open Scope N_scope.

(** ** What the state says of times *)

(** At time [T], with the reconciliation interval [r]: the event deadline is at
    most the longest backoff ahead, the last success is past. *)
Record timed (r T : N) (s : State) : Prop := {
  timed_reconcile : s.(reconcile) = r;
  timed_event : ∀ d, s.(event_deadline) = Some d → d ≤ T + MAX_DELAY;
  timed_success : ∀ t, s.(last_success) = Some t → t ≤ T;
}.

Lemma timed_mono r T T' s : T ≤ T' → timed r T s → timed r T' s.
Proof. intros HT [Hr He Hs]. split; [done|intros d Hd%He; lia|intros t Ht%Hs; lia]. Qed.

Lemma timed_start r T : timed r T (State_new r).
Proof. by split. Qed.

Lemma record_event_timed r T s t :
  flight_inv s → t ≤ T → timed r T s → timed r T (record_event s t).
Proof.
  intros Hf Ht [Hr He Hs].
  destruct (record_event_frame s t) as (Hr' & _ & _ & _ & _ & _ & Hs').
  split; rewrite ?Hr', ?Hs'; [done| |done]. intros d Hd.
  destruct (event_deadline s) as [d0|] eqn:Hd0.
  - destruct (record_event_pending s t d0 Hd0) as [Hp _]. apply He. congruence.
  - destruct (record_event_idle s t Hd0) as (Hp & Hdelay & _). rewrite Hp in Hd.
    injection Hd as <-. rewrite <- Hdelay.
    pose proof (backoff_bounds _ (flight_event_delay _ (record_event_inv s t Hf))).
    unfold saturating_add. lia.
Qed.

Lemma record_batch_timed r lo T s b s' :
  batch_within lo T b → flight_inv s → record_batch s b = Ok s' → timed r T s → timed r T s'.
Proof.
  unfold batch_within, record_batch. intros Hb Hf Hr Hs.
  destruct (first b) as [f|], (last b) as [l|]; try done; [|by injection Hr as <-].
  destruct (_ && _); [|done]. injection Hr as <-. destruct Hb as (_ & Hfl & Hl).
  assert (timed r T (record_event s f)) by (apply record_event_timed; [done|lia|done]).
  destruct (negb _); [|done]. apply record_event_timed; [by apply record_event_inv|done..].
Qed.

Lemma retain_timed r lo T s b :
  batch_within lo T b → flight_inv s → timed r T s → timed r T (retain_failed_events s b).
Proof.
  intros Hb Hf Hs. unfold retain_failed_events. destruct (record_batch s b) eqn:Hr; [|done].
  by eapply record_batch_timed.
Qed.

Lemma start_timed r T s : timed r T s → timed r T (start_acquisition s).
Proof.
  intros [Hr He Hs]. unfold start_acquisition. simpl.
  destruct (event_deadline s) eqn:Hd; split; simpl; naive_solver.
Qed.

Lemma fail_timed r T s t : timed r T s → timed r T (fail s t).
Proof. intros []. by split. Qed.

Lemma after_loss_timed r T s t : timed r T s → timed r T (after_loss s t).
Proof. intros []. by split. Qed.

Lemma accept_timed r lo T s inv t s' x :
  batch_within lo T inv.(inv_events) → flight_inv s → t ≤ T →
  accept_inventory s inv t = (s', x) → timed r T s → timed r T s'.
Proof.
  intros Hb Hf Ht [[-> _]|(s1 & Hs1 & _ & Hcase)]%accept_inventory_cases Hs; [done|].
  pose proof (record_batch_timed _ _ _ _ _ _ Hb Hf Hs1 Hs) as Hs2.
  destruct Hcase as [[-> _]|[-> _]]; [done|]. destruct Hs2. split; [done..|].
  simpl. by intros ? [= <-].
Qed.

Section runs.
Context {ID : Type} `{IdLaws ID}.
Implicit Types (v : View ID) (acts : list (Action ID)).

Lemma transition_timed r v acts v' :
  transition v acts v' → state_inv v.(v_state) →
  timed r v.(v_time) v.(v_state) → timed r v'.(v_time) v'.(v_state).
Proof.
  intros Ht Hs Hv.
  assert (v.(v_time) ≤ v'.(v_time)) as Hle by (destruct Ht; simpl; lia).
  apply (timed_mono _ _ _ _ Hle) in Hv.
  pose proof (start_acquisition_inv _ (state_inv_flight _ Hs)) as Hf.
  assert (∀ now at_time b, now ≤ at_time → at_time ≤ v'.(v_time) →
    batch_within now at_time b → batch_within now v'.(v_time) b) as Hwithin
    by (intros; eapply batch_within_mono; [|done|done]; lia).
  destruct Ht; cbn [v_time v_state] in *; try done.
  - by destruct Hv.
  - by apply fail_timed.
  - eapply accept_timed; [|done| |done|by apply start_timed]; eauto; lia.
  - apply fail_timed. eapply (accept_timed _ now); [|done| |done|by apply start_timed]; [|lia].
    eapply Hwithin; [| |done]; lia.
  - apply fail_timed. eapply (retain_timed _ now); [eauto|done|by apply start_timed].
  - apply after_loss_timed. eapply (retain_timed _ now); [eauto|done|by apply start_timed].
  - apply record_event_timed; [by apply state_inv_flight|done|done].
  - by apply after_loss_timed.
Qed.

Lemma steps_timed r v acts v' :
  steps v acts v' → view_inv v → timed r v.(v_time) v.(v_state) → timed r v'.(v_time) v'.(v_state).
Proof.
  induction 1 as [|v1 a1 v2 a2 v3 Ht _ IH]; [done|]. intros Hv Htimed. apply IH.
  - eapply steps_view_inv; [by apply steps_one|done].
  - eapply transition_timed; [done|by destruct Hv|done].
Qed.
End runs.

(** ** The moment the next attempt is due *)

(** When there is nothing to do, the moment lies ahead and does not depend on
    when it is computed, until it is reached. *)
Lemma next_deadline_fixed s t :
  state_inv s → would_act s t = false →
  ∃ due, t < due ∧ ∀ u, next_deadline s u = N.max due u.
Proof.
  intros Hs Hno. pose proof (next_deadline_correct s t t Hs Hno) as Hc. rewrite Hno in Hc.
  assert (t < next_deadline s t) as Hlt.
  { destruct (N.lt_ge_cases t (next_deadline s t)) as [|Hge]; [done|].
    destruct Hc as [_ Hc]; [lia|]. by specialize (Hc Hge). }
  revert Hlt. unfold next_deadline. destruct (retry_not_before s) as [d|].
  { intros Hlt. exists d. split; [lia|done]. }
  destruct (_ || _) eqn:Hn; [lia|]. apply orb_false_iff in Hn as [_ Hn].
  destruct (inv_idle _ Hs Hn) as [su Hsu]. rewrite Hsu. intros Hlt.
  eexists. split; [|done]. lia.
Qed.

(** An event can only bring the moment forward. *)
Lemma next_deadline_event s t now :
  next_deadline (record_event s t) now ≤ next_deadline s now.
Proof.
  destruct (record_event_frame s t) as (Hr & _ & Hs & Hn & Hf & _ & Hl).
  unfold next_deadline. rewrite Hr, Hs, Hn, Hf, Hl. destruct (retry_not_before s); [done|].
  destruct (_ || _); [done|]. apply N.max_le_compat_r, N.min_le_compat_r.
  destruct (event_deadline s) as [d|] eqn:Hd.
  - by destruct (record_event_pending s t d Hd) as [-> _].
  - destruct (record_event_idle s t Hd) as [-> _]. apply saturating_add_le_max.
Qed.

(** It is at most the longest backoff or the reconciliation interval away, and
    while no failure is being waited out, no later than a pending update. *)
Lemma next_deadline_bound r T s :
  state_inv s → timed r T s →
  (∀ d, s.(retry_not_before) = Some d → d ≤ T + MAX_DELAY) →
  next_deadline s T ≤ T + N.max MAX_DELAY r ∧
  (∀ d, s.(event_deadline) = Some d → s.(retry_not_before) = None →
     next_deadline s T ≤ N.max d T).
Proof.
  intros Hs [Hr He Hl] Hf. unfold next_deadline.
  destruct (retry_not_before s) as [f|]; [split; [specialize (Hf f eq_refl); lia|done]|].
  destruct (_ || _) eqn:Hn; [split; intros; lia|]. apply orb_false_iff in Hn as [_ Hn].
  destruct (inv_idle _ Hs Hn) as [t Ht]. rewrite Ht. specialize (Hl t Ht).
  split; [unfold saturating_add; lia|]. intros d -> _. simpl. lia.
Qed.

(** What is due stays due until it is done. *)
Lemma acquisition_ready_mono s t t' :
  acquisition_ready s t = true → t ≤ t' → acquisition_ready s t' = true.
Proof.
  unfold acquisition_ready. intros Ha Ht. destruct (retry_ready s t) eqn:Hr; [|done].
  rewrite (retry_ready_mono s t t' Hr Ht). simpl in *.
  destruct (needs_inventory s); [done|]. simpl in *.
  destruct (event_deadline s), (last_success s); simpl in *;
    rewrite ?orb_true_iff, ?N.leb_le in *; lia.
Qed.

Lemma would_act_mono s t t' : would_act s t = true → t ≤ t' → would_act s t' = true.
Proof.
  unfold would_act. destruct (subscribed s); eauto using acquisition_ready_mono, retry_ready_mono.
Qed.

(** ** Runs *)

(** A view of a run with the reconciliation interval [r]. *)
Definition punctual {ID : Type} `{!IdOps ID} (r : N) (v : View ID) : Prop :=
  view_inv v ∧ timed r v.(v_time) v.(v_state).

Section runs_in_time.
Context {ID : Type} `{IdLaws ID}.
Implicit Types (v : View ID).

Lemma steps_punctual r v acts v' : steps v acts v' → punctual r v → punctual r v'.
Proof.
  intros Hs [Hv Ht]. split; [by eapply steps_view_inv|by eapply steps_timed].
Qed.

Lemma start_punctual r t : punctual r (mkView t (State_new r) publication).
Proof. split; [apply start_view_inv|apply timed_start]. Qed.

(** From now on the next attempt is never further away than that. *)
Lemma punctual_due r v T :
  punctual r v → v.(v_time) ≤ T →
  next_deadline v.(v_state) T ≤ T + N.max MAX_DELAY r ∧
  ∀ d, v.(v_state).(event_deadline) = Some d →
    d ≤ T + MAX_DELAY ∧ (v.(v_state).(retry_not_before) = None →
      next_deadline v.(v_state) T ≤ N.max d T).
Proof.
  intros [Hv Ht] HT. apply (timed_mono _ _ _ _ HT) in Ht.
  pose proof (view_state _ Hv) as Hs.
  destruct (next_deadline_bound r T _ Hs Ht) as [Hmax Hevent].
  { intros d Hd. pose proof (view_floor _ Hv d Hd) as Hf.
    pose proof (backoff_bounds _ (inv_failure_delay _ Hs)). unfold saturating_add in Hf. lia. }
  split; [done|]. intros d Hd. split; [by apply (timed_event _ _ _ Ht)|by apply Hevent].
Qed.
End runs_in_time.

Section monitor_runs.
Context {ID : Type} `{IdLaws ID} {W : Type} `{!Acquisition W}.
Context (clock : W → N) `{!AcquisitionLaws W clock}.

Lemma run_punctual (w : W) (r : N) (n : nat) acts (c : Config ID W) :
  run n (run_start w r) = Some (acts, c) → punctual r (view clock c).
Proof.
  intros Hr%(run_refines clock). eapply steps_punctual; [exact Hr|]. apply start_punctual.
Qed.

Lemma step_punctual r (c c' : Config ID W) acts :
  run_step c = Some (acts, c') → punctual r (view clock c) → punctual r (view clock c').
Proof.
  intros Hs. apply steps_punctual with acts. apply (run_refines clock 1).
  cbn. rewrite Hs. cbn. by rewrite app_nil_r.
Qed.

(** How far ahead the next attempt of a run is due. *)
Lemma due_bound (w : W) (r : N) (n : nat) (pre : list (Action ID)) (c : Config ID W) :
  run n (run_start w r) = Some (pre, c) →
  let now := clock c.(world) in
  let due := next_deadline c.(state) now in
  due ≤ now + N.max MAX_DELAY r ∧
  ∀ d, c.(state).(event_deadline) = Some d →
    d ≤ now + MAX_DELAY ∧ (c.(state).(retry_not_before) = None → due ≤ N.max d now).
Proof. intros Hr%run_punctual. by apply (punctual_due r (view clock c)). Qed.
End monitor_runs.
