(* ===== verification/Recovery.v ===== *)
(** What the monitor reaches: the shape of the tables it publishes, and that a
    table is available again as soon as the source works. *)

From S2P Require Import Prelude BTree Link Agentx Mib Duration Monitor MonitorRuns Timed.
Open Scope N_scope.

(** ** Well-typed tables *)

Section types.
Context {ID : Type} `{IdLaws ID}.

(** An instance of ifStackStatus: higher and lower layer are InterfaceIndexOrZero
    values, not both zero and not the same, and the status is active. *)
Definition status_row (id : ID) (v : Value ID) : Prop :=
  ∃ h l, id_components id = STATUS ++ [h; l] ∧ id_include id = 0 ∧ v = VInteger 1%Z ∧
    h ≤ i32_max ∧ l ≤ i32_max ∧ h ≠ l.

(** Such rows in strictly ascending order, with a boundary row above or a layer
    above for each interface, and likewise below. *)
Record well_typed (m : list (ID * Value ID)) : Prop := {
  typed_sorted : bt_wf m;
  typed_rows : ∀ id v, (id, v) ∈ m → status_row id v;
  typed_closed : ∀ id v h l i, (id, v) ∈ m → id_components id = STATUS ++ [h; l] →
    i = h ∨ i = l → i ≠ 0 →
    (∃ id' v' h', (id', v') ∈ m ∧ id_components id' = STATUS ++ [h'; i]) ∧
    (∃ id' v' l', (id', v') ∈ m ∧ id_components id' = STATUS ++ [i; l']);
}.

Lemma row_interfaces links t h l :
  from_observed links = Ok t → table_row t h l →
  h ≠ l ∧ ∀ i, i = h ∨ i = l → i ≠ 0 → i ∈ bs_iter t.(interfaces) ∧ i ≤ i32_max.
Proof.
  intros Ho Hrow. pose proof (from_observed_Ok _ _ Ho) as [Hv Ht].
  assert (∀ i, i ∈ bs_iter t.(interfaces) → 0 < i ≤ i32_max) as Hrange.
  { intros i Hi. apply (topology_interfaces _ _ Ht) in Hi. by eapply index_in_range. }
  destruct Hrow as [Hr|[(-> & Hl & _)|(-> & Hh & _)]].
  - destruct (relationships_ends _ _ _ _ Ho Hr) as (Hne & Hh & Hl).
    split; [done|]. intros i [->| ->] _; by split; [|apply Hrange].
  - pose proof (Hrange _ Hl). split; [lia|]. intros i [->| ->] ?; [done|split; [done|lia]].
  - pose proof (Hrange _ Hh). split; [lia|]. intros i [->| ->] ?; [split; [done|lia]|done].
Qed.

(** Every interface has a row above it and a row below it. *)
Lemma interface_rows t i :
  i ∈ bs_iter t.(interfaces) → (∃ h, table_row t h i) ∧ (∃ l, table_row t i l).
Proof.
  intros Hi. unfold table_row. split.
  - destruct (decide (Exists (λ r : N * N, r.2 = i) (bs_iter t.(relationships)))) as [Hex|Hno].
    + apply Exists_exists in Hex as ([h l] & Hin & <-). exists h. by left.
    + exists 0. right; left. split_and!; [done..|]. intros h' Hin. apply Hno, Exists_exists.
      by exists (h', i).
  - destruct (decide (Exists (λ r : N * N, r.1 = i) (bs_iter t.(relationships)))) as [Hex|Hno].
    + apply Exists_exists in Hex as ([h l] & Hin & <-). exists l. by left.
    + exists 0. right; right. split_and!; [done..|]. intros l' Hin. apply Hno, Exists_exists.
      by exists (i, l').
Qed.

Lemma validated_well_typed (m : list (ID * Value ID)) : validated m → well_typed m.
Proof.
  intros (links & t & Ho & Hm). destruct (from_topology_spec (ID := ID) t) as (m' & Hm' & Ht).
  rewrite Hm in Hm'. injection Hm' as <-.
  split; [apply (table_wf _ _ Ht)| |].
  - intros id v Hin. destruct (table_sound _ _ Ht _ _ Hin) as (Hinc & -> & h & l & Hrow & Hc).
    destruct (row_interfaces _ _ _ _ Ho Hrow) as [Hne Hi]. exists h, l. split_and!; try done.
    + destruct (N.eq_dec h 0) as [->|]; [done|]. by apply (Hi h); [left|].
    + destruct (N.eq_dec l 0) as [->|]; [done|]. by apply (Hi l); [right|].
  - intros id v h l i Hin Hc Hi Hnz.
    destruct (table_sound _ _ Ht _ _ Hin) as (_ & _ & h' & l' & Hrow & Hc').
    rewrite Hc in Hc'. apply app_inv_head in Hc'. injection Hc' as <- <-.
    destruct (row_interfaces _ _ _ _ Ho Hrow) as [_ Hint]. destruct (Hint i Hi Hnz) as [Hint' _].
    destruct (interface_rows t i Hint') as [[h' Hh] [l' Hl]].
    apply (table_complete _ _ Ht) in Hh as (id1 & ? & ?). apply (table_complete _ _ Ht) in Hl as (id2 & ? & ?).
    split; [by exists id1, (VInteger 1%Z), h'|by exists id2, (VInteger 1%Z), l'].
Qed.

End types.

(** ** Recovery *)

Section recovery.
Context {ID : Type} `{IdLaws ID} {W : Type} `{!Acquisition W}.
Context (clock : W → N) `{!AcquisitionLaws W clock}.

(** From a world in [healthy] the source works and goes on working: it
    subscribes, its inventories are valid and [fresh] once it has (the flag),
    and a wait of at most [limit] lasts its timeout. *)
Record works (limit : N) (fresh : list ObservedLink → Prop) (healthy : bool → W → Prop) : Prop := {
  works_now : ∀ b w t w', healthy b w → acq_now w = (t, w') → healthy b w';
  works_subscribe : ∀ w, healthy false w →
    ∃ w', acq_subscribe w = (Ok tt, w') ∧ healthy true w';
  works_inventory : ∀ a w, healthy true w →
    ∃ inv w', acq_inventory a w = (Ok inv, w') ∧ healthy true w' ∧
      valid_inventory inv.(inv_links) ∧ fresh inv.(inv_links) ∧ batch_ok inv.(inv_events);
  works_wait : ∀ d b w, healthy b w → d ≤ limit →
    ∃ w', acq_wait d w = (Ok Deadline, w') ∧ healthy b w' ∧ clock w + d ≤ clock w';
}.
Context (limit : N) (fresh : list ObservedLink → Prop).
Context (healthy : bool → W → Prop) (Hworks : works limit fresh healthy).
(** The reconciliation interval of the run: no wait is longer than [limit]. *)
Context (interval : N) (Hlimit : N.max MAX_DELAY interval ≤ limit).

(** [m] is the ifStackTable of a fresh inventory. *)
Definition fresh_table (m : list (ID * Value ID)) : Prop :=
  ∃ links topology, fresh links ∧ topology_of links topology ∧ table_of (table_row topology) m.

(** The monitor takes its source for what it is. *)
Definition in_health (c : Config ID W) : Prop := healthy c.(state).(subscribed) c.(world).

(** An acquisition from a working source publishes. *)
Lemma acquire_publishes now (c : Config ID W) :
  c.(state).(subscribed) = true → in_health c →
  ∃ a c' m, acquire now c = Some ([Acquire now a; Publish m], c') ∧ in_health c' ∧
    c'.(cell) = Some m ∧ fresh_table m.
Proof.
  unfold in_health. intros Htrue Hw. rewrite Htrue in Hw. unfold acquire.
  destruct (works_inventory _ _ _ Hworks (mkAttempt (continuity (start_acquisition (state c)))) _ Hw)
    as (inv & w1 & Hinv & Hw1 & Hvalid & Hfresh & Hbatch).
  rewrite Hinv. pose proof (acq_inventory_law _ _ _ _ Hinv) as (_ & Hecho & _).
  destruct (acq_now w1) as [at_time w2] eqn:Hnow.
  pose proof (works_now _ _ _ Hworks _ _ _ _ Hw1 Hnow) as Hw2.
  destruct (accept_inventory (start_acquisition (state c)) inv at_time) as [s r] eqn:Hacc.
  assert (subscribed s = true) as Hsubd.
  { rewrite (accept_subscribed _ _ _ _ _ Hacc).
    destruct (start_acquisition_frame (state c)) as (_ & -> & _). done. }
  pose proof (from_observed_spec (inv_links inv)) as Hspec.
  unfold accept_inventory in Hacc. rewrite Hecho in Hacc. simpl in Hacc.
  rewrite N.eqb_refl in Hacc. simpl in Hacc.
  pose proof (proj2 (record_batch_ok (start_acquisition (state c)) (inv_events inv)) Hbatch) as Hok.
  destruct (record_batch _ _) as [s1|e]; [|done].
  destruct (from_observed (inv_links inv)) as [topology|e]; [|by destruct Hspec].
  injection Hacc as <- <-.
  destruct (from_topology_spec (ID := ID) topology) as (m & Hm & Ht).
  rewrite Hm. cbn. eexists _, _, m. split; [done|]. cbn in *. rewrite Hsubd.
  split_and!; [done|done|]. exists (inv_links inv), topology. by destruct Hspec.
Qed.

(** An iteration over a working source publishes, or it had nothing to do and
    has waited until there is. *)
Lemma step_publishes (c : Config ID W) :
  punctual interval (view clock c) → in_health c →
  ∃ acts c', run_step c = Some (acts, c') ∧ in_health c' ∧
    ((∃ pre m, acts = pre ++ [Publish m] ∧ Forall keeps_cell pre ∧ (length pre <= 2)%nat ∧
       c'.(cell) = Some m ∧ fresh_table m) ∨
     c'.(state) = c.(state) ∧ c'.(cell) = c.(cell) ∧
     would_act c.(state) (clock c.(world)) = false ∧
     would_act c.(state) (clock c'.(world)) = true ∧
     ∃ t d, acts = [Wait t d]).
Proof.
  destruct c as [w s cl]. unfold in_health. simpl. intros Hp Hw.
  pose proof (view_state _ (proj1 Hp)) as Hinv. simpl in Hinv. unfold run_step, try_subscribe. simpl.
  destruct (acq_now w) as [t1 w1] eqn:Hnow1. pose proof (works_now _ _ _ Hworks _ _ _ _ Hw Hnow1) as Hw1.
  apply acq_now_law in Hnow1 as [Hc1 Hc1'].
  destruct (negb (subscribed s) && retry_ready s t1) eqn:Hsub.
  - apply andb_prop in Hsub as [Hs Hr]. apply negb_true_iff in Hs. rewrite Hs in Hw1.
    destruct (works_subscribe _ _ _ Hworks _ Hw1) as (w2 & Hsub & Hw2). rewrite Hsub.
    apply acq_subscribe_law in Hsub. simpl.
    destruct (acq_now w2) as [t2 w3] eqn:Hnow2. pose proof (works_now _ _ _ Hworks _ _ _ _ Hw2 Hnow2) as Hw3.
    apply acq_now_law in Hnow2 as [Hc2 Hc2'].
    assert (acquisition_ready (set_subscription true true s) t2 = true) as ->.
    { unfold acquisition_ready. change (retry_ready (set_subscription true true s) t2)
        with (retry_ready s t2). by rewrite (retry_ready_mono s t1 t2) by (done || lia). }
    destruct (acquire_publishes t2 (mkConfig w3 (set_subscription true true s) cl) eq_refl Hw3)
      as (a & c' & m & -> & ? & ? & ?). cbn. eexists _, _. split; [done|]. split; [done|].
    left. exists [Subscribe t1 true; Acquire t2 a], m. split_and!; [done|by repeat constructor|done..].
  - simpl. destruct (acq_now w1) as [t2 w2] eqn:Hnow2.
    pose proof (works_now _ _ _ Hworks _ _ _ _ Hw1 Hnow2) as Hw2. apply acq_now_law in Hnow2 as [Hc2 Hc2'].
    destruct (subscribed s && acquisition_ready s t2) eqn:Hready.
    + apply andb_prop in Hready as [Hs _].
      destruct (acquire_publishes t2 (mkConfig w2 s cl) Hs Hw2) as (a & c' & m & -> & ? & ? & ?).
      cbn. eexists _, _. split; [done|]. split; [done|]. left.
      exists [Acquire t2 a], m. split_and!; [done|by repeat constructor|simpl; lia|done..].
    + unfold wait_step. simpl.
      destruct (punctual_due interval _ t2 Hp) as [Hdue _]; [simpl; lia|]. simpl in Hdue.
      destruct (works_wait _ _ _ Hworks (saturating_sub (next_deadline s t2) t2) _ _ Hw2)
        as (w3 & -> & Hw3 & Hc3); [unfold saturating_sub; lia|]. eexists _, _. split; [done|]. split; [done|]. right.
      split; [done|]. split; [done|]. simpl. unfold saturating_sub in Hc3.
      split; [|split; [|by eexists _, _]].
      * destruct (would_act s (clock w)) eqn:Hact; [|done]. unfold would_act in Hact.
        destruct (subscribed s) eqn:Hs; simpl in *.
        -- by rewrite (acquisition_ready_mono s _ t2 Hact) in Hready by lia.
        -- by rewrite (retry_ready_mono s _ t1 Hact) in Hsub.
      * destruct (would_act s t2) eqn:Hact; [eapply would_act_mono; [done|lia]|].
        apply (next_deadline_correct s t2); [done|done|lia|lia].
Qed.

(** ** From then on *)

(** A run that has reached a working source. *)
Definition on_track (c : Config ID W) : Prop := in_health c ∧ punctual interval (view clock c).

(** An action that leaves a fresh table fresh. *)
Definition serves_fresh (act : Action ID) : Prop :=
  match act with Publish m => fresh_table m | Unavailable => False | _ => True end.

Definition holds_fresh (cl : option (list (ID * Value ID))) : Prop :=
  ∃ m, cl = Some m ∧ fresh_table m.

Lemma keeps_serves acts : Forall keeps_cell acts → Forall serves_fresh acts.
Proof using. intros Ha. eapply Forall_impl; [exact Ha|]. by intros []. Qed.

Lemma serves_fresh_cell acts cl :
  Forall serves_fresh acts → holds_fresh cl → holds_fresh (foldl apply_action cl acts).
Proof using.
  intros Ha. revert cl. induction Ha as [|act acts Hact _ IH]; intros cl Hcl; [done|].
  simpl. apply IH. destruct act; try done. by exists mib.
Qed.

Lemma on_track_start (w : W) n acts (c : Config ID W) :
  run n (run_start w interval) = Some (acts, c) → in_health c → on_track c.
Proof using AcquisitionLaws0. intros Hr%(run_punctual clock) Hc. by split. Qed.

(** Each iteration stays on the track; the first or the second one publishes. *)
Lemma on_track_step (c : Config ID W) :
  on_track c →
  ∃ acts c', run_step c = Some (acts, c') ∧ on_track c' ∧ Forall serves_fresh acts ∧
    (length acts <= 3)%nat ∧
    ((∃ m, Publish m ∈ acts) ∨
     would_act c.(state) (clock c.(world)) = false ∧
     would_act c'.(state) (clock c'.(world)) = true).
Proof using Hlimit Hworks AcquisitionLaws0 H.
  intros [Hc Hv].
  destruct (step_publishes c Hv Hc) as (acts & c' & Hstep & Hc' & Hcase).
  exists acts, c'. split; [done|]. split.
  { split; [done|]. by eapply step_punctual. }
  destruct Hcase as [(pre & m & -> & Hk%keeps_serves & Hlen & _ & Hm)|(Hst & _ & Hno & Hyes & t & d & ->)].
  - split; [apply Forall_app; by repeat constructor|]. rewrite length_app. split; [simpl; lia|].
    left. exists m. rewrite elem_of_app. right. left.
  - split; [by repeat constructor|]. split; [simpl; lia|]. right. by rewrite Hst.
Qed.

Lemma run_on_track n (c : Config ID W) :
  on_track c →
  ∃ acts c', run n c = Some (acts, c') ∧ on_track c' ∧ Forall serves_fresh acts.
Proof using Hlimit Hworks AcquisitionLaws0 H.
  revert c. induction n as [|n IH]; intros c Hc; [by eexists _, _|].
  destruct (on_track_step c Hc) as (acts & c1 & Hs & Hc1 & Ha & _).
  destruct (IH c1 Hc1) as (acts' & c2 & Hr & Hc2 & Ha').
  exists (acts ++ acts'), c2. cbn. rewrite Hs. cbn. rewrite Hr. split; [done|]. split; [done|].
  by apply Forall_app.
Qed.

(** A fresh table in the cell is there, or a newer one is, after any number of
    iterations. *)
Lemma run_stays_fresh n (c : Config ID W) :
  on_track c → holds_fresh (snapshot c.(cell)) →
  ∃ acts c', run n c = Some (acts, c') ∧ holds_fresh (snapshot c'.(cell)).
Proof using Hlimit Hworks AcquisitionLaws0 H.
  intros Hc Hcl. destruct (run_on_track n c Hc) as (acts & c' & Hr & _ & Ha).
  exists acts, c'. split; [done|].
  pose proof (steps_cell _ _ _ (run_refines clock _ _ _ _ Hr)) as Heq. simpl in Heq.
  unfold snapshot in *. rewrite Heq. by apply serves_fresh_cell.
Qed.

(** ** Theorems *)

(** Progress and recovery: as soon as the source works, and whatever happened before, two
    iterations of the loop are enough for a fresh inventory to be published: the first
    one publishes if a subscription, a retry, an event or the reconciliation is due, and
    otherwise waits until one is. *)
Theorem recovery_live (w : W) (n : nat) (acts : list (Action ID)) (c : Config ID W) :
  run n (run_start w interval) = Some (acts, c) → in_health c →
  ∃ acts' c' m, run 2 c = Some (acts', c') ∧ Publish m ∈ acts' ∧ is_Some (snapshot c'.(cell)) ∧
    (would_act c.(state) (clock c.(world)) = true →
     ∃ acts1 c1 m1, run 1 c = Some (acts1, c1) ∧ Publish m1 ∈ acts1 ∧
       snapshot c1.(cell) = Some m1).
Proof.
  intros Hrun Hw. unfold snapshot.
  pose proof (run_punctual clock _ _ _ _ _ Hrun) as Hp.
  destruct (step_publishes c Hp Hw) as (acts1 & c1 & Hs1 & Hw1 & Hc1).
  pose proof (step_punctual clock _ _ _ _ Hs1 Hp) as Hp1.
  destruct (step_publishes c1 Hp1 Hw1) as (acts2 & c2 & Hs2 & _ & Hc2).
  assert (run 2 c = Some (acts1 ++ acts2, c2)) as Hrun2.
  { cbn [run]. rewrite Hs1. cbn. rewrite Hs2. cbn. by rewrite app_nil_r. }
  assert (run 1 c = Some (acts1, c1)) as Hone
    by (cbn; rewrite Hs1; cbn; by rewrite app_nil_r).
  destruct Hc1 as [(pre & m & Hm & _ & _ & Hcell & _)|(Hst & _ & Hno & Hyes & _)].
  - assert (Publish m ∈ acts1) as Hin by (rewrite Hm, elem_of_app; right; left).
    exists (acts1 ++ acts2), c2, m. split; [done|]. split; [apply elem_of_app; by left|].
    split; [|by eauto 10]. destruct Hc2 as [(pre2 & m2 & _ & _ & _ & -> & _)|(_ & -> & _)]; by eexists.
  - destruct Hc2 as [(pre & m & -> & _ & _ & Hcell & _)|(_ & _ & Hno2 & _)]; [|congruence].
    eexists _, c2, m. split; [done|]. split; [rewrite !elem_of_app; right; right; left|].
    split; [by eexists|congruence].
Qed.
End recovery.

Section typed_runs.
Context {ID : Type} `{IdLaws ID} {W : Type} `{!Acquisition W}.
Context (clock : W → N) `{!AcquisitionLaws W clock}.

(** C35. Published tables are well typed: whatever the source delivers, the table in the cell
    is a set of ifStackStatus instances in strictly ascending order, each active and
    indexed by two different InterfaceIndexOrZero values, and each interface in it has a
    row above and a row below, as RFC 2863 asks. *)
Theorem published_tables_typed (w : W) (r : N) (n : nat) (acts : list (Action ID))
    (c : Config ID W) (m : list (ID * Value ID)) :
  run n (run_start w r) = Some (acts, c) → snapshot c.(cell) = Some m → well_typed m.
Proof.
  intros Hr%(run_view_inv clock) Hm. apply validated_well_typed.
  by apply (view_table _ Hr).
Qed.
End typed_runs.
