(* ===== verification/Responsive.v ===== *)
(** How soon the monitor acts: if calls on the source overshoot by a bounded
    time, the loop never sleeps past the moment its next attempt is due, and
    that moment is bounded by the backoffs and the reconciliation interval. *)

From S2P Require Import Prelude BTree Link Agentx Mib Duration Monitor MonitorRuns Timed Recovery.
Open Scope N_scope.

(** Reading the clock and subscribing take at most [delta], an inventory at most
    [patience], and a wait overshoots its timeout by at most [delta]. *)
Class AcqTiming (W : Type) `{!Acquisition W} (clock : W → N) (delta patience : N) : Prop := {
  acq_now_within : ∀ w t w', acq_now w = (t, w') → clock w' ≤ clock w + delta;
  acq_subscribe_within : ∀ w r w', acq_subscribe w = (r, w') → clock w' ≤ clock w + delta;
  acq_inventory_within : ∀ a w r w', acq_inventory a w = (r, w') → clock w' ≤ clock w + patience;
  acq_wait_within : ∀ d w r w', acq_wait d w = (r, w') → clock w' ≤ clock w + d + delta;
}.

(** ** Waiting *)

Section waits.
Context {ID : Type} `{IdLaws ID} {W : Type} `{!Acquisition W}.
Context (clock : W → N) `{!AcquisitionLaws W clock} (delta patience : N) `{!AcqTiming W clock delta patience}.

Notation waits acts := (Forall (λ act, is_wait act = true) acts).

(** The parts of an iteration: nothing or an attempt to subscribe at the first
    reading [t], then an acquisition or a wait at the second reading [now]. *)
Lemma run_step_parts (c c' : Config ID W) acts :
  run_step c = Some (acts, c') →
  ∃ t w, acq_now c.(world) = (t, w) ∧
  ((∃ ok rest, acts = Subscribe t ok :: rest) ∨
   (would_act c.(state) t = false ∨ c.(state).(subscribed) = true) ∧
   ∃ now w', acq_now w = (now, w') ∧
   ((∃ rest, acts = Acquire now (mkAttempt c.(state).(continuity)) :: rest) ∨
    c.(state).(subscribed) && acquisition_ready c.(state) now = false ∧
    wait_step now (mkConfig w' c.(state) c.(cell)) = (acts, c'))).
Proof.
  destruct c as [w s cl]. unfold run_step, try_subscribe. simpl.
  destruct (acq_now w) as [t w1] eqn:Hn1. intros Hr. exists t, w1. split; [done|].
  destruct (negb (subscribed s) && retry_ready s t) eqn:Hsub.
  { left. destruct (acq_subscribe w1) as [[[]|e] w2].
    - simpl in Hr. destruct (acq_now w2) as [now w3].
      destruct (acquisition_ready _ now); [destruct (acquire _ _) as [[a b]|]; [|by simpl in Hr]|
        destruct (wait_step _ _) as [a b]]; simpl in Hr; injection Hr as <- <-; eauto.
    - destruct (acq_now w2) as [t2 w3]. simpl in Hr. destruct (acq_now w3) as [now w4].
      destruct (subscribed s && _); [destruct (acquire _ _) as [[a b]|]; [|by simpl in Hr]|
        destruct (wait_step _ _) as [a b]]; simpl in Hr; injection Hr as <- <-; eauto. }
  right. split.
  { unfold would_act. destruct (subscribed s); [by right|by left]. }
  simpl in Hr. destruct (acq_now w1) as [now w2]. exists now, w2. split; [done|].
  destruct (subscribed s && acquisition_ready s now).
  - left. destruct (start_acquisition_frame s) as [Hc _]. unfold acquire in Hr. simpl in Hr.
    rewrite Hc in Hr. repeat case_match; simplify_option_eq; eauto.
  - right. split; [done|]. destruct (wait_step _ _) as [a b]. by injection Hr as <- <-.
Qed.

(** An iteration that only waits wakes up in time. *)
Lemma wait_iteration (c c' : Config ID W) acts :
  run_step c = Some (acts, c') → state_inv c.(state) → waits acts →
  ∃ due, clock c.(world) < due ∧ (∀ u, next_deadline c.(state) u = N.max due u) ∧
    clock c'.(world) ≤ due + 3 * delta ∧
    (c'.(state) = c.(state) ∨ ∃ t, c'.(state) = record_event c.(state) t).
Proof.
  intros Hr Hs Hall.
  apply run_step_parts in Hr as (t & w & Hn1 & [(ok & rest & ->)|
    (Hno & now & w' & Hn2 & [(rest & ->)|(Hidle & Hw)])]); [by apply Forall_cons in Hall as [? _]..|].
  pose proof (acq_now_within _ _ _ Hn1). apply acq_now_law in Hn1 as [Ht Ht'].
  pose proof (acq_now_within _ _ _ Hn2). apply acq_now_law in Hn2 as [Hnow Hnow'].
  assert (would_act c.(state) t = false) as Hact.
  { destruct Hno as [?|Hsub]; [done|]. unfold would_act. rewrite Hsub in *. simpl in Hidle.
    destruct (acquisition_ready (state c) t) eqn:Ha; [|done].
    by rewrite (acquisition_ready_mono _ t now Ha) in Hidle by lia. }
  destruct (next_deadline_fixed _ _ Hs Hact) as (due & Hdue & Hnext).
  unfold wait_step in Hw. simpl in Hw. rewrite Hnext in Hw.
  unfold saturating_sub in Hw. exists due.
  destruct (acq_wait _ w') as [[[|at_time]|e] w3] eqn:Hwait;
    pose proof (acq_wait_within _ _ _ _ Hwait).
  - injection Hw as <- <-. simpl. split_and!; [lia|done|lia|by left].
  - injection Hw as <- <-. simpl. split_and!; [lia|done|lia|eauto].
  - destruct (acq_now w3) as [t3 w4]. simpl in Hw. injection Hw as <- <-.
    apply Forall_cons in Hall as [_ Hall]. by apply Forall_cons in Hall as [? _].
Qed.

(** A run that only waits has not reached the moment, or just passed it. *)
Lemma waits_on_time m (c c' : Config ID W) acts :
  run m c = Some (acts, c') → state_inv c.(state) → waits acts →
  let due := next_deadline c.(state) (clock c.(world)) in
  (m = 0%nat ∧ c' = c) ∨ clock c.(world) < due ∧ clock c'.(world) ≤ due + 3 * delta.
Proof.
  revert c acts. induction m as [|m IH]; intros c acts; simpl; [intros [= <- <-]; by left|].
  destruct (run_step c) as [[acts1 c1]|] eqn:Hr1; [|done]. simpl.
  destruct (run m c1) as [[acts2 c2]|] eqn:Hr; [|done]. intros [= <- <-] Hs [Ha1 Ha2]%Forall_app.
  right. destruct (wait_iteration _ _ _ Hr1 Hs Ha1) as (due & Hlt & Hnext & Hc1 & Hst).
  rewrite Hnext. assert (state_inv c1.(state)) as Hs1
    by (destruct Hst as [->|[t ->]]; [done|by apply record_event_state_inv]).
  destruct (IH c1 acts2 Hr Hs1 Ha2) as [[_ ->]|[Hlt1 Hc2]]; [lia|].
  assert (∀ u, next_deadline c1.(state) u ≤ N.max due u) as Hnext1.
  { intros u. rewrite <- Hnext. destruct Hst as [->|[t ->]]; [done|apply next_deadline_event]. }
  specialize (Hnext1 (clock c1.(world))). lia.
Qed.

(** An iteration's attempt follows its first readings of the clock. *)
Lemma step_attempt (c c' : Config ID W) acts ws act post t :
  run_step c = Some (acts, c') → acts = ws ++ act :: post → waits ws →
  attempt_time act = Some t → t ≤ clock c.(world) + 2 * delta.
Proof.
  intros Hr Hacts Hws Hat.
  assert (∀ a rest, is_wait a = false → acts = a :: rest → act = a) as Hhead.
  { intros a rest Ha ->. destruct ws as [|x ws]; simplify_eq/=; [done|].
    apply Forall_cons in Hws as [? _]. congruence. }
  apply run_step_parts in Hr as (u & w & Hn1 & Hr). pose proof (acq_now_within _ _ _ Hn1).
  apply acq_now_law in Hn1 as [Hu Hu'].
  destruct Hr as [(ok & rest & Heq)|(_ & now & w' & Hn2 & Hr)].
  { apply Hhead in Heq as ->; [|done]. injection Hat as <-. lia. }
  pose proof (acq_now_within _ _ _ Hn2). apply acq_now_law in Hn2 as [Hnow Hnow'].
  destruct Hr as [(rest & Heq)|(_ & Hw)].
  { apply Hhead in Heq as ->; [|done]. injection Hat as <-. lia. }
  assert (∀ x, x ∈ acts → attempt_time x = None) as Hnone.
  { clear Hacts Hhead. intros x Hx. unfold wait_step in Hw. repeat case_match; simplify_eq/=;
      repeat (apply elem_of_cons in Hx as [->|Hx]; [done|]); by apply elem_of_nil in Hx. }
  rewrite Hnone in Hat; [done|]. subst acts. apply elem_of_app. right. by left.
Qed.

(** The first attempt of a run comes in time. *)
Lemma first_attempt_on_time m (c c' : Config ID W) acts ws act post t :
  run m c = Some (acts, c') → state_inv c.(state) → acts = ws ++ act :: post → waits ws →
  attempt_time act = Some t →
  let due := next_deadline c.(state) (clock c.(world)) in
  t ≤ clock c.(world) + 2 * delta ∨ clock c.(world) < due ∧ t ≤ due + 5 * delta.
Proof.
  intros Hrun. revert c acts ws post Hrun.
  induction m as [|m IH]; intros c acts ws post; simpl; [by intros [= <- <-] _ Heq; destruct ws|].
  destruct (run_step c) as [[acts1 c1]|] eqn:Hr1; [|done]. simpl.
  destruct (run m c1) as [[acts2 c2]|] eqn:Hr; [|done]. intros [= <- <-] Hs Heq Hws Hat.
  assert (∀ ws2 post2, acts2 = ws2 ++ act :: post2 → waits ws2 → waits acts1 →
    t ≤ clock c.(world) + 2 * delta ∨
    clock c.(world) < next_deadline c.(state) (clock c.(world)) ∧
    t ≤ next_deadline c.(state) (clock c.(world)) + 5 * delta) as Hlater.
  { intros ws2 post2 Heq2 Hws2 Ha1. right.
    destruct (wait_iteration _ _ _ Hr1 Hs Ha1) as (due & Hlt & Hnext & Hc1 & Hst).
    assert (state_inv c1.(state)) as Hs1
      by (destruct Hst as [->|[? ->]]; [done|by apply record_event_state_inv]).
    assert (∀ u, next_deadline c1.(state) u ≤ N.max due u) as Hnext1.
    { intros u. rewrite <- Hnext. destruct Hst as [->|[? ->]]; [done|apply next_deadline_event]. }
    specialize (Hnext1 (clock c1.(world))). rewrite Hnext.
    destruct (IH c1 acts2 ws2 post2 Hr Hs1 Heq2 Hws2 Hat); lia. }
  apply app_eq_app in Heq as (k & [[-> Hk]|[-> ->]]).
  - destruct k as [|x k]; simplify_eq/=; [|left; by eapply step_attempt].
    apply (Hlater [] post); [done|constructor|by rewrite app_nil_r].
  - apply Forall_app in Hws as [Ha1 Hk]. by eapply Hlater.
Qed.

(** *** Publications *)

(** An iteration that publishes takes an inventory and a few calls. *)
Lemma publish_within (c c' : Config ID W) acts m :
  run_step c = Some (acts, c') → Publish m ∈ acts →
  clock c'.(world) ≤ clock c.(world) + patience + 5 * delta.
Proof.
  destruct c as [w s cl]. unfold run_step, try_subscribe. simpl.
  destruct (acq_now w) as [t w1] eqn:Hn1. apply acq_now_within in Hn1.
  assert (∀ acts1 s1 w2, clock w2 ≤ clock w + 3 * delta → Publish m ∉ acts1 →
    (let '(now, w3) := acq_now w2 in
     if subscribed s1 && acquisition_ready s1 now then
       '(acts2, c2) ← acquire now (mkConfig w3 s1 cl); Some (acts1 ++ acts2, c2)
     else let '(acts2, c2) := wait_step now (mkConfig w3 s1 cl) in Some (acts1 ++ acts2, c2))
      = Some (acts, c') → Publish m ∈ acts →
    clock c'.(world) ≤ clock w + patience + 5 * delta) as Hrest.
  { intros acts1 s1 w2 Hw2 Hno. destruct (acq_now w2) as [now w3] eqn:Hn3.
    apply acq_now_within in Hn3. destruct (_ && _).
    - destruct (acquire _ _) as [[acts2 c2]|] eqn:Ha; [|by simpl]. simpl. intros [= <- <-] [?|Hm]%elem_of_app; [done|].
      unfold acquire in Ha. simpl in Ha.
      destruct (acq_inventory _ w3) as [r w4] eqn:Hi. apply acq_inventory_within in Hi.
      repeat case_match; simplify_option_eq; try set_solver;
        match goal with E : acq_now w4 = _ |- _ => apply acq_now_within in E end; lia.
    - unfold wait_step. intros. repeat case_match; simplify_eq/=; set_solver. }
  destruct (negb (subscribed s) && retry_ready s t).
  - destruct (acq_subscribe w1) as [[[]|e] w2] eqn:Hsub; apply acq_subscribe_within in Hsub.
    + apply (Hrest [Subscribe t true] (set_subscription true true s) w2); [lia|set_solver].
    + destruct (acq_now w2) as [t2 w3] eqn:Hn2. apply acq_now_within in Hn2.
      apply (Hrest [Subscribe t false] (fail s t2) w3); [lia|set_solver].
  - apply (Hrest [] s w1); [lia|set_solver].
Qed.

(** ** Theorems *)

(** C18. The monitor acts in time: if reading the clock and subscribing take at most [delta],
    a wait overshoots by at most [delta] and an inventory ends in bounded time, then from any loop head of any run the next attempt to subscribe or acquire
    starts at most [5 delta] after it is due, and a run that attempts nothing has not got
    further than that. It is due at most 30 seconds or the reconciliation interval ahead,
    whichever is longer, and, while no failure is being waited out, no later than a
    pending update, which events bring within 30 seconds and never postpone. *)
Theorem attempts_on_time (w : W) (r : N) (n m : nat) (pre acts : list (Action ID))
    (c c' : Config ID W) :
  run n (run_start w r) = Some (pre, c) → run m c = Some (acts, c') →
  let now := clock c.(world) in
  let due := next_deadline c.(state) now in
  (∀ ws act post t, acts = ws ++ act :: post → waits ws → attempt_time act = Some t →
     t ≤ N.max now due + 5 * delta) ∧
  (waits acts → clock c'.(world) ≤ N.max now (due + 3 * delta)) ∧
  due ≤ now + N.max MAX_DELAY r ∧
  (∀ d, c.(state).(event_deadline) = Some d →
     d ≤ now + MAX_DELAY ∧ (c.(state).(retry_not_before) = None → due ≤ N.max d now)).
Proof.
  intros Hpre Hrun now due. destruct (due_bound clock _ _ _ _ _ Hpre) as [Hmax Hevent].
  pose proof (view_state _ (run_view_inv clock _ _ _ _ _ Hpre)) as Hs. simpl in Hs.
  split_and!; [| |done|done].
  - intros ws act post t Heq Hws Hat.
    subst now due. destruct (first_attempt_on_time _ _ _ _ _ _ _ _ Hrun Hs Heq Hws Hat); lia.
  - intros Hw. subst now due. destruct (waits_on_time _ _ _ _ Hrun Hs Hw) as [[_ ->]|[_ Hc]]; lia.
Qed.
End waits.

(** *** A working source *)

Section recovery.
Context {ID : Type} `{IdLaws ID} {W : Type} `{!Acquisition W}.
Context (clock : W → N) `{!AcquisitionLaws W clock} (delta patience : N).
Context `{!AcqTiming W clock delta patience}.
Context (limit : N) (fresh : list ObservedLink → Prop).
Context (healthy : bool → W → Prop) (Hworks : works clock limit fresh healthy).
Context (interval : N) (Hlimit : N.max MAX_DELAY interval ≤ limit).

(** Recovery is fast: as soon as the source works, and whatever happened before, the table
    of a fresh inventory is published within one inventory and a few calls of the moment the next
    attempt is due, by the first iteration or the second, and from then on the cell always holds
    the table of a fresh inventory. *)
Theorem recovery_in_time (w : W) (n : nat) (pre : list (Action ID)) (c : Config ID W) :
  run n (run_start w interval) = Some (pre, c) → in_health healthy c →
  let now := clock c.(world) in
  let due := next_deadline c.(state) now in
  ∃ k acts c' m, (k <= 2)%nat ∧ run k c = Some (acts, c') ∧ Publish m ∈ acts ∧
    snapshot c'.(cell) = Some m ∧ fresh_table fresh m ∧
    clock c'.(world) ≤ N.max now due + patience + 8 * delta ∧
    ∀ j, ∃ acts' c'', run j c' = Some (acts', c'') ∧ holds_fresh fresh (snapshot c''.(cell)).
Proof using Hlimit Hworks AcqTiming0 AcquisitionLaws0 H.
  intros Hpre Hw now due. subst now due.
  pose proof (on_track_start clock healthy interval _ _ _ _ Hpre Hw) as Htrack.
  pose proof (proj2 Htrack) as Hp.
  pose proof (view_state _ (proj1 Hp)) as Hs. simpl in Hs.
  assert (∀ k acts c' m, run k c = Some (acts, c') → cell c' = Some m → fresh_table fresh m →
    ∀ j, ∃ acts' c'', run j c' = Some (acts', c'') ∧ holds_fresh fresh (snapshot (cell c''))) as Hon.
  { intros k acts c' m Hr Hc' Hm j.
    destruct (run_on_track clock limit fresh healthy Hworks interval Hlimit k c Htrack) as (? & ? & Hr' & Ht & _).
    rewrite Hr in Hr'. injection Hr' as <- <-.
    by apply (run_stays_fresh clock limit fresh healthy Hworks interval Hlimit); [|exists m]. }
  destruct (step_publishes clock limit fresh healthy Hworks interval Hlimit c Hp Hw)
    as (acts1 & c1 & Hs1 & Hw1 & [(pre' & m & Hm & _ & _ & Hcell & Hfresh)|(Hst & _ & Hno & Hyes & t & d & ->)]).
  - assert (Publish m ∈ acts1) as Hin by (rewrite Hm, elem_of_app; right; left).
    assert (run 1 c = Some (acts1, c1)) as Hr by (cbn; rewrite Hs1; cbn; by rewrite app_nil_r).
    exists 1%nat, acts1, c1, m. split; [lia|].
    split_and!; [done..| |by eapply Hon].
    pose proof (publish_within clock delta patience _ _ _ _ Hs1 Hin). lia.
  - destruct (wait_iteration clock delta patience _ _ _ Hs1 Hs ltac:(by repeat constructor))
      as (due & Hlt & Hnext & Hc1 & _).
    rewrite Hnext. rewrite <- Hst in Hyes.
    pose proof (step_punctual clock _ _ _ _ Hs1 Hp) as Hp1.
    destruct (step_publishes clock limit fresh healthy Hworks interval Hlimit c1 Hp1 Hw1)
      as (acts2 & c2 & Hs2 & _ & [(pre' & m & Hm & _ & _ & Hcell & Hfresh)|(_ & _ & Hno2 & _)]); [|congruence].
    assert (Publish m ∈ acts2) as Hin by (rewrite Hm, elem_of_app; right; left).
    assert (run 2 c = Some ([Wait t d] ++ acts2, c2)) as Hr
      by (cbn [run]; rewrite Hs1; cbn; rewrite Hs2; cbn; by rewrite app_nil_r).
    exists 2%nat, ([Wait t d] ++ acts2), c2, m. split; [lia|].
    split_and!; [done|by right|done|done| |by eapply Hon].
    pose proof (publish_within clock delta patience _ _ _ _ Hs2 Hin). lia.
Qed.
End recovery.
