(* ===== verification/Netlink.v ===== *)
(** Decoding of route-netlink datagrams, the pure half of
    [src/src/netlink.rs]: framing, dump messages and link attributes. *)

From S2P Require Import Prelude Link.
Open Scope N_scope.

(** ** Message types of the netlink-packet crates

    The constructors are the variants the source matches on; each [Other...]
    constructor stands for the variants it sends to a wildcard arm. *)

Inductive InfoKind :=
| KBond | KBridge | KVlan | KMacVlan | KIpVlan | KMacVtap | KVxlan | KVeth | KOther.

Inductive InfoVxlan :=
| VxLink (value : N)
| VxOther.

Inductive InfoData :=
| DataVxlan (attributes : list InfoVxlan)
| DataOther.

Inductive LinkInfo :=
| InfoKindOf (value : InfoKind)
| InfoDataOf (value : InfoData)
| InfoOther.

Inductive LinkAttribute :=
| IfName (value : string)
| AController (value : N)
| ALink (value : N)
| LinkNetNsId (value : Z)
| ALinkInfo (infos : list LinkInfo)
| OtherAttribute.

(** [LinkMessage { header.index, attributes }] *)
Record LinkMessage := mkLinkMessage { msg_index : N; attributes : list LinkAttribute }.

Inductive RouteNetlinkMessage :=
| NewLink (link : LinkMessage)
| DelLink (link : LinkMessage)
| OtherRoute.

(** [Done] carries its code, [PError] the error its conversion yields. *)
Inductive NetlinkPayload :=
| InnerMessage (message : RouteNetlinkMessage)
| Done (code : Z)
| PError (error : Error)
| Overrun
| Noop
| OtherPayload.

Record NetlinkMessage := mkMessage {
  sequence_number : N;
  flags : N;
  payload : NetlinkPayload;
}.

(** ** Constants *)

Definition NETLINK_HEADER_LENGTH : N := 16.
(** [NLM_F_DUMP_INTR] of the kernel's netlink interface. *)
Definition NLM_F_DUMP_INTR : N := 16.

(** [fn invalid] *)
Definition invalid (message : string) : Error := mkError InvalidData [Lit message].

(** ** Link attributes *)

(** [fn set_once] *)
Definition set_once {T} (slot : option T) (value : T) (field : string)
    : result Error (option T) :=
  match slot with
  | Some _ => Err (mkError InvalidData [Lit "duplicate "; DisplayStr field])
  | None => Ok (Some value)
  end.

(** The local variables of [decode_link]. *)
Record Slots := mkSlots {
  s_name : option string;
  s_controller : option N;
  s_lower : option N;
  s_lower_netnsid : option Z;
  s_kind : option InfoKind;
  s_data : option InfoData;
}.

Definition no_slots : Slots := mkSlots None None None None None None.

(** The inner loop over link infos. *)
Definition take_info (s : Slots) (info : LinkInfo) : result Error Slots :=
  match info with
  | InfoKindOf value =>
      k ← set_once s.(s_kind) value "link kind";
      Ok (mkSlots s.(s_name) s.(s_controller) s.(s_lower) s.(s_lower_netnsid) k s.(s_data))
  | InfoDataOf value =>
      d ← set_once s.(s_data) value "link data";
      Ok (mkSlots s.(s_name) s.(s_controller) s.(s_lower) s.(s_lower_netnsid) s.(s_kind) d)
  | InfoOther => Ok s
  end.

(** The body of the attribute loop. *)
Definition take_attribute (s : Slots) (attribute : LinkAttribute) : result Error Slots :=
  match attribute with
  | IfName value =>
      n ← set_once s.(s_name) value "interface name";
      Ok (mkSlots n s.(s_controller) s.(s_lower) s.(s_lower_netnsid) s.(s_kind) s.(s_data))
  | AController value =>
      c ← set_once s.(s_controller) value "controller";
      Ok (mkSlots s.(s_name) c s.(s_lower) s.(s_lower_netnsid) s.(s_kind) s.(s_data))
  | ALink value =>
      l ← set_once s.(s_lower) value "lower interface";
      Ok (mkSlots s.(s_name) s.(s_controller) l s.(s_lower_netnsid) s.(s_kind) s.(s_data))
  | LinkNetNsId value =>
      i ← set_once s.(s_lower_netnsid) value "lower network namespace";
      Ok (mkSlots s.(s_name) s.(s_controller) s.(s_lower) i s.(s_kind) s.(s_data))
  | ALinkInfo infos => foldM take_info s infos
  | OtherAttribute => Ok s
  end.

(** The [match kind.as_ref()] block. *)
Definition link_kind (kind : option InfoKind) : LinkKind :=
  match kind with
  | Some KBond => Bond
  | Some KBridge => Bridge
  | Some KVlan => Vlan
  | Some KMacVlan => MacVlan
  | Some KIpVlan => IpVlan
  | Some KMacVtap => MacVtap
  | Some KVxlan => Vxlan
  | Some KVeth => Veth
  | _ => Other
  end.

(** The [match data] block. *)
Definition vxlan_underlay (data : option InfoData) : result Error (option N) :=
  match data with
  | Some (DataVxlan attributes) =>
      foldM (λ found attribute,
        match attribute with
        | VxLink value => set_once found value "VXLAN underlay"
        | VxOther => Ok found
        end) None attributes
  | _ => Ok None
  end.

(** [fn decode_link] *)
Definition decode_link (message : LinkMessage) : result Error ObservedLink :=
  s ← foldM take_attribute no_slots message.(attributes);
  vxlan_lower ← vxlan_underlay s.(s_data);
  name ← ok_or s.(s_name) (invalid "interface has no name");
  Ok {| index := message.(msg_index);
        name := name;
        kind := link_kind s.(s_kind);
        controller := s.(s_controller);
        lower := s.(s_lower);
        lower_netnsid := s.(s_lower_netnsid);
        vxlan_lower := vxlan_lower |}.

(** ** Datagrams *)

(** [u32::from_le_bytes] *)
Fixpoint from_le_bytes (bytes : list N) : N :=
  match bytes with
  | [] => 0
  | b :: bytes' => b + 256 * from_le_bytes bytes'
  end.

(** [u32::from_ne_bytes] on the one target the program is built for,
    [x86_64-unknown-linux-musl] ([packaging/build.sh], [deny.toml]), which is
    little-endian and has a [usize] of 64 bits. *)
Definition from_ne_bytes (bytes : list N) : N := from_le_bytes bytes.

Definition len {A} (l : list A) : N := N.of_nat (length l).

(** [length.checked_add(3).map(|value| value & !3)] on a 64-bit [usize]. *)
Definition aligned_length (length : N) : option N :=
  if length + 3 <? U64_MODULUS then Some (N.ldiff (length + 3) 3) else None.

Section datagram.
(** [NetlinkMessage::deserialize], with the text its error displays. *)
Context (deserialize : list N → result string NetlinkMessage).

(** One iteration of the loop of [decode_datagram]: the message at [offset]
    and the next offset; [None] is the panic of a slice out of range. *)
Definition decode_one (bytes : list N) (offset : nat)
    : option (result Error (NetlinkMessage * nat)) :=
  remaining ← slice offset (length bytes) bytes;
  if len remaining <? NETLINK_HEADER_LENGTH then
    Some (Err (invalid "trailing bytes after netlink message"))
  else
    field ← slice 0 4 remaining;
    let length := from_ne_bytes field in
    if (length <? NETLINK_HEADER_LENGTH) || (len remaining <? length) then
      Some (Err (invalid "invalid netlink message length"))
    else
      frame ← slice 0 (N.to_nat length) remaining;
      Some (
        message ← map_err (λ error, mkError InvalidData
                    [Lit "cannot decode netlink message: "; DisplayStr error])
                    (deserialize frame);
        aligned ← ok_or (aligned_length length) (invalid "netlink message length overflow");
        if len remaining <? aligned then
          if length =? len remaining then Ok (message, List.length bytes)
          else Err (invalid "truncated netlink message padding")
        else Ok (message, (offset + N.to_nat aligned)%nat)).

(** [while offset < bytes.len()]; [None] is a panic, or that the fuel ran out. *)
Fixpoint decode_loop (fuel : nat) (bytes : list N) (offset : nat)
    (messages : list NetlinkMessage) : option (result Error (list NetlinkMessage)) :=
  match fuel with
  | O => None
  | S fuel' =>
      if (offset <? length bytes)%nat then
        match decode_one bytes offset with
        | Some (Ok (message, offset')) =>
            decode_loop fuel' bytes offset' (messages ++ [message])
        | Some (Err e) => Some (Err e)
        | None => None
        end
      else Some (Ok messages)
  end.

(** [fn decode_datagram]: every iteration consumes at least a header, so the
    length of the datagram is fuel enough, and no slice is out of range: the
    default is never taken (see [decode_loop_returns]). *)
Definition decode_datagram (bytes : list N) : result Error (list NetlinkMessage) :=
  default (Err (error_other "panic")) (decode_loop (S (length bytes)) bytes 0 []).

(** ** Dumps *)

(** The loop of [consume_dump] from [position] on, with [message_count]
    messages in the datagram; [true] when the dump is complete. *)
Fixpoint consume_messages (sequence : N) (message_count position : nat)
    (links : list ObservedLink) (messages : list NetlinkMessage)
    : result Error (bool * list ObservedLink) :=
  match messages with
  | [] => Ok (false, links)
  | message :: messages' =>
      if negb (message.(sequence_number) =? sequence) then
        Err (invalid "interface inventory response sequence did not match its request")
      else if negb (N.land message.(flags) NLM_F_DUMP_INTR =? 0) then
        Err (error_other "interface inventory dump was interrupted")
      else match message.(payload) with
      | InnerMessage (NewLink link) =>
          observed ← decode_link link;
          consume_messages sequence message_count (S position) (links ++ [observed]) messages'
      | Done code =>
          if (code =? 0)%Z && (position + 1 =? message_count)%nat then Ok (true, links)
          else if (code =? 0)%Z then
            Err (invalid "interface inventory continued after completion")
          else Err (error_other "interface inventory completion reported an error")
      | PError error => Err error
      | Overrun => Err (error_other "interface inventory socket reported overrun")
      | _ => Err (invalid "unexpected interface inventory message")
      end
  end.

(** [fn consume_dump] *)
Definition consume_dump (bytes : list N) (sequence : N) (links : list ObservedLink)
    : result Error (bool * list ObservedLink) :=
  messages ← decode_datagram bytes;
  consume_messages sequence (length messages) 0 links messages.
End datagram.

(** ** Reference: the fields a link message carries *)

Inductive Field :=
| FName (value : string)
| FController (value : N)
| FLower (value : N)
| FNetns (value : Z)
| FKind (value : InfoKind)
| FData (value : InfoData).

Definition info_fields (info : LinkInfo) : list Field :=
  match info with
  | InfoKindOf value => [FKind value]
  | InfoDataOf value => [FData value]
  | InfoOther => []
  end.

Definition attribute_fields (attribute : LinkAttribute) : list Field :=
  match attribute with
  | IfName value => [FName value]
  | AController value => [FController value]
  | ALink value => [FLower value]
  | LinkNetNsId value => [FNetns value]
  | ALinkInfo infos => infos ≫= info_fields
  | OtherAttribute => []
  end.

(** All fields of the message in the order they arrive. *)
Definition fields (message : LinkMessage) : list Field :=
  message.(attributes) ≫= attribute_fields.

Definition get_name (f : Field) : option string := if f is FName v then Some v else None.
Definition get_controller (f : Field) : option N := if f is FController v then Some v else None.
Definition get_lower (f : Field) : option N := if f is FLower v then Some v else None.
Definition get_netns (f : Field) : option Z := if f is FNetns v then Some v else None.
Definition get_kind (f : Field) : option InfoKind := if f is FKind v then Some v else None.
Definition get_data (f : Field) : option InfoData := if f is FData v then Some v else None.

(** The underlay interfaces of VXLAN link data. *)
Definition underlays (data : option InfoData) : list N :=
  match data with
  | Some (DataVxlan attributes) => omap (λ a, if a is VxLink v then Some v else None) attributes
  | _ => []
  end.

(** [message] describes [link]: it carries exactly one name, at most one
    value of every other field and at most one VXLAN underlay, and the link
    has exactly these values. *)
Definition describes (message : LinkMessage) (link : ObservedLink) : Prop :=
  let fs := fields message in
  ∃ k d,
    link.(index) = message.(msg_index) ∧
    omap get_name fs = [link.(name)] ∧
    omap get_controller fs = option_list link.(controller) ∧
    omap get_lower fs = option_list link.(lower) ∧
    omap get_netns fs = option_list link.(lower_netnsid) ∧
    omap get_kind fs = option_list k ∧ link.(kind) = link_kind k ∧
    omap get_data fs = option_list d ∧ underlays d = option_list link.(vxlan_lower).

(** ** Reference: framing *)

Section framing.
Context (deserialize : list N → result string NetlinkMessage).

(** One message: a header's worth of bytes at least, a length field that
    counts the whole frame, and contents the message crate accepts. *)
Definition frame_of (frame : list N) (m : NetlinkMessage) : Prop :=
  NETLINK_HEADER_LENGTH ≤ len frame ∧ from_ne_bytes (take 4 frame) = len frame ∧
  deserialize frame = Ok m.

(** Frames follow each other, each padded to a multiple of four bytes; the
    last one may end the datagram without its padding. *)
Inductive framed : list N → list NetlinkMessage → Prop :=
| framed_nil : framed [] []
| framed_last frame m : frame_of frame m → framed frame [m]
| framed_cons frame padding rest m ms :
    frame_of frame m → (length padding < 4)%nat → (len frame + len padding) mod 4 = 0 →
    framed rest ms → framed (frame ++ padding ++ rest) (m :: ms).
End framing.

(** Zero bytes up to the next multiple of four. *)
Definition padding_of (frame : list N) : list N :=
  replicate (N.to_nat (match len frame mod 4 with 0 => 0 | r => 4 - r end)) 0.

(** Frames laid out with their padding. *)
Definition pack (frames : list (list N)) : list N :=
  mjoin ((λ frame, frame ++ padding_of frame) <$> frames).

(** ** Reference: dumps *)

(** A message of the running dump that describes a link. *)
Definition dump_entry (sequence : N) (m : NetlinkMessage) (observed : ObservedLink) : Prop :=
  m.(sequence_number) = sequence ∧ N.land m.(flags) NLM_F_DUMP_INTR = 0 ∧
  ∃ link, m.(payload) = InnerMessage (NewLink link) ∧ decode_link link = Ok observed.

(** The successful end of the running dump. *)
Definition dump_end (sequence : N) (m : NetlinkMessage) : Prop :=
  m.(sequence_number) = sequence ∧ N.land m.(flags) NLM_F_DUMP_INTR = 0 ∧
  m.(payload) = Done 0.

(** ** Lemmas: link attributes *)

(** [set_once] on the slot of the field. *)
Definition put_field (s : Slots) (f : Field) : result Error Slots :=
  match f with
  | FName v => take_attribute s (IfName v)
  | FController v => take_attribute s (AController v)
  | FLower v => take_attribute s (ALink v)
  | FNetns v => take_attribute s (LinkNetNsId v)
  | FKind v => take_info s (InfoKindOf v)
  | FData v => take_info s (InfoDataOf v)
  end.

Lemma foldM_bind {E S A B} (f : S → A → result E S) (g : S → B → result E S)
    (split_of : A → list B) :
  (∀ s a, f s a = foldM g s (split_of a)) →
  ∀ l s, foldM f s l = foldM g s (l ≫= split_of).
Proof.
  intros Hf l. induction l as [|a l IH]; intros s; simpl; [done|].
  rewrite foldM_app, <- Hf. destruct (f s a); simpl; auto.
Qed.

Lemma result_bind_ret {E A} (m : result E A) : (x ← m; Ok x) = m.
Proof. by destruct m. Qed.

Lemma take_info_fields s info : take_info s info = foldM put_field s (info_fields info).
Proof. destruct info; cbn [foldM info_fields put_field]; by rewrite ?result_bind_ret. Qed.

Lemma take_attribute_fields s a :
  take_attribute s a = foldM put_field s (attribute_fields a).
Proof.
  destruct a; cbn [foldM attribute_fields put_field]; rewrite ?result_bind_ret; try done.
  simpl. apply foldM_bind, take_info_fields.
Qed.

(** A slot takes the values that arrive for it. *)
Definition slot_in {A} (o : option A) (l : list A) (o' : option A) : Prop :=
  option_list o ++ l = option_list o'.

Lemma slot_in_nil {A} (o o' : option A) : slot_in o [] o' ↔ o' = o.
Proof. unfold slot_in. destruct o, o'; simpl; naive_solver. Qed.

Lemma slot_in_cons {A} (o o' : option A) x l :
  slot_in o (x :: l) o' ↔ o = None ∧ l = [] ∧ o' = Some x.
Proof. unfold slot_in. destruct o, o', l; simpl; naive_solver. Qed.

Lemma set_once_Ok {T} (o : option T) v field o' :
  set_once o v field = Ok o' ↔ o = None ∧ o' = Some v.
Proof. destruct o; simpl; naive_solver. Qed.

(** The slots of [s] together with the fields [fs] fill the slots of [s']. *)
Definition filled (s : Slots) (fs : list Field) (s' : Slots) : Prop :=
  slot_in s.(s_name) (omap get_name fs) s'.(s_name) ∧
  slot_in s.(s_controller) (omap get_controller fs) s'.(s_controller) ∧
  slot_in s.(s_lower) (omap get_lower fs) s'.(s_lower) ∧
  slot_in s.(s_lower_netnsid) (omap get_netns fs) s'.(s_lower_netnsid) ∧
  slot_in s.(s_kind) (omap get_kind fs) s'.(s_kind) ∧
  slot_in s.(s_data) (omap get_data fs) s'.(s_data).

Lemma slot_in_Some {A} (x : A) l o' : slot_in (Some x) l o' ↔ l = [] ∧ o' = Some x.
Proof. unfold slot_in. destruct o', l; simpl; naive_solver. Qed.

Lemma fill_fields fs s s' : foldM put_field s fs = Ok s' ↔ filled s fs s'.
Proof.
  revert s. induction fs as [|f fs IH]; intros s; cbn [foldM].
  - unfold filled. cbn. repeat setoid_rewrite slot_in_nil. destruct s, s'; simpl. naive_solver.
  - rewrite bind_Ok. setoid_rewrite IH. unfold filled.
    destruct f; cbn [put_field take_attribute take_info];
      setoid_rewrite bind_Ok; setoid_rewrite set_once_Ok; cbn; rewrite slot_in_cons;
      (split;
       [ intros (s1 & (o & (Ho & ->) & [= <-]) & Hs); cbn in Hs; rewrite slot_in_Some in Hs; tauto
       | intros Hs; eexists; split; [eexists; split; [split; [tauto|reflexivity]|reflexivity]|];
         cbn; rewrite slot_in_Some; tauto ]).
Qed.

Lemma vxlan_fill attrs s o :
  foldM (λ found a, match a with
                    | VxLink value => set_once found value "VXLAN underlay"
                    | VxOther => Ok found
                    end) s attrs = Ok o ↔
  slot_in s (underlays (Some (DataVxlan attrs))) o.
Proof.
  unfold underlays. revert s. induction attrs as [|[v|] attrs IH]; intros s; cbn.
  - rewrite slot_in_nil. naive_solver.
  - rewrite slot_in_cons, bind_Ok. setoid_rewrite set_once_Ok. setoid_rewrite IH. split.
    + intros (? & [? ->] & [? ?]%slot_in_Some). tauto.
    + intros (? & ? & ?). exists (Some v). rewrite slot_in_Some. tauto.
  - apply IH.
Qed.

Lemma vxlan_underlay_Ok data o :
  vxlan_underlay data = Ok o ↔ underlays data = option_list o.
Proof.
  destruct data as [[attrs|]|]; [apply vxlan_fill|..]; cbn; destruct o; naive_solver.
Qed.

Lemma decode_link_Ok message link : decode_link message = Ok link ↔ describes message link.
Proof.
  unfold decode_link, describes. rewrite bind_Ok.
  setoid_rewrite (foldM_bind _ _ _ take_attribute_fields). setoid_rewrite fill_fields.
  fold (fields message). setoid_rewrite bind_Ok. setoid_rewrite bind_Ok.
  setoid_rewrite vxlan_underlay_Ok. setoid_rewrite ok_or_Ok. unfold filled, slot_in. cbn.
  split.
  - intros (s & (Hn & Hc & Hl & Hi & Hk & Hd) & vx & Hvx & nm & Hnm & [= <-]); simpl.
    exists (s_kind s), (s_data s). rewrite Hnm in Hn. tauto.
  - intros (k & d & Hix & Hn & Hc & Hl & Hi & Hk & Hkind & Hd & Hvx).
    exists (mkSlots (Some (name link)) (controller link) (lower link) (lower_netnsid link) k d).
    simpl. split; [tauto|]. exists (vxlan_lower link). split; [done|].
    exists (name link). split; [done|]. destruct link; simpl in *. by subst.
Qed.

Lemma omap_Permutation_option {A B} (f : A → option B) l l' o :
  Permutation l l' → omap f l = option_list o → omap f l' = option_list o.
Proof.
  intros Hp Ho.
  assert (Permutation (omap f l) (omap f l')) as Hp' by (by rewrite Hp).
  rewrite Ho in Hp'. destruct o as [x|]; simpl in *.
  - by apply Permutation_singleton_l in Hp'.
  - by apply Permutation_nil_l in Hp'.
Qed.

(** ** Lemmas: framing *)

Definition is_byte (b : N) : Prop := b < 256.

Lemma from_le_bytes_lt l : Forall is_byte l → from_le_bytes l < 256 ^ len l.
Proof.
  unfold len. induction 1 as [|b l Hb Hl IH]; cbn [from_le_bytes length]; [done|].
  rewrite Nat2N.inj_succ, N.pow_succ_r'. unfold is_byte in Hb. nia.
Qed.

Lemma length_field_lt l : Forall is_byte l → from_ne_bytes (take 4 l) < U32_MODULUS.
Proof.
  intros Hl. eapply N.lt_le_trans; [apply from_le_bytes_lt, Forall_take, Hl|].
  change U32_MODULUS with (256 ^ 4). apply N.pow_le_mono_r; [done|].
  unfold len. rewrite length_take. lia.
Qed.

Lemma aligned_length_eq n :
  n < U32_MODULUS → ∃ a, aligned_length n = Some a ∧ n ≤ a < n + 4 ∧ a mod 4 = 0.
Proof.
  intros Hn. unfold aligned_length.
  destruct (N.ltb_spec (n + 3) U64_MODULUS) as [_|Hbad].
  2: { unfold U64_MODULUS, U32_MODULUS in *. lia. }
  eexists; split; [done|].
  change (N.ldiff (n + 3) 3) with (N.ldiff (n + 3) (N.ones 2)).
  rewrite N.ldiff_ones_r, N.shiftl_mul_pow2, N.shiftr_div_pow2.
  change (2 ^ 2) with 4. pose proof (N.div_mod' (n + 3) 4) as Hdiv.
  assert ((n + 3) mod 4 < 4) as Hmod by (by apply N.mod_lt).
  generalize dependent ((n + 3) mod 4). intros r Hdiv Hr.
  split; [lia|]. apply N.Div0.mod_mul.
Qed.

Lemma aligned_unique n a p :
  n ≤ a < n + 4 → a mod 4 = 0 → p < 4 → (n + p) mod 4 = 0 → a = n + p.
Proof.
  intros Ha Ha4 Hp Hp4. apply N.Div0.mod_divides in Ha4 as [x ->].
  apply N.Div0.mod_divides in Hp4 as [y Hy]. lia.
Qed.

Lemma len_app {A} (l k : list A) : len (l ++ k) = len l + len k.
Proof. unfold len. rewrite length_app. lia. Qed.

Lemma len_drop {A} n (l : list A) : len (drop n l) = len l - N.of_nat n.
Proof. unfold len. rewrite length_drop. lia. Qed.

Section framing_lemmas.
Context (deserialize : list N → result string NetlinkMessage).

(** How a first frame ends: with its padding, or with the datagram. *)
Definition frame_end (frame padding rest : list N) : Prop :=
  ((length padding < 4)%nat ∧ (len frame + len padding) mod 4 = 0) ∨
  (padding = [] ∧ rest = []).

(** No slice of an iteration is out of range: the first by the loop's condition,
    the others by the checks before them. *)
Lemma decode_one_slices bytes offset :
  (offset <= length bytes)%nat →
  decode_one deserialize bytes offset =
  let remaining := drop offset bytes in
  let n := from_ne_bytes (take 4 remaining) in
  Some (if len remaining <? NETLINK_HEADER_LENGTH then
    Err (invalid "trailing bytes after netlink message")
  else if (n <? NETLINK_HEADER_LENGTH) || (len remaining <? n) then
    Err (invalid "invalid netlink message length")
  else
    message ← map_err (λ error, mkError InvalidData
                [Lit "cannot decode netlink message: "; DisplayStr error])
                (deserialize (take (N.to_nat n) remaining));
    aligned ← ok_or (aligned_length n) (invalid "netlink message length overflow");
    if len remaining <? aligned then
      if n =? len remaining then Ok (message, length bytes)
      else Err (invalid "truncated netlink message padding")
    else Ok (message, (offset + N.to_nat aligned)%nat)).
Proof.
  intros Hoff. unfold decode_one. rewrite slice_Some by lia.
  rewrite (take_ge (drop offset bytes)) by (rewrite length_drop; lia). cbn zeta.
  set (rem := drop offset bytes). unfold mbind at 1, option_bind at 1.
  destruct (N.ltb_spec (len rem) NETLINK_HEADER_LENGTH); [done|].
  unfold len, NETLINK_HEADER_LENGTH in *. rewrite slice_Some by lia. rewrite drop_0. simpl.
  set (n := from_ne_bytes (take 4 rem)). destruct (N.ltb_spec n 16); [done|].
  destruct (N.ltb_spec (N.of_nat (length rem)) n); [done|]. simpl.
  by rewrite slice_Some, drop_0, Nat.sub_0_r by lia.
Qed.

Lemma decode_one_complete bytes offset frame padding rest m :
  Forall is_byte bytes → (offset <= length bytes)%nat →
  drop offset bytes = frame ++ padding ++ rest →
  frame_of deserialize frame m → frame_end frame padding rest →
  decode_one deserialize bytes offset =
    Some (Ok (m, (offset + length frame + length padding)%nat)).
Proof.
  intros Hbytes Hoff Hdrop (Hmin & Hlen & Hm) Hend. rewrite decode_one_slices by done. cbv zeta.
  f_equal.
  pose proof (length_field_lt _ (Forall_drop _ offset _ Hbytes)) as Hfield.
  assert (length bytes = offset + length (drop offset bytes))%nat as Hlb
    by (rewrite length_drop; lia).
  rewrite Hdrop in *. rewrite take_app_le in Hfield |- *
    by (unfold len, NETLINK_HEADER_LENGTH in Hmin; lia).
  rewrite Hlen in *. rewrite !len_app.
  destruct (N.ltb_spec (len frame + (len padding + len rest)) NETLINK_HEADER_LENGTH); [lia|].
  destruct (N.ltb_spec (len frame) NETLINK_HEADER_LENGTH); [lia|].
  destruct (N.ltb_spec (len frame + (len padding + len rest)) (len frame)); [lia|]. simpl.
  rewrite take_app_length' by (unfold len; lia). rewrite Hm. simpl.
  destruct (aligned_length_eq _ Hfield) as (a & -> & Ha & Ha4). simpl.
  rewrite !length_app in Hlb. unfold len in *.
  destruct (N.ltb_spec (N.of_nat (length frame) + (N.of_nat (length padding) +
    N.of_nat (length rest))) a) as [Hlt|Hge]; destruct Hend as [[Hp Hp4]|[-> ->]]; simpl in *.
  - assert (a = N.of_nat (length frame) + N.of_nat (length padding)) by
      (apply aligned_unique; [done..|lia|done]). lia.
  - rewrite N.add_0_r, N.eqb_refl. do 2 f_equal. lia.
  - assert (a = N.of_nat (length frame) + N.of_nat (length padding)) by
      (apply aligned_unique; [done..|lia|done]). do 2 f_equal. lia.
  - do 2 f_equal. lia.
Qed.

Lemma decode_one_sound bytes offset m offset' :
  Forall is_byte bytes → (offset <= length bytes)%nat →
  decode_one deserialize bytes offset = Some (Ok (m, offset')) →
  ∃ frame padding rest,
    drop offset bytes = frame ++ padding ++ rest ∧ frame_of deserialize frame m ∧
    frame_end frame padding rest ∧ offset' = (offset + length frame + length padding)%nat.
Proof.
  intros Hbytes Hoff. rewrite decode_one_slices by done. cbv zeta. intros Hone.
  apply (inj Some) in Hone. revert Hone.
  pose proof (length_field_lt _ (Forall_drop _ offset _ Hbytes)) as Hfield.
  assert (length bytes = offset + length (drop offset bytes))%nat as Hlb
    by (rewrite length_drop; lia).
  set (rem := drop offset bytes) in *.
  set (n := from_ne_bytes (take 4 rem)) in *.
  destruct (N.ltb_spec (len rem) NETLINK_HEADER_LENGTH); [done|].
  destruct (N.ltb_spec n NETLINK_HEADER_LENGTH); [done|].
  destruct (N.ltb_spec (len rem) n) as [|Hn]; [done|]. simpl.
  destruct (deserialize (take (N.to_nat n) rem)) as [msg|e] eqn:Hm; [|done]. simpl.
  destruct (aligned_length_eq _ Hfield) as (a & -> & Ha & Ha4). simpl.
  assert (frame_of deserialize (take (N.to_nat n) rem) msg) as Hframe.
  { assert (len (take (N.to_nat n) rem) = n) as Htake.
    { unfold len in *. rewrite length_take. lia. }
    unfold frame_of. rewrite Htake. split_and!; [done| |done].
    rewrite take_take, Nat.min_l; [done|]. unfold NETLINK_HEADER_LENGTH in *. lia. }
  unfold len in *.
  destruct (N.ltb_spec (N.of_nat (length rem)) a) as [Hlt|Hge].
  - destruct (N.eqb_spec n (N.of_nat (length rem))) as [Heq|]; [|done].
    intros [= <- <-]. exists rem, [], []. rewrite take_ge in Hframe by lia.
    rewrite !app_nil_r. split_and!; [done|done|by right|simpl; lia].
  - intros [= <- <-].
    exists (take (N.to_nat n) rem), (take (N.to_nat (a - n)) (drop (N.to_nat n) rem)),
      (drop (N.to_nat (a - n)) (drop (N.to_nat n) rem)).
    assert (length (take (N.to_nat n) rem) = N.to_nat n) by (rewrite length_take; lia).
    assert (length (take (N.to_nat (a - n)) (drop (N.to_nat n) rem)) = N.to_nat (a - n)) as Hpl
      by (rewrite length_take, length_drop; lia).
    split_and!; [by rewrite !take_drop|done| |lia].
    left. unfold len. split; [lia|]. rewrite Hpl.
    replace (_ + _) with a by lia. done.
Qed.

Lemma decode_loop_sound fuel bytes offset acc ms :
  Forall is_byte bytes → (offset <= length bytes)%nat →
  decode_loop deserialize fuel bytes offset acc = Some (Ok ms) →
  ∃ new, ms = acc ++ new ∧ framed deserialize (drop offset bytes) new.
Proof.
  intros Hbytes. revert offset acc. induction fuel as [|fuel IH]; intros offset acc Hoff; [done|].
  cbn [decode_loop]. destruct (Nat.ltb_spec offset (length bytes)) as [Hlt|Hge].
  2: { intros [= ->]. exists []. rewrite app_nil_r, drop_ge by lia. split; [done|constructor]. }
  destruct (decode_one _ _ _) as [[[m o']|e]|] eqn:Hone; [|done..].
  apply decode_one_sound in Hone as (frame & pad & rest & Hdrop & Hframe & Hend & ->);
    [|done..].
  assert (offset + length frame + length pad <= length bytes)%nat as Hoff'.
  { apply (f_equal length) in Hdrop. rewrite length_drop, !length_app in Hdrop. lia. }
  intros Hloop. apply IH in Hloop as (new & -> & Hnew); [|done].
  exists (m :: new). rewrite <- app_assoc. split; [done|].
  rewrite <- Nat.add_assoc, <- drop_drop, Hdrop, app_assoc, drop_app_length' in Hnew
    by (rewrite length_app; lia).
  rewrite Hdrop. destruct Hend as [[Hp Hp4]|[-> ->]]; [by constructor|].
  rewrite !app_nil_r. inversion Hnew as [|f m' (Hmin & _)|f p r m' ms' (Hmin & _)]; subst.
  - by constructor.
  - unfold len in Hmin. simpl in Hmin. done.
  - match goal with H : _ ++ _ = [] |- _ => apply app_eq_nil in H as [-> _] end. done.
Qed.

Lemma framed_step bytes ms :
  framed deserialize bytes ms → ms ≠ [] →
  ∃ frame padding rest m ms', bytes = frame ++ padding ++ rest ∧ ms = m :: ms' ∧
    frame_of deserialize frame m ∧ frame_end frame padding rest ∧
    framed deserialize rest ms'.
Proof.
  destruct 1 as [|frame m Hf|frame pad rest m ms Hf Hp Hp4 Hr]; [done|..]; intros _.
  - exists frame, [], [], m, []. rewrite app_nil_r. split_and!; try done; [by right|constructor].
  - exists frame, pad, rest, m, ms. split_and!; try done. by left.
Qed.

Lemma decode_loop_complete bytes fuel offset acc ms :
  Forall is_byte bytes → (offset <= length bytes)%nat →
  (length bytes - offset < fuel)%nat → framed deserialize (drop offset bytes) ms →
  decode_loop deserialize fuel bytes offset acc = Some (Ok (acc ++ ms)).
Proof.
  intros Hbytes. revert offset acc ms.
  induction fuel as [|fuel IH]; intros offset acc ms Hoff Hfuel Hframed; [lia|].
  cbn [decode_loop]. destruct ms as [|m0 ms0].
  { inversion Hframed as [Hnil| |]. apply (f_equal length) in Hnil.
    rewrite length_drop in Hnil. simpl in Hnil.
    destruct (Nat.ltb_spec offset (length bytes)); [lia|]. by rewrite app_nil_r. }
  destruct (framed_step _ _ Hframed) as
    (frame & pad & rest & m & ms & Hdrop & [= -> ->] & Hframe & Hend & Hrest); [done|].
  assert (offset + length frame + length pad <= length bytes)%nat as Hoff'.
  { pose proof (f_equal length Hdrop) as Hd. rewrite length_drop, !length_app in Hd. lia. }
  assert (16 <= length frame)%nat as Hmin.
  { destruct Hframe as (Hmin & _). unfold len, NETLINK_HEADER_LENGTH in Hmin. lia. }
  destruct (Nat.ltb_spec offset (length bytes)); [|lia].
  rewrite (decode_one_complete _ _ frame pad rest m) by done.
  rewrite (IH _ _ ms); [by rewrite <- app_assoc|lia|lia|].
  by rewrite <- Nat.add_assoc, <- drop_drop, Hdrop, app_assoc, drop_app_length'
    by (rewrite length_app; lia).
Qed.

Lemma decode_loop_returns bytes fuel offset acc :
  Forall is_byte bytes → (offset <= length bytes)%nat →
  (length bytes - offset < fuel)%nat →
  ∃ r, decode_loop deserialize fuel bytes offset acc = Some r.
Proof.
  intros Hbytes. revert offset acc.
  induction fuel as [|fuel IH]; intros offset acc Hoff Hfuel; [lia|].
  cbn [decode_loop]. destruct (Nat.ltb_spec offset (length bytes)); [|eauto].
  destruct (decode_one _ _ _) as [[[m o']|e]|] eqn:Hone; [|by eauto|].
  2: { by rewrite decode_one_slices in Hone by lia. }
  apply decode_one_sound in Hone as (frame & pad & rest & Hd & (Hmin & _) & _ & ->); [|done..].
  apply (f_equal length) in Hd. rewrite length_drop, !length_app in Hd.
  unfold len, NETLINK_HEADER_LENGTH in Hmin. apply IH; lia.
Qed.

Lemma decode_datagram_Ok bytes ms :
  Forall is_byte bytes →
  decode_datagram deserialize bytes = Ok ms ↔ framed deserialize bytes ms.
Proof.
  intros Hbytes. unfold decode_datagram. split.
  - destruct (decode_loop_returns bytes (S (length bytes)) 0 []) as [r Hr]; [done|lia..|].
    rewrite Hr. simpl. intros ->. apply decode_loop_sound in Hr as (new & -> & Hnew); [|done|lia].
    done.
  - intros Hf. by rewrite (decode_loop_complete _ _ _ _ ms) by (done || lia).
Qed.
End framing_lemmas.

Section framing_results.
Context (deserialize : list N → result string NetlinkMessage).

Lemma decode_one_Err bytes offset e :
  decode_one deserialize bytes offset = Some (Err e) → e.(error_kind) = InvalidData.
Proof.
  unfold decode_one. destruct (slice offset _ _) as [rem|]; [|done]. simpl.
  destruct (_ <? _); [by intros [= <-]|]. destruct (slice 0 4 rem) as [field|]; [|done]. simpl.
  destruct (_ || _); [by intros [= <-]|]. destruct (slice 0 _ rem) as [frame|]; [|done]. simpl.
  destruct (deserialize _); simpl; [|by intros [= <-]].
  destruct (aligned_length _); simpl; [|by intros [= <-]].
  destruct (_ <? _); [|done]. destruct (_ =? _); [done|by intros [= <-]].
Qed.

Lemma decode_loop_Err fuel bytes offset acc e :
  decode_loop deserialize fuel bytes offset acc = Some (Err e) → e.(error_kind) = InvalidData.
Proof.
  revert offset acc. induction fuel as [|fuel IH]; intros offset acc; [done|]. cbn [decode_loop].
  destruct (_ <? _)%nat; [|done].
  destruct (decode_one _ _ _) as [[[m o]|e']|] eqn:Hone; [apply IH| |done].
  intros [= <-]. by apply decode_one_Err in Hone.
Qed.

Lemma decode_loop_more fuel fuel' bytes offset acc r :
  (fuel <= fuel')%nat → decode_loop deserialize fuel bytes offset acc = Some r →
  decode_loop deserialize fuel' bytes offset acc = Some r.
Proof.
  revert fuel' offset acc. induction fuel as [|fuel IH]; intros fuel' offset acc Hle; [done|].
  destruct fuel' as [|fuel']; [lia|]. cbn [decode_loop]. destruct (_ <? _)%nat; [|done].
  destruct (decode_one _ _ _) as [[[m o]|e']|]; [apply IH; lia|done..].
Qed.

Lemma decode_loop_stable bytes fuel :
  Forall is_byte bytes → (length bytes < fuel)%nat →
  decode_loop deserialize fuel bytes 0 [] = Some (decode_datagram deserialize bytes).
Proof.
  intros Hb Hfuel. unfold decode_datagram.
  destruct (decode_loop_returns deserialize bytes (S (length bytes)) 0 []) as [r Hr];
    [done|lia..|].
  rewrite Hr. simpl. eapply decode_loop_more; [|done]. lia.
Qed.

Lemma decode_datagram_Err bytes e :
  Forall is_byte bytes →
  decode_datagram deserialize bytes = Err e → e.(error_kind) = InvalidData.
Proof.
  intros Hb. unfold decode_datagram.
  destruct (decode_loop_returns deserialize bytes (S (length bytes)) 0 []) as [r Hr]; [done|lia..|].
  rewrite Hr. simpl. intros ->. by apply decode_loop_Err in Hr.
Qed.

Lemma padding_of_spec frame :
  (length (padding_of frame) < 4)%nat ∧ (len frame + len (padding_of frame)) mod 4 = 0 ∧
  Forall is_byte (padding_of frame).
Proof.
  unfold padding_of, len. rewrite length_replicate, N2Nat.id.
  assert (N.of_nat (length frame) mod 4 < 4) as Hr by (by apply N.mod_lt).
  pose proof (N.div_mod' (N.of_nat (length frame)) 4) as Hd.
  generalize dependent (N.of_nat (length frame)). intros n Hr Hd.
  split_and!; [| |by apply Forall_replicate].
  - destruct (n mod 4); lia.
  - rewrite Hd at 1. rewrite <- N.add_assoc, N.mul_comm, N.add_comm, N.Div0.mod_add.
    destruct (n mod 4) as [|p]; [done|]. by replace (N.pos p + (4 - N.pos p)) with 4 by lia.
Qed.

Lemma pack_framed frames ms tail ms' :
  Forall2 (frame_of deserialize) frames ms → framed deserialize tail ms' →
  framed deserialize (pack frames ++ tail) (ms ++ ms').
Proof.
  intros Hms Htail. induction Hms as [|frame m frames ms Hm Hms IH]; [done|].
  unfold pack. cbn. rewrite <- !app_assoc.
  destruct (padding_of_spec frame) as (? & ? & _). by constructor.
Qed.

Lemma pack_bytes frames : Forall (Forall is_byte) frames → Forall is_byte (pack frames).
Proof.
  induction 1 as [|frame frames Hf Hfs IH]; [constructor|]. unfold pack. cbn.
  destruct (padding_of_spec frame) as (_ & _ & ?). rewrite !Forall_app. auto.
Qed.
End framing_results.

(** ** Lemmas: refusals and attribute order *)

Lemma foldM_kind {S A} (f : S → A → result Error S) k :
  (∀ s a e, f s a = Err e → e.(error_kind) = k) →
  ∀ l s e, foldM f s l = Err e → e.(error_kind) = k.
Proof. intros Hf l s e (_ & x & _ & s' & _ & _ & Hx)%foldM_Err. by eapply Hf. Qed.

Lemma set_once_Err {T} (o : option T) v field e :
  set_once o v field = Err e → e.(error_kind) = InvalidData.
Proof. destruct o; simpl; [by intros [= <-]|done]. Qed.

Lemma put_field_Err s f e : put_field s f = Err e → e.(error_kind) = InvalidData.
Proof.
  destruct f; cbn; rewrite bind_Err;
    (intros [?%set_once_Err|(? & _ & ?)]; [done|discriminate]).
Qed.

Lemma decode_link_Err message e : decode_link message = Err e → e.(error_kind) = InvalidData.
Proof.
  unfold decode_link. rewrite (foldM_bind _ _ _ take_attribute_fields).
  rewrite bind_Err. intros [H|(s & _ & H)]; [by eapply (foldM_kind _ _ put_field_Err)|].
  apply bind_Err in H as [H|(vx & _ & H)].
  - destruct (s_data s) as [[attrs|]|]; [|done..]. revert H. simpl. apply foldM_kind.
    intros s' [v|] e'; [apply set_once_Err|done].
  - destruct (s_name s); simpl in H; [done|]. by injection H as <-.
Qed.

Lemma describes_Permutation m m' link :
  Permutation m.(attributes) m'.(attributes) → m.(msg_index) = m'.(msg_index) →
  describes m link → describes m' link.
Proof.
  intros Hp Hi (k & d & ? & Hn & Hc & Hl & Hs & Hk & ? & Hd & ?).
  assert (Permutation (fields m) (fields m')) as Hf.
  { unfold fields. by rewrite Hp. }
  exists k, d. rewrite <- Hi.
  split_and!; try done; try by eapply omap_Permutation_option.
  by apply (omap_Permutation_option _ _ _ (Some (name link)) Hf).
Qed.

(** ** Lemmas: dumps *)

Lemma consume_messages_Ok sequence count pos links ms b links' :
  count = (pos + length ms)%nat →
  consume_messages sequence count pos links ms = Ok (b, links') ↔
  ∃ entries observed,
    links' = links ++ observed ∧ Forall2 (dump_entry sequence) entries observed ∧
    if b : bool then ∃ d, ms = entries ++ [d] ∧ dump_end sequence d else ms = entries.
Proof.
  intros Hcount. split.
  - revert pos links Hcount. induction ms as [|m ms IH]; intros pos links Hcount; cbn.
    { intros [= <- <-]. exists [], []. by rewrite app_nil_r. }
    destruct (N.eqb_spec (sequence_number m) sequence) as [Hseq|]; [|done]. cbn.
    destruct (N.eqb_spec (N.land (flags m) NLM_F_DUMP_INTR) 0) as [Hintr|]; [|done]. cbn.
    destruct (payload m) as [[link|link|]|code|e| | |] eqn:Hp; try done.
    + destruct (decode_link link) as [o|e] eqn:Hl; cbn; [|done].
      intros (entries & observed & -> & Hes & Hb)%IH; [|simpl in Hcount; lia].
      exists (m :: entries), (o :: observed). rewrite <- app_assoc. split; [done|].
      split; [constructor; [|done]; unfold dump_entry; eauto|].
      destruct b; [|by f_equal]. destruct Hb as (d & -> & Hd). by exists d.
    + destruct (Z.eqb_spec code 0) as [->|]; cbn; [|done].
      destruct (Nat.eqb_spec (pos + 1) count); [|done]. intros [= <- <-].
      destruct ms; [|simpl in Hcount; lia].
      exists [], []. rewrite app_nil_r. split_and!; [done|constructor|].
      exists m. by repeat split.
  - revert pos links Hcount. induction ms as [|m ms IH]; intros pos links Hcount;
      intros (entries & observed & -> & Hes & Hb).
    { destruct b; [destruct Hb as (d & Hd & _); by apply app_cons_not_nil in Hd|]. subst entries.
      apply Forall2_nil_inv_l in Hes as ->. by rewrite app_nil_r. }
    assert ((∃ d, m = d ∧ b = true ∧ entries = [] ∧ ms = [] ∧ dump_end sequence d) ∨
      ∃ o entries' observed', observed = o :: observed' ∧ dump_entry sequence m o ∧
        Forall2 (dump_entry sequence) entries' observed' ∧
        if b then ∃ d, ms = entries' ++ [d] ∧ dump_end sequence d else ms = entries')
      as [(d & <- & -> & -> & -> & Hseq & Hintr & Hdone)|
          (o & es & os & -> & (Hseq & Hintr & link & Hp & Hl) & Hes' & Hb')].
    { destruct b.
      - destruct Hb as (d & Hms & Hd). destruct entries as [|e es]; simplify_eq/=; [left; apply Forall2_nil_inv_l in Hes as ->; naive_solver|].
        right. apply Forall2_cons_inv_l in Hes as (o & os & ? & ? & ->). naive_solver.
      - subst entries. right. apply Forall2_cons_inv_l in Hes as (o & os & ? & ? & ->). naive_solver. }
    + apply Forall2_nil_inv_l in Hes as ->. cbn. rewrite Hseq, N.eqb_refl, Hintr, Hdone. cbn.
      simpl in Hcount. destruct (Nat.eqb_spec (pos + 1) count); [|lia]. by rewrite app_nil_r.
    + cbn. rewrite Hseq, N.eqb_refl, Hintr, Hp. cbn. rewrite Hl. cbn.
      rewrite (IH (S pos) (links ++ [o])); [|simpl in Hcount; lia|].
      * done.
      * exists es, os. by rewrite <- app_assoc.
Qed.

Lemma consume_dump_Ok deserialize bytes sequence links links' b :
  consume_dump deserialize bytes sequence links = Ok (b, links') ↔
  ∃ entries observed,
    links' = links ++ observed ∧ Forall2 (dump_entry sequence) entries observed ∧
    if b : bool
    then ∃ d, decode_datagram deserialize bytes = Ok (entries ++ [d]) ∧ dump_end sequence d
    else decode_datagram deserialize bytes = Ok entries.
Proof.
  unfold consume_dump. rewrite bind_Ok. split.
  - intros (ms & Hms & (es & os & -> & Hes & Hb)%consume_messages_Ok); [|done].
    exists es, os. split_and!; [done..|]. destruct b; naive_solver.
  - intros (es & os & -> & Hes & Hb). destruct b; [destruct Hb as (d & Hms & Hd)|];
      (eexists; split; [eassumption|]; apply consume_messages_Ok; [done|]; eauto 10).
Qed.

(** ** Theorems *)

(** C28. Framing: on every datagram of bytes the loop returns, with any fuel above the
    datagram's length and without a panic, since each slice it takes is in range; it
    accepts exactly the datagrams that are a sequence of netlink frames (header and length
    field valid, padding to four bytes except possibly after the last), yielding their
    messages in order, and every error is of kind [InvalidData]. *)
Theorem decode_datagram_framing (deserialize : list N → result string NetlinkMessage)
    (bytes : list N) :
  Forall is_byte bytes →
  (∀ fuel, (length bytes < fuel)%nat →
     decode_loop deserialize fuel bytes 0 [] = Some (decode_datagram deserialize bytes)) ∧
  (∀ ms, decode_datagram deserialize bytes = Ok ms ↔ framed deserialize bytes ms) ∧
  (∀ e, decode_datagram deserialize bytes = Err e → e.(error_kind) = InvalidData).
Proof.
  intros Hb. split_and!.
  - intros fuel Hfuel. by apply decode_loop_stable.
  - intros ms. by apply decode_datagram_Ok.
  - intros e. by apply decode_datagram_Err.
Qed.

(** C39. Round trip: frames that the message crate accepts, laid out one after another with
    their padding, decode to their messages in order; leaving out the padding of the last
    frame changes nothing. *)
Theorem decode_datagram_roundtrip (deserialize : list N → result string NetlinkMessage)
    (frames : list (list N)) (ms : list NetlinkMessage) (frame : list N) (m : NetlinkMessage) :
  Forall2 (frame_of deserialize) frames ms → frame_of deserialize frame m →
  Forall (Forall is_byte) frames → Forall is_byte frame →
  decode_datagram deserialize (pack (frames ++ [frame])) = Ok (ms ++ [m]) ∧
  decode_datagram deserialize (pack frames ++ frame) = Ok (ms ++ [m]).
Proof.
  intros Hms Hm Hbs Hb.
  assert (Forall2 (frame_of deserialize) (frames ++ [frame]) (ms ++ [m]))
    by (apply Forall2_app; [done|constructor; [done|constructor]]).
  split; apply decode_datagram_Ok.
  - by apply pack_bytes, Forall_app; auto.
  - rewrite <- (app_nil_r (pack (frames ++ [frame]))).
    rewrite <- (app_nil_r (ms ++ [m])). apply pack_framed; [done|constructor].
  - apply Forall_app; split; [by apply pack_bytes|done].
  - apply pack_framed; [done|by constructor].
Qed.

(** C29. Link decoding is exact: a message decodes to a link exactly when it carries one
    name, at most one controller, lower interface, lower namespace, kind, link data and
    VXLAN underlay, over all its attributes and nested link infos, and the link has
    exactly these values; every refusal is [InvalidData]. *)
Theorem decode_link_exact (message : LinkMessage) :
  (∀ link, decode_link message = Ok link ↔ describes message link) ∧
  (∀ e, decode_link message = Err e → e.(error_kind) = InvalidData).
Proof. split; [apply decode_link_Ok|apply decode_link_Err]. Qed.

(** The order in which the kernel lists the attributes of a link does not matter. *)
Theorem decode_link_order_independent (i : N) (attrs attrs' : list LinkAttribute)
    (link : ObservedLink) :
  Permutation attrs attrs' →
  decode_link (mkLinkMessage i attrs) = Ok link ↔
  decode_link (mkLinkMessage i attrs') = Ok link.
Proof.
  intros Hp. rewrite !decode_link_Ok.
  split; apply describes_Permutation; simpl; [done|done|by symmetry|done].
Qed.

(** A dump datagram completes the inventory exactly when it decodes to link messages of
    this dump followed by one successful completion message and nothing more, and leaves
    it open exactly when it decodes to link messages of this dump only: every message has
    the request's sequence number and no interruption flag. The links are appended in
    order; anything else (another sequence, an interrupted dump, an error or overrun, a
    message after completion) is an error. *)
Theorem consume_dump_exact (deserialize : list N → result string NetlinkMessage)
    (bytes : list N) (sequence : N) (links links' : list ObservedLink) (b : bool) :
  consume_dump deserialize bytes sequence links = Ok (b, links') ↔
  ∃ entries observed,
    links' = links ++ observed ∧ Forall2 (dump_entry sequence) entries observed ∧
    if b then ∃ d, decode_datagram deserialize bytes = Ok (entries ++ [d]) ∧ dump_end sequence d
    else decode_datagram deserialize bytes = Ok entries.
Proof. apply consume_dump_Ok. Qed.
