(* ===== verification/NetlinkSource.v ===== *)
(** The netlink acquisition source of [src/src/netlink.rs]: subscription,
    bounded inventory dumps and waiting, over the datagram interface, and the
    proof that it keeps the contract the monitor relies on. *)

From S2P Require Import Prelude Link Agentx Mib Duration Monitor MonitorRuns Netlink.
Open Scope N_scope.

(** ** Constants *)

Definition LINK_MULTICAST_GROUP : N := 1.
Definition INVENTORY_TIMEOUT : N := from_secs 3.
Definition MAX_DATAGRAM : N := 1024 * 1024.
Definition MAX_INVENTORY_BYTES : N := 16 * 1024 * 1024.
(** [NLM_F_REQUEST] and [NLM_F_DUMP] of the kernel's netlink interface. *)
Definition NLM_F_REQUEST : N := 1.
Definition NLM_F_DUMP : N := 768.

(** ** The datagram interface *)

Record Datagram := mkDatagram { bytes : list N; from_kernel : bool; truncated : bool }.

Record Ready := mkReady {
  notification_ready : bool;
  dump_ready : bool;
  notification_failed : bool;
  dump_failed : bool;
}.

(** [trait DatagramIo], with the uses of the system around it: the end of a
    socket that goes out of scope (its [Drop]), the monotonic clock
    ([Instant::now]) and [std::thread::sleep]. [IO] is the adapter and
    everything outside the process. *)
Class DatagramIo (IO Socket : Type) := {
  io_open : N → IO → result Error Socket * IO;
  io_send : Socket → list N → IO → result Error unit * IO;
  io_wait : Socket → option Socket → N → IO → result Error Ready * IO;
  io_receive : Socket → IO → result Error Datagram * IO;
  io_drop : Socket → IO → IO;
  io_now : IO → N * IO;
  io_sleep : N → IO → IO;
}.

(** [struct NetlinkSource] *)
Record NetlinkSource (IO Socket : Type) := mkSource {
  io : IO;
  notification : option Socket;
  origin : N;
  sequence : N;
}.
Arguments mkSource {IO Socket}.
Arguments io {IO Socket}.
Arguments notification {IO Socket}.
Arguments origin {IO Socket}.
Arguments sequence {IO Socket}.

Section source.
Context {IO Socket : Type} `{!DatagramIo IO Socket}.
(** The message crate: [NetlinkMessage::deserialize], and the bytes of a
    serialized [GetLink] request with the given flags and sequence number. *)
Context (deserialize : list N → result string NetlinkMessage).
Context (serialize_get_link : N → N → list N).

(** The end of a local variable or of the old value of an assignment. *)
Definition drop_socket (n : option Socket) (w : IO) : IO :=
  match n with Some socket => io_drop socket w | None => w end.

(** Field assignments: a notification socket that is replaced is dropped. *)
Definition set_io (w : IO) (s : NetlinkSource IO Socket) : NetlinkSource IO Socket :=
  mkSource w s.(notification) s.(origin) s.(sequence).
Definition set_notification (n : option Socket) (s : NetlinkSource IO Socket)
    : NetlinkSource IO Socket :=
  mkSource (drop_socket s.(notification) s.(io)) n s.(origin) s.(sequence).

Definition with_io (w : IO) : NetlinkSource IO Socket :=
  let '(now, w) := io_now w in mkSource w None now 0.

(** [fn now]: [self.origin.elapsed()] *)
Definition now (s : NetlinkSource IO Socket) : N * NetlinkSource IO Socket :=
  let '(instant, w) := io_now s.(io) in
  (saturating_sub instant s.(origin), set_io w s).

(** The body of the loop over a notification's messages. *)
Definition notice (changed : bool) (message : NetlinkMessage) : result Error bool :=
  if negb (message.(sequence_number) =? 0) then
    Err (invalid "link notification carried a response sequence")
  else match message.(payload) with
  | InnerMessage (NewLink _ | DelLink _) => Ok true
  | Overrun => Err (error_other "link notification socket reported overrun")
  | Noop => Ok changed
  | _ => Err (invalid "unexpected link notification message")
  end.

(** The checks of [receive_notification] on one datagram: whether it reports
    a change. *)
Definition notification_change (datagram : Datagram) : result Error bool :=
  if datagram.(truncated) then Err (invalid "link notification datagram was truncated")
  else if negb datagram.(from_kernel) then
    Err (invalid "link notification came from a non-kernel sender")
  else match datagram.(bytes) with
  | [] => Err (mkError UnexpectedEof [Lit "link notification socket terminated"])
  | _ => messages ← decode_datagram deserialize datagram.(bytes); foldM notice false messages
  end.

Definition receive_notification (s : NetlinkSource IO Socket)
    : result Error (option N) * NetlinkSource IO Socket :=
  match s.(notification) with
  | None => (Err (error_other "link notifications are not subscribed"), s)
  | Some socket =>
      match io_receive socket s.(io) with
      | (Err e, w) => (Err e, set_io w s)
      | (Ok datagram, w) =>
          match notification_change datagram with
          | Err e => (Err e, set_io w s)
          | Ok true => let '(at_time, s) := now (set_io w s) in (Ok (Some at_time), s)
          | Ok false => (Ok None, set_io w s)
          end
      end
  end.

Definition next_sequence (s : NetlinkSource IO Socket) : N * NetlinkSource IO Socket :=
  let n := wrapping_add U32_MODULUS s.(sequence) 1 in
  let n := if n =? 0 then 1 else n in
  (n, mkSource s.(io) s.(notification) s.(origin) n).

Definition subscribe (s : NetlinkSource IO Socket)
    : result Error unit * NetlinkSource IO Socket :=
  match io_open LINK_MULTICAST_GROUP s.(io) with
  | (Err e, w) => (Err e, set_io w s)
  | (Ok socket, w) => (Ok tt, set_notification (Some socket) (set_io w s))
  end.

Definition dump_request (sequence : N) : list N :=
  serialize_get_link (N.lor NLM_F_REQUEST NLM_F_DUMP) sequence.

(** [events.first.get_or_insert(at); events.last = Some(at);] *)
Definition note_event (at_time : option N) (events : EventBatch) : EventBatch :=
  match at_time with
  | Some t => mkBatch (Some (default t events.(first))) (Some t)
  | None => events
  end.

(** The local variables of the inventory loop, with the source itself. *)
Record Progress := mkProgress {
  source : NetlinkSource IO Socket;
  p_links : list ObservedLink;
  total : N;
  p_events : EventBatch;
}.

(** What one part of the loop body does: go on, or return from [inventory]. *)
Definition Flow : Type :=
  Progress + (result AcquisitionError Inventory * NetlinkSource IO Socket).

(** The block under [if ready.notification]. *)
Definition take_notification (p : Progress) : Flow :=
  match receive_notification p.(source) with
  | (Err e, s) => inr (Err (Lost e p.(p_events)), set_notification None s)
  | (Ok at_time, s) =>
      inl (mkProgress s p.(p_links) p.(total) (note_event at_time p.(p_events)))
  end.

(** The checks and the bookkeeping of one dump datagram. *)
Definition accept_dump (seq : N) (datagram : Datagram) (total : N) (links : list ObservedLink)
    : result Error (bool * list ObservedLink * N) :=
  if datagram.(truncated) then Err (invalid "interface inventory datagram was truncated")
  else if negb datagram.(from_kernel) || bool_decide (datagram.(bytes) = []) then
    Err (invalid "invalid interface inventory sender or termination")
  else
    let total := N.min (total + len datagram.(bytes)) (U64_MODULUS - 1) in
    if MAX_INVENTORY_BYTES <? total then
      Err (invalid "interface inventory exceeded its byte limit")
    else '(complete, links) ← consume_dump deserialize datagram.(bytes) seq links;
         Ok (complete, links, total).

(** The block under [if ready.dump]. *)
Definition take_dump (attempt : Attempt) (dump : Socket) (seq : N) (p : Progress) : Flow :=
  let events := p.(p_events) in
  match io_receive dump p.(source).(io) with
  | (Err e, w) => inr (Err (Ordinary e events), set_io w p.(source))
  | (Ok datagram, w) =>
      let s := set_io w p.(source) in
      match accept_dump seq datagram p.(total) p.(p_links) with
      | Err e => inr (Err (Ordinary e events), s)
      | Ok (true, links, _) => inr (Ok (mkInventory attempt links events), s)
      | Ok (false, links, total) => inl (mkProgress s links total events)
      end
  end.

(** One iteration of the loop of [inventory]. *)
Definition inventory_step (attempt : Attempt) (dump : Socket) (seq deadline : N)
    (p : Progress) : Flow :=
  let events := p.(p_events) in
  let '(instant, w) := io_now p.(source).(io) in
  let s := set_io w p.(source) in
  let remaining := saturating_sub deadline instant in
  if is_zero remaining then
    inr (Err (Ordinary (mkError TimedOut [Lit "interface inventory exceeded its deadline"])
                events), s)
  else match s.(notification) with
  | None => inr (Err (Lost (error_other "notification socket absent") events), s)
  | Some notification =>
      match io_wait notification (Some dump) remaining s.(io) with
      | (Err e, w) => inr (Err (Lost e events), set_notification None (set_io w s))
      | (Ok ready, w) =>
          let s := set_io w s in
          let p := mkProgress s p.(p_links) p.(total) events in
          if ready.(notification_failed) then
            inr (Err (Lost (error_other "link notification socket failed") events),
                 set_notification None s)
          else if ready.(dump_failed) then
            inr (Err (Ordinary (error_other "interface inventory socket failed") events), s)
          else
            match (if ready.(notification_ready) then take_notification p else inl p) with
            | inr r => inr r
            | inl p =>
                if ready.(dump_ready) then take_dump attempt dump seq p else inl p
            end
      end
  end.

(** More iterations than nanoseconds to the deadline: see
    [inventory_loop_exits]. *)
Definition INVENTORY_FUEL : positive := 3000000001.

(** What the model returns if the fuel runs out, which it does not. *)
Definition out_of_fuel (p : Progress) : result AcquisitionError Inventory * NetlinkSource IO Socket :=
  (Err (Ordinary (error_other "out of fuel") p.(p_events)), p.(source)).

Definition inventory_loop (attempt : Attempt) (dump : Socket) (seq deadline : N)
    (p : Progress) : result AcquisitionError Inventory * NetlinkSource IO Socket :=
  match iterate INVENTORY_FUEL (inventory_step attempt dump seq deadline) p with
  | inr r => r
  | inl p => out_of_fuel p
  end.

(** [inventory] from the moment the socket [dump] is open. *)
Definition inventory_on (dump : Socket) (attempt : Attempt) (s : NetlinkSource IO Socket)
    : result AcquisitionError Inventory * NetlinkSource IO Socket :=
  let events := empty_batch in
  let '(seq, s) := next_sequence s in
  match io_send dump (dump_request seq) s.(io) with
  | (Err e, w) => (Err (Ordinary e events), set_io w s)
  | (Ok _, w) =>
      let '(instant, w) := io_now w in
      inventory_loop attempt dump seq (instant + INVENTORY_TIMEOUT)
        (mkProgress (set_io w s) [] 0 events)
  end.

(** [fn inventory]: [dump] goes out of scope whichever way it returns. *)
Definition inventory (attempt : Attempt) (s : NetlinkSource IO Socket)
    : result AcquisitionError Inventory * NetlinkSource IO Socket :=
  match io_open 0 s.(io) with
  | (Err e, w) => (Err (Ordinary e empty_batch), set_io w s)
  | (Ok dump, w) =>
      let '(r, s) := inventory_on dump attempt (set_io w s) in
      (r, set_io (io_drop dump s.(io)) s)
  end.

(** [fn wait] *)
Definition wait (timeout : N) (s : NetlinkSource IO Socket)
    : result Error WaitOutcome * NetlinkSource IO Socket :=
  match s.(notification) with
  | None => (Ok Deadline, set_io (io_sleep timeout s.(io)) s)
  | Some socket =>
      match io_wait socket None timeout s.(io) with
      | (Err e, w) => (Err e, set_notification None (set_io w s))
      | (Ok ready, w) =>
          let s := set_io w s in
          if ready.(notification_failed) then
            (Err (error_other "link notification socket failed"), set_notification None s)
          else if negb ready.(notification_ready) then (Ok Deadline, s)
          else match receive_notification s with
          | (Ok (Some at_time), s) => (Ok (LinkChanged at_time), s)
          | (Ok None, s) => (Ok Deadline, s)
          | (Err e, s) => (Err e, set_notification None s)
          end
      end
  end.

(** [impl Acquisition for NetlinkSource] *)
#[export] Instance NetlinkSource_acquisition : Acquisition (NetlinkSource IO Socket) := {|
  acq_now := now;
  acq_subscribe := subscribe;
  acq_inventory := inventory;
  acq_wait := wait;
|}.
End source.

(** ** The contract of the datagram interface *)

(** No call takes the monotonic clock back, and [Instant::now] reads it. *)
Class IoLaws (IO Socket : Type) `{!DatagramIo IO Socket} (io_clock : IO → N) : Prop := {
  io_now_law : ∀ w t w', io_now w = (t, w') → io_clock w ≤ t ∧ t ≤ io_clock w';
  io_open_law : ∀ g w r w', io_open g w = (r, w') → io_clock w ≤ io_clock w';
  io_send_law : ∀ s b w r w', io_send s b w = (r, w') → io_clock w ≤ io_clock w';
  io_wait_law : ∀ n d t w r w', io_wait n d t w = (r, w') → io_clock w ≤ io_clock w';
  io_receive_law : ∀ s w r w', io_receive s w = (r, w') → io_clock w ≤ io_clock w';
  io_drop_law : ∀ s w, io_clock w ≤ io_clock (io_drop s w);
  io_sleep_law : ∀ t w, io_clock w ≤ io_clock (io_sleep t w);
}.

Section theorems.
Context {IO Socket : Type} `{!DatagramIo IO Socket}.
Context (deserialize : list N → result string NetlinkMessage).
Context (serialize_get_link : N → N → list N).

(** ** Specification: notifications *)

(** A notification of the kernel, and whether it reports a link change. *)
Definition notice_ok (m : NetlinkMessage) : Prop :=
  m.(sequence_number) = 0 ∧
  match m.(payload) with InnerMessage (NewLink _ | DelLink _) | Noop => True | _ => False end.

Definition is_change (m : NetlinkMessage) : bool :=
  match m.(payload) with InnerMessage (NewLink _ | DelLink _) => true | _ => false end.

(** ** Specification: inventories *)

(** One call that the loop of [inventory] makes on the interface, with what
    the interface answered. *)
Inductive IoCall :=
| CallNow (instant : N)
| CallWait (remaining : N) (ready : Ready)
| CallNotification (datagram : Datagram)
| CallDump (datagram : Datagram).

(** [datagram] is what a read of [dump] in the world [w] answers. *)
Definition received (dump : Socket) (w : IO) (datagram : Datagram) (w' : IO) : Prop :=
  io_receive dump w = (Ok datagram, w').

(** The call [c], made in the world [w] while [n] is the notification socket.
    [read] says how the dump socket is read: [received], or in terms of what is
    underneath the interface. *)
Definition io_call (read : Socket → IO → Datagram → IO → Prop) (n : option Socket)
    (dump : Socket) (w : IO) (c : IoCall) (w' : IO) : Prop :=
  match c with
  | CallNow instant => io_now w = (instant, w')
  | CallWait remaining ready =>
      ∃ s, n = Some s ∧ io_wait s (Some dump) remaining w = (Ok ready, w')
  | CallNotification datagram => ∃ s, n = Some s ∧ io_receive s w = (Ok datagram, w')
  | CallDump datagram => read dump w datagram w'
  end.

(** All datagrams read from the dump socket, in order. *)
Definition dump_reads (cs : list IoCall) : list Datagram :=
  omap (λ c, if c is CallDump datagram then Some datagram else None) cs.

(** A whole datagram of the kernel. *)
Definition whole (datagram : Datagram) : Prop :=
  datagram.(truncated) = false ∧ datagram.(from_kernel) = true ∧ datagram.(bytes) ≠ [].

(** The datagrams of a dump within the byte limit: every one is whole, and
    their messages, in order, are one entry for each of [links] and then
    [tail]. *)
Definition collected (seq : N) (datagrams : list Datagram) (links : list ObservedLink)
    (total : N) (tail : list NetlinkMessage) : Prop :=
  ∃ messages entries,
    Forall whole datagrams ∧
    Forall2 (λ dg ms, decode_datagram deserialize dg.(bytes) = Ok ms) datagrams messages ∧
    mjoin messages = entries ++ tail ∧ Forall2 (dump_entry seq) entries links ∧
    total = len (mjoin (bytes <$> datagrams)) ∧ total ≤ MAX_INVENTORY_BYTES.

(** A complete dump: it ends with its successful completion. *)
Definition complete_dump (seq : N) (datagrams : list Datagram) (links : list ObservedLink) : Prop :=
  ∃ total d, collected seq datagrams links total [d] ∧ dump_end seq d.

(** The source went from [s] to [s'] by one uninterrupted dump: it opened a
    socket of its own, sent one request with the next sequence number, and made
    the calls [cs] and nothing else, one after the other, until it dropped that
    socket; and all that it read there is a complete dump of [links]. *)
Definition dumped (read : Socket → IO → Datagram → IO → Prop)
    (s : NetlinkSource IO Socket) (links : list ObservedLink)
    (s' : NetlinkSource IO Socket) : Prop :=
  let seq := (next_sequence s).1 in
  ∃ dump w1 w2 cs w3,
    io_open 0 s.(io) = (Ok dump, w1) ∧
    io_send dump (dump_request serialize_get_link seq) w1 = (Ok tt, w2) ∧
    chain (io_call read s.(notification) dump) w2 cs w3 ∧
    s'.(io) = io_drop dump w3 ∧
    complete_dump seq (dump_reads cs) links.

Lemma dumped_impl (read read' : Socket → IO → Datagram → IO → Prop) s links s' :
  (∀ fd w dg w', read fd w dg w' → read' fd w dg w') →
  dumped read s links s' → dumped read' s links s'.
Proof.
  intros Hread (dump & w1 & w2 & cs & w3 & Ho & Hs & Hc & Hd & Hall).
  exists dump, w1, w2, cs, w3. split_and!; try done.
  eapply chain_impl; [|done]. intros w [] w'; simpl; auto.
Qed.

(** ** Lemmas: notifications *)

Lemma notice_Ok changed m changed' :
  notice changed m = Ok changed' ↔ notice_ok m ∧ changed' = changed || is_change m.
Proof.
  unfold notice, notice_ok, is_change.
  destruct (N.eqb_spec (sequence_number m) 0) as [Hs|Hs]; cbn; [|naive_solver].
  destruct (payload m) as [[]|code|e| | |]; cbn;
    rewrite ?orb_true_r, ?orb_false_r; naive_solver.
Qed.

Lemma notice_messages ms b b' :
  foldM notice b ms = Ok b' ↔ Forall notice_ok ms ∧ b' = b || existsb is_change ms.
Proof.
  revert b. induction ms as [|m ms IH]; intros b; cbn [foldM existsb].
  - rewrite orb_false_r. naive_solver.
  - rewrite bind_Ok. setoid_rewrite notice_Ok. setoid_rewrite IH. rewrite Forall_cons.
    split.
    + intros (? & [? ->] & ? & ->). by rewrite orb_assoc.
    + intros ([? ?] & ->). exists (b || is_change m). by rewrite orb_assoc.
Qed.

Lemma notification_change_Ok dg b :
  notification_change deserialize dg = Ok b ↔
  dg.(truncated) = false ∧ dg.(from_kernel) = true ∧ dg.(bytes) ≠ [] ∧
  ∃ ms, decode_datagram deserialize dg.(bytes) = Ok ms ∧ Forall notice_ok ms ∧
    b = existsb is_change ms.
Proof.
  unfold notification_change. destruct (truncated dg), (from_kernel dg); simpl; try naive_solver.
  destruct (bytes dg) as [|x l]; [naive_solver|]. rewrite bind_Ok. setoid_rewrite notice_messages.
  naive_solver.
Qed.

(** ** Lemmas: what every call leaves alone *)

(** The source kept its origin and notification socket. *)
Definition kept (s s' : NetlinkSource IO Socket) : Prop :=
  s'.(origin) = s.(origin) ∧ s'.(notification) = s.(notification).

Lemma receive_notification_kept s r s' :
  receive_notification deserialize s = (r, s') → kept s s'.
Proof.
  unfold receive_notification, now, kept. intros Hr.
  repeat case_match; simplify_eq/=; congruence || auto.
Qed.

(** ** Lemmas: one dump datagram *)

Lemma accept_dump_Ok seq dg total links b links' total' :
  total ≤ MAX_INVENTORY_BYTES →
  accept_dump deserialize seq dg total links = Ok (b, links', total') →
  dg = mkDatagram dg.(bytes) true false ∧ dg.(bytes) ≠ [] ∧
  total' = total + len dg.(bytes) ∧ total' ≤ MAX_INVENTORY_BYTES ∧
  consume_dump deserialize dg.(bytes) seq links = Ok (b, links').
Proof.
  intros Htotal. unfold accept_dump. destruct dg as [bs [] []]; simpl; try done.
  destruct (bool_decide (bs = [])) eqn:Hbs; simpl; [done|]. bool_to_prop.
  destruct (N.ltb_spec MAX_INVENTORY_BYTES (N.min (total + len bs) (U64_MODULUS - 1)))
    as [|Hle]; [done|].
  destruct (consume_dump _ _ _ _) as [[b1 l1]|e]; simpl; [|done]. intros [= <- <- <-].
  assert (total + len bs < U64_MODULUS - 1) as Hmin.
  { assert (MAX_INVENTORY_BYTES < U64_MODULUS - 1) by done. lia. }
  rewrite N.min_l in * by lia. naive_solver.
Qed.

Lemma collected_nil seq : collected seq [] [] 0 [].
Proof. exists [], []. split_and!; try constructor. done. Qed.

(** A datagram extends a dump that is still open. *)
Lemma collected_extend seq dgs links total b links' total' dg :
  collected seq dgs links total [] →
  accept_dump deserialize seq dg total links = Ok (b, links', total') →
  if b : bool then complete_dump seq (dgs ++ [dg]) links'
  else collected seq (dgs ++ [dg]) links' total' [].
Proof.
  intros (mss & es & Hrec & Hdec & Hjoin & Hes & -> & Hmax) Hacc.
  apply accept_dump_Ok in Hacc as (Heq & Hne & -> & Hmax' & Hcons); [|done].
  apply consume_dump_Ok in Hcons as (es' & obs & -> & Hes' & Hb).
  rewrite app_nil_r in Hjoin.
  assert (∀ ms tail, decode_datagram deserialize (bytes dg) = Ok ms → ms = es' ++ tail →
    collected seq (dgs ++ [dg]) (links ++ obs) (len (mjoin (bytes <$> dgs)) + len (bytes dg)) tail)
    as Hcol.
  { intros ms tail Hms ->. exists (mss ++ [es' ++ tail]), (es ++ es').
    split_and!.
    - apply Forall_app; split; [done|]. apply Forall_singleton. by rewrite Heq.
    - apply Forall2_app; [done|]. constructor; [done|constructor].
    - rewrite join_app. cbn. by rewrite app_nil_r, Hjoin, app_assoc.
    - by apply Forall2_app.
    - rewrite fmap_app, join_app, len_app. cbn. by rewrite app_nil_r.
    - done. }
  destruct b.
  - destruct Hb as (d & Hms & Hd). exists (len (mjoin (bytes <$> dgs)) + len (bytes dg)), d.
    split; [by eapply Hcol|done].
  - eapply Hcol; [done|]. by rewrite app_nil_r.
Qed.

(** ** Lemmas: the inventory loop *)

(** What a result says of the notification socket it leaves behind. *)
Definition socket_after (n : option Socket) (r : result AcquisitionError Inventory)
    : option Socket :=
  match r with Err (Lost _ _) => None | _ => n end.

Section loop.
Context (attempt : Attempt) (dump : Socket) (seq deadline : N) (n : option Socket) (o : N).
(** The world after the request was sent. *)
Context (w0 : IO).

(** The calls made so far, and what they read. *)
Definition called (cs : list IoCall) (w : IO) : Prop :=
  chain (io_call received n dump) w0 cs w.

(** An exit of [inventory] entered with [attempt], the notification socket [n]
    and the origin [o]. *)
Definition inventory_exit
    (out : result AcquisitionError Inventory * NetlinkSource IO Socket) : Prop :=
  let '(r, s') := out in
  s'.(origin) = o ∧ s'.(notification) = socket_after n r ∧
  ∀ inv, r = Ok inv → inv.(inv_attempt) = attempt ∧
    ∃ cs, called cs s'.(io) ∧ complete_dump seq (dump_reads cs) inv.(inv_links).

(** The loop's invariant. *)
Definition in_progress (p : Progress (IO := IO) (Socket := Socket)) : Prop :=
  p.(source).(origin) = o ∧ p.(source).(notification) = n ∧
  ∃ cs, called cs p.(source).(io) ∧
    collected seq (dump_reads cs) p.(p_links) p.(total) [].

Definition flow_ok (f : Flow (IO := IO) (Socket := Socket)) : Prop :=
  match f with inl p => in_progress p | inr out => inventory_exit out end.

(** Calls that do not read the dump socket. *)
Lemma called_more cs w cs' w' :
  called cs w → chain (io_call received n dump) w cs' w' → dump_reads cs' = [] →
  ∃ cs1, called cs1 w' ∧ dump_reads cs1 = dump_reads cs.
Proof.
  intros Hc Hm Hr. exists (cs ++ cs'). split; [by eapply chain_join|].
  unfold dump_reads in *. by rewrite omap_app, Hr, app_nil_r.
Qed.

Lemma in_progress_more p p' cs :
  in_progress p → kept p.(source) p'.(source) →
  chain (io_call received n dump) p.(source).(io) cs p'.(source).(io) → dump_reads cs = [] →
  p'.(p_links) = p.(p_links) → p'.(total) = p.(total) → in_progress p'.
Proof.
  intros (Ho & Hn & cs0 & Hc & Hcol) [Ho' Hn'] Hm Hr Hl Ht.
  destruct (called_more _ _ _ _ Hc Hm Hr) as (cs1 & Hc1 & Hr1).
  split_and!; [congruence..|]. exists cs1. by rewrite Hr1, Hl, Ht.
Qed.

Lemma receive_notification_called s r s' :
  s.(notification) = n → receive_notification deserialize s = (Ok r, s') →
  ∃ cs, chain (io_call received n dump) s.(io) cs s'.(io) ∧ dump_reads cs = [].
Proof.
  intros Hn. unfold receive_notification. destruct (notification s) as [socket|] eqn:Hs; [|done].
  destruct (io_receive _ _) as [[dg|e] w] eqn:Hr; [|done].
  destruct (notification_change _ _) as [[]|e]; [|intros [= <- <-]|done].
  - unfold now. cbn. destruct (io_now w) as [i w'] eqn:Hi. intros [= <- <-].
    exists [CallNotification dg; CallNow i]. split; [|done]. subst n. cbn. eauto 10.
  - exists [CallNotification dg]. split; [|done]. subst n. cbn. eauto 10.
Qed.

Lemma take_notification_progress p :
  in_progress p → flow_ok (take_notification deserialize p).
Proof.
  intros Hp. pose proof Hp as (Ho & Hn & Hc). unfold take_notification.
  destruct (receive_notification _ _) as [[at_time|e] s] eqn:Hr;
    pose proof (receive_notification_kept _ _ _ Hr) as [Ho' Hn'].
  - destruct (receive_notification_called _ _ _ Hn Hr) as (cs & Hcs & Hd).
    by eapply in_progress_more.
  - split_and!; simpl; congruence || done.
Qed.

Lemma take_dump_progress p :
  in_progress p → flow_ok (take_dump deserialize attempt dump seq p).
Proof.
  intros (Ho & Hn & cs & Hc & Hcol). unfold take_dump.
  destruct (io_receive _ _) as [[dg|e] w] eqn:Hr; [|by split_and!].
  assert (called (cs ++ [CallDump dg]) w) as Hc'
    by (eapply chain_join; [done|]; by apply chain_one).
  assert (dump_reads (cs ++ [CallDump dg]) = dump_reads cs ++ [dg]) as Hd
    by (unfold dump_reads; by rewrite omap_app).
  destruct (accept_dump _ _ _ _ _) as [[[[] links] total]|e] eqn:Ha; [..|by split_and!];
    pose proof (collected_extend _ _ _ _ _ _ _ _ Hcol Ha) as Hnew; rewrite <- Hd in Hnew.
  - split_and!; [done..|]. intros inv [= <-]. eauto.
  - split_and!; [done..|]. eauto.
Qed.

Lemma inventory_step_progress p :
  in_progress p → flow_ok (inventory_step deserialize attempt dump seq deadline p).
Proof.
  intros Hp. pose proof Hp as (Ho & Hn & Hc). unfold inventory_step.
  destruct (io_now _) as [instant w] eqn:Hnow. destruct (is_zero _); [by split_and!|]. simpl.
  destruct (notification (source p)) as [socket|] eqn:Hs; [|split_and!; simpl; congruence || done].
  destruct (io_wait _ _ _ _) as [[ready|e] w'] eqn:Hwait; [|by split_and!].
  destruct (notification_failed ready); [by split_and!|].
  destruct (dump_failed ready); [split_and!; simpl; congruence || done|].
  match goal with |- context [take_notification _ ?q] => set (p1 := q) end.
  assert (in_progress p1) as Hp1.
  { eapply (in_progress_more p p1 [CallNow instant; CallWait _ ready]); [done|by split| |done..].
    cbn. rewrite <- Hn. eauto 10. }
  destruct (notification_ready ready).
  - pose proof (take_notification_progress _ Hp1) as Ht.
    destruct (take_notification _ _) as [p2|out]; [|done].
    destruct (dump_ready ready); [by apply take_dump_progress|done].
  - destruct (dump_ready ready); [by apply take_dump_progress|done].
Qed.

Lemma inventory_loop_exit p :
  in_progress p → inventory_exit (inventory_loop deserialize attempt dump seq deadline p).
Proof.
  intros Hp. unfold inventory_loop.
  pose proof (iterate_ind _ _ _ inventory_step_progress INVENTORY_FUEL p Hp) as Hi.
  destruct (iterate _ _ _) as [p'|out]; [|done].
  destruct Hi as (Ho & Hn & _). by split_and!.
Qed.
End loop.

Lemma inventory_on_exit dump attempt s r s' :
  inventory_on deserialize serialize_get_link dump attempt s = (r, s') →
  let seq := (next_sequence s).1 in
  s'.(origin) = s.(origin) ∧ s'.(notification) = socket_after s.(notification) r ∧
  ∀ inv, r = Ok inv → inv.(inv_attempt) = attempt ∧
    ∃ w cs, io_send dump (dump_request serialize_get_link seq) s.(io) = (Ok tt, w) ∧
      chain (io_call received s.(notification) dump) w cs s'.(io) ∧
      complete_dump seq (dump_reads cs) inv.(inv_links).
Proof.
  unfold inventory_on. cbn. fold (next_sequence s).
  destruct (io_send _ _ _) as [[[]|e] w1]; [|by intros [= <- <-]].
  destruct (io_now w1) as [instant w2] eqn:Hnow. intros Hl.
  match type of Hl with inventory_loop _ _ _ ?q ?d ?p = _ =>
    pose proof (inventory_loop_exit attempt dump q d s.(notification) s.(origin) w1 p) as He end.
  rewrite Hl in He. destruct He as (Ho & Hn & Hi).
  { split_and!; [done..|]. exists [CallNow instant]. split; [by apply chain_one|].
    apply collected_nil. }
  split_and!; [done..|]. intros inv Hinv. destruct (Hi inv Hinv) as (Ha & cs & Hc & Hd).
  split; [done|]. by exists w1, cs.
Qed.

(** Every path of [inventory]. *)
Lemma inventory_cases attempt s r s' :
  inventory deserialize serialize_get_link attempt s = (r, s') →
  s'.(origin) = s.(origin) ∧ s'.(notification) = socket_after s.(notification) r ∧
  ∀ inv, r = Ok inv → inv.(inv_attempt) = attempt ∧ dumped received s inv.(inv_links) s'.
Proof.
  unfold inventory. destruct (io_open 0 (io s)) as [[dump|e] w] eqn:Hopen.
  2: { by intros [= <- <-]. }
  destruct (inventory_on _ _ _ _ _) as [r1 s1] eqn:Hl.
  apply inventory_on_exit in Hl as (Ho & Hn & Hi).
  intros [= <- <-]. split_and!; [done..|]. intros inv Hinv.
  destruct (Hi inv Hinv) as (Ha & w2 & cs & Hs & Hc & Hd).
  split; [done|]. by exists dump, w, w2, cs, (io s1).
Qed.

(** ** Lemmas: the acquisition contract *)

Context (io_clock : IO → N) `{!IoLaws IO Socket io_clock}.

(** The monitor's clock: the time since the source was created. *)
Definition source_clock (s : NetlinkSource IO Socket) : N :=
  saturating_sub (io_clock s.(io)) s.(origin).

(** Time since [s] began, in a source derived from it. *)
Definition later (s s' : NetlinkSource IO Socket) : Prop :=
  s'.(origin) = s.(origin) ∧ io_clock s.(io) ≤ io_clock s'.(io).

Ltac io_laws :=
  repeat match goal with
  | E : io_now _ = (_, _) |- _ => apply io_now_law in E as [? ?]
  | E : io_open _ _ = (_, _) |- _ => apply io_open_law in E
  | E : io_send _ _ _ = (_, _) |- _ => apply io_send_law in E
  | E : io_wait _ _ _ _ = (_, _) |- _ => apply io_wait_law in E
  | E : io_receive _ _ = (_, _) |- _ => apply io_receive_law in E
  end; simpl in *.

Lemma later_clock s s' : later s s' → source_clock s ≤ source_clock s'.
Proof. intros [Ho Hc]. unfold source_clock, saturating_sub. rewrite Ho. lia. Qed.

Lemma now_later s t s' :
  now s = (t, s') → later s s' ∧ source_clock s ≤ t ∧ t ≤ source_clock s'.
Proof.
  unfold now. destruct (io_now _) as [i w] eqn:Hi. intros [= <- <-]. io_laws.
  unfold later, source_clock, saturating_sub. simpl. lia.
Qed.

Lemma receive_notification_later s r s' :
  receive_notification deserialize s = (r, s') →
  later s s' ∧ ∀ t, r = Ok (Some t) → source_clock s ≤ t ∧ t ≤ source_clock s'.
Proof.
  unfold receive_notification. destruct (notification s) as [n|].
  2: { intros [= <- <-]. by split. }
  destruct (io_receive _ _) as [[dg|e] w] eqn:Hr; io_laws; [|by intros [= <- <-]].
  destruct (notification_change _ _) as [[]|e]; [|by intros [= <- <-]..].
  destruct (now _) as [t s1] eqn:Hnow. intros [= <- <-].
  apply now_later in Hnow as ([Ho Hc] & Ht). simpl in *.
  unfold later, source_clock, saturating_sub in *. simpl in *. rewrite Ho in *.
  split; [lia|]. intros ? [= <-]. lia.
Qed.

(** Started from [s]: later, with a batch of times in between. *)
Definition batch_since (s s' : NetlinkSource IO Socket) (b : EventBatch) : Prop :=
  later s s' ∧ batch_within (source_clock s) (source_clock s') b.

Lemma batch_since_later s s1 s2 b : batch_since s s1 b → later s1 s2 → batch_since s s2 b.
Proof.
  intros [[Ho Hc] Hb] Hl. pose proof (later_clock _ _ Hl). destruct Hl as [Ho' Hc'].
  split; [split; [congruence|lia]|]. unfold batch_within in *.
  destruct (first b), (last b); try done. lia.
Qed.

Lemma note_event_since s s1 s2 t b :
  batch_since s s1 b → later s1 s2 → source_clock s1 ≤ t → t ≤ source_clock s2 →
  batch_since s s2 (note_event (Some t) b).
Proof.
  intros Hb Hl Ht1 Ht2. pose proof (batch_since_later _ _ _ _ Hb Hl) as [Hl2 _].
  destruct Hb as [[Ho Hc] Hb]. split; [done|].
  assert (source_clock s ≤ source_clock s1) by (by apply later_clock).
  unfold note_event, batch_within in *. simpl. destruct (first b), (last b); simpl; try done; lia.
Qed.

Definition events_of (r : result AcquisitionError Inventory) : EventBatch :=
  match r with Ok inv => inv.(inv_events) | Err (Ordinary _ b) | Err (Lost _ b) => b end.

Definition exit_since (s : NetlinkSource IO Socket)
    (out : result AcquisitionError Inventory * NetlinkSource IO Socket) : Prop :=
  batch_since s out.2 (events_of out.1).

Lemma io_later (s : NetlinkSource IO Socket) w :
  io_clock s.(io) ≤ io_clock w → later s (set_io w s).
Proof. by split. Qed.

Lemma drop_socket_clock n w : io_clock w ≤ io_clock (drop_socket n w).
Proof. destruct n; simpl; [apply io_drop_law|done]. Qed.

Lemma later_trans s1 s2 s3 : later s1 s2 → later s2 s3 → later s1 s3.
Proof. intros [Ho Hc] [Ho' Hc']. split; [congruence|lia]. Qed.

Lemma set_notification_later n s : later s (set_notification n s).
Proof. split; [done|apply drop_socket_clock]. Qed.

(** Leaving with lost continuity, which drops the notification socket. *)
Lemma exit_lost s s1 e b :
  batch_since s s1 b → exit_since s (Err (Lost e b), set_notification None s1).
Proof. intros Hb. eapply batch_since_later; [done|apply set_notification_later]. Qed.

Lemma inventory_step_since attempt dump seq deadline s p :
  batch_since s p.(source) p.(p_events) →
  match inventory_step deserialize attempt dump seq deadline p with
  | inl p' => batch_since s p'.(source) p'.(p_events)
  | inr out => exit_since s out
  end.
Proof.
  intros Hb. unfold inventory_step.
  destruct (io_now _) as [instant w] eqn:Hnow. io_laws.
  assert (batch_since s (set_io w (source p)) (p_events p)) as Hb0
    by (eapply batch_since_later; [done|apply io_later; lia]).
  destruct (is_zero _); [done|]. simpl.
  destruct (notification (source p)) as [socket|]; [|done].
  destruct (io_wait _ _ _ _) as [[ready|e] w'] eqn:Hwait; io_laws;
    (assert (batch_since s (set_io w' (source p)) (p_events p)) as Hb1
       by (eapply batch_since_later; [done|by split])); [|by apply exit_lost].
  destruct (notification_failed ready); [by apply exit_lost|]. destruct (dump_failed ready); [done|].
  assert (∀ q, batch_since s q.(source) q.(p_events) →
    match (if dump_ready ready then take_dump deserialize attempt dump seq q else inl q) with
    | inl p' => batch_since s p'.(source) p'.(p_events)
    | inr out => exit_since s out
    end) as Hdump.
  { intros q Hq. destruct (dump_ready ready); [|done]. unfold take_dump.
    unfold exit_since. destruct (io_receive _ _) as [[dg|e] w2] eqn:Hrec; io_laws;
      (assert (batch_since s (set_io w2 (source q)) (p_events q)) as Hq1
         by (eapply batch_since_later; [done|by split])); [|done].
    by destruct (accept_dump _ _ _ _ _) as [[[[] ?] ?]|?]. }
  destruct (notification_ready ready); [|by apply Hdump].
  unfold take_notification. simpl.
  destruct (receive_notification _ _) as [[at_time|e] s2] eqn:Hrn;
    apply receive_notification_later in Hrn as [Hl Ht].
  - apply Hdump. simpl. destruct at_time as [t|]; [|by eapply batch_since_later].
    destruct (Ht t eq_refl). by eapply note_event_since.
  - apply exit_lost. by eapply batch_since_later.
Qed.

Lemma inventory_on_since dump attempt s r s' :
  inventory_on deserialize serialize_get_link dump attempt s = (r, s') →
  batch_since s s' (events_of r).
Proof.
  assert (∀ w, io_clock (io s) ≤ io_clock w → ∀ n sq,
    batch_since s (mkSource w n (origin s) sq) empty_batch) as Hstart by (intros; by split).
  unfold inventory_on. cbn.
  destruct (io_send _ _ _) as [[[]|e] w1] eqn:Hsend; io_laws.
  2: { intros [= <- <-]. apply Hstart; lia. }
  destruct (io_now w1) as [instant w2] eqn:Hnow; io_laws. unfold inventory_loop.
  match goal with |- context [iterate _ (inventory_step _ _ _ ?q ?d) ?p] =>
    pose proof (iterate_ind _ _ _ (inventory_step_since attempt dump q d s)
      INVENTORY_FUEL p) as Hi end.
  destruct (iterate _ _ _) as [p'|out]; unfold out_of_fuel; intros Heq;
    (lapply Hi; [clear Hi; intros Hi|apply Hstart; lia]).
  - by injection Heq as <- <-.
  - unfold exit_since in Hi. by rewrite Heq in Hi.
Qed.

Lemma inventory_since attempt s r s' :
  inventory deserialize serialize_get_link attempt s = (r, s') →
  batch_since s s' (events_of r).
Proof.
  unfold inventory. destruct (io_open _ _) as [[dump|e] w] eqn:Hopen; io_laws.
  2: { by intros [= <- <-]. }
  destruct (inventory_on _ _ _ _ _) as [r1 s1] eqn:Hon. apply inventory_on_since in Hon.
  intros [= <- <-]. assert (later s1 (set_io (io_drop dump (io s1)) s1)) as Hd
    by (apply io_later, io_drop_law).
  pose proof (batch_since_later _ _ _ _ Hon Hd) as [[Ho Hc] Hb]. simpl in *.
  split; [split; [done|simpl; lia]|].
  unfold batch_within, source_clock, saturating_sub in *. simpl in *.
  destruct (first _), (last _); try done. lia.
Qed.

Lemma wait_since timeout s r s' :
  wait deserialize timeout s = (r, s') →
  later s s' ∧ ∀ t, r = Ok (LinkChanged t) → source_clock s ≤ t ∧ t ≤ source_clock s'.
Proof.
  unfold wait. destruct (notification s) as [n|].
  2: { intros [= <- <-]. split; [|done]. apply io_later, io_sleep_law. }
  assert (∀ w, io_clock (io s) ≤ io_clock w → later s (set_notification None (set_io w s))) as Hnone
    by (intros w Hw; exact (later_trans _ _ _ (io_later s w Hw) (set_notification_later _ _))).
  destruct (io_wait _ _ _ _) as [[ready|e] w] eqn:Hw; io_laws;
    [|intros [= <- <-]; by split; [apply Hnone|]].
  destruct (notification_failed ready); [intros [= <- <-]; by split; [apply Hnone|]|].
  destruct (notification_ready ready); simpl; [|by intros [= <- <-]].
  destruct (receive_notification _ _) as [[[t|]|e] s1] eqn:Hrn;
    apply receive_notification_later in Hrn as [Hl Ht];
    pose proof (later_trans _ _ _ (io_later s w Hw) Hl) as Hl1; intros [= <- <-];
    (split; [done || by eapply later_trans, set_notification_later|]); try done.
  destruct Hl as [Ho Hc]. simpl in *.
  intros ? [= <-]. destruct (Ht t eq_refl) as [Ht1 Ht2].
  unfold source_clock, saturating_sub in *. simpl in *. lia.
Qed.

Lemma wait_socket timeout s r s' :
  wait deserialize timeout s = (r, s') →
  s'.(notification) = match r with Err _ => None | _ => s.(notification) end.
Proof.
  unfold wait. destruct (notification s) as [n|] eqn:Hn; [|by intros [= <- <-]].
  destruct (io_wait _ _ _ _) as [[ready|e] w]; [|by intros [= <- <-]].
  destruct (notification_failed ready); [by intros [= <- <-]|].
  destruct (notification_ready ready); simpl; [|by intros [= <- <-]].
  destruct (receive_notification _ _) as [[[t|]|e] s1] eqn:Hrn;
    apply receive_notification_kept in Hrn as [_ Hk]; intros [= <- <-]; simpl in *; congruence.
Qed.

Lemma netlink_laws :
  AcquisitionLaws (NetlinkSource IO Socket)
    (Acquisition0 := NetlinkSource_acquisition deserialize serialize_get_link) source_clock.
Proof.
  constructor; simpl.
  - intros s t s' [_ Ht]%now_later. done.
  - intros s r s'. unfold subscribe.
    destruct (io_open _ _) as [[n|e] w] eqn:Ho; io_laws; intros [= <- <-]; apply later_clock;
      [|by split]. eapply later_trans, set_notification_later. by apply io_later.
  - intros a s r s' Hr. pose proof (inventory_cases _ _ _ _ Hr) as (_ & _ & Hok).
    apply inventory_since in Hr as [Hl Hb]. split; [by apply later_clock|].
    destruct r as [inv|[]]; [|done..]. by destruct (Hok inv eq_refl).
  - intros d s r s' [Hl Ht]%wait_since. split; [by apply later_clock|].
    destruct r as [[]|]; [done|by apply Ht|done].
Qed.

(** ** Lemmas: termination of the inventory loop *)

(** Waiting takes time: a poll returns on a later reading of the clock. *)
Definition waits_advance : Prop :=
  ∀ n d t w r w', io_wait n d t w = (r, w') → io_clock w < io_clock w'.

Lemma inventory_step_advances attempt dump seq deadline p p' :
  waits_advance → inventory_step deserialize attempt dump seq deadline p = inl p' →
  io_clock p.(source).(io) < deadline ∧
  io_clock p.(source).(io) < io_clock p'.(source).(io).
Proof.
  intros Hadv. unfold inventory_step. destruct (io_now _) as [instant w] eqn:Hnow. io_laws.
  unfold is_zero, saturating_sub. destruct (N.eqb_spec (deadline - instant) 0); [done|].
  destruct (notification (source p)) as [socket|]; [|done].
  destruct (io_wait _ _ _ _) as [[ready|e] w'] eqn:Hwait; apply Hadv in Hwait; [|done].
  destruct (notification_failed ready); [done|]. destruct (dump_failed ready); [done|].
  assert (∀ q, io_clock w < io_clock q.(source).(io) →
    (if dump_ready ready then take_dump deserialize attempt dump seq q else inl q) = inl p' →
    io_clock w < io_clock p'.(source).(io)) as Hdump.
  { intros q Hq. destruct (dump_ready ready); [|by intros [= <-]]. unfold take_dump.
    destruct (io_receive _ _) as [[dg|e] w2] eqn:Hrec; io_laws; [|done].
    destruct (accept_dump _ _ _ _ _) as [[[[] ?] ?]|?]; [done| |done].
    intros [= <-]. simpl. lia. }
  split; [lia|]. apply N.le_lt_trans with (io_clock w); [lia|].
  destruct (notification_ready ready); [|eapply Hdump; [|done]; done].
  unfold take_notification in *. simpl in *.
  destruct (receive_notification _ _) as [[at_time|e] s2] eqn:Hrn; [|done].
  apply receive_notification_later in Hrn as [[_ Hl] _]. simpl in Hl.
  eapply Hdump; [|done]. simpl. lia.
Qed.

Lemma inventory_loop_exits attempt dump seq deadline p :
  waits_advance → deadline ≤ io_clock p.(source).(io) + INVENTORY_TIMEOUT →
  ∃ out, iterate INVENTORY_FUEL (inventory_step deserialize attempt dump seq deadline) p
           = inr out.
Proof.
  intros Hadv Hdl.
  apply (iterate_exits (λ _, True) (λ q, deadline - io_clock q.(source).(io))); [|done|].
  - intros q q' _ [? ?]%inventory_step_advances; [|done]. split; [done|lia].
  - unfold INVENTORY_TIMEOUT, from_secs, NANOS_PER_SEC, INVENTORY_FUEL in *. lia.
Qed.

(** ** Lemmas: sequence numbers *)

Lemma next_sequence_eq (s : NetlinkSource IO Socket) :
  s.(sequence) < U32_MODULUS →
  (next_sequence s).1 = s.(sequence) mod (U32_MODULUS - 1) + 1.
Proof.
  intros Hs. unfold next_sequence, wrapping_add. simpl.
  assert (1 < U32_MODULUS) as Hm by done. generalize dependent U32_MODULUS. intros m Hs Hm.
  destruct (N.eq_dec (sequence s + 1) m) as [<-|Hne].
  - rewrite N.Div0.mod_same. replace (sequence s + 1 - 1) with (sequence s) by lia.
    by rewrite N.Div0.mod_same.
  - rewrite N.mod_small by lia. destruct (N.eqb_spec (sequence s + 1) 0); [lia|].
    rewrite N.mod_small; lia.
Qed.

(** The source after [n] dumps, as far as its sequence number goes. *)
Definition sequence_after (n : nat) (s : NetlinkSource IO Socket) : NetlinkSource IO Socket :=
  Nat.iter n (λ s, (next_sequence s).2) s.

Lemma sequence_after_eq n s :
  s.(sequence) < U32_MODULUS →
  (sequence_after (S n) s).(sequence) =
    (s.(sequence) + N.of_nat n) mod (U32_MODULUS - 1) + 1 ∧
  (sequence_after n s).(sequence) < U32_MODULUS.
Proof.
  intros Hs. assert (∀ s : NetlinkSource IO Socket, (next_sequence s).2.(sequence) = (next_sequence s).1) as Hsnd
    by done.
  assert (1 < U32_MODULUS) as Hm by done.
  induction n as [|n [IH IHlt]].
  - cbn [sequence_after Nat.iter nat_rect]. rewrite Hsnd, next_sequence_eq by done.
    by rewrite N.add_0_r.
  - assert ((sequence_after (S n) s).(sequence) < U32_MODULUS) as Hlt.
    { rewrite IH. assert ((sequence s + N.of_nat n) mod (U32_MODULUS - 1) < U32_MODULUS - 1)
        by (apply N.mod_lt; lia). lia. }
    split; [|done].
    change (sequence_after (S (S n)) s) with (next_sequence (sequence_after (S n) s)).2.
    rewrite Hsnd, next_sequence_eq by done. rewrite IH.
    rewrite N.Div0.add_mod_idemp_l. do 2 f_equal. lia.
Qed.

(** ** Theorems *)

(** Notifications are checked completely: a datagram on the notification socket is
    taken exactly when it is whole, from the kernel, not empty, well framed, and every
    message in it carries sequence number zero and is a link message or a no-op; it counts
    as a change exactly when some message is about a link. *)
Theorem notification_exact (dg : Datagram) (changed : bool) :
  notification_change deserialize dg = Ok changed ↔
  dg.(truncated) = false ∧ dg.(from_kernel) = true ∧ dg.(bytes) ≠ [] ∧
  ∃ ms, decode_datagram deserialize dg.(bytes) = Ok ms ∧ Forall notice_ok ms ∧
    changed = existsb is_change ms.
Proof. apply notification_change_Ok. Qed.

(** C25. The inventory loop returns: if waiting takes time, it leaves by itself (and not for
    lack of fuel) within as many iterations as its deadline has nanoseconds, whatever the
    kernel sends. *)
Theorem inventory_returns (attempt : Attempt) (dump : Socket) (seq instant : N)
    (s : NetlinkSource IO Socket) (w : IO) (links : list ObservedLink) (tot : N)
    (b : EventBatch) :
  waits_advance → io_now s.(io) = (instant, w) →
  let p := mkProgress (set_io w s) links tot b in
  let deadline := instant + INVENTORY_TIMEOUT in
  ∃ out, iterate INVENTORY_FUEL (inventory_step deserialize attempt dump seq deadline) p
           = inr out ∧
    inventory_loop deserialize attempt dump seq deadline p = out.
Proof.
  intros Hadv Hnow p deadline.
  destruct (inventory_loop_exits attempt dump seq deadline p Hadv) as [out Hout].
  { io_laws. unfold deadline. lia. }
  exists out. split; [done|]. unfold inventory_loop. by rewrite Hout.
Qed.

(** C24. A successful inventory is one complete, uninterrupted dump: between the opening of
    a socket of its own and its end, the calls of the loop are made one after the other,
    and all the datagrams they read from that socket are whole and from the kernel; their
    messages, in order, are exactly one for each link of the inventory and then the
    kernel's successful completion, all with the sequence number of the request that was
    sent, within 16 MiB; and the inventory echoes the attempt. *)
Theorem inventory_is_complete (attempt : Attempt) (s s' : NetlinkSource IO Socket)
    (inv : Inventory) :
  inventory deserialize serialize_get_link attempt s = (Ok inv, s') →
  inv.(inv_attempt) = attempt ∧
  ∃ dump w1 w2 cs w3,
    io_open 0 s.(io) = (Ok dump, w1) ∧
    io_send dump (dump_request serialize_get_link (next_sequence s).1) w1 = (Ok tt, w2) ∧
    chain (io_call received s.(notification) dump) w2 cs w3 ∧
    s'.(io) = io_drop dump w3 ∧
    complete_dump (next_sequence s).1 (dump_reads cs) inv.(inv_links).
Proof. intros Hi. by apply (inventory_cases _ _ _ _ Hi). Qed.

(** C27. Losses and the socket agree: from a subscribed source, an inventory reports lost
    continuity exactly when it drops the notification socket, and a wait fails exactly
    when it drops it; every other outcome keeps the same socket. *)
Theorem loss_drops_socket (attempt : Attempt) (timeout : N) (s : NetlinkSource IO Socket)
    (n : Socket) :
  s.(notification) = Some n →
  (let '(r, s') := inventory deserialize serialize_get_link attempt s in
   s'.(notification) = match r with Err (Lost _ _) => None | _ => Some n end) ∧
  (let '(r, s') := wait deserialize timeout s in
   s'.(notification) = match r with Err _ => None | _ => Some n end).
Proof.
  intros Hn. split.
  - destruct (inventory _ _ _ _) as [r s'] eqn:Hi.
    destruct (inventory_cases _ _ _ _ Hi) as (_ & Hs & _). by rewrite Hs, Hn.
  - destruct (wait _ _ _) as [r s'] eqn:Hw. apply wait_socket in Hw. by rewrite Hw, Hn.
Qed.

(** The netlink source keeps the acquisition contract: if no system call takes the
    monotonic clock back, its clock never runs backwards, the event times it reports lie
    inside the call that reports them, in order, and its inventories echo their attempt. *)
Theorem netlink_source_contract :
  AcquisitionLaws (NetlinkSource IO Socket)
    (Acquisition0 := NetlinkSource_acquisition deserialize serialize_get_link) source_clock.
Proof. exact netlink_laws. Qed.

(** Sequence numbers never are zero, the mark of notifications, and count through
    1 .. 2^32 - 1 cyclically: the dump [n] after the first from sequence [q] uses
    [(q + n) mod (2^32 - 1) + 1], so no two of 2^32 - 1 consecutive dumps share one. *)
Theorem sequences_cycle (s : NetlinkSource IO Socket) (n m : nat) :
  s.(sequence) < U32_MODULUS →
  let seq k := (next_sequence (sequence_after k s)).1 in
  seq n = (s.(sequence) + N.of_nat n) mod (U32_MODULUS - 1) + 1 ∧
  0 < seq n < U32_MODULUS ∧
  (N.of_nat n < N.of_nat m → N.of_nat m < N.of_nat n + (U32_MODULUS - 1) → seq n ≠ seq m).
Proof.
  intros Hs seq.
  assert (∀ k, seq k = (s.(sequence) + N.of_nat k) mod (U32_MODULUS - 1) + 1) as Hseq
    by (intros k; apply (sequence_after_eq k s Hs)).
  assert (1 < U32_MODULUS) as Hm by done.
  split; [done|]. rewrite !Hseq. generalize dependent U32_MODULUS. intros M Hs Hseq Hm.
  assert ((s.(sequence) + N.of_nat n) mod (M - 1) < M - 1) as Hr by (apply N.mod_lt; lia).
  split; [clear -Hr; generalize dependent ((s.(sequence) + N.of_nat n) mod (M - 1)); lia|].
  intros Hlt Hwin Heq.
  by apply (mod_window (M - 1) (s.(sequence) + N.of_nat n) (s.(sequence) + N.of_nat m)); try lia.
Qed.
End theorems.
