(* ===== verification/SocketIo.v ===== *)
(** The netlink socket adapter of [src/src/netlink.rs] ([SocketIo]): opening,
    sending, polling and receiving, with the retries on interrupted calls. *)

From S2P Require Import Prelude Link Agentx Duration Monitor Netlink NetlinkSource.
Open Scope N_scope.

(** Linux's [poll] bits. *)
Definition POLLIN : N := 1.
Definition POLLERR : N := 8.
Definition POLLHUP : N := 16.
Definition POLLNVAL : N := 32.
Definition MSG_TRUNC : N := 32.
Definition NETLINK_ROUTE : N := 0.
Definition I32_MAX : N := 2147483647.

(** [libc::pollfd] *)
Record PollFd (Fd : Type) := mkPollFd { fd : Fd; events : N; revents : N }.
Arguments mkPollFd {Fd}.
Arguments fd {Fd}.
Arguments events {Fd}.
Arguments revents {Fd}.

(** The system calls under the adapter, over the kernel's state [K]: those of
    [netlink_sys::Socket] with the [close] of its [Drop], [libc::poll] and the
    monotonic clock. [poll]
    answers the bits of each record by its position; [recv_from] the size of
    the datagram, the bytes it wrote to the buffer and the sender's port. *)
Class Sys (K Fd : Type) := {
  sys_socket : N → K → result Error Fd * K;
  sys_bind : Fd → N → N → K → result Error unit * K;
  sys_connect : Fd → N → N → K → result Error unit * K;
  sys_set_non_blocking : Fd → bool → K → result Error unit * K;
  sys_send : Fd → list N → N → K → result Error N * K;
  sys_poll : list (PollFd Fd) → N → K → result Error (nat → N) * K;
  sys_recv_from : Fd → N → N → K → result Error (N * list N * N) * K;
  sys_close : Fd → K → K;
  sys_now : K → N * K;
  sys_sleep : N → K → K;
}.

(** The remaining time as a poll timeout: rounded up to milliseconds, at most
    [i32::MAX]. *)
Definition poll_millis (remaining : N) : N :=
  N.min (as_millis remaining +
         (if negb (subsec_nanos remaining mod 1000000 =? 0) then 1 else 0)) I32_MAX.

(** [Ready] from the returned records. *)
Definition ready_of {Fd} (descriptors : list (PollFd Fd)) : Ready :=
  let failed := N.lor POLLHUP POLLNVAL in
  let readable := N.lor POLLIN POLLERR in
  let notification := from_option revents 0 (descriptors !! 0%nat) in
  let dump := from_option revents 0 (descriptors !! 1%nat) in
  mkReady (negb (N.land notification readable =? 0)) (negb (N.land dump readable =? 0))
    (negb (N.land notification failed =? 0)) (negb (N.land dump failed =? 0)).

(** The receive buffer after [data] was written at its start. *)
Definition fill_buffer (data storage : list N) : list N :=
  take (length storage) data ++ drop (length data) storage.

(** [vec![0; MAX_DATAGRAM]] *)
Definition empty_storage : list N := replicate (N.to_nat MAX_DATAGRAM) 0.

Section socket_io.
Context {K Fd : Type} `{!Sys K Fd}.
(** How many calls the model follows a retry loop for: see [retry]. *)
Context (retries : positive).

(** A [loop] that repeats an interrupted call: [call] exits with [inr], and
    an interrupted call leaves the next state with [inl]. The code's loop has no
    bound: it is [loops call]. Here it is followed for [retries] calls, any number
    that the theorems leave open: whatever the code's loop leaves with, [retry]
    answers for every [retries] that is large enough ([retry_unbounded]), what
    [retry] succeeds with is what the code's loop leaves with, and where signals do
    not interrupt a call [retries] times in a row ([FewSignals]) the two are the
    same ([few_signals_loops]). The error after the last of the calls stands for a
    loop that has not left yet. *)
Definition retry {A} (call : K → K + (result Error A * K)) (k : K) : result Error A * K :=
  match iterate retries call k with
  | inr out => out
  | inl k => (Err (mkError Interrupted []), k)
  end.

Definition interrupted (e : Error) : bool := bool_decide (e.(error_kind) = Interrupted).

(** [fn open]: a socket that cannot be set up goes out of scope. *)
Definition open (groups : N) (k : K) : result Error Fd * K :=
  match sys_socket NETLINK_ROUTE k with
  | (Err e, k) => (Err e, k)
  | (Ok socket, k) =>
      match sys_bind socket 0 groups k with
      | (Err e, k) => (Err e, sys_close socket k)
      | (Ok _, k) =>
          match sys_connect socket 0 0 k with
          | (Err e, k) => (Err e, sys_close socket k)
          | (Ok _, k) =>
              match sys_set_non_blocking socket true k with
              | (Err e, k) => (Err e, sys_close socket k)
              | (Ok _, k) => (Ok socket, k)
              end
          end
      end
  end.

Definition send_once (socket : Fd) (bytes : list N) (k : K) : K + (result Error unit * K) :=
  match sys_send socket bytes 0 k with
  | (Ok written, k) =>
      if written =? len bytes then inr (Ok tt, k)
      else inr (Err (mkError WriteZero [Lit "partial netlink request write"]), k)
  | (Err e, k) => if interrupted e then inl k else inr (Err e, k)
  end.

Definition send (socket : Fd) (bytes : list N) (k : K) : result Error unit * K :=
  retry (send_once socket bytes) k.

(** The records [wait] polls. *)
Definition descriptors (notification : Fd) (dump : option Fd) : list (PollFd Fd) :=
  mkPollFd notification (N.lor POLLIN POLLERR) 0 ::
  match dump with
  | Some dump => [mkPollFd dump (N.lor POLLIN POLLERR) 0]
  | None => []
  end.

Definition set_revents (bits : nat → N) (ds : list (PollFd Fd)) : list (PollFd Fd) :=
  imap (λ i d, mkPollFd d.(fd) d.(events) (bits i)) ds.

Definition poll_once (ds : list (PollFd Fd)) (timeout started : N) (k : K)
    : K + (result Error Ready * K) :=
  let '(instant, k) := sys_now k in
  let remaining := saturating_sub timeout (saturating_sub instant started) in
  match sys_poll ds (poll_millis remaining) k with
  | (Ok bits, k) => inr (Ok (ready_of (set_revents bits ds)), k)
  | (Err e, k) => if interrupted e then inl k else inr (Err e, k)
  end.

Definition wait (notification : Fd) (dump : option Fd) (timeout : N) (k : K)
    : result Error Ready * K :=
  let '(started, k) := sys_now k in
  retry (poll_once (descriptors notification dump) timeout started) k.

Definition receive_once (socket : Fd) (k : K) : K + (result Error Datagram * K) :=
  match sys_recv_from socket MAX_DATAGRAM MSG_TRUNC k with
  | (Ok (size, data, sender), k) =>
      let storage := fill_buffer data empty_storage in
      inr (Ok (mkDatagram (take (N.to_nat (N.min size (len storage))) storage)
                 (sender =? 0) (len storage <? size)), k)
  | (Err e, k) => if interrupted e then inl k else inr (Err e, k)
  end.

Definition receive (socket : Fd) (k : K) : result Error Datagram * K :=
  retry (receive_once socket) k.

(** [impl DatagramIo for SocketIo] *)
#[export] Instance SocketIo_datagram_io : DatagramIo K Fd := {|
  io_open := open;
  io_send := send;
  io_wait := wait;
  io_receive := receive;
  io_drop := sys_close;
  io_now := sys_now;
  io_sleep := sys_sleep;
|}.
End socket_io.

(** ** The contract of the system calls *)

Class SysLaws (K Fd : Type) `{!Sys K Fd} (sys_clock : K → N) : Prop := {
  sys_now_law : ∀ k t k', sys_now k = (t, k') → sys_clock k ≤ t ∧ t ≤ sys_clock k';
  sys_socket_law : ∀ p k r k', sys_socket p k = (r, k') → sys_clock k ≤ sys_clock k';
  sys_bind_law : ∀ s p g k r k', sys_bind s p g k = (r, k') → sys_clock k ≤ sys_clock k';
  sys_connect_law : ∀ s p g k r k', sys_connect s p g k = (r, k') → sys_clock k ≤ sys_clock k';
  sys_nonblock_law : ∀ s b k r k', sys_set_non_blocking s b k = (r, k') → sys_clock k ≤ sys_clock k';
  sys_send_law : ∀ s b f k r k', sys_send s b f k = (r, k') → sys_clock k ≤ sys_clock k';
  sys_poll_law : ∀ d t k r k', sys_poll d t k = (r, k') → sys_clock k ≤ sys_clock k';
  sys_recv_law : ∀ s c f k r k', sys_recv_from s c f k = (r, k') → sys_clock k ≤ sys_clock k';
  sys_close_law : ∀ s k, sys_clock k ≤ sys_clock (sys_close s k);
  sys_sleep_law : ∀ t k, sys_clock k ≤ sys_clock (sys_sleep t k);
}.

(** Signals do not interrupt the same call [retries] times in a row: neither a
    [send], nor a [recv_from], nor a [poll] with the clock reading before it. *)
Class FewSignals (K Fd : Type) `{!Sys K Fd} (retries : positive) : Prop := {
  few_send : ∀ socket bytes k, ∃ out, iterate retries (send_once socket bytes) k = inr out;
  few_receive : ∀ socket k, ∃ out, iterate retries (receive_once socket) k = inr out;
  few_poll : ∀ ds timeout started k,
    ∃ out, iterate retries (poll_once (Fd := Fd) ds timeout started) k = inr out;
}.

(** ** Lemmas *)

Lemma poll_millis_bounds d :
  poll_millis d ≤ I32_MAX ∧
  (poll_millis d < I32_MAX → d ≤ poll_millis d * NANOS_PER_MILLI) ∧
  (0 < d → 0 < poll_millis d ∧ (poll_millis d - 1) * NANOS_PER_MILLI < d).
Proof.
  unfold poll_millis, as_millis, subsec_nanos, NANOS_PER_MILLI, NANOS_PER_SEC.
  assert ((d mod 1000000000) mod 1000000 = d mod 1000000) as ->.
  { change 1000000000 with (1000000 * 1000). rewrite N.Div0.mod_mul_r.
    rewrite (N.mul_comm 1000000), N.Div0.mod_add. apply N.Div0.mod_mod. }
  pose proof (N.div_mod' d 1000000) as Hd.
  assert (d mod 1000000 < 1000000) as Hm by (by apply N.mod_lt).
  generalize dependent (d mod 1000000). generalize dependent (d / 1000000). intros q r Hd Hr.
  unfold I32_MAX. destruct (N.eqb_spec r 0) as [->|Hr0]; cbn [negb]; lia.
Qed.

Section lemmas.
Context {K Fd : Type} `{!Sys K Fd} (retries : positive).
Context (sys_clock : K → N) `{!SysLaws K Fd sys_clock}.

(** A call that does not take the clock back, repeated. *)
Lemma retry_clock {A} (call : K → K + (result Error A * K)) k r k' :
  (∀ k, match call k with inl k' => sys_clock k ≤ sys_clock k'
                        | inr out => sys_clock k ≤ sys_clock out.2 end) →
  retry retries call k = (r, k') → sys_clock k ≤ sys_clock k'.
Proof.
  intros Hcall. unfold retry.
  pose proof (iterate_ind (λ k1, sys_clock k ≤ sys_clock k1)
    (λ out, sys_clock k ≤ sys_clock out.2) call) as Hi.
  lapply Hi; [clear Hi; intros Hi|].
  2: { intros k1 Hk. specialize (Hcall k1). destruct (call k1); lia. }
  specialize (Hi retries k (N.le_refl _)).
  destruct (iterate _ _ _) as [k1|[r1 k1]]; by intros [= <- <-].
Qed.

Ltac sys_laws :=
  repeat match goal with
  | E : sys_now _ = (_, _) |- _ => apply sys_now_law in E as [? ?]
  | E : sys_socket _ _ = (_, _) |- _ => apply sys_socket_law in E
  | E : sys_bind _ _ _ _ = (_, _) |- _ => apply sys_bind_law in E
  | E : sys_connect _ _ _ _ = (_, _) |- _ => apply sys_connect_law in E
  | E : sys_set_non_blocking _ _ _ = (_, _) |- _ => apply sys_nonblock_law in E
  | E : sys_send _ _ _ _ = (_, _) |- _ => apply sys_send_law in E
  | E : sys_poll _ _ _ = (_, _) |- _ => apply sys_poll_law in E
  | E : sys_recv_from _ _ _ _ = (_, _) |- _ => apply sys_recv_law in E
  end; simpl in *.

(** The bound is none of the code's. *)
Lemma retry_unbounded {A} (call : K → K + (result Error A * K)) k out :
  loops call k out →
  ∃ p0, ∀ retries, (p0 ≤ retries)%positive → retry retries call k = out.
Proof.
  intros [p0 Hp]%loops_iterate. exists p0. intros r Hle. unfold retry. by rewrite Hp.
Qed.

Lemma retry_loops {A} (call : K → K + (result Error A * K)) k :
  (∃ out, iterate retries call k = inr out) → loops call k (retry retries call k).
Proof. intros [out Ho]. unfold retry. rewrite Ho. by eapply iterate_loops. Qed.

Lemma retry_Ok_loops {A} (call : K → K + (result Error A * K)) k a k' :
  retry retries call k = (Ok a, k') → loops call k (Ok a, k').
Proof.
  unfold retry. destruct (iterate _ _ _) as [k1|out] eqn:Hi; [done|]. intros ->.
  by eapply iterate_loops.
Qed.

(** A result of the loop is the result of one of its calls. *)
Lemma retry_Ok {A} (call : K → K + (result Error A * K)) k a k' :
  retry retries call k = (Ok a, k') → ∃ k1, call k1 = inr (Ok a, k').
Proof.
  unfold retry.
  pose proof (iterate_ind (λ _, True) (λ out, ∃ k1, call k1 = inr out) call) as Hi.
  lapply Hi; [clear Hi; intros Hi|].
  2: { intros k1 _. destruct (call k1) eqn:Hc; eauto. }
  specialize (Hi retries k I). destruct (iterate _ _ _) as [k1|out]; [done|]. by intros ->.
Qed.

Lemma open_clock g k r k' : open g k = (r, k') → sys_clock k ≤ sys_clock k'.
Proof.
  unfold open. intros Ho. pose proof sys_close_law as Hclose.
  repeat case_match; simplify_eq/=; sys_laws; try lia; (etrans; [|apply Hclose]; lia).
Qed.

Lemma send_clock s b k r k' : send retries s b k = (r, k') → sys_clock k ≤ sys_clock k'.
Proof.
  apply retry_clock. intros k1. unfold send_once. repeat case_match; simplify_eq/=; by sys_laws.
Qed.

Lemma wait_clock n d t k r k' : wait retries n d t k = (r, k') → sys_clock k ≤ sys_clock k'.
Proof.
  unfold wait. destruct (sys_now k) as [started k1] eqn:Hnow. sys_laws.
  intros Hr%retry_clock; [lia|]. intros k2. unfold poll_once.
  repeat case_match; simplify_eq/=; sys_laws; lia.
Qed.

Lemma receive_clock s k r k' : receive retries s k = (r, k') → sys_clock k ≤ sys_clock k'.
Proof.
  apply retry_clock. intros k1. unfold receive_once.
  destruct (sys_recv_from _ _ _ _) as [[[[size data] sender]|e] k2] eqn:Hr; sys_laws; [done|].
  by destruct (interrupted e).
Qed.

Lemma socket_io_laws :
  IoLaws K Fd (DatagramIo0 := SocketIo_datagram_io retries) sys_clock.
Proof.
  constructor; simpl; intros;
    eauto using open_clock, send_clock, wait_clock, receive_clock, sys_close_law, sys_sleep_law.
  by eapply sys_now_law.
Qed.
End lemmas.

(** ** Theorems *)

(** Poll timeouts neither wake early nor spin: the milliseconds fit an [i32], cover the
    whole remaining time unless clamped, are positive while any time remains, and exceed
    it by less than one millisecond. *)
Theorem poll_timeout_exact (d : N) :
  poll_millis d ≤ I32_MAX ∧
  (poll_millis d < I32_MAX → d ≤ poll_millis d * NANOS_PER_MILLI) ∧
  (0 < d → 0 < poll_millis d ∧ (poll_millis d - 1) * NANOS_PER_MILLI < d).
Proof. apply poll_millis_bounds. Qed.

#[local] Opaque empty_storage.

Lemma len_fill_buffer data storage : len (fill_buffer data storage) = len storage.
Proof. unfold fill_buffer, len. rewrite length_app, length_take, length_drop. lia. Qed.

Lemma fill_buffer_data data storage n :
  len data = N.min n (len storage) →
  take (N.to_nat (N.min n (len storage))) (fill_buffer data storage) = data.
Proof.
  intros Hlen. rewrite <- Hlen. unfold fill_buffer, len in *.
  rewrite (take_ge data) by lia. by rewrite take_app_length' by lia.
Qed.

Lemma len_empty_storage : len empty_storage = MAX_DATAGRAM.
Proof.
  unfold len. Transparent empty_storage. unfold empty_storage.
  by rewrite length_replicate, N2Nat.id.
Qed.
#[local] Opaque empty_storage MAX_DATAGRAM.

Section theorems.
Context {K Fd : Type} `{!Sys K Fd} (retries : positive).

(** A received datagram is reported as it is: some [recv_from] call answered it; it
    counts as truncated exactly when the kernel's datagram is larger than the buffer, as
    from the kernel exactly when the sender's port is zero, and its bytes are the ones
    the call wrote. *)
Theorem receive_exact (socket : Fd) (k k' : K) (dg : Datagram) :
  receive retries socket k = (Ok dg, k') →
  ∃ k1 size data sender,
    sys_recv_from socket MAX_DATAGRAM MSG_TRUNC k1 = (Ok (size, data, sender), k') ∧
    dg.(truncated) = (MAX_DATAGRAM <? size) ∧ dg.(from_kernel) = (sender =? 0) ∧
    (len data = N.min size MAX_DATAGRAM → dg.(bytes) = data).
Proof.
  intros (k1 & Hc)%retry_Ok. unfold receive_once in Hc.
  destruct (sys_recv_from _ _ _ _) as [[[[size data] sender]|e] k2] eqn:Hr;
    [|by destruct (interrupted e)].
  injection Hc as <- <-. exists k1, size, data, sender.
  cbn [truncated from_kernel bytes]. rewrite len_fill_buffer, len_empty_storage.
  split_and!; [done..|]. rewrite <- len_empty_storage. apply fill_buffer_data.
Qed.

(** If signals are few, the adapter's calls are the code's, whose loops have no bound. *)
Lemma few_signals_loops `{!FewSignals K Fd retries} :
  (∀ socket bytes k, loops (send_once socket bytes) k (send retries socket bytes k)) ∧
  (∀ socket k, loops (receive_once socket) k (receive retries socket k)) ∧
  (∀ notification dump timeout k started k1, sys_now k = (started, k1) →
     loops (poll_once (descriptors notification dump) timeout started) k1
       (wait retries notification dump timeout k)).
Proof.
  split_and!; intros; try apply retry_loops.
  - apply few_send.
  - apply few_receive.
  - unfold wait. match goal with E : sys_now _ = _ |- _ => rewrite E end.
    apply retry_loops, few_poll.
Qed.

(** The socket adapter keeps the contract of the datagram interface: if no system call
    takes the monotonic clock back, no operation of the adapter does. *)
Theorem socket_io_contract (sys_clock : K → N) :
  SysLaws K Fd sys_clock → IoLaws K Fd (DatagramIo0 := SocketIo_datagram_io retries) sys_clock.
Proof. intros ?. by apply socket_io_laws. Qed.
End theorems.
