(* ===== verification/Config.v ===== *)
(** Command line and configuration file of [src/src/config.rs]. Operating
    system strings and paths are strings of bytes. *)

From S2P Require Import Prelude.
Open Scope N_scope.

Definition DEFAULT_PATH : string := "/etc/agentx-ifstack.toml".

(** [config::LogLevel]; [L] keeps its constructors apart from [Result]'s. *)
Inductive LogLevel := LError | LWarn | LInfo | LDebug | LTrace.

(** [log::LevelFilter] *)
Inductive LevelFilter := FilterOff | FilterError | FilterWarn | FilterInfo | FilterDebug | FilterTrace.

Definition filter (level : LogLevel) : LevelFilter :=
  match level with
  | LError => FilterError
  | LWarn => FilterWarn
  | LInfo => FilterInfo
  | LDebug => FilterDebug
  | LTrace => FilterTrace
  end.

(** [struct Config]: [reconcile] is a [u64], [priority] a [u8]. *)
Record Config := mkConfig {
  socket : string;
  reconcile : N;
  priority : N;
  log_level : LogLevel;
}.

(** [Config::default()] *)
Definition default_config : Config := mkConfig "/var/agentx/master" 3600 127 LInfo.

Inductive Action :=
| Run (config : Config)
| Help
| Version.

(** What the loop over the arguments ends with. *)
Inductive Parsed :=
| Selected (path socket : option string)
| AskHelp
| AskVersion.

(** [.filter(|value| !value.is_empty() && !value..starts_with("--"))] *)
Definition usable_value (value : string) : bool :=
  negb (String.eqb value EmptyString) && negb (String.prefix "--" value).

(** The [while let] loop over the arguments. *)
Fixpoint parse_args (args : list string) (path socket : option string)
    : result (list Piece) Parsed :=
  match args with
  | [] => Ok (Selected path socket)
  | arg :: args =>
      if String.eqb arg "--help" || String.eqb arg "-h" then Ok AskHelp
      else if String.eqb arg "--version" then Ok AskVersion
      else if String.eqb arg "--config" || String.eqb arg "--socket" then
        match args with
        | value :: args =>
            if usable_value value then
              if String.eqb arg "--config" then parse_args args (Some value) socket
              else parse_args args path (Some value)
            else Err [DisplayStr arg; Lit " requires a path"]
        | [] => Err [DisplayStr arg; Lit " requires a path"]
        end
      else Err [Lit "Unknown argument: "; DisplayStr arg]
  end.

(** [config.socket = socket] *)
Definition set_socket (socket : string) (c : Config) : Config :=
  mkConfig socket c.(reconcile) c.(priority) c.(log_level).

Section load.
(** [fs::read_to_string], and [toml::from_str] with the text its error
    displays. *)
Context (read_to_string : string → result Error string).
Context (from_str : string → result string Config).

Definition read_config (path : option string) (default_path : string)
    : result (list Piece) Config :=
  let selected_path := default default_path path in
  match read_to_string selected_path with
  | Ok contents =>
      map_err (λ error, [DisplayStr selected_path; Lit ": "; DisplayStr error]) (from_str contents)
  | Err error =>
      if bool_decide (error.(error_kind) = NotFound) && bool_decide (path = None)
      then Ok default_config
      else Err ([Lit "config "; DisplayStr selected_path; Lit ": "] ++ error.(error_message))
  end.

(** The override and the checks at the end of [load]. *)
Definition finish (config : Config) (socket_arg : option string) : result (list Piece) Action :=
  let config := match socket_arg with Some s => set_socket s config | None => config end in
  if String.eqb config.(socket) EmptyString then Err [Lit "socket must not be empty"]
  else if config.(reconcile) =? 0 then Err [Lit "reconcile must be at least 1 second"]
  else if config.(priority) =? 0 then Err [Lit "priority must be between 1 and 255"]
  else Ok (Run config).

Definition load (args : list string) (default_path : string) : result (list Piece) Action :=
  parsed ← parse_args args None None;
  match parsed with
  | AskHelp => Ok Help
  | AskVersion => Ok Version
  | Selected path socket_arg =>
      config ← read_config path default_path;
      finish config socket_arg
  end.
End load.

(** ** Specification *)

(** The options a command line that starts the agent consists of. *)
Inductive Opt := OConfig (value : string) | OSocket (value : string).

Definition opt_value (o : Opt) : string := match o with OConfig v | OSocket v => v end.

Definition render (opts : list Opt) : list string :=
  opts ≫= λ o, match o with OConfig v => ["--config"; v] | OSocket v => ["--socket"; v] end.

Definition configs (opts : list Opt) : list string :=
  omap (λ o, if o is OConfig v then Some v else None) opts.
Definition sockets (opts : list Opt) : list string :=
  omap (λ o, if o is OSocket v then Some v else None) opts.

(** The last of the values given, if any. *)
Definition last_of (given : list string) (before : option string) : option string :=
  match list.last given with Some v => Some v | None => before end.

Definition usable (opts : list Opt) : Prop :=
  Forall (λ o, usable_value (opt_value o) = true) opts.

(** What the arguments say: after any number of options, the end, a question, an
    option without its value, or something unknown. *)
Inductive says : list string → result (list Piece) Parsed → Prop :=
| says_options opts :
    usable opts →
    says (render opts) (Ok (Selected (list.last (configs opts)) (list.last (sockets opts))))
| says_help opts question rest :
    usable opts → question ∈ ["--help"; "-h"]%string →
    says (render opts ++ question :: rest) (Ok AskHelp)
| says_version opts rest :
    usable opts → says (render opts ++ "--version"%string :: rest) (Ok AskVersion)
| says_no_value opts option rest :
    usable opts → option ∈ ["--config"; "--socket"]%string →
    match rest with [] => True | value :: _ => usable_value value = false end →
    says (render opts ++ option :: rest) (Err [DisplayStr option; Lit " requires a path"])
| says_unknown opts arg rest :
    usable opts →
    arg ∉ ["--help"; "-h"; "--version"; "--config"; "--socket"]%string →
    says (render opts ++ arg :: rest) (Err [Lit "Unknown argument: "; DisplayStr arg]).

Section outcomes.
Context (read_to_string : string → result Error string).
Context (from_str : string → result string Config).

(** Where the configuration comes from: the file that was asked for, or the one at
    the default path, which alone may be missing. *)
Inductive obtains (asked : option string) (default_path : string)
    : result (list Piece) Config → Prop :=
| obtains_contents path contents config :
    path = default default_path asked → read_to_string path = Ok contents →
    from_str contents = Ok config → obtains asked default_path (Ok config)
| obtains_defaults error :
    asked = None → read_to_string default_path = Err error →
    error.(error_kind) = NotFound → obtains asked default_path (Ok default_config)
| obtains_unparsed path contents text :
    path = default default_path asked → read_to_string path = Ok contents →
    from_str contents = Err text →
    obtains asked default_path (Err [DisplayStr path; Lit ": "; DisplayStr text])
| obtains_missing path error :
    asked = Some path → read_to_string path = Err error →
    obtains asked default_path
      (Err ([Lit "config "; DisplayStr path; Lit ": "] ++ error.(error_message)))
| obtains_unreadable error :
    asked = None → read_to_string default_path = Err error →
    error.(error_kind) ≠ NotFound →
    obtains asked default_path
      (Err ([Lit "config "; DisplayStr default_path; Lit ": "] ++ error.(error_message))).

(** Whether the effective configuration is one to run with; the first check that
    fails is the one reported. *)
Inductive checked (c : Config) : result (list Piece) Action → Prop :=
| checked_run :
    c.(socket) ≠ EmptyString → 0 < c.(reconcile) → 0 < c.(priority) → checked c (Ok (Run c))
| checked_socket :
    c.(socket) = EmptyString → checked c (Err [Lit "socket must not be empty"])
| checked_reconcile :
    c.(socket) ≠ EmptyString → c.(reconcile) = 0 →
    checked c (Err [Lit "reconcile must be at least 1 second"])
| checked_priority :
    c.(socket) ≠ EmptyString → 0 < c.(reconcile) → c.(priority) = 0 →
    checked c (Err [Lit "priority must be between 1 and 255"]).

(** All outcomes of a command line. *)
Inductive loads (args : list string) (default_path : string)
    : result (list Piece) Action → Prop :=
| loads_refused text : says args (Err text) → loads args default_path (Err text)
| loads_help : says args (Ok AskHelp) → loads args default_path (Ok Help)
| loads_version : says args (Ok AskVersion) → loads args default_path (Ok Version)
| loads_no_config asked override text :
    says args (Ok (Selected asked override)) → obtains asked default_path (Err text) →
    loads args default_path (Err text)
| loads_config asked override config r :
    says args (Ok (Selected asked override)) → obtains asked default_path (Ok config) →
    checked (match override with Some s => set_socket s config | None => config end) r →
    loads args default_path r.
End outcomes.

(** ** Lemmas *)

Lemma last_of_cons v l before : last_of (v :: l) before = last_of l (Some v).
Proof. unfold last_of. rewrite last_cons. by destruct (list.last l). Qed.

Lemma parse_render opts rest path socket_arg :
  usable opts →
  parse_args (render opts ++ rest) path socket_arg =
    parse_args rest (last_of (configs opts) path) (last_of (sockets opts) socket_arg).
Proof.
  intros Ho. revert path socket_arg.
  induction Ho as [|[v|v] opts Hv Ho IH]; intros path socket_arg; [done|..];
    cbn [render mbind list_bind app parse_args]; simpl in Hv; simpl; rewrite Hv;
    fold (render opts); rewrite IH; unfold configs, sockets; simpl; by rewrite last_of_cons.
Qed.

Lemma render_cons o opts rest : render [o] ++ render opts ++ rest = render (o :: opts) ++ rest.
Proof. unfold render. cbn. by rewrite app_nil_r, app_assoc. Qed.

Lemma says_cons o args r :
  usable_value (opt_value o) = true →
  match r with Ok (Selected _ _) => False | _ => True end →
  says args r → says (render [o] ++ args) r.
Proof.
  intros Ho Hr Hs. assert (∀ opts, usable opts → usable (o :: opts)) as Hu by (by constructor).
  destruct Hs; [done|..]; rewrite render_cons; constructor; auto.
Qed.

Lemma parse_says args : ∀ path socket_arg,
  match parse_args args path socket_arg with
  | Ok (Selected _ _) => ∃ opts, args = render opts ∧ usable opts
  | r => says args r
  end.
Proof.
  induction args as [args IH] using (induction_ltof1 _ (@length string)).
  intros path socket_arg. destruct args as [|arg args]; [by exists []; split; [|constructor]|]. simpl.
  destruct (String.eqb arg "--help" || String.eqb arg "-h") eqn:Hhelp.
  { bool_to_prop. apply (says_help []); [constructor|].
    apply orb_prop in Hhelp as [->%String.eqb_eq| ->%String.eqb_eq]; set_solver. }
  apply orb_false_iff in Hhelp as [Hh%String.eqb_neq Hh'%String.eqb_neq].
  destruct (String.eqb_spec arg "--version") as [->|Hv]; [apply (says_version []); constructor|].
  destruct (String.eqb arg "--config" || String.eqb arg "--socket") eqn:Harg.
  2: { apply orb_false_iff in Harg as [Hc%String.eqb_neq Hs%String.eqb_neq].
       apply (says_unknown []); [constructor|]. set_solver. }
  assert (arg ∈ ["--config"; "--socket"]%string) as Hin
    by (apply orb_prop in Harg as [->%String.eqb_eq| ->%String.eqb_eq]; set_solver).
  destruct args as [|v args]; [by apply (says_no_value []); [constructor|..]|].
  destruct (usable_value v) eqn:Hv'; [|by apply (says_no_value []); [constructor|..]].
  assert (∃ o, opt_value o = v ∧ arg :: v :: args = render [o] ++ args) as (o & Ho & Heq).
  { destruct (String.eqb_spec arg "--config") as [->|Hne]; [by exists (OConfig v)|].
    simpl in Harg. apply String.eqb_eq in Harg as ->. by exists (OSocket v). }
  rewrite Heq. assert (ltof (list string) length args (arg :: v :: args)) as Hlt
    by (unfold ltof; simpl; lia).
  assert (∀ p s, match parse_args args p s with
    | Ok (Selected _ _) => ∃ opts, render [o] ++ args = render opts ∧ usable opts
    | r => says (render [o] ++ args) r end) as Hnext.
  { intros p s. specialize (IH args Hlt p s).
    destruct (parse_args args p s) as [[| |]|e];
      [destruct IH as (opts & -> & Hu)|by apply says_cons; [subst v| |]..].
    exists (o :: opts). split; [by rewrite <- (app_nil_r (render opts)), render_cons, app_nil_r|].
    constructor; [by subst v|done]. }
  destruct (String.eqb arg "--config"); apply Hnext.
Qed.

Lemma last_of_None l : last_of l None = list.last l.
Proof. unfold last_of. by destruct (list.last l). Qed.

(** The loop hears what the arguments say. *)
Lemma parse_args_says args : says args (parse_args args None None).
Proof.
  pose proof (parse_says args None None) as Hp.
  destruct (parse_args args None None) as [[p s| |]|e] eqn:Heq; try done.
  destruct Hp as (opts & -> & Hu). rewrite <- (app_nil_r (render opts)), parse_render in Heq by done.
  rewrite !last_of_None in Heq. injection Heq as <- <-. by constructor.
Qed.

Lemma says_parse_args args p : says args p → parse_args args None None = p.
Proof.
  destruct 1 as [opts Hu|opts q rest Hu Hq|opts rest Hu|opts o rest Hu Ho Hr|opts arg rest Hu Ha];
    [rewrite <- (app_nil_r (render opts))|..]; rewrite parse_render by done; simpl.
  - by rewrite !last_of_None.
  - rewrite !elem_of_cons, elem_of_nil in Hq. by destruct Hq as [->|[->|[]]].
  - done.
  - rewrite !elem_of_cons, elem_of_nil in Ho.
    destruct Ho as [->|[->|[]]]; simpl; (destruct rest as [|v rest]; [done|]); by rewrite Hr.
  - rewrite !not_elem_of_cons in Ha. destruct Ha as (H1 & H2 & H3 & H4 & H5 & _).
    apply String.eqb_neq in H1 as ->, H2 as ->, H3 as ->, H4 as ->, H5 as ->. done.
Qed.

Section load_lemmas.
Context (read_to_string : string → result Error string).
Context (from_str : string → result string Config).

Lemma read_config_exact asked default_path r :
  read_config read_to_string from_str asked default_path = r ↔
  obtains read_to_string from_str asked default_path r.
Proof.
  unfold read_config. split.
  - intros <-. destruct (read_to_string _) as [contents|e] eqn:Hread.
    + destruct (from_str contents) as [c|text] eqn:Hs; simpl; by econstructor.
    + destruct (bool_decide (error_kind e = NotFound)) eqn:Hk, asked as [path|]; simpl in *;
        bool_to_prop; try (by eapply obtains_missing); by econstructor.
  - destruct 1 as [path contents c -> Hr Hs|e -> Hr Hk|path contents text -> Hr Hs|path e -> Hr|e -> Hr Hk];
      simpl; rewrite Hr; simpl.
    + by rewrite Hs.
    + by rewrite bool_decide_true.
    + by rewrite Hs.
    + by rewrite andb_false_r.
    + by rewrite bool_decide_false.
Qed.

Lemma finish_exact config override r :
  finish config override = r ↔
  checked (match override with Some s => set_socket s config | None => config end) r.
Proof.
  unfold finish. set (c := match override with Some s => _ | None => _ end). split.
  - intros <-. destruct (String.eqb_spec (socket c) EmptyString); [by constructor|].
    destruct (N.eqb_spec (reconcile c) 0); [by constructor|].
    destruct (N.eqb_spec (priority c) 0); constructor; done || lia.
  - destruct 1 as [Hs%String.eqb_neq Hr Hp|Hs|Hs%String.eqb_neq Hr|Hs%String.eqb_neq Hr Hp];
      rewrite Hs; try done.
    + by rewrite !(proj2 (N.eqb_neq _ 0)) by lia.
    + by rewrite Hr.
    + rewrite (proj2 (N.eqb_neq (reconcile c) 0)) by lia. by rewrite Hp.
Qed.
End load_lemmas.

(** ** Theorems *)

(** C40. The command line does what it documents, on every branch: after options with usable
    values, [--help], [-h] and [--version] ask, an option without its value and anything
    unknown are refused by name, and otherwise the configuration is that of the file the
    last [--config] names, which must be there and parse, or of the default file, which
    alone may be missing and then means the built-in defaults; the last [--socket]
    overrides the socket before the checks, and the agent runs exactly if the socket is
    not empty and reconciliation and priority are at least 1. *)
Theorem load_exact (read_to_string : string → result Error string)
    (from_str : string → result string Config) (args : list string) (default_path : string)
    (r : result (list Piece) Action) :
  load read_to_string from_str args default_path = r ↔
  loads read_to_string from_str args default_path r.
Proof.
  unfold load. split.
  - intros <-. pose proof (parse_args_says args) as Hs.
    destruct (parse_args args None None) as [[asked override| |]|text]; try (by constructor). simpl.
    destruct (read_config _ _ asked default_path) as [c|text] eqn:Hc; apply read_config_exact in Hc.
    + eapply loads_config; [done..|]. by apply finish_exact.
    + by eapply loads_no_config.
  - destruct 1 as [text Hs|Hs|Hs|asked override text Hs Ho|asked override c r Hs Ho Hc];
      apply says_parse_args in Hs as ->; try done; simpl;
      apply read_config_exact in Ho as ->; [done|]. simpl. by apply finish_exact.
Qed.
