(* ===== verification/Notify.v ===== *)
(** Readiness notification of [src/src/notify.rs]. *)

From Stdlib Require Import Ascii.
From S2P Require Import Prelude.

Definition SOCKET : string := "NOTIFY_SOCKET".
Definition READY : string := "READY=1".

Section notify.
(** [SocketAddr] with its two constructors from the standard library, the
    sending of a datagram from a fresh unbound socket, and the end of that
    socket. *)
Context {SocketAddr W : Type}.
Context (from_abstract_name from_pathname : string → result Error SocketAddr).
Context (unbound : W → result Error unit * W).
Context (send_to_addr : string → SocketAddr → W → result Error unit * W).
Context (release : W → W).

(** [fn address] *)
Definition address (socket : string) : result Error SocketAddr :=
  match socket with
  | String c name =>
      if Ascii.eqb c "@" && negb (String.eqb name EmptyString) then from_abstract_name name
      else if Ascii.eqb c "/" then from_pathname socket
      else Err (mkError InvalidInput
             [DisplayStr SOCKET; Lit " is neither an absolute path nor an abstract name"])
  | EmptyString =>
      Err (mkError InvalidInput
             [DisplayStr SOCKET; Lit " is neither an absolute path nor an abstract name"])
  end.

(** [fn send]: the socket goes out of scope whichever way it returns. *)
Definition send (socket message : string) (w : W) : result Error unit * W :=
  match unbound w with
  | (Err e, w) => (Err e, w)
  | (Ok _, w) =>
      match address socket with
      | Err e => (Err e, release w)
      | Ok addr => let '(r, w) := send_to_addr message addr w in (r, release w)
      end
  end.

(** [fn ready]: [var_os] is [std::env::var_os]; a failure is only logged. *)
Definition ready (var_os : string → option string) (w : W) : W :=
  match var_os SOCKET with
  | None => w
  | Some socket => (send socket READY w).2
  end.
End notify.

(** The service manager's socket is addressed as it is documented: an abstract name
    after a leading at sign, an absolute path otherwise, and nothing else; outside the
    service manager nothing is sent, and inside exactly one [READY=1] datagram to that
    address, if it is one, from a socket that is closed again. *)
Theorem ready_notifies {SocketAddr W : Type}
    (abstract pathname : string → result Error SocketAddr)
    (unbound : W → result Error unit * W)
    (send_to : string → SocketAddr → W → result Error unit * W) (release : W → W)
    (var_os : string → option string) (w : W) :
  (∀ name, name ≠ EmptyString → address abstract pathname (String "@" name) = abstract name) ∧
  (∀ rest, address abstract pathname (String "/" rest) = pathname (String "/" rest)) ∧
  (∀ s, (∀ name, s = String "@" name → name = EmptyString) → (∀ rest, s ≠ String "/" rest) →
     ∃ e, address abstract pathname s = Err e ∧ e.(error_kind) = InvalidInput) ∧
  (let w' := ready abstract pathname unbound send_to release var_os w in
   match var_os SOCKET with
   | None => w' = w
   | Some s =>
       match (unbound w).1, address abstract pathname s with
       | Ok _, Ok addr => w' = release (send_to READY addr (unbound w).2).2
       | Ok _, Err _ => w' = release (unbound w).2
       | Err _, _ => w' = (unbound w).2
       end
   end).
Proof.
  split_and!.
  - intros name Hname. unfold address. destruct (String.eqb_spec name EmptyString); [done|].
    by rewrite Ascii.eqb_refl.
  - intros rest. done.
  - intros s Hat Hslash. unfold address. destruct s as [|c name]; [by eexists|].
    destruct (Ascii.eqb_spec c "@") as [->|_]; simpl.
    + rewrite (Hat name eq_refl). simpl. by eexists.
    + destruct (Ascii.eqb_spec c "/") as [->|_]; [|by eexists]. by destruct (Hslash name).
  - unfold ready, send. destruct (var_os SOCKET) as [s|]; [|done].
    destruct (unbound w) as [[u|e] w1]; simpl; [|done].
    destruct (address _ _ s) as [addr|e]; [|done]. by destruct (send_to _ _ _).
Qed.
