(* ===== verification/Session.v ===== *)
(** The AgentX session of [src/src/session.rs]: framing with deadlines, the
    handshake, and the request loop. *)

From Stdlib Require Import Ascii.
From S2P Require Import Prelude BTree Link Agentx Mib Duration Monitor Config.
Open Scope N_scope.

(** ** The PDU interface of the agentx crate *)

(** [pdu::Type]: [TOther] stands for the types the source does not name. *)
Inductive Type_ :=
| TOpen | TClose | TRegister | TGet | TGetNext | TGetBulk | TTestSet | TCommitSet | TUndoSet
| TCleanupSet | TPing | TResponse | TOther (code : N).

#[export] Instance Type_eq_dec : EqDecision Type_.
Proof. solve_decision. Defined.

(** [pdu::ResError]: [ResOther] stands for the codes the source does not name. *)
Inductive ResError :=
| NoAgentXError | NotOpen | UnsupportedContext | ParseError | RequestDenied | ProcessingError
| ResOther (code : N).

#[export] Instance ResError_eq_dec : EqDecision ResError.
Proof. solve_decision. Defined.

Inductive ByteOrder := BigEndian | LittleEndian.

(** [pdu::Header] *)
Record Header := mkHeader {
  version : N;
  ty : Type_;
  flags : N;
  session_id : N;
  transaction_id : N;
  packet_id : N;
  payload_length : N;
}.

(** The fields of [pdu::Response], [pdu::Open] and [pdu::Register] the source
    reads or writes. *)
Record Response (ID : Type) := mkResponse {
  r_header : Header;
  res_error : ResError;
  res_index : N;
  vb : option (list (VarBind ID));
}.
Arguments mkResponse {ID}.
Arguments r_header {ID}.
Arguments res_error {ID}.
Arguments res_index {ID}.
Arguments vb {ID}.

Record Open := mkOpen { o_header : Header; o_timeout : N }.
Record Register (ID : Type) := mkRegister { g_header : Header; g_subtree : ID; g_priority : N }.
Arguments mkRegister {ID}.
Arguments g_header {ID}.
Arguments g_subtree {ID}.
Arguments g_priority {ID}.

(** The crate's constructors, parsers and serializers. *)
Class PduOps (ID : Type) := {
  open_new : string → Open;                          (* [Open::new(ID::default(), _)] *)
  register_new : ID → Register ID;
  response_from_header : Header → Response ID;
  open_to_bytes : Open → result Error (list N);
  register_to_bytes : Register ID → result Error (list N);
  response_to_bytes : Response ID → result Error (list N);
  header_from_bytes : list N → result Error Header;
  res_error_from_bytes : list N → ByteOrder → result Error ResError;
  get_from_bytes : list N → result Error (list (SearchRange ID));
  get_bulk_from_bytes : list N → result Error (list (SearchRange ID) * N * N);
  test_set_from_bytes : list N → result Error (list (VarBind ID));
  ping_from_bytes : list N → result Error unit;
  close_from_bytes : list N → result Error unit;
  try_from_error : Error;                            (* the error of [ID::try_from] *)
  type_debug : Type_ → string;                       (* [{:?}] *)
  res_error_debug : ResError → string;
}.

(** ** The stream *)

(** [UnixStream] with the clock, over the state [S] of everything outside the
    process. [st_read n] answers at most [n] bytes, and none at the end;
    [st_drop] is the end of a connected stream that goes out of scope. *)
Class Stream (S : Type) := {
  st_connect : string → S → result Error unit * S;
  st_set_read_timeout : option N → S → result Error unit * S;
  st_set_write_timeout : option N → S → result Error unit * S;
  st_read_timeout : S → result Error (option N) * S;
  st_read : nat → S → result Error (list N) * S;
  st_write_all : list N → S → result Error unit * S;
  st_drop : S → S;
  st_now : S → N * S;
}.

(** ** Constants *)

Definition NETWORK_BYTE_ORDER : N := 4.      (* bit numbers of RFC 2741, 6.1 *)
Definition NON_DEFAULT_CONTEXT : N := 3.
Definition NETWORK_ORDER : N := N.shiftl 1 NETWORK_BYTE_ORDER.
Definition IO_TIMEOUT : N := from_secs 5.
Definition MAX_PAYLOAD : N := 1024 * 1024.
Definition MAX_OID_SUBIDS : nat := 128.
Definition NOT_WRITABLE : N := 17.
Definition COMMIT_FAILED : N := 14.
Definition UNDO_FAILED : N := 15.

Definition invalid (message : string) : Error := mkError InvalidData [Lit message].
Definition frame_deadline : Error :=
  mkError TimedOut [Lit "AgentX PDU frame deadline exceeded"].
Definition unexpected_eof : Error := mkError UnexpectedEof [].

(** [u16::to_be_bytes] and [u16::to_le_bytes] *)
Definition to_be_bytes (x : N) : list N := [x / 256; x mod 256].
Definition to_le_bytes (x : N) : list N := [x mod 256; x / 256].

Section session.
Context {ID : Type} `{!IdOps ID, !PduOps ID} {S : Type} `{!Stream S}.

(** The shared publication cell as a reader finds it, and the callback the
    session makes once it is registered. *)
Context (tables : S → option (list (ID * Value ID))).
Context (registered : S → S).
(** How many interrupted reads the model follows [read_exact] for: see
    [read_exact_unbounded]. *)
Context (retries : positive).

(** ** Framing *)

(** One round of the standard library's [read_exact]: the bytes so far. *)
Definition read_exact_step (n : nat) (p : list N * S)
    : (list N * S) + (result Error (list N) * S) :=
  let '(got, w) := p in
  if (length got =? n)%nat then inr (Ok got, w)
  else match st_read (n - length got) w with
  | (Ok [], w) => inr (Err (mkError UnexpectedEof [Lit "failed to fill whole buffer"]), w)
  | (Ok data, w) => inl (got ++ data, w)
  | (Err e, w) =>
      if bool_decide (e.(error_kind) = Interrupted) then inl (got, w) else inr (Err e, w)
  end.

(** The [loop] of [read_exact] has no bound. Here it is followed for [retries]
    interruptions, besides one round for each byte and one to find them all: a
    loop that the code leaves after at most [retries] interrupted reads is left
    here with the same result. *)
Definition read_exact (n : nat) (w : S) : result Error (list N) * S :=
  match iterate (Pos.of_succ_nat n + retries) (read_exact_step n) ([], w) with
  | inr out => out
  | inl (_, w) => (Err (mkError Interrupted []), w)
  end.

(** One round of the loop of [read_before] for [n] bytes. *)
Definition read_before_step (n : nat) (deadline : N) (p : list N * S)
    : (list N * S) + (result Error (list N) * S) :=
  let '(got, w) := p in
  if (length got =? n)%nat then inr (Ok got, w)
  else
    let '(instant, w) := st_now w in
    let remaining := saturating_sub deadline instant in
    if is_zero remaining then inr (Err frame_deadline, w)
    else match st_set_read_timeout (Some remaining) w with
    | (Err e, w) => inr (Err e, w)
    | (Ok _, w) =>
        match st_read (n - length got) w with
        | (Ok [], w) => inr (Err unexpected_eof, w)
        | (Ok data, w) => inl (got ++ data, w)
        | (Err e, w) =>
            match e.(error_kind) with
            | Interrupted => inl (got, w)
            | TimedOut | WouldBlock => inr (Err frame_deadline, w)
            | _ => inr (Err e, w)
            end
        end
    end.

(** More rounds than nanoseconds in a frame budget of five seconds: see
    [read_before_exits]. *)
Definition FRAME_FUEL : positive := 5000000001.

(** [read_before] fills [n] bytes before [deadline]. *)
Definition read_before (n : nat) (deadline : N) (w : S) : result Error (list N) * S :=
  match iterate FRAME_FUEL (read_before_step n deadline) ([], w) with
  | inr out => out
  | inl (_, w) => (Err (error_other "out of fuel"), w)
  end.

(** The check of a header before its payload is read. *)
Definition header_ok (h : Header) : bool :=
  (h.(version) =? 1) && (h.(payload_length) <=? MAX_PAYLOAD) && (h.(payload_length) mod 4 =? 0).

Definition receive (frame_budget : N) (w : S) : result Error (Header * list N) * S :=
  match read_exact 1 w with
  | (Err e, w) => (Err e, w)
  | (Ok first_byte, w) =>
      match st_read_timeout w with
      | (Err e, w) => (Err e, w)
      | (Ok idle_timeout, w) =>
          let '(instant, w) := st_now w in
          let deadline := instant + frame_budget in
          match read_before 19 deadline w with
          | (Err e, w) => (Err e, w)
          | (Ok rest, w) =>
              let bytes := first_byte ++ rest in
              match header_from_bytes bytes with
              | Err e => (Err e, w)
              | Ok header =>
                  if negb (header_ok header) then
                    (Err (invalid "invalid AgentX version or payload length"), w)
                  else match read_before (N.to_nat header.(payload_length)) deadline w with
                  | (Err e, w) => (Err e, w)
                  | (Ok payload, w) =>
                      match st_set_read_timeout idle_timeout w with
                      | (Err e, w) => (Err e, w)
                      | (Ok _, w) => (Ok (header, bytes ++ payload), w)
                      end
                  end
              end
          end
      end
  end.

(** ** Handshake *)

Definition rejected (request : Header) (error : ResError) : Error :=
  mkError OtherKind [Lit "AgentX "; DisplayStr (type_debug request.(ty)); Lit " rejected: ";
                     DisplayStr (res_error_debug error)].

(** The checks of [acknowledge] on the received PDU; [None] is a panic. *)
Definition check_ack (request header : Header) (bytes : list N) : option (result Error Header) :=
  if negb (bool_decide (header.(ty) = TResponse)) || (header.(payload_length) <? 8)
     || negb (header.(packet_id) =? request.(packet_id))
     || negb (header.(transaction_id) =? request.(transaction_id))
     || (negb (bool_decide (request.(ty) = TOpen))
         && negb (header.(session_id) =? request.(session_id)))
  then Some (Err (invalid "unexpected AgentX acknowledgement"))
  else
    let order := if negb (N.land header.(flags) NETWORK_ORDER =? 0) then BigEndian
                 else LittleEndian in
    code ← slice 24 26 bytes;
    match res_error_from_bytes code order with
    | Err e => Some (Err e)
    | Ok error =>
        if negb (bool_decide (error = NoAgentXError)) then Some (Err (rejected request error))
        else
          res_index ← slice 26 28 bytes;
          if negb (bool_decide (res_index = [0; 0])) then
            Some (Err (invalid "nonzero administrative response error index"))
          else Some (Ok header)
    end.

Definition acknowledge (request : Header) (w : S) : option (result Error Header) * S :=
  match receive IO_TIMEOUT w with
  | (Err e, w) => (Some (Err e), w)
  | (Ok (header, bytes), w) => (check_ack request header bytes, w)
  end.

(** ** Requests *)

(** [oid.to_string().split('.').count() > MAX_OID_SUBIDS] *)
Definition validate_oid (oid : ID) : result Error unit :=
  if (MAX_OID_SUBIDS <? 1 + count_char "."%char (id_to_string oid))%nat
  then Err (invalid "OID exceeds 128 sub-identifiers") else Ok tt.

Definition set_flags (f : N) (h : Header) : Header :=
  mkHeader h.(version) h.(ty) f h.(session_id) h.(transaction_id) h.(packet_id) h.(payload_length).
Definition set_ids (session packet : N) (h : Header) : Header :=
  mkHeader h.(version) h.(ty) h.(flags) session h.(transaction_id) packet h.(payload_length).

Definition reply (header : Header) : Response ID :=
  let response := response_from_header header in
  mkResponse (set_flags (N.land header.(flags) NETWORK_ORDER) response.(r_header))
    response.(res_error) response.(res_index) response.(vb).

(** Assignments to the response. *)
Definition set_error (e : ResError) (r : Response ID) : Response ID :=
  mkResponse r.(r_header) e r.(res_index) r.(vb).
Definition set_index (i : N) (r : Response ID) : Response ID :=
  mkResponse r.(r_header) r.(res_error) i r.(vb).
Definition set_vb (v : list (VarBind ID)) (r : Response ID) : Response ID :=
  mkResponse r.(r_header) r.(res_error) r.(res_index) (Some v).

(** The checks over the ranges of a read request. *)
Definition check_ranges (ranges : list (SearchRange ID)) : result Error unit :=
  _ ← foldM (λ _ range, _ ← validate_oid range.(range_start); validate_oid range.(range_end))
        tt ranges;
  if existsb (λ range, 1 <? id_include range.(range_start)) ranges
  then Err (invalid "invalid SearchRange include flag") else Ok tt.

(** The answers of a published table; [None] is a panic. *)
Definition answer (header : Header) (mib : list (ID * Value ID))
    (ranges : list (SearchRange ID)) (bulk : option (N * N)) : option (list (VarBind ID)) :=
  match bulk with
  | Some (non_repeaters, max_repetitions) =>
      Some (get_bulk mib ranges (N.to_nat non_repeaters) (N.to_nat max_repetitions))
  | None =>
      mapM (λ range, if bool_decide (header.(ty) = TGet)
                     then get mib range.(range_start) else Some (get_next mib range)) ranges
  end.

(** The arm for [Get], [GetNext] and [GetBulk]. *)
Definition dispatch_read (header : Header) (bytes : list N)
    (mib : option (list (ID * Value ID))) (response : Response ID)
    : option (result Error (Response ID * option N)) :=
  match (if bool_decide (header.(ty) = TGetBulk) then
           '(ranges, non_repeaters, max_repetitions) ← get_bulk_from_bytes bytes;
           Ok (ranges, Some (non_repeaters, max_repetitions))
         else ranges ← get_from_bytes bytes; Ok (ranges, None)) with
  | Err e => Some (Err e)
  | Ok (ranges, bulk) =>
      match check_ranges ranges with
      | Err e => Some (Err e)
      | Ok _ =>
          match mib with
          | Some mib =>
              vbs ← answer header mib ranges bulk;
              Some (Ok (set_vb vbs response, None))
          | None => Some (Ok (set_error ProcessingError response, None))
          end
      end
  end.

(** The checks over the bindings of a TestSet. *)
Definition check_bindings (bindings : list (VarBind ID)) : result Error unit :=
  foldM (λ _ binding,
    _ ← validate_oid binding.(vb_name);
    match binding.(vb_data) with VObjectIdentifier value => validate_oid value | _ => Ok tt end)
    tt bindings.

(** [fn dispatch], with the snapshot the reader takes. *)
Definition dispatch (header : Header) (bytes : list N) (mib : option (list (ID * Value ID)))
    : option (result Error (Response ID * option N)) :=
  let response := reply header in
  if negb (N.land header.(flags) (N.shiftl 1 NON_DEFAULT_CONTEXT) =? 0) then
    Some (Ok (set_error UnsupportedContext response, None))
  else match header.(ty) with
  | TGet | TGetNext | TGetBulk => dispatch_read header bytes mib response
  | TTestSet =>
      Some (bindings ← test_set_from_bytes bytes;
            _ ← check_bindings bindings;
            if bool_decide (bindings = []) then Ok (response, None)
            else Ok (set_index 1 response, Some NOT_WRITABLE))
  | TCommitSet | TUndoSet =>
      Some (if negb (header.(payload_length) =? 0) then Err (invalid "Set phase has a payload")
            else Ok (response, Some (if bool_decide (header.(ty) = TCommitSet)
                                     then COMMIT_FAILED else UNDO_FAILED)))
  | TPing => Some (_ ← ping_from_bytes bytes; Ok (response, None))
  | _ => Some (Ok (set_error RequestDenied response, None))
  end.

(** The serialized response with the SNMP error code written over the field
    the crate leaves out; [None] is a panic. *)
Definition encode (response : Response ID) (snmp_error : option N)
    : option (result Error (list N)) :=
  match response_to_bytes response with
  | Err e => Some (Err e)
  | Ok bytes =>
      match snmp_error with
      | None => Some (Ok bytes)
      | Some error =>
          let encoded := if negb (N.land response.(r_header).(flags) NETWORK_ORDER =? 0)
                         then to_be_bytes error else to_le_bytes error in
          Ok <$> copy_at 24 26 encoded bytes
      end
  end.

(** What a request is answered with: bytes to write before the loop goes on
    or the session ends, or nothing. *)
Inductive Reaction :=
| Reply (bytes : list N)
| Finish (bytes : list N)
| Ignore.

(** The body of the loop of [run] after the PDU is received, up to the write;
    [None] is a panic and [Err] ends the session. *)
Definition react (session : N) (header : Header) (bytes : list N)
    (mib : option (list (ID * Value ID))) : option (result Error Reaction) :=
  if negb (header.(session_id) =? session) then
    Some (out ← response_to_bytes (set_error NotOpen (reply header)); Ok (Reply out))
  else if bool_decide (header.(ty) = TClose) then
    Some (_ ← close_from_bytes bytes; out ← response_to_bytes (reply header); Ok (Finish out))
  else if bool_decide (header.(ty) = TCleanupSet) then
    Some (if negb (header.(payload_length) =? 0) then Err (invalid "CleanupSet has a payload")
          else Ok Ignore)
  else
    dispatched ← dispatch header bytes mib;
    let '(response, snmp_error) :=
      match dispatched with
      | Ok result => result
      | Err _ => (set_error ParseError (reply header), None)
      end in
    out ← encode response snmp_error;
    Some (out ← out; Ok (Reply out)).

(** One iteration of the loop of [run]; the exit is the session's result. *)
Definition serve_step (session : N) (w : S) : S + (option (result Error unit) * S) :=
  match receive IO_TIMEOUT w with
  | (Err e, w) => inr (Some (Err e), w)
  | (Ok (header, bytes), w) =>
      match react session header bytes (snapshot (tables w)) with
      | None => inr (None, w)
      | Some (Err e) => inr (Some (Err e), w)
      | Some (Ok Ignore) => inl w
      | Some (Ok (Reply out)) =>
          match st_write_all out w with
          | (Ok _, w) => inl w
          | (Err e, w) => inr (Some (Err e), w)
          end
      | Some (Ok (Finish out)) =>
          match st_write_all out w with
          | (Ok _, w) => inr (Some (Ok tt), w)
          | (Err e, w) => inr (Some (Err e), w)
          end
      end
  end.

(** The [Open] and [Register] PDUs of [run]. *)
Definition open_pdu : Open :=
  let open := open_new "agentx-ifstack" in
  mkOpen (set_ids open.(o_header).(session_id) 1 (set_flags NETWORK_ORDER open.(o_header)))
    IO_TIMEOUT.

Definition register_pdu (opened : Header) (priority : N) (table : ID) : Register ID :=
  let register := register_new table in
  mkRegister (set_ids opened.(session_id) 2
                (set_flags (N.land opened.(flags) NETWORK_ORDER) register.(g_header)))
    register.(g_subtree) priority.

(** A stage of [run] that may return early. *)
Definition stage {A B} (r : option (result Error A) * S)
    (k : A → S → option (result Error B) * S) : option (result Error B) * S :=
  match r with
  | (Some (Ok a), w) => k a w
  | (Some (Err e), w) => (Some (Err e), w)
  | (None, w) => (None, w)
  end.

Definition lift {A} (r : result Error A * S) : option (result Error A) * S := (Some r.1, r.2).

(** An early return drops the stream. *)
Definition closing {A} (r : option (result Error A) * S) : option (result Error A) * S :=
  match r with
  | (Some (Err e), w) => (Some (Err e), st_drop w)
  | r => r
  end.

(** [run] from the connected stream to its loop: the session identifier. *)
Definition negotiate (config : Config) (w : S) : option (result Error N) * S :=
  stage (lift (st_set_read_timeout (Some IO_TIMEOUT) w)) (λ _ w,
  stage (lift (st_set_write_timeout (Some IO_TIMEOUT) w)) (λ _ w,
  let open := open_pdu in
  stage (Some (open_to_bytes open), w) (λ bytes w,
  stage (lift (st_write_all bytes w)) (λ _ w,
  stage (acknowledge open.(o_header) w) (λ opened w,
  stage (Some (ok_or (id_try_from TABLE) (try_from_error (ID := ID))), w) (λ table w,
  let register := register_pdu opened config.(priority) table in
  stage (Some (register_to_bytes register), w) (λ bytes w,
  stage (lift (st_write_all bytes w)) (λ _ w,
  stage (acknowledge register.(g_header) w) (λ _ w,
  stage (lift (st_set_read_timeout None w)) (λ _ w,
  (Some (Ok opened.(session_id)), registered w))))))))))).

(** [run] up to its loop. *)
Definition handshake (config : Config) (w : S) : option (result Error N) * S :=
  stage (lift (st_connect config.(socket) w)) (λ _ w, closing (negotiate config w)).

(** [fn run], following [fuel] requests: [inl] is a session still open, and one
    that ended has dropped the stream. *)
Definition run (fuel : positive) (config : Config) (w : S)
    : S + (option (result Error unit) * S) :=
  match handshake config w with
  | (Some (Ok session), w) =>
      match iterate fuel (serve_step session) w with
      | inr (Some r, w) => inr (Some r, st_drop w)
      | turn => turn
      end
  | (Some (Err e), w) => inr (Some (Err e), w)
  | (None, w) => inr (None, w)
  end.
End session.

(** ** The contract of the stream *)

(** [incoming] is what the peer's bytes still to be read are, [outgoing] what
    was written, [timeout] the read timeout in force and [clock] the
    monotonic clock. Reads take the incoming bytes in order, writes append to
    the outgoing ones, and nothing else touches either. *)
Class StreamLaws (S : Type) `{!Stream S} (incoming outgoing : S → list N)
    (timeout : S → option N) (clock : S → N) : Prop := {
  st_read_law : ∀ n w r w', st_read n w = (r, w') →
    outgoing w' = outgoing w ∧ timeout w' = timeout w ∧ clock w ≤ clock w' ∧
    match r with
    | Ok data => (length data <= n)%nat ∧ incoming w = data ++ incoming w'
    | Err _ => incoming w' = incoming w
    end;
  st_set_read_timeout_law : ∀ t w r w', st_set_read_timeout t w = (r, w') →
    incoming w' = incoming w ∧ outgoing w' = outgoing w ∧ clock w ≤ clock w' ∧
    (r = Ok tt → timeout w' = t);
  st_read_timeout_law : ∀ w r w', st_read_timeout w = (r, w') →
    incoming w' = incoming w ∧ outgoing w' = outgoing w ∧ timeout w' = timeout w ∧
    clock w ≤ clock w' ∧ (∀ t, r = Ok t → t = timeout w);
  st_write_all_law : ∀ b w r w', st_write_all b w = (r, w') →
    incoming w' = incoming w ∧ timeout w' = timeout w ∧ clock w ≤ clock w' ∧
    (r = Ok tt → outgoing w' = outgoing w ++ b);
  st_connect_law : ∀ p w r w', st_connect p w = (r, w') →
    incoming w' = incoming w ∧ outgoing w' = outgoing w ∧ clock w ≤ clock w';
  st_set_write_timeout_law : ∀ t w r w', st_set_write_timeout t w = (r, w') →
    incoming w' = incoming w ∧ outgoing w' = outgoing w ∧ timeout w' = timeout w ∧
    clock w ≤ clock w';
  st_now_law : ∀ w t w', st_now w = (t, w') →
    incoming w' = incoming w ∧ outgoing w' = outgoing w ∧ timeout w' = timeout w ∧
    clock w ≤ t ∧ t ≤ clock w';
}.

(** ** Lemmas: framing *)

Section framing.
Context {S : Type} `{!Stream S} (incoming outgoing : S → list N) (timeout : S → option N)
  (clock : S → N) `{!StreamLaws S incoming outgoing timeout clock}.

Ltac stream_laws :=
  repeat match goal with
  | E : st_read _ _ = (_, _) |- _ => apply st_read_law in E as (? & ? & ? & ?)
  | E : st_set_read_timeout _ _ = (_, _) |- _ => apply st_set_read_timeout_law in E as (? & ? & ? & ?)
  | E : st_read_timeout _ = (_, _) |- _ => apply st_read_timeout_law in E as (? & ? & ? & ? & ?)
  | E : st_write_all _ _ = (_, _) |- _ => apply st_write_all_law in E as (? & ? & ? & ?)
  | E : st_now _ = (_, _) |- _ => apply st_now_law in E as (? & ? & ? & ? & ?)
  end; simpl in *.

(** The bytes read since [w] are the incoming ones, and nothing was sent. *)
Definition consumed (w : S) (got : list N) (w' : S) : Prop :=
  incoming w = got ++ incoming w' ∧ outgoing w' = outgoing w ∧ clock w ≤ clock w'.

Lemma consumed_trans w1 l1 w2 l2 w3 :
  consumed w1 l1 w2 → consumed w2 l2 w3 → consumed w1 (l1 ++ l2) w3.
Proof. intros (H1 & ? & ?) (H2 & ? & ?). rewrite H2 in H1. split_and!; [by rewrite <- app_assoc|congruence|lia]. Qed.

Lemma read_step_consumed n m w0 got w data w' :
  (length got <= n)%nat → length got ≠ n → m = (n - length got)%nat →
  consumed w0 got w → st_read m w = (Ok data, w') →
  (length (got ++ data) <= n)%nat ∧ consumed w0 (got ++ data) w'.
Proof.
  intros Hle Hne -> Hc Hr. stream_laws. split; [rewrite length_app; lia|].
  eapply consumed_trans; [done|]. by split_and!; naive_solver.
Qed.

Lemma read_exact_Ok retries n w d w' :
  read_exact retries n w = (Ok d, w') →
  length d = n ∧ consumed w d w' ∧ timeout w' = timeout w.
Proof.
  unfold read_exact.
  pose proof (iterate_ind
    (λ p, (length p.1 <= n)%nat ∧ consumed w p.1 p.2 ∧ timeout p.2 = timeout w)
    (λ out, ∀ d, out.1 = Ok d → length d = n ∧ consumed w d out.2 ∧ timeout out.2 = timeout w)
    (read_exact_step n)) as Hi.
  lapply Hi; [clear Hi; intros Hi|].
  - specialize (Hi (Pos.of_succ_nat n + retries)%positive ([], w)).
    destruct (iterate _ _ _) as [[got w1]|out]; [done|].
    intros ->. apply (Hi ltac:(simpl; split_and!; [lia|by repeat split|done]) d eq_refl).
  - intros [got w1]. simpl. intros (Hle & Hc & Ht).
    destruct (Nat.eqb_spec (length got) n) as [Heq|Hne]; [by intros ? [= <-]|].
    destruct (st_read _ w1) as [[data|e] w2] eqn:Hr.
    + pose proof (read_step_consumed n _ w got w1 data w2 Hle Hne eq_refl Hc Hr) as [Hl Hc'].
      stream_laws. destruct data; [by intros ?|]. simpl. split_and!; [done|done|congruence].
    + stream_laws. destruct (bool_decide _); simpl; [|done].
      destruct Hc as (? & ? & ?). unfold consumed. split_and!; congruence || lia.
Qed.

(** The bound on interruptions is none of the code's: what its loop leaves with is
    what [read_exact] answers for every bound that is large enough. *)
Lemma read_exact_unbounded n w out :
  loops (read_exact_step n) ([], w) out →
  ∃ p0, ∀ retries, (p0 ≤ retries)%positive → read_exact retries n w = out.
Proof.
  intros [p0 Hp]%loops_iterate. exists p0. intros retries Hle. unfold read_exact.
  by rewrite Hp by lia.
Qed.

Lemma read_exact_loops retries n w d w' :
  read_exact retries n w = (Ok d, w') → loops (read_exact_step n) ([], w) (Ok d, w').
Proof.
  unfold read_exact. destruct (iterate _ _ _) as [[got w1]|out] eqn:Hi; [done|].
  intros ->. by apply iterate_loops in Hi.
Qed.

Lemma read_before_Ok n deadline w d w' :
  read_before n deadline w = (Ok d, w') → length d = n ∧ consumed w d w'.
Proof.
  unfold read_before.
  pose proof (iterate_ind
    (λ p, (length p.1 <= n)%nat ∧ consumed w p.1 p.2)
    (λ out, ∀ d, out.1 = Ok d → length d = n ∧ consumed w d out.2)
    (read_before_step n deadline)) as Hi.
  lapply Hi; [clear Hi; intros Hi|].
  - specialize (Hi FRAME_FUEL ([], w)). destruct (iterate _ _ _) as [[got w1]|out]; [done|].
    intros ->. apply (Hi ltac:(simpl; split_and!; [lia|by repeat split]) d eq_refl).
  - intros [got w1]. simpl. intros (Hle & Hc).
    destruct (Nat.eqb_spec (length got) n) as [Heq|Hne]; [by intros ? [= <-]|].
    destruct (st_now w1) as [t w2] eqn:Hnow. destruct (is_zero _); [done|].
    destruct (st_set_read_timeout _ w2) as [[[]|e] w3] eqn:Hset; [|done].
    assert (consumed w got w3) as Hc3.
    { stream_laws. destruct Hc as (? & ? & ?). unfold consumed. split_and!; congruence || lia. }
    destruct (st_read _ w3) as [[data|e] w4] eqn:Hr.
    + pose proof (read_step_consumed n _ w got w3 data w4 Hle Hne eq_refl Hc3 Hr) as [Hl Hc'].
      destruct data; [by intros ?|done].
    + destruct (st_read_law _ _ _ _ Hr) as (? & ? & ? & ?).
      destruct (error_kind e); simpl; try done.
      destruct Hc3 as (? & ? & ?). unfold consumed. split_and!; [done|congruence|congruence|lia].
Qed.

(** A frame received whole: the next incoming bytes are exactly it. *)
Definition frame {ID : Type} `{!PduOps ID} (header : Header) (bytes : list N) : Prop :=
  header_from_bytes (take 20 bytes) = Ok header ∧ header_ok header = true ∧
  length bytes = (20 + N.to_nat header.(payload_length))%nat.

Lemma receive_Ok {ID : Type} `{!PduOps ID} retries budget w header bytes w' :
  receive (ID := ID) retries budget w = (Ok (header, bytes), w') →
  frame (ID := ID) header bytes ∧ consumed w bytes w' ∧ timeout w' = timeout w.
Proof.
  unfold receive. destruct (read_exact retries 1 w) as [[b1|e] w1] eqn:H1; [|done].
  apply read_exact_Ok in H1 as (Hl1 & Hc1 & Ht1).
  destruct (st_read_timeout w1) as [[idle|e] w2] eqn:H2; [|done].
  destruct (st_now w2) as [t w3] eqn:H3.
  assert (consumed w1 [] w3 ∧ idle = timeout w1) as [Hc2 ->].
  { stream_laws. unfold consumed. simpl. split; [split_and!; congruence || lia|naive_solver]. }
  destruct (read_before 19 _ w3) as [[rest|e] w4] eqn:H4; [|done].
  apply read_before_Ok in H4 as (Hl4 & Hc4).
  destruct (header_from_bytes (b1 ++ rest)) as [h|e] eqn:Hh; [|done].
  destruct (header_ok h) eqn:Hok; simpl; [|done].
  destruct (read_before _ _ w4) as [[payload|e] w5] eqn:H5; [|done].
  apply read_before_Ok in H5 as (Hl5 & Hc5).
  destruct (st_set_read_timeout _ w5) as [[[]|e] w6] eqn:H6; [|done].
  intros [= <- <- <-]. unfold frame.
  rewrite take_app_length' by (rewrite length_app; lia).
  split; [split_and!; [done|done|rewrite !length_app; lia]|].
  assert (consumed w5 [] w6 ∧ timeout w6 = timeout w1) as [Hc6 Ht6].
  { stream_laws. unfold consumed. simpl. split; [split_and!; congruence || lia|naive_solver]. }
  split; [|congruence].
  rewrite <- (app_nil_r ((b1 ++ rest) ++ payload)).
  do 2 (eapply consumed_trans; [|done]).
  eapply consumed_trans; [|done]. rewrite <- (app_nil_r b1). by eapply consumed_trans.
Qed.

(** ** Lemmas: termination of reading *)

(** A read takes time. *)
Definition reads_advance : Prop :=
  ∀ n w r w', st_read n w = (r, w') → clock w < clock w'.

Lemma read_before_exits n deadline w :
  reads_advance → deadline ≤ clock w + IO_TIMEOUT →
  ∃ out, iterate FRAME_FUEL (read_before_step n deadline) ([], w) = inr out.
Proof.
  intros Hadv Hdl.
  apply (iterate_exits (λ _, True) (λ p : list N * S, deadline - clock p.2)); [|done|].
  - intros [got w1] p' _. unfold read_before_step.
    destruct (Nat.eqb_spec (length got) n); [done|].
    destruct (st_now w1) as [t w2] eqn:Hnow. unfold is_zero, saturating_sub.
    destruct (N.eqb_spec (deadline - t) 0); [done|].
    destruct (st_set_read_timeout _ w2) as [[[]|e] w3] eqn:Hset; [|done].
    destruct (st_read _ w3) as [r w4] eqn:Hr. pose proof (Hadv _ _ _ _ Hr).
    assert (clock w1 < deadline ∧ clock w1 < clock w4) as [? ?] by (stream_laws; lia).
    assert (∀ l, inl (l, w4) = (inl p' : _ + (result Error (list N) * S)) →
      True ∧ deadline - clock p'.2 < deadline - clock (got, w1).2) as Hgo.
    { intros l [= <-]. simpl. split; [done|lia]. }
    destruct r as [[|x data]|e]; [done|apply Hgo|].
    destruct (error_kind e); try done; apply Hgo.
  - simpl. unfold IO_TIMEOUT, from_secs, NANOS_PER_SEC, FRAME_FUEL in *. lia.
Qed.
End framing.

(** ** Specification: acknowledgements *)

Section protocol.
Context {ID : Type} `{IdLaws ID, !PduOps ID}.

(** The byte order a header announces. *)
Definition order_of (header : Header) : ByteOrder :=
  if negb (N.land header.(flags) NETWORK_ORDER =? 0) then BigEndian else LittleEndian.

(** [header] with its PDU acknowledges [request]. *)
Record acknowledges (request header : Header) (bytes : list N) : Prop := {
  ack_type : header.(ty) = TResponse;
  ack_payload : 8 ≤ header.(payload_length);
  ack_packet : header.(packet_id) = request.(packet_id);
  ack_transaction : header.(transaction_id) = request.(transaction_id);
  ack_session : request.(ty) = TOpen ∨ header.(session_id) = request.(session_id);
  ack_error : res_error_from_bytes (ID := ID) (take 2 (drop 24 bytes)) (order_of header)
              = Ok NoAgentXError;
  ack_index : take 2 (drop 26 bytes) = [0; 0];
}.

Lemma check_ack_Ok request header bytes :
  (8 ≤ header.(payload_length) → (28 <= length bytes)%nat) →
  (∃ r, check_ack (ID := ID) request header bytes = Some r ∧
     ∀ h, r = Ok h ↔ h = header ∧ acknowledges request header bytes).
Proof.
  intros Hlen. unfold check_ack.
  destruct (_ || _) eqn:Hc.
  - eexists; split; [done|]. intros h. split; [done|]. intros [-> [Ht Hp Hk Htr Hs _ _]].
    exfalso. revert Hc. rewrite Ht, Hk, Htr, !N.eqb_refl, bool_decide_eq_true_2 by done.
    rewrite (proj2 (N.ltb_ge _ _) Hp). simpl.
    destruct Hs as [->| ->]; [by rewrite bool_decide_eq_true_2|].
    rewrite N.eqb_refl. by rewrite andb_false_r.
  - bool_to_prop. rewrite (slice_Some 24 26) by (simpl in *; lia). cbn [mbind option_bind].
    change (26 - 24)%nat with 2%nat. fold (order_of header).
    destruct (res_error_from_bytes (ID := ID) (take 2 (drop 24 bytes)) (order_of header))
      as [error|e] eqn:He.
    2: { eexists; split; [done|]. intros h. split; [done|]. intros [_ []]. congruence. }
    destruct (bool_decide (error = NoAgentXError)) eqn:Hne; simpl; bool_to_prop.
    2: { eexists; split; [done|]. intros h. split; [done|]. intros [_ []]. congruence. }
    rewrite (slice_Some 26 28) by (simpl in *; lia). cbn [mbind option_bind].
    change (28 - 26)%nat with 2%nat.
    destruct (bool_decide (take 2 (drop 26 bytes) = [0; 0])) eqn:Hi; simpl; bool_to_prop.
    2: { eexists; split; [done|]. intros h. split; [done|]. intros [_ []]. congruence. }
    eexists; split; [done|]. intros h. split; [|by intros [-> _]]. intros [= <-].
    split; [done|]. constructor; try done; [|congruence].
    match goal with H : _ && _ = false |- _ => apply andb_false_iff in H as [Ho|Ho] end;
      bool_to_prop; auto.
Qed.

(** ** Specification: requests *)

Definition oid_ok (oid : ID) : Prop := (length (id_components oid) <= 128)%nat.

Definition range_ok (range : SearchRange ID) : Prop :=
  oid_ok range.(range_start) ∧ oid_ok range.(range_end) ∧
  id_include range.(range_start) ≤ 1.

Definition binding_ok (b : VarBind ID) : Prop :=
  oid_ok b.(vb_name) ∧
  match b.(vb_data) with VObjectIdentifier value => oid_ok value | _ => True end.

Definition default_context (header : Header) : Prop :=
  N.land header.(flags) (N.shiftl 1 NON_DEFAULT_CONTEXT) = 0.

(** The read request a PDU holds: its ranges, and the two counts of GetBulk. *)
Definition read_request (header : Header) (bytes : list N)
    (ranges : list (SearchRange ID)) (bulk : option (N * N)) : Prop :=
  match header.(ty) with
  | TGet | TGetNext => get_from_bytes bytes = Ok ranges ∧ bulk = None
  | TGetBulk => ∃ nr mr, get_bulk_from_bytes bytes = Ok (ranges, nr, mr) ∧ bulk = Some (nr, mr)
  | _ => False
  end ∧ Forall range_ok ranges.

(** The table's answer to a read request. *)
Definition read_answer (header : Header) (mib : list (ID * Value ID))
    (ranges : list (SearchRange ID)) (bulk : option (N * N)) (vbs : list (VarBind ID)) : Prop :=
  match bulk with
  | Some (nr, mr) => vbs = get_bulk mib ranges (N.to_nat nr) (N.to_nat mr)
  | None =>
      if bool_decide (header.(ty) = TGet)
      then Forall2 (λ r v, get mib r.(range_start) = Some v) ranges vbs
      else vbs = map (get_next mib) ranges
  end.

(** The response and the SNMP error code a request of the session gets. *)
Inductive answers (header : Header) (bytes : list N) (mib : option (list (ID * Value ID)))
    : Response ID → option N → Prop :=
| answers_context :
    ¬ default_context header →
    answers header bytes mib (set_error UnsupportedContext (reply header)) None
| answers_read ranges bulk m vbs :
    default_context header → read_request header bytes ranges bulk → mib = Some m →
    read_answer header m ranges bulk vbs →
    answers header bytes mib (set_vb vbs (reply header)) None
| answers_unpublished ranges bulk :
    default_context header → read_request header bytes ranges bulk → mib = None →
    answers header bytes mib (set_error ProcessingError (reply header)) None
| answers_test_nothing :
    default_context header → header.(ty) = TTestSet → test_set_from_bytes bytes = Ok [] →
    answers header bytes mib (reply header) None
| answers_test_set b bs :
    default_context header → header.(ty) = TTestSet → test_set_from_bytes bytes = Ok (b :: bs) →
    Forall binding_ok (b :: bs) →
    answers header bytes mib (set_index 1 (reply header)) (Some NOT_WRITABLE)
| answers_commit :
    default_context header → header.(ty) = TCommitSet → header.(payload_length) = 0 →
    answers header bytes mib (reply header) (Some COMMIT_FAILED)
| answers_undo :
    default_context header → header.(ty) = TUndoSet → header.(payload_length) = 0 →
    answers header bytes mib (reply header) (Some UNDO_FAILED)
| answers_ping :
    default_context header → header.(ty) = TPing → ping_from_bytes bytes = Ok tt →
    answers header bytes mib (reply header) None
| answers_denied :
    default_context header →
    header.(ty) ∉ [TGet; TGetNext; TGetBulk; TTestSet; TCommitSet; TUndoSet; TPing] →
    answers header bytes mib (set_error RequestDenied (reply header)) None.

(** ** Lemmas: requests *)

Lemma validate_oid_Ok oid : validate_oid oid = Ok tt ↔ oid_ok oid.
Proof.
  unfold validate_oid, oid_ok, MAX_OID_SUBIDS. rewrite id_to_string_dots.
  destruct (Nat.ltb_spec 128 (1 + pred (length (id_components oid)))); split; done || lia.
Qed.

Lemma foldM_unit {E A} (f : A → result E unit) l :
  foldM (λ _ x, f x) tt l = Ok tt ↔ Forall (λ x, f x = Ok tt) l.
Proof.
  induction l as [|x l IH]; cbn [foldM]; [by rewrite Forall_nil|].
  rewrite bind_Ok, Forall_cons. split.
  - intros ([] & Hx & Hl). tauto.
  - intros [Hx Hl]. exists tt. tauto.
Qed.

Lemma check_ranges_Ok ranges : check_ranges ranges = Ok tt ↔ Forall range_ok ranges.
Proof.
  unfold check_ranges. rewrite bind_Ok. split.
  - intros ([] & Hf & He). apply foldM_unit in Hf.
    destruct (existsb _ _) eqn:Hx; [done|].
    rewrite Forall_forall in Hf |- *. intros r Hr. specialize (Hf r Hr).
    apply bind_Ok in Hf as ([] & Hs%validate_oid_Ok & Hend%validate_oid_Ok).
    split_and!; [done..|]. apply existsb_false_elem with (x := r) in Hx; [|done]. by bool_to_prop.
  - intros Hok. exists tt. split.
    + apply foldM_unit. eapply Forall_impl; [done|]. intros r (Hs & He & _). simpl.
      rewrite (proj2 (validate_oid_Ok _) Hs). simpl. by apply validate_oid_Ok.
    + destruct (existsb _ _) eqn:Hx; [|done].
      apply existsb_exists in Hx as (r & Hr & Hlt). bool_to_prop.
      rewrite Forall_forall in Hok. destruct (Hok r) as (_ & _ & Hi); [by apply list_elem_of_In|].
      lia.
Qed.

Lemma check_bindings_Ok bs : check_bindings bs = Ok tt ↔ Forall binding_ok bs.
Proof.
  unfold check_bindings. rewrite foldM_unit.
  assert (∀ b, (_ ← validate_oid b.(vb_name);
    match b.(vb_data) with VObjectIdentifier value => validate_oid value | _ => Ok tt end)
    = Ok tt ↔ binding_ok b) as Hb.
  { intros b. rewrite bind_Ok. unfold binding_ok. split.
    - intros ([] & Hn%validate_oid_Ok & Hd). split; [done|].
      destruct (vb_data b); try done. by apply validate_oid_Ok.
    - intros [Hn Hd]. exists tt. split; [by apply validate_oid_Ok|].
      destruct (vb_data b); try done. by apply validate_oid_Ok. }
  split; intros Hf; (eapply Forall_impl; [exact Hf|]); intros b; apply Hb.
Qed.

Lemma get_bulk_read header bytes ranges bulk :
  header.(ty) ∈ [TGet; TGetNext; TGetBulk] →
  (match (if bool_decide (header.(ty) = TGetBulk) then
            '(ranges, nr, mr) ← get_bulk_from_bytes bytes; Ok (ranges, Some (nr, mr))
          else ranges ← get_from_bytes bytes; Ok (ranges, None)) with
   | Ok p => p = (ranges, bulk) ∧ Forall range_ok ranges
   | Err _ => False
   end) ↔ read_request header bytes ranges bulk.
Proof.
  intros Ht. unfold read_request.
  rewrite !elem_of_cons, elem_of_nil in Ht. destruct Ht as [Ht|[Ht|[Ht|[]]]]; rewrite Ht.
  1,2: rewrite bool_decide_eq_false_2 by done;
       destruct (get_from_bytes bytes); simpl; naive_solver.
  rewrite bool_decide_eq_true_2 by done.
  destruct (get_bulk_from_bytes bytes) as [[[rs nr] mr]|e]; simpl; [|naive_solver].
  split; [intros [[= <- <-] ?]; naive_solver|].
  intros [(nr' & mr' & [= -> -> ->] & ->) ?]. done.
Qed.

Lemma answer_Some header m ranges bulk :
  ∃ vbs, answer header m ranges bulk = Some vbs ∧
    ∀ vbs', read_answer header m ranges bulk vbs' ↔ vbs' = vbs.
Proof.
  unfold answer, read_answer. destruct bulk as [[nr mr]|]; [by eexists|].
  destruct (bool_decide (ty header = TGet)).
  - induction ranges as [|r ranges (vbs & Hvbs & Hu)].
    + exists []. split; [done|]. intros v. split; [by intros ->%Forall2_nil_inv_l|by intros ->].
    + destruct (get_spec m (range_start r)) as (vb & Hvb & _).
      exists (vb :: vbs). cbn [mapM]. rewrite Hvb. cbn. rewrite Hvbs. split; [done|].
      intros v. split.
      * intros (v0 & vs & Hv0 & Hvs%Hu & ->)%Forall2_cons_inv_l. congruence.
      * intros ->. constructor; [done|by apply Hu].
  - exists (map (get_next m) ranges). split; [|done].
    induction ranges as [|r ranges IH]; [done|]. cbn [mapM]. simpl. rewrite IH. done.
Qed.

Lemma dispatch_read_spec header bytes mib :
  header.(ty) ∈ [TGet; TGetNext; TGetBulk] →
  ∃ out, dispatch_read header bytes mib (reply header) = Some out ∧
    ∀ r e, out = Ok (r, e) ↔
      ∃ ranges bulk, read_request header bytes ranges bulk ∧ e = None ∧
        match mib with
        | Some m => ∃ vbs, read_answer header m ranges bulk vbs ∧ r = set_vb vbs (reply header)
        | None => r = set_error ProcessingError (reply header)
        end.
Proof.
  intros Ht. unfold dispatch_read.
  setoid_rewrite <- (get_bulk_read header bytes _ _ Ht).
  destruct (if bool_decide (header.(ty) = TGetBulk) then _ else _) as [[ranges bulk]|e].
  2: { eexists; split; [done|]. naive_solver. }
  pose proof (check_ranges_Ok ranges) as Hcheck.
  destruct (check_ranges ranges) as [[]|e].
  2: { eexists; split; [done|]. intros r e'. split; [done|].
       intros (? & ? & [[= <- <-] Hok] & _). by apply Hcheck in Hok. }
  destruct mib as [m|].
  - destruct (answer_Some header m ranges bulk) as (vbs & -> & Hu). simpl.
    eexists; split; [done|]. intros r e. split.
    + intros [= <- <-]. exists ranges, bulk. split; [split; [done|by apply Hcheck]|].
      split; [done|]. exists vbs. split; [by apply Hu|done].
    + intros (? & ? & [[= <- <-] _] & -> & vbs' & ->%Hu & ->). done.
  - eexists; split; [done|]. intros r e. split.
    + intros [= <- <-]. exists ranges, bulk. split; [split; [done|by apply Hcheck]|done].
    + by intros (? & ? & [[= <- <-] _] & -> & ->).
Qed.

Lemma test_set_spec header bytes r e :
  (bindings ← test_set_from_bytes bytes;
   _ ← check_bindings bindings;
   if bool_decide (bindings = []) then Ok (reply header, None)
   else Ok (set_index 1 (reply header), Some NOT_WRITABLE)) = Ok (r, e) ↔
  (test_set_from_bytes bytes = Ok [] ∧ r = reply header ∧ e = None) ∨
  (∃ b bs, test_set_from_bytes bytes = Ok (b :: bs) ∧ Forall binding_ok (b :: bs) ∧
     r = set_index 1 (reply header) ∧ e = Some NOT_WRITABLE).
Proof.
  rewrite bind_Ok. setoid_rewrite bind_Ok. split.
  - intros (bs & Hbs & [] & Hok%check_bindings_Ok & Hr). destruct bs as [|b bs].
    + rewrite bool_decide_eq_true_2 in Hr by done. naive_solver.
    + rewrite bool_decide_eq_false_2 in Hr by done. naive_solver.
  - intros [(Hbs & -> & ->)|(b & bs & Hbs & Hok & -> & ->)].
    + exists []. split; [done|]. by exists tt.
    + exists (b :: bs). split; [done|]. exists tt. split; [by apply check_bindings_Ok|done].
Qed.

(** A rule of [answers] for another type of request. *)
Ltac wrong_type :=
  exfalso; unfold read_request in *;
  repeat match goal with
  | H : _ ∉ _ |- _ => apply H; clear H
  | H : _ ∈ _ |- _ => rewrite !elem_of_cons, elem_of_nil in H
  | H : context [ty ?h], E : ty ?h = _ |- _ => rewrite E in H
  | E : ty ?h = _ |- context [ty ?h] => rewrite E
  end; rewrite ?elem_of_cons; try tauto; destruct_or?; naive_solver congruence.

Lemma dispatch_spec header bytes mib :
  ∃ out, dispatch header bytes mib = Some out ∧
    ∀ r e, out = Ok (r, e) ↔ answers header bytes mib r e.
Proof.
  unfold dispatch. destruct (N.eqb_spec (N.land (flags header) (N.shiftl 1 NON_DEFAULT_CONTEXT)) 0)
    as [Hctx|Hctx]; simpl.
  2: { eexists; split; [done|]. intros r e. split; [intros [= <- <-]; by constructor|].
       destruct 1; done. }
  assert (header.(ty) ∈ [TGet; TGetNext; TGetBulk] →
    ∃ out, dispatch_read header bytes mib (reply header) = Some out ∧
      ∀ r e, out = Ok (r, e) ↔ answers header bytes mib r e) as Hread.
  { intros Ht. destruct (dispatch_read_spec header bytes mib Ht) as (out & -> & Hout).
    exists out. split; [done|]. intros r e. rewrite Hout. split.
    - intros (ranges & bulk & Hrq & -> & Hm). destruct mib as [m|].
      + destruct Hm as (vbs & ? & ->). by eapply answers_read.
      + subst r. by eapply answers_unpublished.
    - intros Ha. destruct Ha as [?|ranges bulk m vbs ? ? -> ?|ranges bulk ? ? ->| | | | | |];
        [done|eauto 10|eauto 10|wrong_type..]. }
  destruct (ty header) eqn:Ht; try by (apply Hread; set_solver).
  all: eexists; split; [done|]; intros r e; clear Hread.
  all: try (split; [intros [= <- <-]; apply answers_denied; [done|rewrite Ht; set_solver]
                   |intros Ha; destruct Ha; try done; wrong_type]).
  - (* TestSet *)
    rewrite test_set_spec. split.
    + intros [(? & -> & ->)|(b & bs & ? & ? & -> & ->)];
        [by apply answers_test_nothing|by eapply answers_test_set].
    + intros Ha. destruct Ha; try wrong_type; naive_solver.
  - (* CommitSet *)
    destruct (N.eqb_spec (payload_length header) 0); simpl.
    + split; [intros [= <- <-]; by apply answers_commit|].
      intros Ha. destruct Ha; try wrong_type; done.
    + split; [done|]. intros Ha. destruct Ha; try wrong_type; done.
  - (* UndoSet *)
    destruct (N.eqb_spec (payload_length header) 0); simpl.
    + split; [intros [= <- <-]; by apply answers_undo|].
      intros Ha. destruct Ha; try wrong_type; done.
    + split; [done|]. intros Ha. destruct Ha; try wrong_type; done.
  - (* Ping *)
    rewrite bind_Ok. split.
    + intros ([] & ? & [= <- <-]). by apply answers_ping.
    + intros Ha. destruct Ha; try wrong_type. by exists tt.
Qed.

(** ** Specification: replies *)

(** [error] in the byte order the response announces. *)
Definition error_code (response : Response ID) (error : N) : list N :=
  match order_of response.(r_header) with
  | BigEndian => to_be_bytes error
  | LittleEndian => to_le_bytes error
  end.

(** The bytes [out] of a response: the crate's serialization, with the SNMP
    error code in the two bytes of its error field. *)
Definition encodes (response : Response ID) (snmp_error : option N) (out : list N) : Prop :=
  match snmp_error with
  | None => response_to_bytes response = Ok out
  | Some error => ∃ bytes, response_to_bytes response = Ok bytes ∧
      out = take 24 bytes ++ error_code response error ++ drop 26 bytes
  end.

(** The response a PDU of the open session gets: the one [answers] allows, or
    a parse error if there is none. *)
Definition response_for (header : Header) (bytes : list N) (mib : option (list (ID * Value ID)))
    (r : Response ID) (e : option N) : Prop :=
  answers header bytes mib r e ∨
  ((∀ r' e', ¬ answers header bytes mib r' e') ∧ r = set_error ParseError (reply header) ∧ e = None).

(** What the loop of the session [session] does with a PDU. *)
Inductive reacts (session : N) (header : Header) (bytes : list N)
    (mib : option (list (ID * Value ID))) : Reaction → Prop :=
| reacts_not_open out :
    header.(session_id) ≠ session →
    response_to_bytes (set_error NotOpen (reply (ID := ID) header)) = Ok out →
    reacts session header bytes mib (Reply out)
| reacts_close out :
    header.(session_id) = session → header.(ty) = TClose → close_from_bytes (ID := ID) bytes = Ok tt →
    response_to_bytes (reply (ID := ID) header) = Ok out →
    reacts session header bytes mib (Finish out)
| reacts_cleanup :
    header.(session_id) = session → header.(ty) = TCleanupSet → header.(payload_length) = 0 →
    reacts session header bytes mib Ignore
| reacts_request r e out :
    header.(session_id) = session → header.(ty) ≠ TClose → header.(ty) ≠ TCleanupSet →
    response_for header bytes mib r e → encodes r e out →
    reacts session header bytes mib (Reply out).

(** ** Lemmas: replies *)

(** Every serialized response has the eight fixed payload bytes. *)
Definition long_responses : Prop :=
  ∀ (r : Response ID) bytes, response_to_bytes r = Ok bytes → (28 <= length bytes)%nat.

Lemma encode_spec r e :
  long_responses →
  ∃ out, encode r e = Some out ∧ ∀ bytes, out = Ok bytes ↔ encodes r e bytes.
Proof.
  intros Hlong. unfold encode, encodes. destruct (response_to_bytes r) as [bytes|err] eqn:Hb.
  2: { eexists; split; [done|]. intros b. destruct e; naive_solver. }
  destruct e as [error|].
  2: { eexists; split; [done|]. naive_solver. }
  apply Hlong in Hb as Hl. unfold error_code, order_of.
  rewrite copy_at_Some; [|lia|lia|by destruct (negb _)].
  eexists; split; [done|]. intros b. destruct (negb _); naive_solver.
Qed.

Lemma react_spec session header bytes mib :
  long_responses →
  ∃ out, react session header bytes mib = Some out ∧
    ∀ x, out = Ok x ↔ reacts session header bytes mib x.
Proof.
  intros Hlong. unfold react. destruct (N.eqb_spec (session_id header) session) as [Hs|Hs]; simpl.
  2: { eexists; split; [done|]. intros x. rewrite bind_Ok. split.
       - intros (out & Ho & [= <-]). by constructor.
       - destruct 1; try done. eauto. }
  destruct (bool_decide (ty header = TClose)) eqn:Hclose; bool_to_prop.
  { eexists; split; [done|]. intros x. rewrite bind_Ok. setoid_rewrite bind_Ok. split.
    - intros ([] & ? & out & ? & [= <-]). by constructor.
    - destruct 1; try congruence. eauto. }
  destruct (bool_decide (ty header = TCleanupSet)) eqn:Hclean; bool_to_prop.
  { destruct (N.eqb_spec (payload_length header) 0); simpl; (eexists; split; [done|]); intros x;
      (split; [intros Hx|destruct 1; try congruence; done]); [|done].
    injection Hx as <-. by constructor. }
  destruct (dispatch_spec header bytes mib) as (d & -> & Hd). simpl.
  assert (∀ r e, (match d with Ok result => result
                  | Err _ => (set_error ParseError (reply header), None) end) = (r, e) ↔
    response_for header bytes mib r e) as Hr.
  { intros r e. unfold response_for. destruct d as [[r1 e1]|err].
    - rewrite <- (Hd r e). split; [intros [= <- <-]; by left|].
      intros [[= <- <-]|(Hno & _)]; [done|]. by destruct (Hno r1 e1); apply Hd.
    - split; [intros [= <- <-]; right; split; [|done]|].
      + by intros r' e' Ha%Hd.
      + intros [Ha%Hd|(_ & -> & ->)]; done. }
  destruct (match d with Ok result => result | Err _ => _ end) as [r e] eqn:Heq.
  destruct (encode_spec r e Hlong) as (out & -> & Hout). simpl.
  eexists; split; [done|]. intros x. rewrite bind_Ok. split.
  - intros (b & Hb%Hout & [= <-]). eapply reacts_request; try done. by apply Hr.
  - destruct 1 as [| | |r' e' b ? ? ? Hr'%Hr Hb]; try congruence.
    injection Hr' as <- <-. exists b. split; [by apply Hout|done].
Qed.
End protocol.

Section serving.
Context {ID : Type} `{IdLaws ID, !PduOps ID}.
Context {S : Type} `{!Stream S} (incoming outgoing : S → list N) (timeout : S → option N)
  (clock : S → N) `{!StreamLaws S incoming outgoing timeout clock}.
Context (tables : S → option (list (ID * Value ID))) (registered : S → S) (retries : positive).

(** The bytes a reaction writes. *)
Definition written (x : Reaction) : list N :=
  match x with Reply out | Finish out => out | Ignore => [] end.

(** One round of the loop: a whole frame comes in, and what [reacts] allows
    goes out. *)
Definition round (session : N) (w w' : S) (x : Reaction) : Prop :=
  ∃ header bytes w1,
    frame (ID := ID) header bytes ∧ incoming w = bytes ++ incoming w' ∧
    reacts session header bytes (snapshot (tables w1)) x ∧
    outgoing w' = outgoing w ++ written x ∧ timeout w' = timeout w.

(** ** Lemmas: rounds *)

Lemma serve_step_spec session w :
  long_responses (ID := ID) →
  match serve_step tables retries session w with
  | inl w' => ∃ x, round session w w' x ∧ (∀ out, x ≠ Finish out)
  | inr (None, _) => False
  | inr (Some (Ok _), w') => ∃ out, round session w w' (Finish out)
  | inr (Some (Err _), _) => True
  end.
Proof.
  intros Hlong. unfold serve_step.
  destruct (receive retries IO_TIMEOUT w) as [[[header bytes]|e] w1] eqn:Hr; [|done].
  apply (receive_Ok incoming outgoing timeout clock) in Hr as (Hf & (Hin & Hout & _) & Ht).
  destruct (react_spec session header bytes (snapshot (tables w1)) Hlong) as (out & -> & Hx).
  destruct out as [x|e]; [|done]. specialize (Hx x).
  assert (∀ b w2, st_write_all b w1 = (Ok tt, w2) → written x = b →
    round session w w2 x) as Hround.
  { intros b w2 Hw Hb. apply st_write_all_law in Hw as (Hi & Hti & _ & Ho).
    exists header, bytes, w1. rewrite Hi, Ho, Hout, Hti, Hb by done.
    split_and!; [done|done|by apply Hx|done|done]. }
  destruct x as [b|b|].
  - destruct (st_write_all b w1) as [[[]|e] w2] eqn:Hw; [|done].
    exists (Reply b). split; [by eapply Hround|done].
  - destruct (st_write_all b w1) as [[[]|e] w2] eqn:Hw; [|done].
    exists b. by eapply Hround.
  - exists Ignore. split; [|done]. exists header, bytes, w1. rewrite Hout, app_nil_r.
    split_and!; [done|done|by apply Hx|done|done].
Qed.

Inductive rounds (session : N) : S → list Reaction → S → Prop :=
| rounds_nil w : rounds session w [] w
| rounds_snoc w xs w1 x w2 :
    rounds session w xs w1 → round session w1 w2 x → rounds session w (xs ++ [x]) w2.

Definition unfinished (x : Reaction) : Prop := ∀ out, x ≠ Finish out.

Lemma serve_loop_spec session fuel w :
  long_responses (ID := ID) →
  match iterate fuel (serve_step tables retries session) w with
  | inl w' => ∃ xs, rounds session w xs w' ∧ Forall unfinished xs
  | inr (None, _) => False
  | inr (Some (Ok _), w') => ∃ xs out, rounds session w (xs ++ [Finish out]) w' ∧
      Forall unfinished xs
  | inr (Some (Err _), _) => True
  end.
Proof.
  intros Hlong.
  apply (iterate_ind (λ w', ∃ xs, rounds session w xs w' ∧ Forall unfinished xs)
    (λ out, match out with
            | (None, _) => False
            | (Some (Ok _), w') => ∃ xs o, rounds session w (xs ++ [Finish o]) w' ∧
                Forall unfinished xs
            | (Some (Err _), _) => True end)).
  - intros w1 (xs & Hxs & Hun). pose proof (serve_step_spec session w1 Hlong) as Hs.
    destruct (serve_step _ _ _ _) as [w2|[[[[]|e]|] w2]]; try done.
    + destruct Hs as (x & Hx & Hf). exists (xs ++ [x]). split; [by econstructor|].
      apply Forall_app. split; [done|]. by constructor.
    + destruct Hs as (out & Hx). exists xs, out. split; [by econstructor|done].
  - exists []. split; constructor.
Qed.

(** ** Lemmas: handshake *)

Lemma stage_Ok {A B} (r : option (result Error A) * S) k (b : B) w' :
  stage r k = (Some (Ok b), w') → ∃ a w1, r = (Some (Ok a), w1) ∧ k a w1 = (Some (Ok b), w').
Proof. destruct r as [[[a|e]|] w1]; simpl; [eauto|done..]. Qed.

Lemma lift_Ok {A} (r : result Error A * S) a w' :
  lift r = (Some (Ok a), w') → r = (Ok a, w').
Proof. destruct r as [[|] w1]; unfold lift; simpl; intros [= -> ->]; done. Qed.

(** The bytes exchanged since [w]. *)
Definition exchanged (w : S) (input output : list N) (w' : S) : Prop :=
  incoming w = input ++ incoming w' ∧ outgoing w' = outgoing w ++ output.

Lemma exchanged_trans w1 i1 o1 w2 i2 o2 w3 :
  exchanged w1 i1 o1 w2 → exchanged w2 i2 o2 w3 → exchanged w1 (i1 ++ i2) (o1 ++ o2) w3.
Proof.
  intros [H1 H2] [H3 H4]. split; [by rewrite <- app_assoc, <- H3|by rewrite app_assoc, <- H2].
Qed.

Lemma write_exchanged b w w' : st_write_all b w = (Ok tt, w') → exchanged w [] b w'.
Proof. intros (Hi & _ & _ & Ho)%st_write_all_law. split; [by rewrite Hi|by apply Ho]. Qed.

Lemma acknowledge_Ok request w h w' :
  acknowledge (ID := ID) retries request w = (Some (Ok h), w') →
  ∃ bytes, frame (ID := ID) h bytes ∧ acknowledges (ID := ID) request h bytes ∧
    exchanged w bytes [] w'.
Proof.
  unfold acknowledge. destruct (receive retries IO_TIMEOUT w) as [[[header bytes]|e] w1] eqn:Hr;
    [|done].
  apply (receive_Ok incoming outgoing timeout clock) in Hr as (Hf & (Hin & Hout & _) & Ht).
  destruct (check_ack_Ok (ID := ID) request header bytes) as (r & Hc & Hr).
  { destruct Hf as (_ & _ & ->). lia. }
  rewrite Hc. intros [= -> <-]. destruct (proj1 (Hr h) eq_refl) as [-> Ha].
  exists bytes. split_and!; [done|done|]. split; [done|by rewrite app_nil_r].
Qed.

(** What a completed handshake exchanged. *)
Definition handshaken (config : Config) (w : S) (session : N) (w' : S) : Prop :=
  ∃ table open_bytes register_bytes opened bytes1 registered bytes2,
    id_try_from TABLE = Some table ∧
    open_to_bytes (open_pdu (ID := ID)) = Ok open_bytes ∧
    frame (ID := ID) opened bytes1 ∧
    acknowledges (ID := ID) (open_pdu (ID := ID)).(o_header) opened bytes1 ∧
    session = opened.(session_id) ∧
    let register := register_pdu opened config.(priority) table in
    register_to_bytes register = Ok register_bytes ∧
    frame (ID := ID) registered bytes2 ∧
    acknowledges (ID := ID) register.(g_header) registered bytes2 ∧
    exchanged w (bytes1 ++ bytes2) (open_bytes ++ register_bytes) w' ∧ timeout w' = None.

Lemma closing_Ok {A} (r : option (result Error A) * S) a w :
  closing r = (Some (Ok a), w) → r = (Some (Ok a), w).
Proof. by destruct r as [[[x|e]|] w1]. Qed.

Lemma handshake_Ok config w session w' :
  handshake registered retries config w = (Some (Ok session), w') →
  ∃ w0, handshaken config w session w0 ∧ w' = registered w0.
Proof.
  unfold handshake. intros (? & w1 & H1%lift_Ok & Hh%closing_Ok)%stage_Ok. unfold negotiate in Hh.
  apply stage_Ok in Hh as ([] & w2 & H2%lift_Ok & Hh).
  apply stage_Ok in Hh as (? & w3 & H3%lift_Ok & Hh).
  apply stage_Ok in Hh as (ob & w4 & H4 & Hh).
  apply stage_Ok in Hh as ([] & w5 & H5%lift_Ok & Hh).
  apply stage_Ok in Hh as (h1 & w6 & H6 & Hh).
  apply stage_Ok in Hh as (table & w7 & H7 & Hh).
  apply stage_Ok in Hh as (rb & w8 & H8 & Hh).
  apply stage_Ok in Hh as ([] & w9 & H9%lift_Ok & Hh).
  apply stage_Ok in Hh as (h2 & w10 & H10 & Hh).
  apply stage_Ok in Hh as ([] & w11 & H11%lift_Ok & Hh).
  injection Hh as <- <-. injection H4 as Hob ->. injection H7 as Htab ->. injection H8 as Hrb ->.
  apply ok_or_Ok in Htab. exists w11. split; [|done].
  apply st_connect_law in H1 as (Hi1 & Ho1 & _).
  apply st_set_read_timeout_law in H2 as (Hi2 & Ho2 & _).
  apply st_set_write_timeout_law in H3 as (Hi3 & Ho3 & _).
  apply st_set_read_timeout_law in H11 as (Hi11 & Ho11 & _ & Ht11).
  apply write_exchanged in H5, H9.
  apply acknowledge_Ok in H6 as (b1 & Hf1 & Ha1 & He1).
  apply acknowledge_Ok in H10 as (b2 & Hf2 & Ha2 & He2).
  exists table, ob, rb, h1, b1, h2, b2. split_and!; try done.
  cbv zeta. split_and!; try done; [|by apply Ht11].
  assert (exchanged w [] [] w4) as He0
    by (split; [simpl|rewrite app_nil_r]; congruence).
  pose proof (exchanged_trans _ _ _ _ _ _ _ (exchanged_trans _ _ _ _ _ _ _ He0 H5)
    (exchanged_trans _ _ _ _ _ _ _ He1 (exchanged_trans _ _ _ _ _ _ _ H9 He2))) as [Hi Ho].
  simpl in *. rewrite !app_nil_r in *. split; congruence.
Qed.

(** ** Lemmas: the handshake does not panic *)

Lemma stage_total {A B} (r : option (result Error A) * S) (k : A → S → option (result Error B) * S) :
  is_Some r.1 → (∀ a w, is_Some (k a w).1) → is_Some (stage r k).1.
Proof. destruct r as [[[a|e]|] w1]; simpl; eauto. by intros [? ?]. Qed.

Lemma acknowledge_total request w : is_Some (acknowledge (ID := ID) retries request w).1.
Proof.
  unfold acknowledge. destruct (receive retries IO_TIMEOUT w) as [[[header bytes]|e] w1] eqn:Hr;
    [|by eexists].
  apply (receive_Ok incoming outgoing timeout clock) in Hr as ((_ & _ & Hlen) & _).
  destruct (check_ack_Ok (ID := ID) request header bytes) as (r & -> & _); [lia|by eexists].
Qed.

Lemma closing_total {A} (r : option (result Error A) * S) : is_Some r.1 → is_Some (closing r).1.
Proof. destruct r as [[[a|e]|] w1]; simpl; eauto. Qed.

Lemma handshake_total config w : is_Some (handshake (ID := ID) registered retries config w).1.
Proof.
  assert (∀ A (r : result Error A * S), is_Some (lift r).1) as Hlift by (intros; by eexists).
  unfold handshake. apply stage_total; [apply Hlift|intros _ w1]. apply closing_total.
  unfold negotiate.
  repeat (apply stage_total; [by (apply Hlift || apply acknowledge_total || eexists)|intros ? ?]).
  by eexists.
Qed.

(** ** Theorems *)

(** C30. Framing does not depend on how the stream is cut up: a received PDU is exactly the
    next incoming bytes, a valid header (version 1, at most 1 MiB of payload, a multiple of
    four) and the payload it announces, nothing beyond it is consumed or written, and the
    read timeout of the idle connection is back in force. *)
Theorem receive_exact_frame (budget : N) (w w' : S) (header : Header) (bytes : list N) :
  receive (ID := ID) retries budget w = (Ok (header, bytes), w') →
  frame (ID := ID) header bytes ∧ incoming w = bytes ++ incoming w' ∧
  outgoing w' = outgoing w ∧ timeout w' = timeout w.
Proof.
  intros (Hf & (Hi & Ho & _) & Ht)%(receive_Ok incoming outgoing timeout clock).
  by split_and!.
Qed.

(** A started frame is bounded in time: if reads take time, filling a buffer before a
    deadline at most five seconds away leaves its loop by itself (and not for lack of
    fuel), however slowly the peer sends. *)
Theorem read_before_returns (n : nat) (instant budget : N) (w w' : S) :
  reads_advance clock → st_now w = (instant, w') → budget ≤ IO_TIMEOUT →
  ∃ out, iterate FRAME_FUEL (read_before_step n (instant + budget)) ([], w') = inr out ∧
    read_before n (instant + budget) w' = out.
Proof.
  intros Hadv Hnow Hb.
  destruct (read_before_exits incoming outgoing timeout clock n (instant + budget) w' Hadv)
    as [out Hout].
  { apply st_now_law in Hnow. lia. }
  exists out. split; [done|]. unfold read_before. by rewrite Hout.
Qed.

(** C13. Dispatch is total and exact: every PDU of the session is dispatched without a panic,
    and the response and SNMP error code it yields are the ones of RFC 2741 for its type:
    table answers for reads of a published table, ProcessingError before the first
    inventory, notWritable, commitFailed and undoFailed for the phases of a Set, and a
    refusal of other contexts and types; a request outside these is a parse error. *)
Theorem dispatch_exact (header : Header) (bytes : list N)
    (mib : option (list (ID * Value ID))) :
  ∃ out, dispatch header bytes mib = Some out ∧
    ∀ r e, out = Ok (r, e) ↔ answers header bytes mib r e.
Proof. apply dispatch_spec. Qed.

(** C31. The handshake: [run] enters its loop only after the master acknowledged first the
    Open and then the Register PDU, in that order on the wire, each with a matching
    successful Response; the session is the one the first acknowledgement names, the
    connection then waits without a read timeout, and readiness is reported last. *)
Theorem handshake_exact (config : Config) (w w' : S) (session : N) :
  handshake registered retries config w = (Some (Ok session), w') →
  ∃ w0, handshaken config w session w0 ∧ w' = registered w0.
Proof. apply handshake_Ok. Qed.

(** C14. The request loop: it never panics, and however many PDUs it serves, each whole frame
    that comes in is answered by exactly one response (none for CleanupSet), in order,
    before the next is read; the session ends well exactly with the answer to a Close. *)
Theorem session_rounds (session : N) (fuel : positive) (w : S) :
  long_responses (ID := ID) →
  match iterate fuel (serve_step tables retries session) w with
  | inl w' => ∃ xs, rounds session w xs w' ∧ Forall unfinished xs
  | inr (None, _) => False
  | inr (Some (Ok _), w') => ∃ xs out, rounds session w (xs ++ [Finish out]) w' ∧
      Forall unfinished xs
  | inr (Some (Err _), _) => True
  end.
Proof. apply serve_loop_spec. Qed.
End serving.






