(* ===== verification/Promptness.v ===== *)
(** What is enough for a request to be answered: a frame that arrives within
    its budget is received, and served. The converse of what Session.v shows
    of the frames that are received. *)

From S2P Require Import Prelude BTree Link Agentx Mib Duration Monitor Netlink Config Session.
Open Scope N_scope.

Section prompt.
Context {ID : Type} `{IdLaws ID, !PduOps ID}.
Context {St : Type} `{!Stream St} (incoming outgoing : St → list N) (timeout : St → option N)
  (clock : St → N) `{!StreamLaws St incoming outgoing timeout clock}.
Context (tables : St → option (list (ID * Value ID))) (retries : positive) (delta : N).

(** A working connection whose peer has sent what is awaited: reads yield at
    least a byte of what is there, no call fails, and each takes at most
    [delta]. *)
Class Prompt : Prop := {
  prompt_now : ∀ w t w', st_now w = (t, w') → clock w' ≤ clock w + delta;
  prompt_set_read_timeout : ∀ t w, ∃ w', st_set_read_timeout t w = (Ok tt, w') ∧
    clock w' ≤ clock w + delta;
  prompt_read_timeout : ∀ w, ∃ t w', st_read_timeout w = (Ok t, w') ∧ clock w' ≤ clock w + delta;
  prompt_read : ∀ n w, (0 < n)%nat → incoming w ≠ [] → ∃ data w', st_read n w = (Ok data, w') ∧
    data ≠ [] ∧ clock w' ≤ clock w + delta;
  prompt_connect : ∀ p w, ∃ w', st_connect p w = (Ok tt, w') ∧ clock w' ≤ clock w + delta;
  prompt_set_write_timeout : ∀ t w, ∃ w', st_set_write_timeout t w = (Ok tt, w') ∧
    clock w' ≤ clock w + delta;
  prompt_write : ∀ b w, ∃ w', st_write_all b w = (Ok tt, w') ∧ clock w' ≤ clock w + delta;
}.
(** How long receiving a frame of [n] bytes may take. *)
Definition frame_time (n : N) : N := 3 * delta * n + 3 * delta.

Context `{!Prompt}.

(** ** Lemmas *)

(** A read of at most [m] bytes takes a first part of the [m] awaited. *)
Lemma read_part l rest w :
  l ≠ [] → incoming w = l ++ rest →
  ∃ data l' w', st_read (length l) w = (Ok data, w') ∧ data ≠ [] ∧ l = data ++ l' ∧
    incoming w' = l' ++ rest ∧ outgoing w' = outgoing w ∧ timeout w' = timeout w ∧
    clock w' ≤ clock w + delta.
Proof.
  intros Hl Hin. assert (0 < length l)%nat as Hpos by (destruct l; [done|simpl; lia]).
  destruct (prompt_read (length l) w Hpos) as (data & w' & Hr & Hne & Hc);
    [rewrite Hin; by destruct l|].
  destruct (st_read_law _ _ _ _ Hr) as (Ho & Ht & _ & Hlen & Hdata).
  rewrite Hin in Hdata. apply app_eq_app in Hdata as (k & [[-> Hi]|[-> Hi]]).
  - by exists data, k, w'.
  - rewrite length_app in Hlen. assert (k = []) as -> by (apply nil_length_inv; lia).
    exists (l ++ []), [], w'. rewrite !app_nil_r in *. simpl in Hi. by rewrite Hi.
Qed.

Lemma read_before_rounds n deadline rest m : ∀ got l w,
  (length got + length l = n)%nat → (length l <= m)%nat → incoming w = l ++ rest →
  clock w + 3 * delta * len l < deadline →
  ∃ k w', (k <= S m)%nat ∧
    rounds_of k (read_before_step n deadline) (got, w) = inr (Ok (got ++ l), w') ∧
    incoming w' = rest ∧ outgoing w' = outgoing w ∧ clock w' ≤ clock w + 3 * delta * len l.
Proof.
  induction m as [|m IH]; intros got l w Hn Hm Hin Hdl.
  all: destruct (Nat.eq_dec (length l) 0) as [Hz|Hne]; [|try lia].
  1,2: apply nil_length_inv in Hz as ->; exists 1%nat, w; rewrite app_nil_r; simpl in *;
    rewrite (proj2 (Nat.eqb_eq _ _)) by lia; split_and!; try done; lia.
  assert (l ≠ []) as Hl by (by intros ->).
  destruct (st_now w) as [t w1] eqn:Hnow. pose proof (prompt_now _ _ _ Hnow) as Hc1.
  apply st_now_law in Hnow as Hnow'. destruct Hnow' as (Hi1 & Ho1 & _ & Hc & Hc').
  assert (1 ≤ len l) as Hlen by (unfold len; lia).
  destruct (prompt_set_read_timeout (Some (saturating_sub deadline t)) w1) as (w2 & Hset & Hc2).
  destruct (st_set_read_timeout_law _ _ _ _ Hset) as (Hi2 & Ho2 & _ & _).
  destruct (read_part l rest w2 Hl) as (data & l' & w3 & Hr & Hdne & -> & Hi3 & Ho3 & _ & Hc3);
    [congruence|].
  assert (0 < length data)%nat by (destruct data; [done|simpl; lia]).
  rewrite length_app in *. rewrite len_app in *.
  assert (1 ≤ len data) by (unfold len; lia).
  destruct (IH (got ++ data) l' w3) as (k & w4 & Hk & Hrounds & Hi4 & Ho4 & Hc4);
    [rewrite length_app; lia|lia|done|nia|].
  exists (S k), w4. split; [lia|]. split; [|split_and!; [done|congruence|nia]].
  cbn [rounds_of]. unfold read_before_step at 1.
  rewrite (proj2 (Nat.eqb_neq _ _)) by lia. rewrite Hnow. unfold is_zero.
  destruct (N.eqb_spec (saturating_sub deadline t) 0) as [Hz|_].
  { unfold saturating_sub in Hz. nia. }
  rewrite Hset. replace (n - length got)%nat with (length (data ++ l')) by (rewrite length_app; lia).
  rewrite <- length_app in Hr. rewrite Hr. destruct data as [|b data]; [done|]. rewrite Hrounds. by rewrite <- app_assoc.
Qed.

Lemma read_before_delivered deadline l rest w :
  len l ≤ MAX_PAYLOAD + 20 → incoming w = l ++ rest → clock w + 3 * delta * len l < deadline →
  ∃ w', read_before (length l) deadline w = (Ok l, w') ∧ incoming w' = rest ∧
    outgoing w' = outgoing w ∧ clock w' ≤ clock w + 3 * delta * len l.
Proof.
  intros Hmax Hin Hdl.
  destruct (read_before_rounds (length l) deadline rest (length l) [] l w)
    as (k & w' & Hk & Hr & Hi); [done|done|done|done|].
  exists w'. split; [|done]. unfold read_before. rewrite (iterate_leaves _ _ _ _ _ Hr); [done|].
  unfold len, MAX_PAYLOAD, FRAME_FUEL in *. lia.
Qed.

Lemma read_exact_delivered b rest w :
  incoming w = b :: rest →
  ∃ w', read_exact retries 1 w = (Ok [b], w') ∧ incoming w' = rest ∧ outgoing w' = outgoing w ∧
    timeout w' = timeout w.
Proof.
  intros Hin.
  destruct (read_part [b] rest w) as (data & l' & w' & Hr & Hne & Hb & Hi & Ho & Ht & _); [done..|].
  destruct data as [|b' [|]]; [done| |done]. injection Hb as <- <-.
  exists w'. split; [|by split_and!]. unfold read_exact.
  rewrite (iterate_leaves _ 2 _ _ (Ok [b], w')); [done| |lia].
  cbn [rounds_of]. unfold read_exact_step at 1. simpl. simpl in Hr. by rewrite Hr.
Qed.

(** ** Theorems *)

Lemma receive_delivered budget header bytes rest w :
  frame (ID := ID) header bytes → incoming w = bytes ++ rest →
  frame_time (len bytes) < budget →
  ∃ w', Session.receive (ID := ID) retries budget w = (Ok (header, bytes), w') ∧
    incoming w' = rest ∧ outgoing w' = outgoing w ∧ timeout w' = timeout w.
Proof.
  intros (Hheader & Hok & Hlen) Hin Hbudget. unfold frame_time in *.
  destruct bytes as [|b bytes]; [simpl in Hlen; lia|]. simpl in Hlen, Hin.
  destruct (read_exact_delivered b _ w Hin) as (w1 & H1 & Hi1 & Ho1 & Ht1).
  destruct (prompt_read_timeout w1) as (idle & w2 & H2 & Hc2).
  destruct (st_read_timeout_law _ _ _ H2) as (Hi2 & Ho2 & _ & _ & Hidle).
  destruct (st_now w2) as [t w3] eqn:H3. pose proof (prompt_now _ _ _ H3) as Hc3.
  apply st_now_law in H3 as H3'. destruct H3' as (Hi3 & Ho3 & _ & Hc & Hc').
  set (rest19 := take 19 bytes). set (payload := drop 19 bytes).
  assert (bytes = rest19 ++ payload) as Hbytes by (symmetry; apply take_drop).
  assert (length rest19 = 19%nat) as Hl19 by (unfold rest19; rewrite length_take; lia).
  assert (length payload = N.to_nat (payload_length header)) as Hlp
    by (unfold payload; rewrite length_drop; lia).
  assert (len (b :: bytes) = 1 + 19 + len payload) as Htotal.
  { unfold len. rewrite Hbytes. simpl. rewrite length_app. lia. }
  assert (payload_length header ≤ MAX_PAYLOAD) as Hmax.
  { unfold header_ok in Hok. bool_to_prop. done. }
  destruct (read_before_delivered (t + budget) rest19 (payload ++ rest) w3)
    as (w4 & H4 & Hi4 & Ho4 & Hc4).
  { unfold len, MAX_PAYLOAD. lia. }
  { rewrite Hi3, Hi2, Hi1, app_assoc. by rewrite <- Hbytes. }
  { assert (len rest19 = 19) as -> by (unfold len; lia). nia. }
  assert (len rest19 = 19) as Hr19 by (unfold len; lia).
  destruct (read_before_delivered (t + budget) payload rest w4) as (w5 & H5 & Hi5 & Ho5 & Hc5).
  { unfold len. lia. }
  { done. }
  { nia. }
  destruct (prompt_set_read_timeout idle w5) as (w6 & H6 & Hc6).
  destruct (st_set_read_timeout_law _ _ _ _ H6) as (Hi6 & Ho6 & _ & Ht6).
  exists w6. split; [|split_and!; [congruence|congruence|]].
  2: { rewrite Ht6, (Hidle idle) by done. done. }
  unfold Session.receive. rewrite H1, H2, H3. rewrite Hl19 in H4. rewrite H4.
  assert (take 20 (b :: bytes) = [b] ++ rest19) as Htake by done.
  rewrite Htake in Hheader. rewrite Hheader, Hok. simpl. rewrite Hlp in H5. rewrite H5, H6.
  by rewrite <- Hbytes.
Qed.

(** C15. A request that arrives in time is served: on a working connection whose next bytes are
    a valid frame, arriving fast enough for its five-second budget, one iteration of the
    loop receives exactly that frame, reacts to it with the table it finds then, writes
    the response and leaves the bytes after the frame for the next iteration. *)
Theorem request_served (session : N) (header : Header) (bytes rest : list N) (w : St) :
  frame (ID := ID) header bytes → incoming w = bytes ++ rest →
  frame_time (len bytes) < IO_TIMEOUT → long_responses (ID := ID) →
  ∃ w1, Session.receive (ID := ID) retries IO_TIMEOUT w = (Ok (header, bytes), w1) ∧
  ∀ x, reacts session header bytes (snapshot (tables w1)) x →
  ∃ w', incoming w' = rest ∧ outgoing w' = outgoing w ++ written x ∧ timeout w' = timeout w ∧
    serve_step tables retries session w =
    match x with Finish _ => inr (Some (Ok tt), w') | _ => inl w' end.
Proof.
  intros Hf Hin Htime Hlong.
  destruct (receive_delivered IO_TIMEOUT header bytes rest w) as (w1 & Hr & Hi1 & Ho1 & Ht1);
    [done..|].
  exists w1. split; [done|]. intros x Hx. unfold serve_step. rewrite Hr.
  destruct (react_spec session header bytes (snapshot (tables w1)) Hlong) as (out & -> & Hout).
  apply Hout in Hx as ->.
  assert (∀ b, ∃ w2, st_write_all b w1 = (Ok tt, w2) ∧ incoming w2 = rest ∧
    outgoing w2 = outgoing w ++ b ∧ timeout w2 = timeout w) as Hwrite.
  { intros b. destruct (prompt_write b w1) as (w2 & Hw & _). exists w2.
    destruct (st_write_all_law _ _ _ _ Hw) as (? & ? & _ & Ho).
    split_and!; [done|congruence|rewrite Ho by done; congruence|congruence]. }
  destruct x as [b|b|]; [destruct (Hwrite b) as (w2 & -> & ? & ? & ?); by exists w2..|].
  exists w1. split_and!; try done. simpl. by rewrite app_nil_r.
Qed.

Lemma write_delivered b w :
  ∃ w', st_write_all b w = (Ok tt, w') ∧ exchanged incoming outgoing w [] b w'.
Proof.
  destruct (prompt_write b w) as (w' & Hw & _). exists w'. split; [done|].
  by apply (write_exchanged incoming outgoing timeout clock).
Qed.

Lemma acknowledge_delivered request header bytes rest w :
  frame (ID := ID) header bytes →
  acknowledges (ID := ID) request header bytes →
  incoming w = bytes ++ rest → frame_time (len bytes) < IO_TIMEOUT →
  ∃ w', acknowledge (ID := ID) retries request w = (Some (Ok header), w') ∧ incoming w' = rest ∧
    outgoing w' = outgoing w.
Proof.
  intros Hf Hack Hin Htime.
  destruct (receive_delivered IO_TIMEOUT header bytes rest w) as (w1 & Hr & Hi & Ho & _); [done..|].
  exists w1. split; [|done]. unfold acknowledge. rewrite Hr.
  destruct (check_ack_Ok (ID := ID) request header bytes) as (r & -> & Hok).
  { destruct Hf as (_ & _ & ->). lia. }
  by rewrite (proj2 (Hok header) (conj eq_refl Hack)).
Qed.

(** C16. A cooperative master gets a session: if the connection works and its next bytes are
    successful acknowledgements of the Open and the Register PDU, each in time, the
    handshake succeeds with the session of the first one, has written exactly the two
    PDUs and leaves the bytes after the acknowledgements to the request loop. *)
Theorem handshake_succeeds (registered : St → St) (config : Config) (table : ID)
    (open_bytes register_bytes bytes1 bytes2 rest : list N) (opened acked : Header) (w : St) :
  id_try_from TABLE = Some table →
  open_to_bytes (open_pdu (ID := ID)) = Ok open_bytes →
  frame (ID := ID) opened bytes1 →
  acknowledges (ID := ID) (open_pdu (ID := ID)).(o_header) opened bytes1 →
  let register := register_pdu opened config.(priority) table in
  register_to_bytes register = Ok register_bytes →
  frame (ID := ID) acked bytes2 → acknowledges (ID := ID) register.(g_header) acked bytes2 →
  incoming w = bytes1 ++ bytes2 ++ rest →
  frame_time (len bytes1) < IO_TIMEOUT → frame_time (len bytes2) < IO_TIMEOUT →
  ∃ w', handshake registered retries config w = (Some (Ok opened.(session_id)), registered w') ∧
    incoming w' = rest ∧ outgoing w' = outgoing w ++ open_bytes ++ register_bytes ∧
    timeout w' = None.
Proof.
  intros Htable Hopen Hf1 Ha1 register Hregister Hf2 Ha2 Hin Ht1 Ht2.
  destruct (prompt_connect config.(socket) w) as (w1 & H1 & _).
  destruct (st_connect_law _ _ _ _ H1) as (Hi1 & Ho1 & _).
  destruct (prompt_set_read_timeout (Some IO_TIMEOUT) w1) as (w2 & H2 & _).
  destruct (st_set_read_timeout_law _ _ _ _ H2) as (Hi2 & Ho2 & _).
  destruct (prompt_set_write_timeout (Some IO_TIMEOUT) w2) as (w3 & H3 & _).
  destruct (st_set_write_timeout_law _ _ _ _ H3) as (Hi3 & Ho3 & _).
  destruct (write_delivered open_bytes w3) as (w4 & H4 & Hi4 & Ho4). simpl in Hi4.
  destruct (acknowledge_delivered open_pdu.(o_header) opened bytes1 (bytes2 ++ rest) w4)
    as (w5 & H5 & Hi5 & Ho5); [done..|congruence|done|].
  destruct (write_delivered register_bytes w5) as (w6 & H6 & Hi6 & Ho6). simpl in Hi6.
  destruct (acknowledge_delivered register.(g_header) acked bytes2 rest w6)
    as (w7 & H7 & Hi7 & Ho7); [done..|congruence|done|].
  destruct (prompt_set_read_timeout None w7) as (w8 & H8 & _).
  destruct (st_set_read_timeout_law _ _ _ _ H8) as (Hi8 & Ho8 & _ & Ht8).
  exists w8. split; [|split_and!; [congruence| |by apply Ht8]].
  2: { rewrite Ho8, Ho7, Ho6, Ho5, Ho4, Ho3, Ho2, Ho1. by rewrite app_assoc. }
  unfold handshake. rewrite H1. cbn [stage lift fst snd]. unfold negotiate. rewrite H2. cbn [stage lift fst snd].
  rewrite H3. cbn [stage lift fst snd]. rewrite Hopen. cbn [stage lift fst snd].
  rewrite H4. cbn [stage lift fst snd]. rewrite H5. cbn [stage lift fst snd].
  rewrite Htable. cbn [stage lift fst snd ok_or]. fold register. rewrite Hregister.
  cbn [stage lift fst snd]. rewrite H6. cbn [stage lift fst snd]. rewrite H7.
  cbn [stage lift fst snd]. by rewrite H8.
Qed.
End prompt.
