(* ===== verification/Main.v ===== *)
(** The process of [src/src/main.rs]: start-up, the supervisor that keeps a
    session open, and the end of the monitor thread. *)

From Stdlib Require Import Ascii.
From S2P Require Import Prelude BTree Link Agentx Mib Duration Monitor Config Session.
Open Scope N_scope.

Definition MONITOR_FAILURE_EXIT_STATUS : N := 70.
Definition EXIT_SUCCESS : N := 0.
Definition EXIT_FAILURE : N := 1.

(** How the monitor's closure ended, as [catch_unwind] reports it. *)
Inductive MonitorEnd := Returned | Panicked.

(** [fn run_monitor]: the exit status of the whole process. *)
Definition run_monitor (ended : MonitorEnd) : N :=
  match ended with
  | Returned => MONITOR_FAILURE_EXIT_STATUS
  | Panicked => MONITOR_FAILURE_EXIT_STATUS
  end.

(** What is said on the way out: a line on the standard output or error, or a
    message of the logger at level error. *)
Inductive Output := Stdout (line : list Piece) | Stderr (line : list Piece) | Logged (line : list Piece).

(** What [main] does after reading its configuration: exit with a message, or
    start the monitor with its reconciliation interval and supervise sessions. *)
Inductive Startup :=
| Exit (status : N) (said : Output)
| Supervising (config : Config) (reconcile : N).

(** [env!(CARGO_PKG_VERSION)], the version in [src/Cargo.toml]. *)
Definition CARGO_PKG_VERSION : string := "0.2.9".

Definition newline : string := String "010"%char EmptyString.

(** The help text: a backslash at the end of a line of the source also drops
    the blanks the next line starts with. *)
Definition help : list Piece :=
  [Lit "Usage: agentx-ifstack [--config PATH] [--socket PATH]"; Lit newline; Lit newline;
   Lit "Serve ifStackTable through an AgentX Unix socket."; Lit newline; Lit newline;
   Lit "Options:"; Lit newline;
   Lit "--config PATH  Read configuration (default: "; DisplayStr DEFAULT_PATH; Lit ")"; Lit newline;
   Lit "--socket PATH  Override the configured AgentX socket"; Lit newline;
   Lit "--version      Print the version and exit"; Lit newline;
   Lit "-h, --help     Print this help and exit"].

(** [fn main] up to its loop; [spawned] is what starting the monitor thread
    came to. *)
Definition start (read_to_string : string → result Error string)
    (from_str : string → result string Config) (args : list string) (spawned : result Error unit) : Startup :=
  match load read_to_string from_str args DEFAULT_PATH with
  | Ok Help => Exit EXIT_SUCCESS (Stdout help)
  | Ok Version => Exit EXIT_SUCCESS (Stdout [Lit "agentx-ifstack "; Lit CARGO_PKG_VERSION])
  | Err error => Exit EXIT_FAILURE (Stderr error)
  | Ok (Run config) =>
      match spawned with
      | Ok _ => Supervising config (from_secs config.(reconcile))
      | Err error =>
          Exit EXIT_FAILURE (Logged (Lit "Cannot start topology monitor: " :: error.(error_message)))
      end
  end.

(** The backoff of the loop: the delay before the next session and the one
    kept for the session after it, from how long the last session took. *)
Definition next_backoff (backoff elapsed : N) : N * N :=
  let backoff := if from_secs 30 <=? elapsed then from_secs 1 else backoff in
  (backoff, N.min (backoff * 2) (from_secs 30)).

Section supervisor.
Context {ID : Type} `{!IdOps ID, !PduOps ID} {St : Type} `{!Stream St}.
Context (tables : St → option (list (ID * Value ID))) (registered : St → St).
Context (sleep : N → St → St) (retries fuel : positive).

(** One turn of the loop of [main]: a session that is still open after the
    requests followed, a panic, or the wait before the next one. *)
Inductive Turn :=
| InSession (w : St)
| SessionPanic (w : St)
| Reconnect (elapsed slept backoff : N) (w : St).

Definition supervise_step (config : Config) (backoff : N) (w : St) : Turn :=
  let '(started, w) := st_now w in
  match Session.run tables registered retries fuel config w with
  | inl w => InSession w
  | inr (None, w) => SessionPanic w
  | inr (Some _, w) =>
      let '(instant, w) := st_now w in
      let elapsed := saturating_sub instant started in
      let '(slept, backoff) := next_backoff backoff elapsed in
      Reconnect elapsed slept backoff (sleep slept w)
  end.

(** At most [n] turns: the sessions that ended, as pairs of their duration
    and the delay after them, and the last turn if it did not end. *)
Fixpoint supervise (n : nat) (config : Config) (backoff : N) (w : St)
    : list (N * N) * option Turn :=
  match n with
  | O => ([], None)
  | S n' =>
      match supervise_step config backoff w with
      | Reconnect elapsed slept backoff w =>
          let '(log, last) := supervise n' config backoff w in ((elapsed, slept) :: log, last)
      | turn => ([], Some turn)
      end
  end.
End supervisor.

(** ** Lemmas *)

(** The delays of a log depend on the durations only. *)
Fixpoint delays (backoff : N) (durations : list N) : list N :=
  match durations with
  | [] => []
  | d :: ds => let '(slept, backoff) := next_backoff backoff d in slept :: delays backoff ds
  end.

Lemma supervise_delays {ID : Type} `{!IdOps ID, !PduOps ID} {St : Type} `{!Stream St}
    tables registered sleep retries fuel n config backoff (w : St) log last :
  supervise (ID := ID) tables registered sleep retries fuel n config backoff w = (log, last) →
  log.*2 = delays backoff log.*1.
Proof.
  revert backoff w log. induction n as [|n IH]; intros backoff w log; cbn [supervise].
  { by intros [= <- <-]. }
  unfold supervise_step. destruct (st_now w) as [started w1].
  destruct (Session.run _ _ _ _ _ _) as [w2|[[r|] w2]]; [by intros [= <- <-]| |by intros [= <- <-]].
  destruct (st_now w2) as [instant w3].
  destruct (next_backoff backoff _) as [slept backoff'] eqn:Hb.
  destruct (supervise _ _ _ _ _ n config backoff' _) as [log' last'] eqn:Hs.
  intros [= <- <-]. rewrite !fmap_cons. cbn [delays fst snd]. rewrite Hb. f_equal. by eapply IH.
Qed.

Lemma delays_app backoff ds1 ds2 :
  ∃ backoff', delays backoff (ds1 ++ ds2) = delays backoff ds1 ++ delays backoff' ds2.
Proof.
  revert backoff. induction ds1 as [|d ds1 IH]; intros backoff; [by exists backoff|].
  cbn [app delays]. destruct (next_backoff backoff d) as [slept backoff'].
  destruct (IH backoff') as [b Hb]. exists b. by rewrite Hb.
Qed.

Lemma next_backoff_short n d :
  d < from_secs 30 → next_backoff (nth_delay n) d = (nth_delay n, nth_delay (S n)).
Proof.
  intros Hd. unfold next_backoff. rewrite (proj2 (N.leb_gt _ _)) by done. f_equal.
  apply next_delay_nth.
Qed.

Lemma next_backoff_long b d :
  from_secs 30 ≤ d → next_backoff b d = (nth_delay 0, nth_delay 1).
Proof. intros Hd. unfold next_backoff. by rewrite (proj2 (N.leb_le _ _)). Qed.

Lemma delays_short n ds d :
  Forall (λ d, d < from_secs 30) (ds ++ [d]) →
  list.last (delays (nth_delay n) (ds ++ [d])) = Some (nth_delay (n + length ds)).
Proof.
  revert n. induction ds as [|x ds IH]; intros n Hall; cbn [app delays];
    apply Forall_cons in Hall as [Hx Hall]; rewrite next_backoff_short by done.
  - by rewrite Nat.add_0_r.
  - rewrite last_cons, IH by done. cbn [length]. f_equal. f_equal. lia.
Qed.

Lemma delays_bounds backoff ds :
  from_secs 1 ≤ backoff ≤ from_secs 30 →
  Forall (λ d, from_secs 1 ≤ d ≤ from_secs 30) (delays backoff ds).
Proof.
  revert backoff. induction ds as [|d ds IH]; intros backoff Hb; cbn; [constructor|].
  unfold next_backoff. unfold from_secs, NANOS_PER_SEC in *.
  destruct (_ <=? d); (constructor; [lia|apply IH; lia]).
Qed.

(** ** Theorems *)

(** C36. Reconnection backs off: every delay is between one and thirty seconds; the session
    that ends after [k] others shorter than thirty seconds, counted from the start or
    from the last session that lasted longer, is followed by a delay of
    [min (2^k) 30] seconds, and a longer session by one second. *)
Theorem reconnect_backoff {ID : Type} `{!IdOps ID, !PduOps ID} {St : Type} `{!Stream St}
    (tables : St → option (list (ID * Value ID))) (registered : St → St) (sleep : N → St → St)
    (retries fuel : positive) (n : nat) (config : Config) (w : St) (log : list (N * N))
    (last : option Turn) :
  supervise tables registered sleep retries fuel n config (from_secs 1) w = (log, last) →
  Forall (λ p, from_secs 1 ≤ p.2 ≤ from_secs 30) log ∧
  (∀ short d, log.*1 = short ++ [d] → Forall (λ d, d < from_secs 30) (short ++ [d]) →
     list.last log.*2 = Some (from_secs (N.min (2 ^ N.of_nat (length short)) 30))) ∧
  (∀ pre long, log.*1 = pre ++ [long] → from_secs 30 ≤ long →
     list.last log.*2 = Some (from_secs 1)) ∧
  (∀ pre long short d, log.*1 = pre ++ long :: short ++ [d] → from_secs 30 ≤ long →
     Forall (λ d, d < from_secs 30) (short ++ [d]) →
     list.last log.*2 = Some (from_secs (N.min (2 ^ N.of_nat (S (length short))) 30))).
Proof.
  intros Hs%supervise_delays. rewrite Hs. split_and!.
  - rewrite <- (Forall_fmap snd (λ d, from_secs 1 ≤ d ≤ from_secs 30)), Hs.
    by apply delays_bounds.
  - intros short d -> Hshort. by apply (delays_short 0).
  - intros pre long -> Hlong. destruct (delays_app (from_secs 1) pre [long]) as [b ->].
    cbn [delays]. by rewrite next_backoff_long, last_snoc by done.
  - intros pre long short d -> Hlong Hshort.
    destruct (delays_app (from_secs 1) pre (long :: short ++ [d])) as [b ->].
    cbn [delays]. rewrite next_backoff_long by done.
    rewrite last_app, last_cons, (delays_short 1) by done. done.
Qed.
