(* ===== verification/Timing.v ===== *)
(** How long an inventory takes: if calls overshoot their timeouts by a bounded
    time, the deadline of [NetlinkSource::inventory] is met up to that bound,
    and the event batches it returns are ones the monitor records. *)

From S2P Require Import Prelude Link Agentx Mib Duration Monitor MonitorRuns Responsive.
From S2P Require Import Netlink NetlinkSource SocketIo.
Open Scope N_scope.

(** ** Timing contracts *)

(** Every call of the datagram interface returns within [delta], a wait or a
    sleep within [delta] of its timeout. *)
Class IoTiming (IO Socket : Type) `{!DatagramIo IO Socket} (io_clock : IO → N) (delta : N)
    : Prop := {
  io_now_within : ∀ w t w', io_now w = (t, w') → io_clock w' ≤ io_clock w + delta;
  io_open_within : ∀ g w r w', io_open g w = (r, w') → io_clock w' ≤ io_clock w + delta;
  io_send_within : ∀ s b w r w', io_send s b w = (r, w') → io_clock w' ≤ io_clock w + delta;
  io_wait_within : ∀ n d t w r w', io_wait n d t w = (r, w') → io_clock w' ≤ io_clock w + t + delta;
  io_receive_within : ∀ s w r w', io_receive s w = (r, w') → io_clock w' ≤ io_clock w + delta;
  io_drop_within : ∀ s w, io_clock (io_drop s w) ≤ io_clock w + delta;
  io_sleep_within : ∀ t w, io_clock (io_sleep t w) ≤ io_clock w + t + delta;
}.

(** The same of the system calls, with the timeout of [poll] in milliseconds. *)
Class SysTiming (K Fd : Type) `{!Sys K Fd} (sys_clock : K → N) (delta : N) : Prop := {
  sys_now_within : ∀ k t k', sys_now k = (t, k') → sys_clock k' ≤ sys_clock k + delta;
  sys_socket_within : ∀ p k r k', sys_socket p k = (r, k') → sys_clock k' ≤ sys_clock k + delta;
  sys_bind_within : ∀ s p g k r k', sys_bind s p g k = (r, k') →
    sys_clock k' ≤ sys_clock k + delta;
  sys_connect_within : ∀ s p g k r k', sys_connect s p g k = (r, k') →
    sys_clock k' ≤ sys_clock k + delta;
  sys_nonblock_within : ∀ s b k r k', sys_set_non_blocking s b k = (r, k') →
    sys_clock k' ≤ sys_clock k + delta;
  sys_send_within : ∀ s b f k r k', sys_send s b f k = (r, k') → sys_clock k' ≤ sys_clock k + delta;
  sys_poll_within : ∀ d t k r k', sys_poll d t k = (r, k') →
    sys_clock k' ≤ sys_clock k + t * NANOS_PER_MILLI + delta;
  sys_recv_within : ∀ s c f k r k', sys_recv_from s c f k = (r, k') →
    sys_clock k' ≤ sys_clock k + delta;
  sys_close_within : ∀ s k, sys_clock (sys_close s k) ≤ sys_clock k + delta;
  sys_sleep_within : ∀ t k, sys_clock (sys_sleep t k) ≤ sys_clock k + t + delta;
}.

(** ** The socket adapter *)

Section socket_io.
Context {K Fd : Type} `{!Sys K Fd} (retries : positive).
Context (sys_clock : K → N) `{!SysLaws K Fd sys_clock}.
Context (delta : N) `{!SysTiming K Fd sys_clock delta}.

(** What an operation of the adapter may overshoot by: a millisecond of
    rounding, and the calls of each attempt a signal may interrupt. *)
Definition io_delta : N := NANOS_PER_MILLI + (2 * N.pos retries + 4) * delta.

Ltac sys_times :=
  repeat match goal with
  | E : sys_now _ = (_, _) |- _ =>
      pose proof (sys_now_within _ _ _ E); apply sys_now_law in E as [? ?]
  | E : sys_socket _ _ = (_, _) |- _ => apply sys_socket_within in E
  | E : sys_bind _ _ _ _ = (_, _) |- _ => apply sys_bind_within in E
  | E : sys_connect _ _ _ _ = (_, _) |- _ => apply sys_connect_within in E
  | E : sys_set_non_blocking _ _ _ = (_, _) |- _ => apply sys_nonblock_within in E
  | E : sys_send _ _ _ _ = (_, _) |- _ => apply sys_send_within in E
  | E : sys_poll _ _ _ = (_, _) |- _ => apply sys_poll_within in E
  | E : sys_recv_from _ _ _ _ = (_, _) |- _ => apply sys_recv_within in E
  end; simpl in *.

(** A call that moves the clock from [c] to at most [max c bound + d], repeated. *)
Lemma retry_within {A} (call : K → K + (result Error A * K)) (bound d : N) k r k' :
  (∀ k, match call k with
        | inl k' => sys_clock k' ≤ N.max (sys_clock k) bound + d
        | inr out => sys_clock out.2 ≤ N.max (sys_clock k) bound + d
        end) →
  retry retries call k = (r, k') →
  sys_clock k' ≤ N.max (sys_clock k) bound + N.pos retries * d.
Proof.
  intros Hcall. unfold retry.
  pose proof (iterate_ind_count
    (λ n k1, sys_clock k1 ≤ N.max (sys_clock k) bound + n * d)
    (λ n out, sys_clock out.2 ≤ N.max (sys_clock k) bound + n * d) call) as Hi.
  lapply Hi; [clear Hi; intros Hi|].
  2: { intros n k1 Hk. specialize (Hcall k1). destruct (call k1); lia. }
  lapply Hi; [clear Hi; intros Hi|intros; nia].
  specialize (Hi retries 0 k ltac:(lia)).
  destruct (iterate _ _ _) as [k1|[r1 k1]]; by intros [= <- <-].
Qed.

Lemma send_within s b k r k' :
  send retries s b k = (r, k') → sys_clock k' ≤ sys_clock k + N.pos retries * delta.
Proof.
  intros Hr%(retry_within _ 0 delta); [lia|]. intros k1. unfold send_once.
  repeat case_match; simplify_eq/=; sys_times; lia.
Qed.

Lemma receive_within s k r k' :
  receive retries s k = (r, k') → sys_clock k' ≤ sys_clock k + N.pos retries * delta.
Proof.
  intros Ht%(retry_within _ 0 delta); [lia|]. intros k1. unfold receive_once.
  destruct (sys_recv_from _ _ _ _) as [[[[size data] sender]|e] k2] eqn:Hr; sys_times; [lia|].
  destruct (interrupted e); simpl; lia.
Qed.

(** An interrupted poll is repeated with what is left of the timeout, so the
    attempts together overshoot it by one rounding only. *)
Lemma wait_within n d t k r k' :
  wait retries n d t k = (r, k') →
  sys_clock k' ≤ sys_clock k + t + NANOS_PER_MILLI + (2 * N.pos retries + 1) * delta.
Proof.
  unfold wait. destruct (sys_now k) as [started k1] eqn:Hnow. sys_times.
  intros Ht%(retry_within _ (started + t + NANOS_PER_MILLI) (2 * delta)); [nia|].
  intros k2. unfold poll_once. destruct (sys_now k2) as [instant k3] eqn:Hnow2.
  set (remaining := saturating_sub t (saturating_sub instant started)).
  assert (poll_millis remaining * NANOS_PER_MILLI ≤ remaining + NANOS_PER_MILLI ∧
          (remaining = 0 → poll_millis remaining = 0)) as [Hm Hzero].
  { destruct (poll_millis_bounds remaining) as (_ & _ & Hp). split; [|by intros ->].
    destruct (N.eq_dec remaining 0) as [->|]; [by vm_compute|].
    destruct Hp as [? ?]; [lia|]. unfold NANOS_PER_MILLI in *. nia. }
  destruct (sys_poll _ _ k3) as [r1 k4] eqn:Hp. sys_times.
  assert (sys_clock k4 ≤
    N.max (sys_clock k2) (started + t + NANOS_PER_MILLI) + 2 * delta) as Hk4.
  { subst remaining. unfold saturating_sub in *.
    destruct (N.eq_dec (t - (instant - started)) 0) as [Hz|]; [rewrite Hzero in * by done; lia|lia]. }
  destruct r1 as [bits|e]; [done|]. by destruct (interrupted e).
Qed.

Lemma open_within g k r k' : open g k = (r, k') → sys_clock k' ≤ sys_clock k + 5 * delta.
Proof.
  unfold open. intros Ho. pose proof sys_close_within as Hclose.
  repeat case_match; simplify_eq/=; sys_times; try lia; (etrans; [apply Hclose|]; lia).
Qed.

Lemma socket_io_timing :
  IoTiming K Fd (DatagramIo0 := SocketIo_datagram_io retries) sys_clock io_delta.
Proof.
  unfold io_delta. constructor; simpl.
  - intros k t k' Hn. sys_times. nia.
  - intros g k r k' Ho%open_within. nia.
  - intros s b k r k' Hs%send_within. nia.
  - intros n d t k r k' Hw%wait_within. nia.
  - intros s k r k' Hr%receive_within. nia.
  - intros s k. pose proof (sys_close_within s k). nia.
  - intros t k. pose proof (sys_sleep_within t k). nia.
Qed.
End socket_io.

(** ** The inventory *)

Section inventory.
Context {IO Socket : Type} `{!DatagramIo IO Socket}.
Context (deserialize : list N → result string NetlinkMessage).
Context (serialize_get_link : N → N → list N).
Context (io_clock : IO → N) `{!IoLaws IO Socket io_clock}.
Context (delta : N) `{!IoTiming IO Socket io_clock delta}.

(** What the two contracts say of each call. *)
Ltac io_times :=
  repeat match goal with
  | E : io_now _ = (_, _) |- _ =>
      pose proof (io_now_within _ _ _ E); apply io_now_law in E as [? ?]
  | E : io_open _ _ = (_, _) |- _ => apply io_open_within in E
  | E : io_send _ _ _ = (_, _) |- _ => apply io_send_within in E
  | E : io_wait _ _ _ _ = (_, _) |- _ => apply io_wait_within in E
  | E : io_receive _ _ = (_, _) |- _ => apply io_receive_within in E
  end; simpl in *.

Lemma receive_notification_within (s : NetlinkSource IO Socket) r s' :
  receive_notification deserialize s = (r, s') →
  io_clock s'.(io) ≤ io_clock s.(io) + 2 * delta.
Proof.
  unfold receive_notification. destruct (notification s) as [n|].
  2: { intros [= <- <-]. lia. }
  destruct (io_receive _ _) as [[dg|e] w] eqn:Hr; io_times.
  2: { intros [= <- <-]. simpl. lia. }
  destruct (notification_change _ _) as [[]|e]; [|intros [= <- <-]; simpl; lia..].
  unfold now. simpl. destruct (io_now w) as [t w1] eqn:Hnow. intros [= <- <-]. io_times. lia.
Qed.

Lemma take_dump_within attempt dump seq (p : Progress (IO := IO) (Socket := Socket)) :
  match take_dump deserialize attempt dump seq p with
  | inl p' => io_clock p'.(source).(io) ≤ io_clock p.(source).(io) + delta
  | inr out => io_clock out.2.(io) ≤ io_clock p.(source).(io) + delta
  end.
Proof.
  unfold take_dump. destruct (io_receive _ _) as [[dg|e] w] eqn:Hr; io_times; [|done].
  by destruct (accept_dump _ _ _ _ _) as [[[[] links] total]|e].
Qed.

Lemma set_notification_within n (s : NetlinkSource IO Socket) :
  io_clock (set_notification n s).(io) ≤ io_clock s.(io) + delta.
Proof. simpl. destruct (notification s); simpl; [apply io_drop_within|lia]. Qed.

(** An iteration starts before the deadline or leaves, so the clock passes the
    deadline by at most the calls of one iteration. *)
Lemma inventory_step_within attempt dump seq deadline
    (p : Progress (IO := IO) (Socket := Socket)) :
  io_clock p.(source).(io) ≤ deadline + 5 * delta →
  match inventory_step deserialize attempt dump seq deadline p with
  | inl p' => io_clock p'.(source).(io) ≤ deadline + 5 * delta
  | inr out => io_clock out.2.(io) ≤ deadline + 6 * delta
  end.
Proof.
  intros Hp. unfold inventory_step.
  destruct (io_now _) as [instant w] eqn:Hnow. io_times.
  unfold is_zero, saturating_sub. destruct (N.eqb_spec (deadline - instant) 0); [simpl; lia|].
  destruct (notification (source p)) as [socket|]; [|simpl; lia].
  pose proof (set_notification_within None) as Hnone.
  destruct (io_wait _ _ _ _) as [[ready|e] w'] eqn:Hwait; io_times;
    [|specialize (Hnone (set_io w' (set_io w (source p)))); simpl in *; lia].
  destruct (notification_failed ready);
    [specialize (Hnone (set_io w' (set_io w (source p)))); simpl in *; lia|].
  destruct (dump_failed ready); [simpl; lia|].
  assert (∀ q : Progress (IO := IO) (Socket := Socket),
    io_clock q.(source).(io) ≤ deadline + 4 * delta →
    match (if dump_ready ready then take_dump deserialize attempt dump seq q else inl q) with
    | inl p' => io_clock p'.(source).(io) ≤ deadline + 5 * delta
    | inr out => io_clock out.2.(io) ≤ deadline + 6 * delta
    end) as Hdump.
  { intros q Hq. destruct (dump_ready ready); [|lia].
    pose proof (take_dump_within attempt dump seq q).
    destruct (take_dump _ _ _ _ _); lia. }
  destruct (notification_ready ready); [|apply Hdump; simpl; lia].
  unfold take_notification. simpl.
  destruct (receive_notification _ _) as [[at_time|e] s2] eqn:Hrn;
    apply receive_notification_within in Hrn; simpl in Hrn; [apply Hdump; simpl; lia|].
  specialize (Hnone s2). simpl in *. lia.
Qed.

Lemma inventory_on_within dump attempt (s : NetlinkSource IO Socket) r s' :
  inventory_on deserialize serialize_get_link dump attempt s = (r, s') →
  io_clock s'.(io) ≤ io_clock s.(io) + INVENTORY_TIMEOUT + 8 * delta.
Proof.
  unfold inventory_on. cbn. destruct (io_send _ _ _) as [[[]|e] w1] eqn:Hsend; io_times.
  2: { intros [= <- <-]. simpl. lia. }
  destruct (io_now w1) as [instant w2] eqn:Hnow; io_times. unfold inventory_loop.
  match goal with |- context [iterate _ (inventory_step _ _ _ ?q ?d) ?p] =>
    pose proof (iterate_ind _ _ _ (inventory_step_within attempt dump q d) INVENTORY_FUEL p) as Hi
  end.
  lapply Hi; [clear Hi; intros Hi|simpl; lia].
  destruct (iterate _ _ _) as [p'|out]; unfold out_of_fuel; intros Heq;
    [injection Heq as <- <-|subst out; simpl in Hi]; lia.
Qed.

Lemma inventory_within attempt (s : NetlinkSource IO Socket) r s' :
  inventory deserialize serialize_get_link attempt s = (r, s') →
  io_clock s'.(io) ≤ io_clock s.(io) + INVENTORY_TIMEOUT + 10 * delta.
Proof.
  unfold inventory. destruct (io_open _ _) as [[dump|e] w] eqn:Hopen; io_times.
  2: { intros [= <- <-]. simpl. lia. }
  destruct (inventory_on _ _ _ _ _) as [r1 s1] eqn:Hon. apply inventory_on_within in Hon.
  intros [= <- <-]. simpl in *. pose proof (io_drop_within dump (io s1)). lia.
Qed.

Lemma inventory_batch_ok attempt (s : NetlinkSource IO Socket) r s' :
  INVENTORY_TIMEOUT + 10 * delta < EVENT_RESET →
  inventory deserialize serialize_get_link attempt s = (r, s') → batch_ok (events_of r).
Proof.
  intros Hd Hi. pose proof (inventory_within _ _ _ _ Hi) as Hw.
  apply (inventory_since _ _ io_clock) in Hi as [[Ho Hc] Hb].
  unfold batch_within, batch_ok, source_clock, saturating_sub in *. rewrite Ho in Hb.
  destruct (first (events_of r)), (last (events_of r)); try done. lia.
Qed.

(** ** The source's own timing *)

Lemma wait_returns_within timeout (s : NetlinkSource IO Socket) r s' :
  NetlinkSource.wait deserialize timeout s = (r, s') →
  io_clock s'.(io) ≤ io_clock s.(io) + timeout + 4 * delta.
Proof.
  unfold NetlinkSource.wait. destruct (notification s) as [n|].
  2: { intros [= <- <-]. simpl. pose proof (io_sleep_within timeout (io s)). lia. }
  pose proof (set_notification_within None) as Hnone.
  destruct (io_wait _ _ _ _) as [[ready|e] w] eqn:Hw; io_times;
    [|intros [= <- <-]; specialize (Hnone (set_io w s)); simpl in *; lia].
  destruct (notification_failed ready);
    [intros [= <- <-]; specialize (Hnone (set_io w s)); simpl in *; lia|].
  destruct (notification_ready ready); simpl; [|intros [= <- <-]; simpl; lia].
  destruct (receive_notification _ _) as [[[t|]|e] s1] eqn:Hrn;
    apply receive_notification_within in Hrn; simpl in Hrn; intros [= <- <-];
    specialize (Hnone s1); simpl in *; lia.
Qed.

Lemma subscribe_within (s : NetlinkSource IO Socket) r s' :
  subscribe s = (r, s') → io_clock s'.(io) ≤ io_clock s.(io) + 2 * delta.
Proof.
  unfold subscribe. destruct (io_open _ _) as [[n|e] w] eqn:Ho; io_times; intros [= <- <-];
    [|simpl; lia]. pose proof (set_notification_within (Some n) (set_io w s)). simpl in *. lia.
Qed.

(** The netlink source keeps the timing contract of the monitor. *)
Lemma netlink_timing :
  AcqTiming (NetlinkSource IO Socket)
    (Acquisition0 := NetlinkSource_acquisition deserialize serialize_get_link)
    (source_clock io_clock) (4 * delta) (INVENTORY_TIMEOUT + 10 * delta).
Proof.
  constructor; simpl; intros *; intros Hc.
  - pose proof Hc as Hl. apply (now_later io_clock) in Hl as [[Ho _] _].
    unfold now in Hc. destruct (io_now _) as [i w0] eqn:Hi. injection Hc as <- <-. io_times.
    unfold source_clock, saturating_sub. simpl. lia.
  - assert (origin w' = origin w) as Ho
      by (unfold subscribe in Hc; by destruct (io_open _ _) as [[]]; injection Hc as <- <-).
    apply subscribe_within in Hc. unfold source_clock, saturating_sub. rewrite Ho. lia.
  - pose proof Hc as Hl. apply inventory_cases in Hl as [Ho _].
    apply inventory_within in Hc. unfold source_clock, saturating_sub. rewrite Ho. lia.
  - pose proof Hc as Hl. apply (wait_since deserialize io_clock) in Hl as [[Ho _] _].
    apply wait_returns_within in Hc. unfold source_clock, saturating_sub. rewrite Ho. lia.
Qed.

(** ** Theorems *)

(** An inventory keeps its three-second deadline: if the clock is monotonic and each call
    of the datagram interface overshoots by at most [delta], it returns at most
    [3 s + 10 delta] after it was called, complete or not; and while that is less than a
    minute, the events it noticed form a batch the monitor records, never an
    "invalid inventory notification timestamps", so the monitor accepts the inventory of
    its own attempt exactly if its links are valid. *)
Theorem inventory_meets_deadline (st : State) (t : N) (s s' : NetlinkSource IO Socket)
    (r : result AcquisitionError Inventory) :
  inventory deserialize serialize_get_link (mkAttempt st.(continuity)) s = (r, s') →
  io_clock s'.(io) ≤ io_clock s.(io) + INVENTORY_TIMEOUT + 10 * delta ∧
  (INVENTORY_TIMEOUT + 10 * delta < EVENT_RESET →
   is_ok (record_batch st (events_of r)) = true ∧
   ∀ inv, r = Ok inv →
     (is_ok (accept_inventory st inv t).2 = true ↔ valid_inventory inv.(inv_links))).
Proof.
  intros Hi. split; [by eapply inventory_within|]. intros Hd.
  pose proof (inventory_batch_ok _ _ _ _ Hd Hi) as Hb.
  split; [by apply record_batch_ok|]. intros inv ->. simpl in Hb.
  apply inventory_cases in Hi as (_ & _ & Hok). destruct (Hok inv eq_refl) as [Ha _].
  unfold accept_inventory. rewrite Ha, N.eqb_refl. simpl.
  apply (record_batch_ok st) in Hb. destruct (record_batch st _) as [s1|e]; [|done].
  pose proof (from_observed_spec (inv_links inv)) as Hs.
  by destruct (from_observed (inv_links inv)) as [topo|e]; destruct Hs as [Hv _].
Qed.
End inventory.
