(* ===== verification/Delivery.v ===== *)
(** What is enough to succeed: a dump delivered in time is taken as an
    inventory. The converse of what NetlinkSource.v shows of the inventories
    that succeed. *)

From S2P Require Import Prelude Link Agentx Mib Duration Monitor MonitorRuns.
From S2P Require Import Netlink NetlinkSource.
Open Scope N_scope.

Section inventory.
Context {IO Socket : Type} `{!DatagramIo IO Socket}.
Context (deserialize : list N → result string NetlinkMessage).
Context (serialize_get_link : N → N → list N).

(** Before [deadline], the socket [dump] becomes readable and yields [chunks],
    one whole kernel datagram after the other, while [notification] is quiet;
    this leads to [last]. *)
Fixpoint deliveries (notification dump : Socket) (deadline : N) (w : IO)
    (chunks : list (list N)) (last : IO) : Prop :=
  match chunks with
  | [] => w = last
  | chunk :: chunks =>
      ∃ t w1 w2 w3, io_now w = (t, w1) ∧ t < deadline ∧
        io_wait notification (Some dump) (deadline - t) w1
          = (Ok (mkReady false true false false), w2) ∧
        io_receive dump w2 = (Ok (mkDatagram chunk true false), w3) ∧
        deliveries notification dump deadline w3 chunks last
  end.

Lemma accept_dump_delivered seq chunk total links b links' :
  chunk ≠ [] → total + len chunk ≤ MAX_INVENTORY_BYTES →
  consume_dump deserialize chunk seq links = Ok (b, links') →
  accept_dump deserialize seq (mkDatagram chunk true false) total links
    = Ok (b, links', total + len chunk).
Proof.
  intros Hne Hmax Hc. unfold accept_dump. simpl. rewrite bool_decide_eq_false_2 by done.
  assert (MAX_INVENTORY_BYTES < U64_MODULUS - 1) by done.
  rewrite N.min_l by lia. rewrite (proj2 (N.ltb_ge _ _)) by done. by rewrite Hc.
Qed.

(** One delivered datagram is one iteration. *)
Lemma inventory_step_delivered attempt dump seq deadline n chunk chunks
    (p : Progress (IO := IO) (Socket := Socket)) b links' last :
  p.(source).(notification) = Some n →
  deliveries n dump deadline p.(source).(io) (chunk :: chunks) last →
  chunk ≠ [] → p.(total) + len chunk ≤ MAX_INVENTORY_BYTES →
  consume_dump deserialize chunk seq p.(p_links) = Ok (b, links') →
  ∃ w, deliveries n dump deadline w chunks last ∧
    inventory_step deserialize attempt dump seq deadline p =
    if b : bool then inr (Ok (mkInventory attempt links' p.(p_events)), set_io w p.(source))
    else inl (mkProgress (set_io w p.(source)) links' (p.(total) + len chunk) p.(p_events)).
Proof.
  intros Hn (t & w1 & w2 & w3 & Hnow & Ht & Hwait & Hrecv & Hrest) Hne Hmax Hc.
  exists w3. split; [done|]. unfold inventory_step. rewrite Hnow.
  unfold is_zero, saturating_sub. destruct (N.eqb_spec (deadline - t) 0); [lia|].
  simpl. rewrite Hn, Hwait. simpl. unfold take_dump. simpl. rewrite Hrecv.
  rewrite (accept_dump_delivered _ _ _ _ b links') by done. by destruct b.
Qed.

(** The datagrams before the last one: each holds entries of the dump only. *)
Definition part (seq : N) (chunk : list N) (observed : list ObservedLink) : Prop :=
  chunk ≠ [] ∧ ∃ entries, decode_datagram deserialize chunk = Ok entries ∧
    Forall2 (dump_entry seq) entries observed.

(** The last one, which ends with the completion. *)
Definition last_part (seq : N) (chunk : list N) (observed : list ObservedLink) : Prop :=
  chunk ≠ [] ∧ ∃ entries d, decode_datagram deserialize chunk = Ok (entries ++ [d]) ∧
    Forall2 (dump_entry seq) entries observed ∧ dump_end seq d.

Lemma rounds_delivered attempt dump seq deadline n chunks parts chunk observed
    (p : Progress (IO := IO) (Socket := Socket)) last :
  p.(source).(notification) = Some n →
  deliveries n dump deadline p.(source).(io) (chunks ++ [chunk]) last →
  Forall2 (part seq) chunks parts → last_part seq chunk observed →
  p.(total) + len (mjoin (chunks ++ [chunk])) ≤ MAX_INVENTORY_BYTES →
  rounds_of (S (length chunks)) (inventory_step deserialize attempt dump seq deadline) p =
    inr (Ok (mkInventory attempt (p.(p_links) ++ mjoin parts ++ observed) p.(p_events)),
         set_io last p.(source)).
Proof.
  intros Hn Hd Hparts Hlast. revert p Hn Hd.
  induction Hparts as [|c l chunks parts Hc Hparts IH]; intros p Hn Hd Hmax.
  - destruct Hlast as (Hne & es & d & Hdec & Hes & Hend). simpl in Hmax.
    rewrite app_nil_r in Hmax.
    destruct (inventory_step_delivered attempt dump seq deadline n chunk [] p true
      (p_links p ++ observed) last) as (w & -> & Hstep); [done..| |].
    { apply consume_dump_Ok. eauto 10. }
    simpl. by rewrite Hstep.
  - destruct Hc as (Hne & es & Hdec & Hes).
    change ((c :: chunks) ++ [chunk]) with (c :: (chunks ++ [chunk])) in Hd, Hmax.
    assert (len (mjoin (c :: (chunks ++ [chunk]))) = len c + len (mjoin (chunks ++ [chunk])))
      as Hlen by apply len_app.
    destruct (inventory_step_delivered attempt dump seq deadline n c (chunks ++ [chunk]) p false
      (p_links p ++ l) last) as (w & Hrest & Hstep); [done..|lia| |].
    { apply consume_dump_Ok. eauto 10. }
    pose proof (IH (mkProgress (set_io w (source p)) (p_links p ++ l) (total p + len c) (p_events p))
      Hn Hrest ltac:(simpl; lia)) as Hrounds.
    cbn [length]. change (S (S (length chunks))) with (1 + S (length chunks))%nat.
    rewrite rounds_of_add. change (rounds_of 1 ?f p) with
      (match f p with inl q => inl q : _ + (result AcquisitionError Inventory * _) | inr r => inr r end).
    rewrite Hstep. cbv beta iota. rewrite Hrounds. simpl.
    by rewrite <- !app_assoc.
Qed.

(** Every datagram of a dump within the byte limit counts. *)
Lemma parts_bound seq chunks parts :
  Forall2 (part seq) chunks parts → N.of_nat (length chunks) ≤ len (mjoin chunks).
Proof.
  induction 1 as [|c l chunks parts [Hne _] _ IH]; [done|].
  change (mjoin (c :: chunks)) with (c ++ mjoin chunks). rewrite len_app.
  destruct c; [done|]. unfold len in *. cbn [length]. lia.
Qed.

(** ** Theorems *)

(** A dump that arrives is taken: if the socket opens, the request goes out and the
    kernel's datagrams, entries of the dump and at the end its completion, come in whole
    before the deadline and within 16 MiB, the inventory succeeds, echoes the attempt,
    has exactly the links of the entries in the order of their arrival, and closes the
    socket. *)
Theorem inventory_accepts (attempt : Attempt) (s : NetlinkSource IO Socket) (n dump : Socket)
    (w w' w'' last : IO) (instant : N) (chunks : list (list N)) (parts : list (list ObservedLink))
    (chunk : list N) (observed : list ObservedLink) :
  s.(notification) = Some n →
  io_open 0 s.(io) = (Ok dump, w) →
  let seq := (next_sequence s).1 in
  io_send dump (dump_request serialize_get_link seq) w = (Ok tt, w') →
  io_now w' = (instant, w'') →
  deliveries n dump (instant + INVENTORY_TIMEOUT) w'' (chunks ++ [chunk]) last →
  Forall2 (part seq) chunks parts → last_part seq chunk observed →
  len (mjoin (chunks ++ [chunk])) ≤ MAX_INVENTORY_BYTES →
  ∃ s', inventory deserialize serialize_get_link attempt s =
          (Ok (mkInventory attempt (mjoin parts ++ observed) empty_batch), s') ∧
    s'.(notification) = Some n ∧ s'.(io) = io_drop dump last.
Proof.
  intros Hn Hopen seq Hsend Hnow Hd Hparts Hlast Hmax.
  assert (next_sequence (set_io w s) = (seq, mkSource w s.(notification) s.(origin) seq)) as Hseq
    by done.
  unfold inventory. rewrite Hopen. unfold inventory_on. rewrite Hseq. cbn [io]. rewrite Hsend, Hnow. unfold inventory_loop.
  match goal with |- context [iterate _ _ ?q] =>
    pose proof (rounds_delivered attempt dump seq (instant + INVENTORY_TIMEOUT) n chunks parts chunk
      observed q last Hn Hd Hparts Hlast Hmax) as Hrounds end.
  rewrite (iterate_leaves _ _ _ _ _ Hrounds).
  - eexists. by split.
  - pose proof (parts_bound _ _ _ Hparts) as Hb. rewrite join_app, len_app in Hmax.
    unfold MAX_INVENTORY_BYTES, INVENTORY_FUEL in *. lia.
Qed.
End inventory.
