(* ===== verification/System.v ===== *)
(** The parts together: the monitor over the netlink source publishes tables
    that the session's requests are answered from. *)

From S2P Require Import Prelude BTree Link Agentx Mib Duration Monitor MonitorRuns.
From S2P Require Import Netlink NetlinkSource Session.
Open Scope N_scope.

Section system.
Context {ID : Type} `{IdLaws ID}.
Context {IO Socket : Type} `{!DatagramIo IO Socket}.
Context (deserialize : list N → result string NetlinkMessage).
Context (serialize_get_link : N → N → list N).

#[local] Instance netlink : Acquisition (NetlinkSource IO Socket) :=
  NetlinkSource_acquisition deserialize serialize_get_link.

(** The configuration the monitor thread starts from. *)
Definition monitor_start (w : IO) (reconcile : N) : Monitor.Config ID (NetlinkSource IO Socket) :=
  run_start (with_io w) reconcile.

(** Between [s] and [s'] the source was called as [source_call] says, and one of
    the calls was an inventory that answered the whole of one uninterrupted dump
    of the kernel's links; they are valid, and [m] is the ifStackTable of their
    topology. [read] says how the dump socket was read. *)
Definition from_kernel (read : Socket → IO → Datagram → IO → Prop)
    (s s' : NetlinkSource IO Socket) (m : list (ID * Value ID)) : Prop :=
  ∃ pre s1 attempt inv s2 post topology,
    chain source_call s pre s1 ∧
    source_call s1 (SInventory attempt (Ok inv)) s2 ∧
    chain source_call s2 post s' ∧
    dumped deserialize serialize_get_link read s1 inv.(inv_links) s2 ∧
    valid_inventory inv.(inv_links) ∧ topology_of inv.(inv_links) topology ∧
    table_of (table_row topology) m.

(** A table that a run publishes comes from a dump in that run. *)
Lemma run_publishes n (c : Monitor.Config ID (NetlinkSource IO Socket)) acts c' m :
  Monitor.run n c = Some (acts, c') → Publish m ∈ acts →
  from_kernel received c.(world) c'.(world) m.
Proof.
  intros (cs & Hcs & Hp)%run_did Hm.
  destruct (performs_publish _ _ _ Hp Hm) as (pre & attempt & inv & post & -> & topology & Ho & Hm').
  apply chain_app in Hcs as (s1 & Hpre & s2 & Hinv & Hpost).
  exists pre, s1, attempt, inv, s2, post, topology. split_and!; try done.
  - destruct (inventory_cases _ _ _ _ _ _ Hinv) as (_ & _ & Hok). by apply Hok.
  - pose proof (from_observed_spec (inv_links inv)) as Hs. rewrite Ho in Hs. by destruct Hs.
  - pose proof (from_observed_spec (inv_links inv)) as Hs. rewrite Ho in Hs. by destruct Hs.
  - destruct (from_topology_spec (ID := ID) topology) as (m' & Hm1 & Ht). congruence.
Qed.

(** Whether the source holds a notification socket. *)
Definition has_socket (s : NetlinkSource IO Socket) : bool :=
  match s.(notification) with Some _ => true | None => false end.

(** ** The system invariant *)

(** The monitor believes to be subscribed exactly while there is a
    notification socket. *)
Definition sys_inv (c : Monitor.Config ID (NetlinkSource IO Socket)) : Prop :=
  c.(state).(subscribed) = has_socket c.(world).

Lemma has_socket_eq (s s' : NetlinkSource IO Socket) :
  s'.(notification) = s.(notification) → has_socket s' = has_socket s.
Proof. unfold has_socket. by intros ->. Qed.

Lemma now_notification (s : NetlinkSource IO Socket) t s' :
  now s = (t, s') → s'.(notification) = s.(notification).
Proof. unfold now. destruct (io_now _). by intros [= <- <-]. Qed.

Ltac same_socket :=
  repeat match goal with
  | E : now _ = (_, _) |- _ => apply now_notification, has_socket_eq in E
  end; unfold sys_inv in *; simpl in *.

Lemma try_subscribe_inv c acts c' :
  try_subscribe c = (acts, c') → sys_inv c → sys_inv c'.
Proof.
  intros Ht Hsub. unfold try_subscribe in Ht. simpl in Ht.
  destruct (now (world c)) as [t w] eqn:Hnow.
  destruct (negb (subscribed (state c)) && retry_ready (state c) t) eqn:Hready.
  - unfold subscribe in Ht. destruct (io_open _ _) as [[s|e] iw]; cbn in Ht.
    + by injection Ht as <- <-.
    + destruct (now (set_io iw w)) as [t2 w2] eqn:Hnow2. injection Ht as <- <-. same_socket.
      change (has_socket (set_io iw w)) with (has_socket w) in Hnow2. congruence.
  - injection Ht as <- <-. same_socket. congruence.
Qed.

Lemma acquire_inv t c acts c' :
  acquire t c = Some (acts, c') → c.(state).(subscribed) = true → sys_inv c → sys_inv c'.
Proof.
  intros Ha Htrue Hsub. unfold sys_inv in Hsub. unfold acquire in Ha. simpl in Ha.
  destruct (start_acquisition_frame (state c)) as (_ & Hstart & _).
  destruct (inventory _ _ _ (world c)) as [r w] eqn:Hinv.
  apply inventory_cases in Hinv as (_ & Hsock & _).
  destruct (now w) as [t1 w1] eqn:Hnow.
  destruct r as [inv|[e events|e events]]; simpl in Hsock.
  - apply has_socket_eq in Hsock.
    destruct (accept_inventory _ inv t1) as [s' [topology|e]] eqn:Hacc;
      apply accept_subscribed in Hacc.
    + destruct (from_topology topology) as [m|]; [|done]. injection Ha as <- <-. same_socket. congruence.
    + destruct (now w1) as [t2 w2] eqn:Hnow2. injection Ha as <- <-. same_socket. congruence.
  - apply has_socket_eq in Hsock. injection Ha as <- <-. same_socket.
    rewrite retain_subscribed. congruence.
  - injection Ha as <- <-. same_socket. rewrite Hnow. unfold has_socket. by rewrite Hsock.
Qed.

Lemma wait_step_inv t c acts c' :
  wait_step t c = (acts, c') → sys_inv c → sys_inv c'.
Proof.
  intros Hw Hsub. unfold sys_inv in Hsub. unfold wait_step in Hw. simpl in Hw.
  destruct (NetlinkSource.wait _ _ (world c)) as [r w] eqn:Hwait.
  apply wait_socket in Hwait.
  destruct r as [[|at_time]|e].
  - apply has_socket_eq in Hwait. injection Hw as <- <-. same_socket. congruence.
  - apply has_socket_eq in Hwait. injection Hw as <- <-. same_socket.
    destruct (record_event_frame (state c) at_time) as (_ & _ & -> & _). congruence.
  - destruct (now w) as [t1 w1] eqn:Hnow. injection Hw as <- <-. same_socket.
    rewrite Hnow. unfold has_socket. by rewrite Hwait.
Qed.

Lemma run_step_inv c acts c' :
  run_step c = Some (acts, c') → sys_inv c → sys_inv c'.
Proof.
  unfold run_step. intros Hr Hinv.
  destruct (try_subscribe c) as [acts1 c1] eqn:Ht. apply try_subscribe_inv in Ht; [|done].
  simpl in Hr. destruct (now (world c1)) as [t w] eqn:Hnow.
  set (c2 := mkConfig w (state c1) (cell c1)) in *.
  assert (sys_inv c2) as Hinv2 by (same_socket; congruence).
  destruct (subscribed (state c1) && acquisition_ready (state c1) t) eqn:Hready.
  - destruct (acquire t c2) as [[acts2 c3]|] eqn:Ha; [|done]. injection Hr as <- <-.
    apply acquire_inv in Ha; [done| |done]. by apply andb_prop in Hready as [? _].
  - destruct (wait_step t c2) as [acts2 c3] eqn:Hw. injection Hr as <- <-.
    by apply wait_step_inv in Hw.
Qed.

Lemma run_inv n c acts c' :
  Monitor.run n c = Some (acts, c') → sys_inv c → sys_inv c'.
Proof.
  revert c acts. induction n as [|n IH]; intros c acts; simpl; [by intros [= <- <-]|].
  destruct (run_step c) as [[acts1 c1]|] eqn:Hs; [|done]. simpl.
  destruct (Monitor.run n c1) as [[acts2 c2]|] eqn:Hr; [|done]. simpl.
  intros [= <- <-] Hinv. eapply IH; [done|]. by eapply run_step_inv.
Qed.

Lemma start_inv w r : sys_inv (monitor_start w r).
Proof. unfold sys_inv, monitor_start, run_start, with_io. simpl. by destruct (io_now w). Qed.

(** ** Theorems *)

(** End to end: however the kernel and the clock behave, every table the monitor
    publishes over the netlink source is the ifStackTable of the topology of a valid
    inventory, and the inventory's links are exactly those of one complete, uninterrupted
    kernel dump of the run; and the monitor counts as subscribed exactly while it holds a
    notification socket. *)
Theorem tables_from_kernel (w : IO) (r : N) (n : nat) (acts : list (Action ID))
    (c : Monitor.Config ID (NetlinkSource IO Socket)) :
  Monitor.run n (monitor_start w r) = Some (acts, c) →
  (∀ m, Publish m ∈ acts → from_kernel received (with_io w) c.(world) m) ∧
  (∀ m, snapshot c.(cell) = Some m → from_kernel received (with_io w) c.(world) m) ∧
  c.(state).(subscribed) = has_socket c.(world).
Proof.
  intros Hr. assert (∀ m, Publish m ∈ acts → from_kernel received (with_io w) c.(world) m) as Hp
    by (intros m; exact (run_publishes _ _ _ _ m Hr)).
  split_and!; [done| |].
  - intros m Hm. apply Hp, applied_published. by rewrite <- Hm; symmetry; apply (run_cell _ _ _ _ Hr).
  - eapply run_inv; [done|apply start_inv].
Qed.

(** What a manager reads: a read request that arrives after any number of monitor
    iterations is answered with ProcessingError while no table is available, and
    otherwise from a table that comes from one complete kernel dump, without a panic. *)
Theorem reads_serve_kernel_tables `{!PduOps ID} (w : IO) (r : N) (n : nat)
    (acts : list (Action ID)) (c : Monitor.Config ID (NetlinkSource IO Socket))
    (header : Header) (bytes : list N) (ranges : list (SearchRange ID)) (bulk : option (N * N)) :
  Monitor.run n (monitor_start w r) = Some (acts, c) →
  default_context header → read_request header bytes ranges bulk →
  match snapshot c.(cell) with
  | None => dispatch header bytes (snapshot c.(cell))
            = Some (Ok (set_error ProcessingError (reply header), None))
  | Some m => from_kernel received (with_io w) c.(world) m ∧
      ∃ vbs, read_answer header m ranges bulk vbs ∧
        dispatch header bytes (snapshot c.(cell)) = Some (Ok (set_vb vbs (reply header), None))
  end.
Proof.
  intros Hr Hctx Hreq. unfold snapshot.
  destruct (dispatch_spec header bytes (cell c)) as (out & -> & Hout).
  destruct (cell c) as [m|] eqn:Hm.
  - split.
    { apply (run_publishes _ _ _ _ m Hr), applied_published. rewrite <- Hm. symmetry.
      apply (run_cell _ _ _ _ Hr). }
    destruct (answer_Some header m ranges bulk) as (vbs & _ & Hvbs).
    exists vbs. split; [by apply Hvbs|]. f_equal. apply Hout.
    eapply answers_read; [done..|]. by apply Hvbs.
  - f_equal. apply Hout. by eapply answers_unpublished.
Qed.
End system.
