(* ===== verification/Freshness.v ===== *)
(** How fresh the published table is: once the kernel answers and its links stay
    as they are, the table of exactly those links is published, within a time
    that the backoffs, the reconciliation interval and the inventory's deadline
    bound. *)

From S2P Require Import Prelude BTree Link Agentx Mib Duration Monitor MonitorRuns Timed Recovery Responsive.
From S2P Require Import Netlink NetlinkSource Timing Delivery System.
Open Scope N_scope.

Section freshness.
Context {ID : Type} `{IdLaws ID}.
Context {IO Socket : Type} `{!DatagramIo IO Socket}.
Context (deserialize : list N → result string NetlinkMessage).
Context (serialize_get_link : N → N → list N).
Context (io_clock : IO → N) `{!IoLaws IO Socket io_clock}.
Context (delta : N) `{!IoTiming IO Socket io_clock delta}.

(** In the worlds of [good] the kernel works, its links are [links], and nothing
    changes: the multicast group can be joined, the joined socket is quiet, and
    a request is answered in time by one complete dump of [links], cut into
    datagrams in any way. A wait of at most [limit] lasts its timeout. *)
Record quiet_kernel (limit : N) (links : list ObservedLink) (good : option Socket → IO → Prop)
    : Prop := {
  quiet_valid : valid_inventory links;
  quiet_now : ∀ o w t w', good o w → io_now w = (t, w') → good o w';
  quiet_sleep : ∀ t w, good None w → good None (io_sleep t w) ∧ io_clock w + t ≤ io_clock (io_sleep t w);
  quiet_subscribe : ∀ w, good None w →
    ∃ n w', io_open LINK_MULTICAST_GROUP w = (Ok n, w') ∧ good (Some n) w';
  quiet_wait : ∀ n t w, good (Some n) w → t ≤ limit →
    ∃ w', io_wait n None t w = (Ok (mkReady false false false false), w') ∧ good (Some n) w' ∧
      io_clock w + t ≤ io_clock w';
  quiet_dump : ∀ n w seq, good (Some n) w →
    ∃ dump w1 w2 t w3 chunks parts chunk observed last,
      io_open 0 w = (Ok dump, w1) ∧
      io_send dump (dump_request serialize_get_link seq) w1 = (Ok tt, w2) ∧
      io_now w2 = (t, w3) ∧
      deliveries n dump (t + INVENTORY_TIMEOUT) w3 (chunks ++ [chunk]) last ∧
      Forall2 (part deserialize seq) chunks parts ∧ last_part deserialize seq chunk observed ∧
      mjoin parts ++ observed = links ∧
      len (mjoin (chunks ++ [chunk])) ≤ MAX_INVENTORY_BYTES ∧
      good (Some n) (io_drop dump last);
}.
Context (limit : N) (links : list ObservedLink) (good : option Socket → IO → Prop).
Context (Hquiet : quiet_kernel limit links good).

#[local] Instance netlink_source : Acquisition (NetlinkSource IO Socket) :=
  netlink deserialize serialize_get_link.

(** A source over such a kernel, subscribed or not. *)
Definition source_good (subscribed : bool) (s : NetlinkSource IO Socket) : Prop :=
  subscribed = has_socket s ∧ good s.(notification) s.(io) ∧ s.(origin) ≤ io_clock s.(io).

(** What a call that goes on from a good source has to show. *)
Lemma source_good_later b (s s' : NetlinkSource IO Socket) :
  later io_clock s s' → s'.(notification) = s.(notification) →
  good s'.(notification) s'.(io) → source_good b s → source_good b s'.
Proof using.
  intros [Ho Hc] Hn Hg (Hb & _ & Hle). split; [by rewrite (has_socket_eq _ _ Hn)|].
  split; [done|]. rewrite Ho. lia.
Qed.

Lemma source_good_inventory a (s : NetlinkSource IO Socket) :
  source_good true s →
  ∃ inv s', inventory deserialize serialize_get_link a s = (Ok inv, s') ∧ source_good true s' ∧
    inv.(inv_links) = links ∧ inv.(inv_events) = empty_batch.
Proof using Hquiet IoLaws0.
  intros Hs. pose proof Hs as (Hb & Hg & _).
  unfold has_socket in Hb. destruct (notification s) as [n|] eqn:Hn; [|done].
  destruct (quiet_dump _ _ _ Hquiet n (io s) (next_sequence s).1 Hg) as
    (dump & w1 & w2 & t & w3 & chunks & parts & chunk & observed & last & Hopen & Hsend & Hnow &
     Hd & Hparts & Hlast & Hlinks & Hmax & Hgood).
  destruct (inventory_accepts deserialize serialize_get_link a s n dump w1 w2 w3 last t chunks parts
    chunk observed Hn Hopen Hsend Hnow Hd Hparts Hlast Hmax) as (s' & Hi & Hn' & Hio).
  eexists _, s'. split; [exact Hi|]. split; [|by split].
  apply (source_good_later _ s); [|by rewrite Hn, Hn'|by rewrite Hn', Hio|done].
  by apply (inventory_since deserialize serialize_get_link io_clock) in Hi as [Hl _].
Qed.

(** The source works in the sense of the monitor. *)
Lemma quiet_kernel_works :
  works (source_clock io_clock) limit (λ l, l = links) source_good.
Proof using Hquiet IoLaws0.
  constructor.
  - intros b s t s' Hs Hn. simpl in Hn. pose proof Hn as [Hl _]%(now_later io_clock).
    unfold now in Hn. destruct (io_now _) as [i w] eqn:Hi. injection Hn as _ <-.
    eapply source_good_later; [done|done| |done]. simpl. destruct Hs as (_ & Hg & _).
    by eapply (quiet_now _ _ _ Hquiet).
  - intros s (Hb & Hg & Hle). unfold has_socket in Hb. simpl. unfold subscribe.
    destruct (notification s) eqn:Hn; [done|].
    destruct (quiet_subscribe _ _ _ Hquiet _ Hg) as (n & w & Hopen & Hw). rewrite Hopen.
    eexists. split; [done|]. split; [done|]. simpl. rewrite Hn. split; [done|].
    apply io_open_law in Hopen. simpl. lia.
  - intros a s (inv & s' & Hi & Hs' & Hl & He)%(source_good_inventory a). exists inv, s'.
    split; [done|]. split; [done|]. rewrite Hl, He. split; [apply Hquiet|by split].
  - intros d b s Hs Hd. pose proof Hs as (Hb & Hg & Hle). simpl. unfold wait.
    destruct (notification s) as [n|] eqn:Hn.
    + destruct (quiet_wait _ _ _ Hquiet n d _ Hg Hd) as (w & Hw & Hgw & Hcw). rewrite Hw. simpl.
      eexists. split; [done|]. split.
      * apply (source_good_later _ s); [|done|by simpl; rewrite Hn|done]. split; [done|]. simpl. lia.
      * unfold source_clock, saturating_sub. simpl. lia.
    + destruct (quiet_sleep _ _ _ Hquiet d _ Hg) as [Hgw Hcw]. eexists. split; [done|]. split.
      * apply (source_good_later _ s); [|done|by simpl; rewrite Hn|done]. split; [done|]. simpl. lia.
      * unfold source_clock, saturating_sub. simpl. lia.
Qed.

(** The clock of a run's source has passed the source's origin. *)
Lemma run_origin (w : IO) (r : N) (n : nat) acts (c : Monitor.Config ID (NetlinkSource IO Socket)) :
  Monitor.run n (monitor_start w r) = Some (acts, c) →
  c.(world).(origin) ≤ io_clock c.(world).(io).
Proof using IoLaws0.
  intros Hr. eapply (run_kept (λ s : NetlinkSource IO Socket, s.(origin) ≤ io_clock s.(io)));
    [|exact Hr|].
  - assert (∀ s s' : NetlinkSource IO Socket, later io_clock s s' →
      origin s ≤ io_clock (io s) → origin s' ≤ io_clock (io s')) as Hl
      by (intros s s' [Ho Hc] Hle; rewrite Ho; lia).
    constructor; simpl.
    + intros s t s' [Hs _]%(now_later io_clock). by apply Hl.
    + intros s x s' Hs. apply Hl. unfold subscribe in Hs.
      destruct (io_open _ _) as [[m|e] w1] eqn:Ho; apply io_open_law in Ho; injection Hs as _ <-;
        [|by split]. eapply later_trans; [|by apply set_notification_later]. by split.
    + intros a s x s' [Hs _]%(inventory_since deserialize serialize_get_link io_clock). by apply Hl.
    + intros d s x s' [Hs _]%(wait_since deserialize io_clock). by apply Hl.
  - simpl. unfold with_io. destruct (io_now w) as [t w1] eqn:Hn. apply io_now_law in Hn as [? ?].
    simpl. lia.
Qed.

(** [m] is the ifStackTable of the kernel's links. *)
Definition links_table (m : list (ID * Value ID)) : Prop :=
  ∃ topology, topology_of links topology ∧ table_of (table_row topology) m.

Lemma fresh_links m : fresh_table (λ l, l = links) m → links_table m.
Proof using. intros (l & topology & -> & Ht & Hm). by exists topology. Qed.

(** A monitor that has reached such a kernel is on the track of Recovery.v. *)
Lemma quiet_in_health (w : IO) (r : N) (n : nat) acts
    (c : Monitor.Config ID (NetlinkSource IO Socket)) :
  Monitor.run n (monitor_start w r) = Some (acts, c) →
  good c.(world).(notification) c.(world).(io) → in_health source_good c.
Proof using H IoLaws0.
  intros Hrun Hg. split; [|split; [done|by eapply run_origin]].
  apply run_inv in Hrun as Hs; [exact Hs|apply start_inv].
Qed.

(** ** Theorems *)

(** Freshness, end to end: whatever happened before, once the kernel answers and its links
    stay as they are, at most two iterations of the monitor publish the ifStackTable of
    the topology of exactly those links, and the cell holds it from then on: at the latest
    three seconds and a few calls after the next attempt is due, which is at most 30
    seconds or the reconciliation interval ahead, and no later than an update that is
    pending while no failure is waited out. Waits up to that long must last their
    timeouts. *)
Theorem kernel_links_published (w : IO) (r : N) (n : nat) (pre : list (Action ID))
    (c : Monitor.Config ID (NetlinkSource IO Socket)) :
  N.max MAX_DELAY r ≤ limit →
  Monitor.run n (monitor_start w r) = Some (pre, c) →
  good c.(world).(notification) c.(world).(io) →
  let clock := source_clock io_clock in
  let now := clock c.(world) in
  let due := next_deadline c.(state) now in
  (∃ k acts c' m, (k <= 2)%nat ∧ Monitor.run k c = Some (acts, c') ∧
     Publish m ∈ acts ∧ snapshot c'.(cell) = Some m ∧ links_table m ∧
     clock c'.(world) ≤ N.max now due + INVENTORY_TIMEOUT + 42 * delta ∧
     ∀ j, ∃ acts' c'' m', Monitor.run j c' = Some (acts', c'') ∧
       snapshot c''.(cell) = Some m' ∧ links_table m') ∧
  due ≤ now + N.max MAX_DELAY r ∧
  ∀ d, c.(state).(event_deadline) = Some d →
    d ≤ now + MAX_DELAY ∧ (c.(state).(retry_not_before) = None → due ≤ N.max d now).
Proof using Hquiet IoTiming0 IoLaws0 H.
  intros Hlimit Hrun Hg clock now due.
  pose proof (netlink_laws deserialize serialize_get_link io_clock).
  pose proof (netlink_timing deserialize serialize_get_link io_clock delta).
  split; [|by eapply (due_bound clock)].
  destruct (recovery_in_time clock (4 * delta) (INVENTORY_TIMEOUT + 10 * delta) limit _ source_good
    quiet_kernel_works r Hlimit _ _ _ _ Hrun (quiet_in_health _ _ _ _ _ Hrun Hg))
    as (k & acts & c' & m & Hk & Hr & Hm & Hc & Hfresh%fresh_links & Htime & Hon).
  exists k, acts, c', m. split_and!; try done; [subst now due; lia|].
  intros j. destruct (Hon j) as (acts' & c'' & Hj & m' & Hm' & Hf%fresh_links).
  by exists acts', c'', m'.
Qed.
End freshness.
