(* ===== verification/Stack.v ===== *)
(** The production stack: the monitor over [NetlinkSource] over [SocketIo] over
    the system calls. The contracts of the layers discharge one another, and
    the theorems speak of system calls only. *)

From S2P Require Import Prelude BTree Link Agentx Mib Duration Monitor MonitorRuns.
From S2P Require Import Netlink NetlinkSource SocketIo Timing System.
Open Scope N_scope.

(** [recv_from] writes as much of the datagram as fits the buffer. *)
Class RecvLaws (K Fd : Type) `{!Sys K Fd} : Prop := {
  sys_recv_length : ∀ s c f k size data sender k',
    sys_recv_from s c f k = (Ok (size, data, sender), k') → len data = N.min size c;
}.

Section stack.
Context {ID : Type} `{IdLaws ID} {K Fd : Type} `{!Sys K Fd} (retries : positive).
Context (deserialize : list N → result string NetlinkMessage).
Context (serialize_get_link : N → N → list N).

#[local] Instance socket_io : DatagramIo K Fd := SocketIo_datagram_io retries.
#[local] Instance netlink_source : Acquisition (NetlinkSource K Fd) :=
  netlink deserialize serialize_get_link.

(** [NetlinkSource::new] *)
Definition new (k : K) : NetlinkSource K Fd := with_io k.

(** ** Specification *)

(** [recv_from] is called on [fd] until no signal interrupts it, and answers
    [datagram]: it is truncated exactly if the kernel's is larger than the buffer,
    and from the kernel exactly if the sender's port is zero. *)
Inductive recvs (fd : Fd) : K → Datagram → K → Prop :=
| recvs_answered k size data sender k' :
    sys_recv_from fd MAX_DATAGRAM MSG_TRUNC k = (Ok (size, data, sender), k') →
    recvs fd k (mkDatagram data (sender =? 0) (MAX_DATAGRAM <? size)) k'
| recvs_interrupted k e k1 datagram k' :
    sys_recv_from fd MAX_DATAGRAM MSG_TRUNC k = (Err e, k1) →
    e.(error_kind) = Interrupted → recvs fd k1 datagram k' → recvs fd k datagram k'.

(** [m] is the ifStackTable of a complete kernel dump of the run from [s] to [s'],
    whose datagrams are those that [recv_from] answered. *)
Definition from_recv : NetlinkSource K Fd → NetlinkSource K Fd → list (ID * Value ID) → Prop :=
  System.from_kernel deserialize serialize_get_link recvs.

(** ** Lemmas *)

Lemma received_recvs `{!RecvLaws K Fd} fd k datagram k' :
  received fd k datagram k' → recvs fd k datagram k'.
Proof.
  intros Hr%retry_Ok_loops. remember (@Ok Error Datagram datagram, k') as out eqn:Hout.
  induction Hr as [k out Hc|k k1 out Hc Hl IH]; unfold receive_once in Hc;
    destruct (sys_recv_from _ _ _ _) as [[[[size data] sender]|e] k2] eqn:Hrecv.
  - injection Hc as <-. injection Hout as <- <-.
    pose proof (sys_recv_length _ _ _ _ _ _ _ _ Hrecv) as Hlen.
    rewrite len_fill_buffer, fill_buffer_data by (by rewrite len_empty_storage).
    rewrite len_empty_storage. by apply recvs_answered.
  - destruct (interrupted e); [done|]. by injection Hc as <-.
  - done.
  - destruct (interrupted e) eqn:He; [|done]. injection Hc as <-.
    eapply recvs_interrupted; [done| |by apply IH]. unfold interrupted in He. by bool_to_prop.
Qed.

Lemma from_kernel_recv `{!RecvLaws K Fd} s s' m :
  System.from_kernel deserialize serialize_get_link received s s' m → from_recv s s' m.
Proof.
  intros (pre & s1 & attempt & inv & s2 & post & topology & Hpre & Hinv & Hpost & Hd & Hrest).
  exists pre, s1, attempt, inv, s2, post, topology. split_and!; try done; [|apply Hrest..].
  eapply dumped_impl; [|done]. apply received_recvs.
Qed.

Context (sys_clock : K → N) `{!SysLaws K Fd sys_clock}.

(** A poll takes time. *)
Definition polls_advance : Prop :=
  ∀ d t k r k', sys_poll d t k = (r, k') → sys_clock k < sys_clock k'.

(** Then so does the adapter's wait, however often a signal interrupts it. *)
Lemma polls_waits_advance : polls_advance → waits_advance (IO := K) (Socket := Fd) sys_clock.
Proof.
  intros Hadv n d t k r k'. simpl. unfold wait.
  destruct (sys_now k) as [started k0] eqn:Hnow. apply sys_now_law in Hnow. unfold retry.
  pose proof (iterate_ind_count
    (λ i k1, sys_clock k0 + i ≤ sys_clock k1) (λ _ out, sys_clock k0 < sys_clock out.2)
    (poll_once (descriptors n d) t started)) as Hi.
  lapply Hi; [clear Hi; intros Hi|].
  2: { intros i k1 Hk. unfold poll_once. destruct (sys_now k1) as [instant k2] eqn:Hn.
       apply sys_now_law in Hn. destruct (sys_poll _ _ k2) as [[bits|e] k3] eqn:Hp;
       apply Hadv in Hp; [|destruct (interrupted e)]; simpl; lia. }
  lapply Hi; [clear Hi; intros Hi|done].
  specialize (Hi retries 0 k0 ltac:(lia)).
  destruct (iterate _ _ _) as [k1|[r1 k1]]; intros [= <- <-]; simpl in *; lia.
Qed.

(** ** Theorems *)

(** C3. The production stack refines the abstract actor, given of the system calls that none
    takes the monotonic clock back and that [recv_from] writes as much of a datagram as
    fits the buffer; and each table it publishes is the ifStackTable of a valid inventory
    that is one complete dump in the run: all the datagrams that [recv_from] answered on
    the socket of that dump, from its request to its end, in order, none of them larger
    than the buffer or from another port than the kernel's, and their messages are one for
    each link and then the kernel's successful completion. *)
Theorem production_stack `{!RecvLaws K Fd} (k : K) (r : N) (n : nat)
    (acts : list (Action ID)) (c : Monitor.Config ID (NetlinkSource K Fd)) :
  let start := run_start (new k) r in
  let clock := source_clock sys_clock in
  Monitor.run n start = Some (acts, c) →
  steps (view clock start) acts (view clock c) ∧
  ∀ m, Publish m ∈ acts → from_recv start.(world) c.(world) m.
Proof.
  intros start clock Hrun.
  pose proof (socket_io_laws (K := K) (Fd := Fd) retries sys_clock).
  pose proof (netlink_laws deserialize serialize_get_link sys_clock).
  split; [by eapply run_refines|].
  intros m Hm. by eapply from_kernel_recv, run_publishes.
Qed.

(** C26. An inventory of the production stack is bounded: if a poll takes time, signals do
    not interrupt the same call [retries] times in a row, and each system call returns
    within [delta] (a poll, of its timeout), the inventory returns within three seconds
    and ten times the adapter's overshoot: a millisecond of rounding and the calls that
    signals repeat. None of its loops is cut off: its own leaves by itself, not for lack
    of fuel, and each call of the adapter is what the code's unbounded loop answers. *)
Theorem production_inventory_bounded (delta : N) (attempt : Attempt)
    (s s' : NetlinkSource K Fd) (r : result AcquisitionError Inventory) :
  polls_advance → FewSignals K Fd retries → SysTiming K Fd sys_clock delta →
  inventory deserialize serialize_get_link attempt s = (r, s') →
  sys_clock s'.(io) ≤ sys_clock s.(io) + INVENTORY_TIMEOUT + 10 * io_delta retries delta ∧
  (INVENTORY_TIMEOUT + 10 * io_delta retries delta < EVENT_RESET → batch_ok (events_of r)) ∧
  (∀ dump seq deadline p,
    deadline ≤ sys_clock p.(source).(io) + INVENTORY_TIMEOUT →
    ∃ out, iterate INVENTORY_FUEL (inventory_step deserialize attempt dump seq deadline) p
             = inr out) ∧
  (∀ fd bytes k, loops (send_once fd bytes) k (io_send fd bytes k)) ∧
  (∀ fd k, loops (receive_once fd) k (io_receive fd k)) ∧
  (∀ n dump timeout k started k1, sys_now k = (started, k1) →
     loops (poll_once (descriptors n dump) timeout started) k1 (io_wait n dump timeout k)).
Proof.
  intros Hadv Hfew Ht Hi.
  pose proof (socket_io_laws (K := K) (Fd := Fd) retries sys_clock).
  pose proof (socket_io_timing (K := K) (Fd := Fd) retries sys_clock delta).
  split; [by eapply (inventory_within _ _ sys_clock)|]. split; [|split].
  - intros Hd. by eapply (inventory_batch_ok _ _ sys_clock).
  - intros. by eapply (inventory_loop_exits _ sys_clock); [apply polls_waits_advance|].
  - exact (few_signals_loops retries).
Qed.
End stack.
