(* ===== verification/Sockets.v ===== *)
(** Who owns the netlink sockets: every operation of the source gives back
    what it opens, uses a socket only while it is open, and never needs more
    than two. *)

From S2P Require Import Prelude BTree Link Agentx Mib Duration Monitor MonitorRuns.
From S2P Require Import Netlink NetlinkSource SocketIo System Stack.
Open Scope N_scope.

(** ** Ownership contracts

    [held] lists the open sockets. A contract says what a call does to them,
    and says it only of calls on sockets that are open, and of openings while
    fewer than [limit] are. *)

Class IoOwnership (IO Socket : Type) `{!DatagramIo IO Socket} (held : IO → list Socket)
    (limit : nat) : Prop := {
  own_open : ∀ g w r w', io_open g w = (r, w') → (length (held w) < limit)%nat →
    held w' ≡ₚ match r with Ok s => s :: held w | Err _ => held w end;
  own_send : ∀ s b w r w', io_send s b w = (r, w') → s ∈ held w → held w' ≡ₚ held w;
  own_wait : ∀ n d t w r w', io_wait n d t w = (r, w') → n ∈ held w →
    (∀ s, d = Some s → s ∈ held w) → held w' ≡ₚ held w;
  own_receive : ∀ s w r w', io_receive s w = (r, w') → s ∈ held w → held w' ≡ₚ held w;
  own_drop : ∀ s w, s ∈ held w → s :: held (io_drop s w) ≡ₚ held w;
  own_now : ∀ w t w', io_now w = (t, w') → held w' ≡ₚ held w;
  own_sleep : ∀ t w, held (io_sleep t w) ≡ₚ held w;
}.

Class SysOwnership (K Fd : Type) `{!Sys K Fd} (held : K → list Fd) (limit : nat) : Prop := {
  fd_socket : ∀ p k r k', sys_socket p k = (r, k') → (length (held k) < limit)%nat →
    held k' ≡ₚ match r with Ok s => s :: held k | Err _ => held k end;
  fd_bind : ∀ s p g k r k', sys_bind s p g k = (r, k') → s ∈ held k → held k' ≡ₚ held k;
  fd_connect : ∀ s p g k r k', sys_connect s p g k = (r, k') → s ∈ held k → held k' ≡ₚ held k;
  fd_nonblock : ∀ s b k r k', sys_set_non_blocking s b k = (r, k') → s ∈ held k →
    held k' ≡ₚ held k;
  fd_send : ∀ s b f k r k', sys_send s b f k = (r, k') → s ∈ held k → held k' ≡ₚ held k;
  fd_poll : ∀ ds t k r k', sys_poll ds t k = (r, k') → Forall (λ d, d.(fd) ∈ held k) ds →
    held k' ≡ₚ held k;
  fd_recv : ∀ s c f k r k', sys_recv_from s c f k = (r, k') → s ∈ held k → held k' ≡ₚ held k;
  fd_close : ∀ s k, s ∈ held k → s :: held (sys_close s k) ≡ₚ held k;
  fd_now : ∀ k t k', sys_now k = (t, k') → held k' ≡ₚ held k;
  fd_sleep : ∀ t k, held (sys_sleep t k) ≡ₚ held k;
}.

(** ** The socket adapter *)

Section socket_io.
Context {K Fd : Type} `{!Sys K Fd} (retries : positive).
Context (held : K → list Fd) (limit : nat) `{!SysOwnership K Fd held limit}.

(** A repeated call that keeps the sockets of [k]. *)
Lemma retry_held {A} (call : K → K + (result Error A * K)) k r k' :
  (∀ k1, held k1 ≡ₚ held k →
     match call k1 with inl k2 => held k2 ≡ₚ held k | inr out => held out.2 ≡ₚ held k end) →
  retry retries call k = (r, k') → held k' ≡ₚ held k.
Proof.
  intros Hcall. unfold retry.
  pose proof (iterate_ind (λ k1, held k1 ≡ₚ held k) (λ out, held out.2 ≡ₚ held k) call Hcall
    retries k (reflexivity _)) as Hi.
  destruct (iterate _ _ _) as [k1|[r1 k1]]; by intros [= <- <-].
Qed.

Lemma send_held s b k r k' : send retries s b k = (r, k') → s ∈ held k → held k' ≡ₚ held k.
Proof.
  intros Hr Hs. eapply retry_held; [|done]. intros k1 Hk. unfold send_once.
  destruct (sys_send s b 0 k1) as [r1 k2] eqn:Hcall.
  apply fd_send in Hcall; [|by rewrite Hk]. rewrite Hk in Hcall.
  destruct r1 as [written|e]; [by destruct (_ =? _)|by destruct (interrupted e)].
Qed.

Lemma wait_held n d t k r k' :
  wait retries n d t k = (r, k') → n ∈ held k → (∀ s, d = Some s → s ∈ held k) →
  held k' ≡ₚ held k.
Proof.
  unfold wait. destruct (sys_now k) as [started k0] eqn:Hnow. intros Hr Hn Hd.
  apply fd_now in Hnow. rewrite <- Hnow. eapply retry_held; [|done]. intros k1 Hk. unfold poll_once.
  destruct (sys_now k1) as [instant k2] eqn:Hnow1. apply fd_now in Hnow1. rewrite Hk, Hnow in Hnow1.
  destruct (sys_poll _ _ k2) as [r1 k3] eqn:Hcall. apply fd_poll in Hcall.
  - rewrite Hnow1 in Hcall. destruct r1 as [bits|e]; [|destruct (interrupted e)]; simpl; by rewrite Hnow.
  - unfold descriptors. constructor; [by rewrite Hnow1|]. destruct d as [s|]; [|constructor].
    constructor; [rewrite Hnow1; by apply Hd|constructor].
Qed.

Lemma receive_held s k r k' : receive retries s k = (r, k') → s ∈ held k → held k' ≡ₚ held k.
Proof.
  intros Hr Hs. eapply retry_held; [|done]. intros k1 Hk. unfold receive_once.
  destruct (sys_recv_from _ _ _ k1) as [r1 k2] eqn:Hcall.
  apply fd_recv in Hcall; [|by rewrite Hk]. rewrite Hk in Hcall.
  destruct r1 as [[[size data] sender]|e]; [done|by destruct (interrupted e)].
Qed.

(** A socket that cannot be set up is closed again. *)
Lemma open_held g k r k' :
  open g k = (r, k') → (length (held k) < limit)%nat →
  held k' ≡ₚ match r with Ok s => s :: held k | Err _ => held k end.
Proof.
  intros Ho Hlim. unfold open in Ho.
  destruct (sys_socket _ k) as [[s|e] k1] eqn:Hs; apply fd_socket in Hs; try done.
  2: { by injection Ho as <- <-. }
  assert (∀ k2, held k2 ≡ₚ s :: held k → s ∈ held k2 ∧ held (sys_close s k2) ≡ₚ held k) as Hclose.
  { intros k2 Hk2. assert (s ∈ held k2) as Hin by (rewrite Hk2; left). split; [done|].
    apply (Permutation_cons_inv (a := s)). by rewrite fd_close. }
  destruct (Hclose _ Hs) as [Hin1 Hc1].
  destruct (sys_bind _ _ _ k1) as [r2 k2] eqn:Hb. apply fd_bind in Hb; [|done]. rewrite Hs in Hb.
  destruct (Hclose _ Hb) as [Hin2 Hc2]. destruct r2; [|by injection Ho as <- <-].
  destruct (sys_connect _ _ _ k2) as [r3 k3] eqn:Hn. apply fd_connect in Hn; [|done]. rewrite Hb in Hn.
  destruct (Hclose _ Hn) as [Hin3 Hc3]. destruct r3; [|by injection Ho as <- <-].
  destruct (sys_set_non_blocking _ _ k3) as [r4 k4] eqn:Hbl. apply fd_nonblock in Hbl; [|done].
  rewrite Hn in Hbl. destruct (Hclose _ Hbl) as [_ Hc4]. by destruct r4; injection Ho as <- <-.
Qed.

Lemma socket_io_ownership :
  IoOwnership K Fd (DatagramIo0 := SocketIo_datagram_io retries) held limit.
Proof.
  constructor; simpl; eauto using open_held, send_held, wait_held, receive_held, fd_close, fd_now,
    fd_sleep.
Qed.
End socket_io.

(** ** The netlink source *)

Section source.
Context {IO Socket : Type} `{!DatagramIo IO Socket}.
Context (deserialize : list N → result string NetlinkMessage).
Context (serialize_get_link : N → N → list N).
Context (held : IO → list Socket) (limit : nat) `{!IoOwnership IO Socket held limit}.
Implicit Types (s : NetlinkSource IO Socket) (base : list Socket).

(** The source owns its notification socket; [base] is open besides. *)
Definition owns base s : Prop := held s.(io) ≡ₚ option_list s.(notification) ++ base.

Lemma owns_in base s n : owns base s → s.(notification) = Some n → n ∈ held s.(io).
Proof. unfold owns. intros -> ->. by left. Qed.

Lemma owns_io base s w : owns base s → held w ≡ₚ held s.(io) → owns base (set_io w s).
Proof. unfold owns. by intros Ho ->. Qed.

(** An assignment to the notification socket drops the one before. *)
Lemma owns_assign base s n :
  owns (option_list n ++ base) s → owns base (set_notification n s).
Proof.
  unfold owns. simpl. destruct (notification s) as [old|]; simpl; [|done].
  intros Ho. apply (Permutation_cons_inv (a := old)). rewrite own_drop, Ho; [done|].
  rewrite Ho. by left.
Qed.

Lemma owns_none base s : owns base s → owns base (set_notification None s).
Proof. apply (owns_assign base s None). Qed.

Lemma now_owns base s t s' : now s = (t, s') → owns base s → owns base s'.
Proof.
  unfold now. destruct (io_now _) as [i w] eqn:Hi. intros [= <- <-] Ho.
  apply owns_io; [done|]. by apply own_now in Hi.
Qed.

Lemma receive_notification_owns base s r s' :
  receive_notification deserialize s = (r, s') → owns base s → owns base s'.
Proof.
  unfold receive_notification. intros Hr Ho.
  destruct (notification s) as [n|] eqn:Hn; [|by injection Hr as <- <-].
  destruct (io_receive n _) as [[dg|e] w] eqn:Hrec; apply own_receive in Hrec;
    eauto using owns_in; pose proof (owns_io _ _ _ Ho Hrec) as Ho1; [|by injection Hr as <- <-].
  destruct (notification_change _ _) as [[]|e]; [|by injection Hr as <- <-..].
  destruct (now _) as [t s1] eqn:Hnow. injection Hr as <- <-. by eapply now_owns.
Qed.

Lemma subscribe_owns base s r s' :
  subscribe s = (r, s') → owns base s → (length base + 2 <= limit)%nat → owns base s'.
Proof.
  unfold subscribe. intros Hs Ho Hlim.
  destruct (io_open _ _) as [[n|e] w] eqn:Hopen; injection Hs as <- <-; apply own_open in Hopen.
  2,4: rewrite Ho; destruct (notification s); simpl; lia.
  - apply owns_assign. unfold owns. simpl. rewrite Hopen, Ho. by rewrite Permutation_middle.
  - by apply owns_io.
Qed.

Lemma wait_owns base timeout s r s' :
  NetlinkSource.wait deserialize timeout s = (r, s') → owns base s → owns base s'.
Proof.
  unfold NetlinkSource.wait. intros Hw Ho.
  destruct (notification s) as [n|] eqn:Hn.
  2: { injection Hw as <- <-. apply owns_io; [done|]. apply own_sleep. }
  destruct (io_wait _ _ _ _) as [[ready|e] w] eqn:Hwait; apply own_wait in Hwait;
    eauto using owns_in; try done; pose proof (owns_io _ _ _ Ho Hwait) as Ho1.
  2: { injection Hw as <- <-. by apply owns_none. }
  destruct (notification_failed ready); [injection Hw as <- <-; by apply owns_none|].
  destruct (notification_ready ready); simpl in Hw; [|by injection Hw as <- <-].
  destruct (receive_notification _ _) as [[[t|]|e] s1] eqn:Hrn;
    apply (receive_notification_owns base) in Hrn; try done; injection Hw as <- <-; [done..|].
  by apply owns_none.
Qed.

(** *** The inventory, while the dump socket is open too *)

Lemma inventory_step_owns base attempt dump seq deadline (p : Progress (IO := IO) (Socket := Socket)) :
  dump ∈ base → owns base p.(source) →
  match inventory_step deserialize attempt dump seq deadline p with
  | inl p' => owns base p'.(source)
  | inr out => owns base out.2
  end.
Proof.
  intros Hin Ho. unfold inventory_step.
  destruct (io_now _) as [instant w] eqn:Hnow. apply own_now in Hnow.
  pose proof (owns_io _ _ _ Ho Hnow) as Ho1. destruct (is_zero _); [done|].
  destruct (notification (set_io w (source p))) as [n|] eqn:Hn; [|done].
  assert (∀ q : NetlinkSource IO Socket, owns base q → dump ∈ held q.(io)) as Hdump
    by (intros q ->; apply elem_of_app; by right).
  destruct (io_wait _ _ _ _) as [[ready|e] w1] eqn:Hwait; apply own_wait in Hwait;
    eauto using owns_in; try (by intros ? [= <-]; apply Hdump);
    pose proof (owns_io _ _ _ Ho1 Hwait) as Ho2; [|by apply owns_none].
  destruct (notification_failed ready); [by apply owns_none|]. destruct (dump_failed ready); [done|].
  assert (∀ q : Progress (IO := IO) (Socket := Socket), owns base q.(source) →
    match (if dump_ready ready then take_dump deserialize attempt dump seq q else inl q) with
    | inl p' => owns base p'.(source)
    | inr out => owns base out.2
    end) as Htake.
  { intros q Hq. destruct (dump_ready ready); [|done]. unfold take_dump.
    destruct (io_receive _ _) as [[dg|e] w2] eqn:Hrec; apply own_receive in Hrec; auto;
      pose proof (owns_io _ _ _ Hq Hrec) as Hq1; [|done].
    by destruct (accept_dump _ _ _ _ _) as [[[[] ?] ?]|?]. }
  destruct (notification_ready ready); [|by apply Htake]. unfold take_notification. simpl.
  destruct (receive_notification _ _) as [[at_time|e] s2] eqn:Hrn;
    apply (receive_notification_owns base) in Hrn; try done; [by apply Htake|by apply owns_none].
Qed.

Lemma inventory_loop_owns base attempt dump seq deadline (p : Progress (IO := IO) (Socket := Socket))
    r s' :
  inventory_loop deserialize attempt dump seq deadline p = (r, s') →
  dump ∈ base → owns base p.(source) → owns base s'.
Proof.
  unfold inventory_loop. intros Hi Hin Ho.
  pose proof (iterate_ind (λ x, owns base x.(source)) (λ out, owns base out.2) _
    (λ x, inventory_step_owns base attempt dump seq deadline x Hin) INVENTORY_FUEL p Ho) as Hl.
  destruct (iterate _ _ _) as [p'|out]; [by injection Hi as <- <-|by subst out].
Qed.

Lemma inventory_on_owns base dump attempt s r s' :
  inventory_on deserialize serialize_get_link dump attempt s = (r, s') →
  dump ∈ base → owns base s → owns base s'.
Proof.
  unfold inventory_on. intros Hi Hin Ho.
  assert (owns base (next_sequence s).2) as Hs by exact Ho.
  destruct (next_sequence s) as [seq s1]. simpl in Hs. clear s Ho.
  assert (dump ∈ held s1.(io)) as Hdump by (rewrite Hs; apply elem_of_app; by right).
  destruct (io_send _ _ _) as [[[]|e] w] eqn:Hsend; apply own_send in Hsend; try done;
    pose proof (owns_io _ _ _ Hs Hsend) as Hs1; [|by injection Hi as <- <-].
  destruct (io_now w) as [instant w1] eqn:Hnow. apply own_now in Hnow. rewrite Hsend in Hnow.
  eapply inventory_loop_owns; [done..|]. by apply owns_io.
Qed.

Lemma inventory_owns base attempt s r s' :
  inventory deserialize serialize_get_link attempt s = (r, s') →
  owns base s → (length base + 2 <= limit)%nat → owns base s'.
Proof.
  unfold inventory. intros Hi Ho Hlim.
  destruct (io_open 0 _) as [[dump|e] w] eqn:Hopen; apply own_open in Hopen.
  2,4: rewrite Ho; destruct (notification s); simpl; lia.
  2: { injection Hi as <- <-. by apply owns_io. }
  destruct (inventory_on _ _ _ _ _) as [r1 s1] eqn:Hon.
  assert (owns (dump :: base) s1) as Ho1.
  { eapply inventory_on_owns; [done|by left|]. unfold owns. simpl. rewrite Hopen, Ho.
    by rewrite Permutation_middle. }
  injection Hi as <- <-. unfold owns in *. simpl. apply (Permutation_cons_inv (a := dump)).
  rewrite own_drop, Ho1, Permutation_middle; [done|]. rewrite Ho1. apply elem_of_app. right. by left.
Qed.
End source.

(** ** The production stack *)

Section stack.
Context {ID : Type} `{IdLaws ID} {K Fd : Type} `{!Sys K Fd} (retries : positive).
Context (deserialize : list N → result string NetlinkMessage).
Context (serialize_get_link : N → N → list N).
Context (held : K → list Fd) (limit : nat) `{!SysOwnership K Fd held limit}.

#[local] Instance socket_io : DatagramIo K Fd := SocketIo_datagram_io retries.
#[local] Instance netlink_source : Acquisition (NetlinkSource K Fd) :=
  netlink deserialize serialize_get_link.

Lemma owns_kept (fds : list Fd) :
  (length fds + 2 <= limit)%nat → world_kept (W := NetlinkSource K Fd) (owns held fds).
Proof.
  intros Hlim. pose proof (socket_io_ownership (K := K) (Fd := Fd) retries held limit).
  constructor; simpl; eauto using now_owns, wait_owns, inventory_owns, subscribe_owns.
Qed.

(** C19. No descriptor leaks, none is used after it was closed, and two are enough: over
    system calls that give out descriptors only while [limit] leaves room for two more
    than were open at the start, and that answer for open descriptors only, the monitor
    has after any number of iterations exactly its notification socket open besides
    those, and it has that exactly while it counts as subscribed. *)
Theorem sockets_released (k : K) (fds : list Fd) (r : N) (n : nat) (acts : list (Action ID))
    (c : Monitor.Config ID (NetlinkSource K Fd)) :
  held k ≡ₚ fds → (length fds + 2 <= limit)%nat →
  Monitor.run n (run_start (new retries k) r) = Some (acts, c) →
  held c.(world).(io) ≡ₚ option_list c.(world).(notification) ++ fds ∧
  length (held c.(world).(io)) =
    (length fds + if c.(state).(subscribed) then 1 else 0)%nat.
Proof.
  intros Hk Hlim Hrun.
  assert (owns held fds c.(world)) as Ho.
  { eapply run_kept; [by apply owns_kept|done|]. unfold owns. simpl. unfold new, with_io. simpl.
    destruct (sys_now k) as [t k1] eqn:Hnow. apply fd_now in Hnow. simpl. by rewrite Hnow. }
  split; [exact Ho|]. apply run_inv in Hrun as Hsub; [|apply start_inv].
  unfold sys_inv in Hsub. rewrite Hsub. unfold owns in Ho. rewrite Ho. unfold has_socket.
  destruct (notification _); simpl; lia.
Qed.
End stack.
