(* ===== verification/Production.v ===== *)
(** Freshness down to the system calls: a kernel whose calls answer as they do
    when nothing changes is a quiet kernel under the socket adapter, so that
    the production stack publishes the table of exactly its links. *)

From S2P Require Import Prelude BTree Link Agentx Mib Duration Monitor MonitorRuns Timed Recovery Responsive.
From S2P Require Import Netlink NetlinkSource SocketIo Timing Delivery System Freshness Stack.
Open Scope N_scope.

(** The longest timeout [poll] can wait for without being clamped: 24 days. *)
Definition LONGEST_POLL : N := I32_MAX * NANOS_PER_MILLI.

Section production.
Context {ID : Type} `{IdLaws ID} {K Fd : Type} `{!Sys K Fd} (retries : positive).
Context (deserialize : list N → result string NetlinkMessage).
Context (serialize_get_link : N → N → list N).
Context (sys_clock : K → N) `{!SysLaws K Fd sys_clock}.

#[local] Instance socket_io : DatagramIo K Fd := SocketIo_datagram_io retries.
#[local] Instance netlink_source : Acquisition (NetlinkSource K Fd) :=
  netlink deserialize serialize_get_link.

(** ** Specification *)

(** A non-blocking netlink socket in [groups], connected to the kernel. *)
Definition opens (groups : N) (k : K) (fd : Fd) (k' : K) : Prop :=
  ∃ k1 k2 k3, sys_socket NETLINK_ROUTE k = (Ok fd, k1) ∧ sys_bind fd 0 groups k1 = (Ok tt, k2) ∧
    sys_connect fd 0 0 k2 = (Ok tt, k3) ∧ sys_set_non_blocking fd true k3 = (Ok tt, k').

Definition readable (fd : Fd) : PollFd Fd := mkPollFd fd (N.lor POLLIN POLLERR) 0.

(** Before [deadline], [poll] reports [dump] readable and [notification] not,
    and [recv_from] yields the next of [chunks] from the kernel's port. *)
Fixpoint arrivals (notification dump : Fd) (deadline : N) (k : K)
    (chunks : list (list N)) (last : K) : Prop :=
  match chunks with
  | [] => k = last
  | chunk :: chunks =>
      ∃ t k1 started k2 instant k3 bits k4 k5,
        sys_now k = (t, k1) ∧ t < deadline ∧ sys_now k1 = (started, k2) ∧
        sys_now k2 = (instant, k3) ∧
        sys_poll [readable notification; readable dump]
          (poll_millis (deadline - t - (instant - started))) k3 = (Ok bits, k4) ∧
        bits 0%nat = 0 ∧ bits 1%nat = POLLIN ∧
        sys_recv_from dump MAX_DATAGRAM MSG_TRUNC k4 = (Ok (len chunk, chunk, 0), k5) ∧
        len chunk ≤ MAX_DATAGRAM ∧ arrivals notification dump deadline k5 chunks last
  end.

(** In the states of [good] the kernel works, its links are [links], and
    nothing changes: sockets can be opened, a poll of the notification socket
    runs into its timeout, and a request is answered in time by one complete
    dump of [links]. *)
Record quiet_system (links : list ObservedLink) (good : option Fd → K → Prop) : Prop := {
  system_valid : valid_inventory links;
  system_now : ∀ o k t k', good o k → sys_now k = (t, k') → good o k';
  system_sleep : ∀ t k, good None k →
    good None (sys_sleep t k) ∧ sys_clock k + t ≤ sys_clock (sys_sleep t k);
  system_subscribe : ∀ k, good None k →
    ∃ fd k', opens LINK_MULTICAST_GROUP k fd k' ∧ good (Some fd) k';
  system_poll : ∀ n ms k, good (Some n) k → ms ≤ I32_MAX →
    ∃ bits k', sys_poll [readable n] ms k = (Ok bits, k') ∧ bits 0%nat = 0 ∧ good (Some n) k' ∧
      sys_clock k + ms * NANOS_PER_MILLI ≤ sys_clock k';
  system_dump : ∀ n k seq, good (Some n) k →
    let request := dump_request serialize_get_link seq in
    ∃ dump k1 k2 t k3 chunks parts chunk observed last,
      opens 0 k dump k1 ∧ sys_send dump request 0 k1 = (Ok (len request), k2) ∧
      sys_now k2 = (t, k3) ∧
      arrivals n dump (t + INVENTORY_TIMEOUT) k3 (chunks ++ [chunk]) last ∧
      Forall2 (part deserialize seq) chunks parts ∧ last_part deserialize seq chunk observed ∧
      mjoin parts ++ observed = links ∧
      len (mjoin (chunks ++ [chunk])) ≤ MAX_INVENTORY_BYTES ∧
      good (Some n) (sys_close dump last);
}.

(** ** The calls of the adapter *)

(** A call that is not interrupted is made once. *)
Lemma retry_done {A} (call : K → K + (result Error A * K)) k out :
  call k = inr out → retry retries call k = out.
Proof using.
  intros Hc. unfold retry. rewrite (iterate_leaves retries 1 call k out); [done| |lia].
  simpl. by rewrite Hc.
Qed.

Lemma open_opens groups k fd k' : opens groups k fd k' → open groups k = (Ok fd, k').
Proof using.
  intros (k1 & k2 & k3 & Hs & Hb & Hc & Hn). unfold open. by rewrite Hs, Hb, Hc, Hn.
Qed.

Lemma send_whole fd bytes k k' :
  sys_send fd bytes 0 k = (Ok (len bytes), k') → send retries fd bytes k = (Ok tt, k').
Proof using.
  intros Hs. apply retry_done. unfold send_once. by rewrite Hs, N.eqb_refl.
Qed.

Lemma receive_whole fd chunk k k' :
  sys_recv_from fd MAX_DATAGRAM MSG_TRUNC k = (Ok (len chunk, chunk, 0), k') →
  len chunk ≤ MAX_DATAGRAM → receive retries fd k = (Ok (mkDatagram chunk true false), k').
Proof using.
  intros Hr Hlen. apply retry_done. unfold receive_once. rewrite Hr.
  rewrite len_fill_buffer, <- len_empty_storage in *.
  rewrite fill_buffer_data by lia. by rewrite (proj2 (N.ltb_ge _ _)).
Qed.

(** A wait polls for what is left of its timeout. *)
Lemma wait_polls n dump timeout k started k1 instant k2 bits k3 :
  sys_now k = (started, k1) → sys_now k1 = (instant, k2) →
  sys_poll (descriptors n dump) (poll_millis (timeout - (instant - started))) k2 = (Ok bits, k3) →
  wait retries n dump timeout k = (Ok (ready_of (set_revents bits (descriptors n dump))), k3).
Proof using.
  intros Hn1 Hn2 Hp. unfold wait. rewrite Hn1. apply retry_done. unfold poll_once, saturating_sub.
  by rewrite Hn2, Hp.
Qed.

Lemma wait_quiet links good n timeout k :
  quiet_system links good → good (Some n) k → timeout ≤ LONGEST_POLL →
  ∃ k', wait retries n None timeout k = (Ok (mkReady false false false false), k') ∧
    good (Some n) k' ∧ sys_clock k + timeout ≤ sys_clock k'.
Proof using SysLaws0.
  intros Hq Hg Ht. destruct (sys_now k) as [started k1] eqn:Hn1. destruct (sys_now k1) as [instant k2] eqn:Hn2.
  assert (good (Some n) k2) as Hg2 by (eapply (system_now _ _ Hq), Hn2; by eapply (system_now _ _ Hq)).
  destruct (poll_millis_bounds (timeout - (instant - started))) as (Hmax & Hround & _).
  destruct (system_poll _ _ Hq n _ k2 Hg2 Hmax) as (bits & k3 & Hp & Hb & Hg3 & Hc3).
  exists k3. rewrite (wait_polls n None timeout k started k1 instant k2 bits k3) by done.
  split; [|split; [done|]].
  - unfold ready_of, set_revents. simpl. by rewrite Hb.
  - apply sys_now_law in Hn1 as [? ?]. apply sys_now_law in Hn2 as [? ?].
    unfold LONGEST_POLL in Ht. destruct (N.lt_ge_cases (poll_millis (timeout - (instant - started))) I32_MAX) as [Hlt|].
    + specialize (Hround Hlt). lia.
    + assert (I32_MAX * NANOS_PER_MILLI ≤ poll_millis (timeout - (instant - started)) * NANOS_PER_MILLI) by nia. lia.
Qed.

Lemma arrivals_delivered n dump deadline k chunks last :
  arrivals n dump deadline k chunks last → deliveries n dump deadline k chunks last.
Proof using.
  revert k. induction chunks as [|chunk chunks IH]; intros k; [done|].
  intros (t & k1 & started & k2 & instant & k3 & bits & k4 & k5 & Hn & Ht & Hn1 & Hn2 & Hp & Hb0 & Hb1 &
    Hr & Hlen & Hrest).
  exists t, k1, k4, k5. split_and!; [done|done| | |by apply IH].
  - change (wait retries n (Some dump) (deadline - t) k1 = (Ok (mkReady false true false false), k4)).
    rewrite (wait_polls n (Some dump) _ k1 started k2 instant k3 bits k4) by done.
    unfold ready_of, set_revents. simpl. by rewrite Hb0, Hb1.
  - by apply receive_whole.
Qed.

(** The adapter makes a quiet kernel of it. *)
Lemma quiet_system_kernel links good :
  quiet_system links good →
  quiet_kernel deserialize serialize_get_link sys_clock LONGEST_POLL links good.
Proof using SysLaws0.
  intros Hq. constructor.
  - apply Hq.
  - apply (system_now _ _ Hq).
  - apply (system_sleep _ _ Hq).
  - intros k Hg. destruct (system_subscribe _ _ Hq k Hg) as (fd & k' & Ho%open_opens & Hg').
    by exists fd, k'.
  - intros n t k Hg Ht. by apply (wait_quiet links good).
  - intros n k seq Hg. destruct (system_dump _ _ Hq n k seq Hg)
      as (dump & k1 & k2 & t & k3 & chunks & parts & chunk & observed & last & Ho%open_opens &
          Hs%send_whole & Hn & Ha%arrivals_delivered & Hrest).
    by exists dump, k1, k2, t, k3, chunks, parts, chunk, observed, last.
Qed.

(** ** Theorems *)

(** C17. Freshness of the production stack, from the system calls up: whatever happened before,
    once the calls answer as they do when no link changes, at most two iterations of the
    monitor publish the ifStackTable of the topology of exactly the kernel's links, and
    the cell holds it from then on: at the latest three seconds and a few calls after the
    next attempt is due, which is at most 30 seconds or the reconciliation interval
    ahead. The interval must not exceed the 24 days that a poll can wait for. *)
Theorem production_links_published (delta : N) (links : list ObservedLink)
    (good : option Fd → K → Prop) (k : K) (r : N) (n : nat) (pre : list (Action ID))
    (c : Monitor.Config ID (NetlinkSource K Fd)) :
  SysTiming K Fd sys_clock delta → quiet_system links good →
  N.max MAX_DELAY r ≤ LONGEST_POLL →
  Monitor.run n (run_start (new retries k) r) = Some (pre, c) →
  good c.(world).(notification) c.(world).(io) →
  let clock := source_clock sys_clock in
  let now := clock c.(world) in
  let due := next_deadline c.(state) now in
  (∃ j acts c' m, (j <= 2)%nat ∧ Monitor.run j c = Some (acts, c') ∧
     Publish m ∈ acts ∧ snapshot c'.(cell) = Some m ∧ links_table links m ∧
     clock c'.(world) ≤ N.max now due + INVENTORY_TIMEOUT + 42 * io_delta retries delta ∧
     ∀ i, ∃ acts' c'' m', Monitor.run i c' = Some (acts', c'') ∧
       snapshot c''.(cell) = Some m' ∧ links_table links m') ∧
  due ≤ now + N.max MAX_DELAY r ∧
  ∀ d, c.(state).(event_deadline) = Some d →
    d ≤ now + MAX_DELAY ∧ (c.(state).(retry_not_before) = None → due ≤ N.max d now).
Proof.
  intros Htiming Hq Hr Hrun Hg.
  pose proof (socket_io_laws (K := K) (Fd := Fd) retries sys_clock).
  pose proof (socket_io_timing (K := K) (Fd := Fd) retries sys_clock delta).
  exact (kernel_links_published deserialize serialize_get_link sys_clock (io_delta retries delta)
    LONGEST_POLL links good (quiet_system_kernel links good Hq) k r n pre c Hr Hrun Hg).
Qed.
End production.
