(* ===== verification/Process.v ===== *)
(** The whole process of [src/src/main.rs]: the monitor thread and the main
    thread interleaved in any order, sharing the publication cell. *)

From S2P Require Import Prelude BTree Link Agentx Mib Duration Monitor MonitorRuns.
From S2P Require Import Netlink NetlinkSource Config Notify Session Main System.
Open Scope N_scope.

(** The exit status of a Rust process whose main thread panics. *)
Definition PANIC_EXIT_STATUS : N := 101.

Inductive Thread := MonitorThread | MainThread.

#[export] Instance Thread_eq_dec : EqDecision Thread.
Proof. solve_decision. Defined.

Section process.
Context {ID : Type} `{!IdOps ID, !PduOps ID}.
Context {W : Type} `{!Acquisition W} {St : Type} `{!Stream St}.
(** The service manager's socket, as [notify::ready] uses it, over the world
    of the main thread. *)
Context {SocketAddr : Type} (from_abstract_name from_pathname : string → result Error SocketAddr).
Context (unbound : St → result Error unit * St).
Context (send_to_addr : string → SocketAddr → St → result Error unit * St) (release : St → St).
Context (var_os : string → option string).
Context (sleep : N → St → St) (retries : positive).

(** ** The threads *)

(** The monitor thread: its loop's configuration, and the actions of its last
    iteration that it has still to make. Its own field [cell] is what the
    shared cell holds once they are made. *)
Record Mon := mkMon { m_config : Monitor.Config ID W; m_pending : list (Monitor.Action ID) }.

(** Where the main thread is: at the head of its own loop, at the head of the
    request loop of the session [session], with a PDU in hand, with an answer
    to write, or after [session::run] returned. *)
Inductive Phase :=
| Connecting
| Serving (started session : N)
| Received (started session : N) (header : Header) (bytes : list N)
| Reacted (started session : N) (reaction : Reaction)
| Ended (started : N).

Record Ses := mkSes { s_config : Config; s_backoff : N; s_phase : Phase; s_world : St }.

Inductive Process :=
| Alive (mon : Mon) (cell : option (list (ID * Value ID))) (ses : Ses)
| Terminated (status : N).

(** What the threads do to each other and to the outside: the monitor's
    actions, the main thread's look at the cell for one PDU with what it came
    to, a response written, and the pause after a session. *)
Inductive Event :=
| Acted (act : Monitor.Action ID)
| Looked (session : N) (header : Header) (bytes : list N)
    (mib : option (list (ID * Value ID))) (out : option (result Error Reaction))
| Sent (out : list N)
| Paused (elapsed slept : N).

(** One step of the monitor thread: the next action it owes, or the next
    iteration of its loop. A panic ends the process through [run_monitor]. *)
Definition monitor_step (mon : Mon) (cell : option (list (ID * Value ID)))
    : list Event * (Mon * option (list (ID * Value ID)) + N) :=
  match mon.(m_pending) with
  | act :: pending =>
      ([Acted act], inl (mkMon mon.(m_config) pending, apply_action cell act))
  | [] =>
      match run_step mon.(m_config) with
      | Some (acts, c) => ([], inl (mkMon c acts, cell))
      | None => ([], inr (run_monitor Panicked))
      end
  end.

(** Go on in another phase. *)
Definition go (s : Ses) (phase : Phase) (w : St) : list Event * option Ses :=
  ([], Some (mkSes s.(s_config) s.(s_backoff) phase w)).

(** The request loop of [session::run], in the stages at which the thread may be
    held up. Where [session::run] returns, its stream is dropped.

    At its head, it receives a PDU. *)
Definition session_receive (s : Ses) (started session : N) : list Event * option Ses :=
  match Session.receive (ID := ID) retries IO_TIMEOUT s.(s_world) with
  | (Ok (header, bytes), w) => go s (Received started session header bytes) w
  | (Err _, w) => go s (Ended started) (st_drop w)
  end.

(** With a PDU in hand, it looks at [cell] and comes to a reaction; [None] is a
    panic. *)
Definition session_react (cell : option (list (ID * Value ID))) (s : Ses) (started session : N)
    (header : Header) (bytes : list N) : list Event * option Ses :=
  let mib := snapshot cell in
  let out := react session header bytes mib in
  ([Looked session header bytes mib out],
   match out with
   | None => None
   | Some (Ok x) => (go s (Reacted started session x) s.(s_world)).2
   | Some (Err _) => (go s (Ended started) (st_drop s.(s_world))).2
   end).

(** Then it writes the response, if there is one, and goes on or returns. *)
Definition session_write (s : Ses) (started session : N) (x : Reaction)
    : list Event * option Ses :=
  match x with
  | Ignore => go s (Serving started session) s.(s_world)
  | Reply out =>
      match st_write_all out s.(s_world) with
      | (Ok _, w) => ([Sent out], (go s (Serving started session) w).2)
      | (Err _, w) => go s (Ended started) (st_drop w)
      end
  | Finish out =>
      match st_write_all out s.(s_world) with
      | (Ok _, w) => ([Sent out], (go s (Ended started) (st_drop w)).2)
      | (Err _, w) => go s (Ended started) (st_drop w)
      end
  end.

(** One step of the main thread, which finds [cell] shared; [None] is a
    panic. *)
Definition main_step (cell : option (list (ID * Value ID))) (s : Ses)
    : list Event * option Ses :=
  match s.(s_phase) with
  | Connecting =>
      let '(started, w) := st_now s.(s_world) in
      let registered := Notify.ready from_abstract_name from_pathname unbound send_to_addr release var_os in
      match handshake registered retries s.(s_config) w with
      | (Some (Ok session), w) => go s (Serving started session) w
      | (Some (Err _), w) => go s (Ended started) w
      | (None, _) => ([], None)
      end
  | Serving started session => session_receive s started session
  | Received started session header bytes => session_react cell s started session header bytes
  | Reacted started session x => session_write s started session x
  | Ended started =>
      let '(instant, w) := st_now s.(s_world) in
      let elapsed := saturating_sub instant started in
      let '(slept, backoff) := next_backoff s.(s_backoff) elapsed in
      ([Paused elapsed slept], Some (mkSes s.(s_config) backoff Connecting (sleep slept w)))
  end.

(** One step of the process: the scheduler picks a thread. *)
Definition process_step (thread : Thread) (p : Process) : list Event * Process :=
  match p with
  | Terminated status => ([], Terminated status)
  | Alive mon cell ses =>
      match thread with
      | MonitorThread =>
          match monitor_step mon cell with
          | (es, inl (mon, cell)) => (es, Alive mon cell ses)
          | (es, inr status) => (es, Terminated status)
          end
      | MainThread =>
          match main_step cell ses with
          | (es, Some ses) => (es, Alive mon cell ses)
          | (es, None) => (es, Terminated PANIC_EXIT_STATUS)
          end
      end
  end.

(** The process under a schedule, with its events in order. *)
Fixpoint interleave (schedule : list Thread) (p : Process) : list Event * Process :=
  match schedule with
  | [] => ([], p)
  | thread :: schedule =>
      let '(es, p) := process_step thread p in
      let '(es', p) := interleave schedule p in (es ++ es', p)
  end.

(** [fn main]: exit, or both threads at the heads of their loops, over the
    worlds [w] of the monitor and [u] of the main thread. *)
Definition launch (read_to_string : string → result Error string)
    (from_str : string → result string Config) (args : list string) (spawned : result Error unit)
    (w : W) (u : St) : Process :=
  match start read_to_string from_str args spawned with
  | Exit status _ => Terminated status
  | Supervising config reconcile =>
      Alive (mkMon (run_start w reconcile) []) publication
        (mkSes config (from_secs 1) Connecting u)
  end.
End process.

Arguments mkMon {ID W}.
Arguments m_config {ID W}.
Arguments m_pending {ID W}.
Arguments mkSes {St}.
Arguments s_config {St}.
Arguments s_backoff {St}.
Arguments s_phase {St}.
Arguments s_world {St}.
Arguments Alive {ID W St}.
Arguments Terminated {ID W St}.
Arguments Acted {ID}.
Arguments Looked {ID}.
Arguments Sent {ID}.
Arguments Paused {ID}.

(** ** Observations of a run *)

Section observations.
Context {ID : Type}.

(** The monitor's actions, in order. *)
Definition acted (es : list (Event (ID := ID))) : list (Monitor.Action ID) :=
  omap (λ e, if e is Acted act then Some act else None) es.

(** The cell's content after the events [es]. *)
Definition cell_after (es : list (Event (ID := ID))) : option (list (ID * Value ID)) :=
  foldl apply_action publication (acted es).

(** How long the sessions took and how long the pauses after them. *)
Definition pauses (es : list (Event (ID := ID))) : list (N * N) :=
  omap (λ e, if e is Paused elapsed slept then Some (elapsed, slept) else None) es.

Lemma acted_app es es' : acted (es ++ es') = acted es ++ acted es'.
Proof. apply omap_app. Qed.

Lemma pauses_app es es' : pauses (es ++ es') = pauses es ++ pauses es'.
Proof. apply omap_app. Qed.
End observations.

(** ** The conversation of the main thread *)

Section conversation.
Context {ID : Type}.
Implicit Types (e : Event (ID := ID)).

(** The main thread's events. *)
Definition spoken (es : list (Event (ID := ID))) : list (Event (ID := ID)) :=
  omap (λ e, if e is Acted _ then None else Some e) es.

(** Nothing is owed to the peer after [before]: no request was looked at whose
    response is still to be written. *)
Definition settled (before : option (Event (ID := ID))) : Prop :=
  match before with
  | Some (Looked _ _ _ _ out) => out = Some (Ok Ignore)
  | _ => True
  end.

(** What may follow [before]: a response to the request just looked at, the next
    request once that is written, and a pause at any time. *)
Definition follows (before : option (Event (ID := ID))) (e : Event (ID := ID)) : Prop :=
  match e with
  | Acted _ => False
  | Looked _ _ _ _ _ => settled before
  | Sent out => ∃ session header bytes mib x,
      before = Some (Looked session header bytes mib (Some (Ok x))) ∧
      (x = Reply out ∨ x = Finish out)
  | Paused _ _ => True
  end.

Definition conversation (es : list (Event (ID := ID))) : Prop :=
  ∀ pre e post, spoken es = pre ++ e :: post → follows (list.last pre) e.

(** What the phase of the main thread says of its last event. *)
Definition expects {St} (s : Ses (St := St)) (before : option (Event (ID := ID))) : Prop :=
  match s.(s_phase) with
  | Reacted _ _ x => ∃ session header bytes mib,
      before = Some (Looked session header bytes mib (Some (Ok x)))
  | Ended _ => True
  | _ => settled before
  end.

Lemma spoken_app es es' : spoken (es ++ es') = spoken es ++ spoken es'.
Proof. apply omap_app. Qed.

Lemma conversation_snoc es e :
  conversation es → spoken [e] = [e] → follows (list.last (spoken es)) e → conversation (es ++ [e]).
Proof.
  intros Hc He Hf pre e' post. rewrite spoken_app, He. intros Heq.
  destruct post as [|e2 post _] using rev_ind.
  - apply app_inj_tail in Heq as [<- <-]. done.
  - rewrite app_comm_cons, app_assoc in Heq. apply app_inj_tail in Heq as [Heq _].
    by eapply Hc.
Qed.
End conversation.

(** ** Lemmas *)

Section lemmas.
Context {ID : Type} `{IdLaws ID, !PduOps ID}.
Context {W : Type} `{!Acquisition W} {St : Type} `{!Stream St}.
Context {SocketAddr : Type} (from_abstract_name from_pathname : string → result Error SocketAddr).
Context (unbound : St → result Error unit * St).
Context (send_to_addr : string → SocketAddr → St → result Error unit * St) (release : St → St).
Context (var_os : string → option string).
Context (sleep : N → St → St) (retries : positive).

Notation process_step := (process_step (W := W) from_abstract_name from_pathname unbound
  send_to_addr release var_os sleep retries).
Notation interleave := (interleave (W := W) from_abstract_name from_pathname unbound
  send_to_addr release var_os sleep retries).
Notation main_step := (main_step (ID := ID) from_abstract_name from_pathname unbound
  send_to_addr release var_os sleep retries).

(** What one look at the cell [cell] yields. *)
Definition look_ok (cell : option (list (ID * Value ID))) (e : Event (ID := ID)) : Prop :=
  match e with
  | Looked session header bytes mib out => mib = cell ∧ out = react session header bytes mib
  | _ => True
  end.

Context (incoming outgoing : St → list N) (timeout : St → option N) (clock : St → N).
Context `{!StreamLaws St incoming outgoing timeout clock}.

(** Close a phase change with the facts [H] about it. *)
Ltac step_done H := apply H; simpl; done || lia || by repeat constructor.

(** A step of the main thread: no panic, no action of the monitor, looks at
    the cell as it is, and the backoff of [main]. *)
Lemma main_step_spec cell (s : Ses (St := St)) :
  long_responses (ID := ID) →
  ∃ es s', main_step cell s = (es, Some s') ∧ acted es = [] ∧ (length es <= 1)%nat ∧
    Forall (look_ok cell) es ∧ s'.(s_config) = s.(s_config) ∧
    match pauses es with
    | [] => s'.(s_backoff) = s.(s_backoff)
    | (elapsed, slept) :: _ => next_backoff s.(s_backoff) elapsed = (slept, s'.(s_backoff))
    end.
Proof.
  intros Hlong. unfold Process.main_step, session_receive, session_react, session_write, go. cbn [snd].
  assert (∀ phase w es, acted es = [] → pauses es = [] → (length es <= 1)%nat → Forall (look_ok cell) es →
    ∃ es' (s' : Ses (St := St)), (es, Some (mkSes s.(s_config) s.(s_backoff) phase w)) = (es', Some s') ∧ acted es' = [] ∧
      (length es' <= 1)%nat ∧ Forall (look_ok cell) es' ∧ s'.(s_config) = s.(s_config) ∧
      match pauses es' with
      | [] => s'.(s_backoff) = s.(s_backoff)
      | (elapsed, slept) :: _ => next_backoff s.(s_backoff) elapsed = (slept, s'.(s_backoff))
      end) as Hgo.
  { intros phase w es Ha Hp Hl Hok. eexists es, _. rewrite Hp. by split_and!. }
  destruct (s_phase s) as [|started session|started session header bytes|started session x|started].
  - destruct (st_now (s_world s)) as [started w].
    pose proof (handshake_total incoming outgoing timeout clock (ID := ID)
      (Notify.ready from_abstract_name from_pathname unbound send_to_addr release var_os) retries
      (s_config s) w) as [r Hr].
    destruct (handshake _ _ _ _) as [[[session|e]|] w1]; [step_done Hgo..|done].
  - destruct (Session.receive _ _ _) as [[[header bytes]|e] w1]; step_done Hgo.
  - destruct (react_spec session header bytes (snapshot cell) Hlong) as (out & Hr & _).
    rewrite Hr. assert (Forall (look_ok cell) [Looked session header bytes (snapshot cell) (Some out)])
      as Hl by (by repeat constructor).
    destruct out as [x|e]; step_done Hgo.
  - destruct x as [out|out|]; [| |step_done Hgo];
      destruct (st_write_all _ _) as [[[]|e] w1]; step_done Hgo.
  - destruct (st_now (s_world s)) as [instant w].
    destruct (next_backoff _ _) as [slept backoff] eqn:Hb.
    eexists _, _. split; [done|]. split_and!; simpl; done || lia || by repeat constructor.
Qed.

(** How the processes before and after the events [es] are related. *)
Definition leads_to (mon : Mon (ID := ID) (W := W)) (cell : option (list (ID * Value ID)))
    (ses : Ses (St := St)) (es : list (Event (ID := ID)))
    (p : Process (ID := ID) (W := W) (St := St)) : Prop :=
  ∃ mon' cell' (ses' : Ses (St := St)) n acts,
    p = Alive mon' cell' ses' ∧
    Monitor.run n mon.(m_config) = Some (acts, mon'.(m_config)) ∧
    mon.(m_pending) ++ acts = acted es ++ mon'.(m_pending) ∧
    cell' = foldl apply_action cell (acted es) ∧
    (∀ pre e post, es = pre ++ e :: post → look_ok (foldl apply_action cell (acted pre)) e) ∧
    ses'.(s_config) = ses.(s_config) ∧
    (pauses es).*2 = delays ses.(s_backoff) (pauses es).*1.

Lemma leads_to_start mon cell ses : leads_to mon cell ses [] (Alive mon cell ses).
Proof.
  exists mon, cell, ses, 0%nat, []. rewrite app_nil_r. split_and!; try done.
  intros pre e post Heq. by destruct pre.
Qed.

Lemma interleave_leads_to schedule mon cell ses :
  long_responses (ID := ID) →
  let '(es, p) := interleave schedule (Alive mon cell ses) in leads_to mon cell ses es p.
Proof.
  intros Hlong. revert mon cell ses. induction schedule as [|thread schedule IH]; intros mon cell ses.
  { apply leads_to_start. }
  cbn [Process.interleave]. destruct thread; cbn [Process.process_step].
  - unfold monitor_step. destruct mon as [c [|act pending]]; cbn [m_pending m_config].
    + destruct (run_step_total c) as (acts & c1 & Hstep). rewrite Hstep.
      specialize (IH (mkMon c1 acts) cell ses). destruct (interleave _ _) as [es p].
      destruct IH as (mon' & cell' & ses' & n & acts' & -> & Hrun & Hpend & IH).
      exists mon', cell', ses', (S n), (acts ++ acts'). split; [done|].
      split; [|by split]. cbn. rewrite Hstep. cbn in *. by rewrite Hrun.
    + specialize (IH (mkMon c pending) (apply_action cell act) ses).
      destruct (interleave _ _) as [es p].
      destruct IH as (mon' & cell' & ses' & n & acts & -> & Hrun & Hpend & Hcell & Hlook & IH).
      exists mon', cell', ses', n, acts. cbn in *. split_and!; [done|done| |done| |apply IH..].
      * by rewrite Hpend.
      * intros pre e post Heq. destruct pre as [|e0 pre]; [by injection Heq as <- _|].
        injection Heq as <- ->. by eapply Hlook.
  - destruct (main_step_spec cell ses Hlong) as (es1 & ses1 & -> & Hact & Hlen & Hok & Hcfg & Hb).
    specialize (IH mon cell ses1). destruct (interleave _ _) as [es p].
    destruct IH as (mon' & cell' & ses' & n & acts & -> & Hrun & Hpend & Hcell & Hlook & Hc & Hp).
    exists mon', cell', ses', n, acts. rewrite acted_app, Hact, pauses_app, !fmap_app.
    split_and!; [done|done|done|done| |congruence|].
    + intros pre e post Heq.
      destruct es1 as [|e1 [|]]; [by eapply Hlook| |simpl in Hlen; lia].
      destruct pre as [|e0 pre]; injection Heq as <- Heq; [by apply Forall_cons in Hok as [? _]|].
      change (e1 :: pre) with ([e1] ++ pre). rewrite acted_app, Hact. by eapply Hlook.
    + destruct es1 as [|e1 [|]]; [cbn in *; by rewrite <- Hb| |simpl in Hlen; lia].
      destruct e1; cbn -[next_backoff] in *; try by rewrite <- Hb. rewrite Hb. cbn. by rewrite Hp.
Qed.

(** A step of the main thread continues the conversation. *)
Lemma main_step_speaks cell s es0 es out :
  main_step cell s = (es, out) → conversation es0 → expects s (list.last (spoken es0)) →
  conversation (es0 ++ es) ∧ ∀ s', out = Some s' → expects s' (list.last (spoken (es0 ++ es))).
Proof.
  intros Hstep Hc Hex. unfold Process.main_step, session_receive, session_react, session_write, go in Hstep. cbn [snd] in Hstep.
  unfold expects in Hex.
  assert (∀ e (o : option (Ses (St := St))), spoken [e] = [e] →
    follows (list.last (spoken es0)) e → (∀ t, o = Some t → expects t (Some e)) →
    conversation (es0 ++ [e]) ∧
    ∀ t, o = Some t → expects t (list.last (spoken (es0 ++ [e])))) as Hspeak.
  { intros e o He Hf Ht. split; [by apply conversation_snoc|]. by rewrite spoken_app, He, last_snoc. }
  assert (∀ o : option (Ses (St := St)), (∀ t, o = Some t → expects t (list.last (spoken es0))) →
    conversation (es0 ++ []) ∧
    ∀ t, o = Some t → expects t (list.last (spoken (es0 ++ [])))) as Hquiet.
  { intros o Ho. by rewrite app_nil_r. }
  destruct (s_phase s) as [|started session|started session header bytes|started session x|started].
  - destruct (st_now _) as [started w].
    destruct (handshake _ _ _ _) as [[[session|e]|] w1]; injection Hstep as <- <-;
      apply Hquiet; by intros t [= <-].
  - destruct (Session.receive _ _ _) as [[[header bytes]|e] w1]; injection Hstep as <- <-;
      apply Hquiet; by intros t [= <-].
  - destruct (react _ _ _ _) as [[x|e]|] eqn:Hx; injection Hstep as <- <-;
      (apply Hspeak; [done|done|]); intros t [= <-]; unfold expects; simpl; eauto 10.
  - destruct Hex as (session' & header & bytes & mib & Hlast).
    destruct x as [out'|out'|].
    3: { injection Hstep as <- <-. apply Hquiet. intros t [= <-]. unfold expects. simpl. by rewrite Hlast. }
    all: destruct (st_write_all _ _) as [[[]|e] w1]; injection Hstep as <- <-;
      [apply Hspeak; [done|rewrite Hlast; simpl; eauto 10|]|apply Hquiet]; by intros t [= <-].
  - destruct (st_now _) as [instant w]. destruct (next_backoff _ _) as [slept backoff].
    injection Hstep as <- <-. apply Hspeak; [done..|]. by intros t [= <-].
Qed.

(** What is left of the conversation of a process that is alive. *)
Definition speaks (es : list (Event (ID := ID))) (p : Process (ID := ID) (W := W) (St := St)) : Prop :=
  conversation es ∧ ∀ mon cell s, p = Alive mon cell s → expects s (list.last (spoken es)).

Lemma process_step_speaks thread p es0 es p' :
  process_step thread p = (es, p') → speaks es0 p → speaks (es0 ++ es) p'.
Proof.
  intros Hstep [Hc Hp].
  destruct p as [mon cell s|status]; [|injection Hstep as <- <-; by rewrite app_nil_r].
  specialize (Hp mon cell s eq_refl). destruct thread; cbn [Process.process_step] in Hstep.
  - unfold monitor_step in Hstep. destruct (m_pending mon) as [|act acts].
    + destruct (run_step _) as [[acts c]|]; injection Hstep as <- <-; rewrite app_nil_r;
        split; try done; by intros ? ? ? [= _ _ <-].
    + injection Hstep as <- <-. assert (spoken (es0 ++ [Acted act]) = spoken es0) as Heq
        by (by rewrite spoken_app, app_nil_r).
      unfold speaks, conversation. rewrite Heq. split; [exact Hc|]. by intros ? ? ? [= _ _ <-].
  - destruct (main_step cell s) as [es' out] eqn:Hmain.
    apply (main_step_speaks _ _ es0) in Hmain as [Hc' Hs]; [|done..].
    destruct out as [s'|]; injection Hstep as <- <-; (split; [done|]); [|done].
    intros ? ? ? [= _ _ <-]. by apply Hs.
Qed.

Lemma interleave_speaks schedule : ∀ p es0 es p',
  interleave schedule p = (es, p') → speaks es0 p → speaks (es0 ++ es) p'.
Proof.
  induction schedule as [|thread schedule IH]; intros p es0 es p'; cbn [Process.interleave].
  { intros [= <- <-]. by rewrite app_nil_r. }
  destruct (process_step thread p) as [es1 p1] eqn:Hstep.
  destruct (interleave schedule p1) as [es2 p2] eqn:Hrest. intros [= <- <-] Hs.
  rewrite app_assoc. eapply IH; [done|]. by eapply process_step_speaks.
Qed.

(** A process that exited at once does nothing. *)
Lemma interleave_terminated schedule status :
  interleave schedule (Terminated status) = ([], Terminated status).
Proof. induction schedule as [|thread schedule IH]; [done|]. cbn. by rewrite IH. Qed.

Lemma process_step_short thread p es p' : process_step thread p = (es, p') → (length es <= 1)%nat.
Proof.
  destruct p as [mon cell s|status]; [|intros [= <- <-]; simpl; lia].
  destruct thread; cbn [Process.process_step]; unfold monitor_step, Process.main_step,
    session_receive, session_react, session_write, go; intros Hp;
    repeat case_match; simplify_eq/=; lia.
Qed.

(** An event of a run is the event of one of its steps. *)
Lemma interleave_at schedule p es p' pre e post :
  interleave schedule p = (es, p') → es = pre ++ e :: post →
  ∃ before thread after p1 p2, schedule = before ++ thread :: after ∧
    interleave before p = (pre, p1) ∧ process_step thread p1 = ([e], p2).
Proof.
  revert p es pre. induction schedule as [|thread schedule IH]; intros p es pre;
    cbn [Process.interleave]; [intros [= <- <-]; by destruct pre|].
  destruct (process_step thread p) as [es1 p1] eqn:Hstep.
  destruct (interleave schedule p1) as [es2 p2] eqn:Hrest. intros [= <- <-] Heq.
  pose proof (process_step_short _ _ _ _ Hstep) as Hshort.
  assert (∀ pre2, es2 = pre2 ++ e :: post → pre = es1 ++ pre2 →
    ∃ before thread' after q1 q2, thread :: schedule = before ++ thread' :: after ∧
      interleave before p = (pre, q1) ∧ process_step thread' q1 = ([e], q2)) as Hlater.
  { intros pre2 H2 ->. destruct (IH _ _ pre2 Hrest H2) as (before & t & after & q1 & q2 & -> & Hb & Ht).
    exists (thread :: before), t, after, q1, q2. split_and!; [done| |done].
    cbn [Process.interleave]. by rewrite Hstep, Hb. }
  destruct es1 as [|e1 [|]]; [by apply (Hlater pre)| |simpl in Hshort; lia].
  destruct pre as [|e0 pre].
  - injection Heq as -> _. by exists [], thread, schedule, p, p1.
  - injection Heq as <- Heq. by apply (Hlater pre).
Qed.

(** A look at the cell is a step of the main thread. *)
Lemma looked_at thread p session header bytes mib out p' :
  process_step thread p = ([Looked session header bytes mib out], p') →
  thread = MainThread ∧ ∃ mon cell s, p = Alive mon cell s ∧ mib = cell.
Proof.
  destruct p as [mon cell s|status]; [|done].
  destruct thread; cbn [Process.process_step].
  - unfold monitor_step. destruct (m_pending mon); [by destruct (run_step _) as [[]|]|done].
  - unfold Process.main_step, session_receive, session_react, session_write, go; intros Hp;
      repeat case_match; simplify_eq/=; eauto 10.
Qed.

(** What a launched process does under a schedule. *)
Lemma launch_leads_to read_to_string from_str args spawned (w : W) (u : St) schedule es p :
  long_responses (ID := ID) →
  interleave schedule (launch read_to_string from_str args spawned w u) = (es, p) →
  match start read_to_string from_str args spawned with
  | Exit status _ => es = [] ∧ p = Terminated status
  | Supervising config reconcile =>
      leads_to (mkMon (run_start w reconcile) []) publication
        (mkSes config (from_secs 1) Connecting u) es p
  end.
Proof.
  intros Hlong. unfold launch. destruct (start _ _ _ _) as [status said|config reconcile].
  - rewrite interleave_terminated. by intros [= <- <-].
  - intros Hi. pose proof (interleave_leads_to schedule (mkMon (run_start w reconcile) [])
      publication (mkSes config (from_secs 1) Connecting u) Hlong) as Hl.
    by rewrite Hi in Hl.
Qed.

(** ** Theorems *)

(** C4. Whatever the scheduler does, the two threads meet in the cell and nowhere else: a
    process that did not exit at once never ends; the monitor makes the actions of a run
    of its own loop, one after the other, unaffected by the requests served; each request
    finds the cell exactly as the actions made so far left it, between two iterations or
    inside one; and the pauses between sessions follow the backoff of [main]. *)
Theorem interleaving_linearizes (read_to_string : string → result Error string)
    (from_str : string → result string Config) (args : list string) (spawned : result Error unit)
    (w : W) (u : St) (schedule : list Thread) (es : list (Event (ID := ID)))
    (p : Process (ID := ID) (W := W) (St := St)) :
  long_responses (ID := ID) →
  interleave schedule (launch read_to_string from_str args spawned w u) = (es, p) →
  match start read_to_string from_str args spawned with
  | Exit status _ => es = [] ∧ p = Terminated status
  | Supervising config reconcile =>
      ∃ mon cell ses n,
        p = Alive mon cell ses ∧ cell = cell_after es ∧ ses.(s_config) = config ∧
        Monitor.run n (run_start w reconcile)
          = Some (acted es ++ mon.(m_pending), mon.(m_config)) ∧
        (∀ pre session header bytes mib out post,
           es = pre ++ Looked session header bytes mib out :: post →
           mib = cell_after pre ∧ out = react session header bytes mib) ∧
        (pauses es).*2 = delays (from_secs 1) (pauses es).*1
  end.
Proof.
  intros Hlong Hi%launch_leads_to; [|done].
  destruct (start _ _ _ _) as [status said|config reconcile]; [done|].
  destruct Hi as (mon & cell & ses & n & acts & -> & Hrun & Hpend & Hcell & Hlook & Hc & Hp).
  exists mon, cell, ses, n. cbn in Hpend. rewrite <- Hpend. split_and!; try done.
  intros pre session header bytes mib out post Heq. by apply (Hlook _ _ _ Heq).
Qed.

(** C5. Requests and responses alternate, whatever the scheduler does: each response written
    answers the request looked at immediately before, a request is looked at only when
    nothing is owed to the peer, and one that is answered by nothing (CleanupSet) is
    followed by the next; a session that fails leaves at most its last request open. *)
Theorem responses_follow_requests (read_to_string : string → result Error string)
    (from_str : string → result string Config) (args : list string) (spawned : result Error unit)
    (w : W) (u : St) (schedule : list Thread) (es : list (Event (ID := ID)))
    (p : Process (ID := ID) (W := W) (St := St)) :
  interleave schedule (launch read_to_string from_str args spawned w u) = (es, p) →
  ∀ pre e post, spoken es = pre ++ e :: post → follows (list.last pre) e.
Proof.
  intros Hi. apply (interleave_speaks _ _ []) in Hi as [Hc _]; [exact Hc|]. split.
  - intros pre e post Heq. by destruct pre.
  - unfold launch. destruct (start _ _ _ _); [done|]. by intros ? ? ? [= _ _ <-].
Qed.
End lemmas.

(** ** The process over the netlink source *)

Section system.
Context {ID : Type} `{IdLaws ID, !PduOps ID}.
Context {IO Socket : Type} `{!DatagramIo IO Socket} {St : Type} `{!Stream St}.
Context (deserialize : list N → result string NetlinkMessage).
Context (serialize_get_link : N → N → list N).
Context {SocketAddr : Type} (from_abstract_name from_pathname : string → result Error SocketAddr).
Context (unbound : St → result Error unit * St).
Context (send_to_addr : string → SocketAddr → St → result Error unit * St) (release : St → St).
Context (var_os : string → option string).
Context (sleep : N → St → St) (retries : positive).
Context (incoming outgoing : St → list N) (timeout : St → option N) (clock : St → N).
Context `{!StreamLaws St incoming outgoing timeout clock}.

#[local] Instance netlink_source : Acquisition (NetlinkSource IO Socket) :=
  netlink deserialize serialize_get_link.

Lemma cell_after_published (es : list (Event (ID := ID))) m :
  cell_after es = Some m → Publish m ∈ acted es.
Proof. apply applied_published. Qed.

(** C1. What managers read, end to end and under every interleaving: each PDU of a session is
    reacted to as RFC 2741 asks, without a panic, from the cell as it is at that moment,
    and a table found there is the ifStackTable of the topology of a valid inventory that
    the monitor took, before that moment, in one complete, uninterrupted kernel dump: all
    datagrams read from the socket of that dump are whole, and their messages are exactly
    one for each link and then the kernel's successful completion. *)
Theorem interleaved_reads_serve_kernel (read_to_string : string → result Error string)
    (from_str : string → result string Config) (args : list string) (spawned : result Error unit)
    (w : IO) (u : St) (schedule : list Thread) (pre post : list (Event (ID := ID)))
    (p : Process (ID := ID) (W := NetlinkSource IO Socket) (St := St)) (session : N)
    (header : Header) (bytes : list N) (mib : option (list (ID * Value ID)))
    (out : option (result Error Reaction)) :
  long_responses (ID := ID) →
  let play schedule :=
    interleave from_abstract_name from_pathname unbound send_to_addr release var_os sleep retries
      schedule (launch read_to_string from_str args spawned (with_io w) u) in
  play schedule = (pre ++ Looked session header bytes mib out :: post, p) →
  (∃ before after mon cell ses,
     schedule = before ++ MainThread :: after ∧ play before = (pre, Alive mon cell ses) ∧
     mib = cell ∧
     ∀ m, mib = Some m →
       System.from_kernel deserialize serialize_get_link received
         (with_io w) mon.(m_config).(world) m) ∧
  ∃ r, out = Some r ∧ ∀ x, r = Ok x ↔ reacts session header bytes mib x.
Proof.
  intros Hlong play Hi.
  assert (out = react session header bytes mib) as ->.
  { apply (launch_leads_to from_abstract_name from_pathname unbound send_to_addr release var_os sleep
      retries incoming outgoing timeout clock) in Hi; [|done].
    destruct (start _ _ _ _); [by destruct Hi as [? _]; destruct pre|].
    destruct Hi as (? & ? & ? & ? & ? & _ & _ & _ & _ & Hlook & _).
    by destruct (Hlook _ _ _ eq_refl). }
  split; [|destruct (react_spec session header bytes mib Hlong) as (r & Hr & Hx); by exists r].
  eapply interleave_at in Hi; [|done]. destruct Hi
    as (before & thread & after & p1 & p2 & -> & Hbefore & Hstep).
  apply looked_at in Hstep as (-> & mon & cell & ses & -> & ->).
  exists before, after, mon, cell, ses. split_and!; try done. intros m ->.
  apply (launch_leads_to from_abstract_name from_pathname unbound send_to_addr release var_os sleep
    retries incoming outgoing timeout clock) in Hbefore; [|done].
  destruct (start _ _ _ _) as [status said|config reconcile]; [by destruct Hbefore|].
  destruct Hbefore as (mon' & cell' & ses' & n & acts & [= <- <- <-] & Hrun & Hpend & Hcell & _).
  symmetry in Hcell. apply cell_after_published in Hcell. cbn in Hpend. subst acts.
  apply (run_publishes _ _ _ _ _ _ m Hrun). apply elem_of_app. by left.
Qed.
End system.
