(* ===== verification/Descriptors.v ===== *)
(** What the main thread holds open: a session's stream from its connection to
    its end, the notification's socket while it is used, and nothing in
    between. *)

From S2P Require Import Prelude BTree Link Agentx Mib Duration Monitor MonitorRuns.
From S2P Require Import Netlink NetlinkSource Config Notify Session Main System Process.
Open Scope N_scope.

(** ** What the calls on a connected stream keep *)

Section stream.
Context {ID : Type} `{IdLaws ID, !PduOps ID} {St : Type} `{!Stream St} (P : St → Prop).

(** [P] is kept by every call but those that open and drop a stream. *)
Record stream_kept : Prop := {
  kept_set_read_timeout : ∀ t w r w', st_set_read_timeout t w = (r, w') → P w → P w';
  kept_set_write_timeout : ∀ t w r w', st_set_write_timeout t w = (r, w') → P w → P w';
  kept_read_timeout : ∀ w r w', st_read_timeout w = (r, w') → P w → P w';
  kept_read : ∀ n w r w', st_read n w = (r, w') → P w → P w';
  kept_write : ∀ b w r w', st_write_all b w = (r, w') → P w → P w';
  kept_instant : ∀ w t w', st_now w = (t, w') → P w → P w';
}.
Context (Hkept : stream_kept) (retries : positive).

Lemma read_exact_kept n w r w' : read_exact retries n w = (r, w') → P w → P w'.
Proof using Hkept.
  unfold read_exact. intros Hr Hw.
  pose proof (iterate_ind (λ p, P p.2) (λ out, P out.2) (read_exact_step n)) as Hi.
  lapply Hi; [clear Hi; intros Hi|].
  - specialize (Hi (Pos.of_succ_nat n + retries)%positive ([], w) Hw). destruct (iterate _ _ _) as [[got w1]|out];
      [by injection Hr as <- <-|by subst out].
  - intros [got w1] Hw1. unfold read_exact_step. destruct (_ =? _)%nat; [done|].
    destruct (st_read _ w1) as [[[|b data]|e] w2] eqn:E; apply (kept_read Hkept) in E; try done.
    by case_bool_decide.
Qed.

Lemma read_before_kept n deadline w r w' : read_before n deadline w = (r, w') → P w → P w'.
Proof using Hkept.
  unfold read_before. intros Hr Hw.
  pose proof (iterate_ind (λ p, P p.2) (λ out, P out.2) (read_before_step n deadline)) as Hi.
  lapply Hi; [clear Hi; intros Hi|].
  - specialize (Hi FRAME_FUEL ([], w) Hw). destruct (iterate _ _ _) as [[got w1]|out];
      [by injection Hr as <- <-|by subst out].
  - intros [got w1] Hw1. unfold read_before_step. destruct (_ =? _)%nat; [done|].
    destruct (st_now w1) as [instant w2] eqn:En. apply (kept_instant Hkept) in En; [|done].
    destruct (is_zero _); [done|].
    destruct (st_set_read_timeout _ w2) as [[u|e] w3] eqn:Es;
      apply (kept_set_read_timeout Hkept) in Es; try done.
    destruct (st_read _ w3) as [[[|b data]|e] w4] eqn:E; apply (kept_read Hkept) in E; try done.
    by destruct (error_kind e).
Qed.

Lemma receive_kept budget w r w' :
  Session.receive (ID := ID) retries budget w = (r, w') → P w → P w'.
Proof using Hkept.
  unfold Session.receive. intros Hr Hw.
  destruct (read_exact retries 1 w) as [[b1|e] w1] eqn:E1; apply read_exact_kept in E1; try done;
    [|by injection Hr as <- <-].
  destruct (st_read_timeout w1) as [[idle|e] w2] eqn:E2; apply (kept_read_timeout Hkept) in E2;
    try done; [|by injection Hr as <- <-].
  destruct (st_now w2) as [instant w3] eqn:E3; apply (kept_instant Hkept) in E3; [|done].
  destruct (read_before 19 _ w3) as [[b2|e] w4] eqn:E4; apply read_before_kept in E4; try done;
    [|by injection Hr as <- <-].
  destruct (header_from_bytes _) as [header|e]; [|by injection Hr as <- <-].
  destruct (negb _); [by injection Hr as <- <-|].
  destruct (read_before _ _ w4) as [[b3|e] w5] eqn:E5; apply read_before_kept in E5; try done;
    [|by injection Hr as <- <-].
  destruct (st_set_read_timeout _ w5) as [[u|e] w6] eqn:E6;
    apply (kept_set_read_timeout Hkept) in E6; try done; by injection Hr as <- <-.
Qed.

Lemma acknowledge_kept request w : P w → P (acknowledge (ID := ID) retries request w).2.
Proof using Hkept.
  intros Hw. unfold acknowledge.
  destruct (Session.receive retries IO_TIMEOUT w) as [[[header bytes]|e] w1] eqn:E;
    by apply receive_kept in E.
Qed.

Lemma stage_kept {A B} (r : option (result Error A) * St)
    (k : A → St → option (result Error B) * St) :
  P r.2 → (∀ a w, P w → P (k a w).2) → P (stage r k).2.
Proof using. destruct r as [[[a|e]|] w]; simpl; eauto. Qed.

Lemma lift_kept {A} (f : St → result Error A * St) w :
  (∀ w r w', f w = (r, w') → P w → P w') → P w → P (lift (f w)).2.
Proof using. intros Hf Hw. unfold lift. simpl. destruct (f w) eqn:E. by apply Hf in E. Qed.

Lemma negotiate_kept registered config w :
  (∀ w, P w → P (registered w)) → P w → P (negotiate (ID := ID) registered retries config w).2.
Proof using Hkept.
  intros Hreg Hw. destruct Hkept. unfold negotiate.
  repeat (apply stage_kept; [|clear w Hw; intros ? w Hw]);
    try (by apply acknowledge_kept); try done; try (by apply Hreg);
    eapply lift_kept; eauto.
Qed.
End stream.

(** ** What opens and closes a descriptor *)

(** [held] counts the descriptors the main thread holds open: a connection and
    an unbound socket are one more, unless they fail, and each is one less
    once it goes out of scope. *)
Class MainOwnership {St SocketAddr : Type} `{!Stream St} (held : St → N)
    (unbound : St → result Error unit * St)
    (send_to_addr : string → SocketAddr → St → result Error unit * St) (release : St → St)
    (sleep : N → St → St) : Prop := {
  held_kept : ∀ n, stream_kept (λ w, held w = n);
  held_connect : ∀ p w r w', st_connect p w = (r, w') →
    held w' = match r with Ok _ => held w + 1 | Err _ => held w end;
  held_st_drop : ∀ w, 0 < held w → held (st_drop w) + 1 = held w;
  held_unbound : ∀ w r w', unbound w = (r, w') →
    held w' = match r with Ok _ => held w + 1 | Err _ => held w end;
  held_send_to : ∀ b a w r w', send_to_addr b a w = (r, w') → held w' = held w;
  held_release : ∀ w, 0 < held w → held (release w) + 1 = held w;
  held_sleep : ∀ t w, held (sleep t w) = held w;
}.

(** What a phase of the main thread holds: the stream of a session. *)
Definition streams {St} (ses : Ses (St := St)) : N :=
  match ses.(s_phase) with
  | Connecting | Ended _ => 0
  | Serving _ _ | Received _ _ _ _ | Reacted _ _ _ => 1
  end.

Section descriptors.
Context {ID : Type} `{IdLaws ID, !PduOps ID} {W : Type} `{!Acquisition W}.
Context {St : Type} `{!Stream St} {SocketAddr : Type}.
Context (from_abstract_name from_pathname : string → result Error SocketAddr).
Context (unbound : St → result Error unit * St).
Context (send_to_addr : string → SocketAddr → St → result Error unit * St) (release : St → St).
Context (var_os : string → option string) (sleep : N → St → St) (retries : positive).
Context (held : St → N) `{!MainOwnership held unbound send_to_addr release sleep}.

Notation ready := (Notify.ready from_abstract_name from_pathname unbound send_to_addr release var_os).
Notation main_step := (main_step (ID := ID) from_abstract_name from_pathname unbound send_to_addr
  release var_os sleep retries).
Notation interleave := (interleave (W := W) (ID := ID) from_abstract_name from_pathname unbound
  send_to_addr release var_os sleep retries).

(** The notification's socket is closed whichever way [send] returns. *)
Lemma ready_held w : held (ready w) = held w.
Proof using Type*.
  unfold Notify.ready, send. destruct (var_os SOCKET) as [socket|]; [|done].
  destruct (unbound w) as [[u|e] w1] eqn:Hu; apply held_unbound in Hu; [|done].
  destruct (address _ _ socket) as [addr|e]; simpl.
  - destruct (send_to_addr READY addr w1) as [r w2] eqn:Hs. apply held_send_to in Hs. simpl.
    pose proof (held_release w2). lia.
  - pose proof (held_release w1). lia.
Qed.

(** Only a session that is registered still has its stream. *)
Lemma handshake_held config w o w' :
  handshake (ID := ID) ready retries config w = (o, w') →
  match o with
  | Some (Ok _) => held w' = held w + 1
  | Some (Err _) => held w' = held w
  | None => True
  end.
Proof using Type*.
  unfold handshake, lift. destruct (st_connect _ w) as [[[]|e] w1] eqn:Hc;
    apply held_connect in Hc; simpl; [|by intros [= <- <-]].
  pose proof (negotiate_kept (ID := ID) _ (held_kept (held w1)) retries ready config w1) as Hn.
  destruct (negotiate _ _ _ w1) as [out w2]. simpl in Hn.
  lapply Hn; [|by intros v <-; apply ready_held]. intros Hn'. specialize (Hn' eq_refl).
  destruct out as [[session|e]|]; simpl; intros [= <- <-]; [lia| |done].
  pose proof (held_st_drop w2). lia.
Qed.

Lemma main_step_held cell s es s' :
  main_step cell s = (es, Some s') →
  streams s ≤ held s.(s_world) →
  held s'.(s_world) + streams s = held s.(s_world) + streams s'.
Proof using Type*.
  unfold Process.main_step, session_receive, session_react, session_write, streams, go. destruct (s_phase s) as [|b n|b n h bs|b n x|b]; cbn [snd].
  - destruct (st_now _) as [t w] eqn:Ht. apply (kept_instant _ (held_kept (held (s_world s)))) in Ht; [|done].
    destruct (handshake _ _ _ w) as [[[n|e]|] w1] eqn:Hh; intros [= _ <-] _;
      apply handshake_held in Hh; simpl; lia.
  - destruct (Session.receive _ _ _) as [[[h bs]|e] w1] eqn:Hr;
      apply (receive_kept (ID := ID) _ (held_kept (held (s_world s)))) in Hr; try done;
      intros [= _ <-] Hle; simpl; [lia|].
    pose proof (held_st_drop w1). lia.
  - destruct (react _ _ _ _) as [[x|e]|]; intros [= _ <-] Hle; simpl; [lia|].
    pose proof (held_st_drop (s_world s)). lia.
  - destruct x as [out|out|].
    3: by intros [= _ <-] _; simpl; lia.
    all: destruct (st_write_all _ _) as [[u|e] w1] eqn:Hw;
      apply (kept_write _ (held_kept (held (s_world s)))) in Hw; try done;
      intros [= _ <-] Hle; simpl; pose proof (held_st_drop w1); lia.
  - destruct (st_now _) as [t w] eqn:Ht. apply (kept_instant _ (held_kept (held (s_world s)))) in Ht; [|done].
    destruct (next_backoff _ _) as [slept backoff]. intros [= _ <-] _. simpl. rewrite held_sleep. lia.
Qed.

Lemma interleave_held schedule : ∀ mon cell s es mon' cell' s' n,
  interleave schedule (Alive mon cell s) = (es, Alive mon' cell' s') →
  held s.(s_world) = n + streams s → held s'.(s_world) = n + streams s'.
Proof using Type*.
  induction schedule as [|thread schedule IH]; intros mon cell s es mon' cell' s' n;
    cbn [Process.interleave]; [by intros [= _ _ _ <-]|].
  destruct (process_step _ _ _ _ _ _ _ _ thread _) as [es1 p1] eqn:Hstep.
  destruct (interleave schedule p1) as [es2 p2] eqn:Hrest. intros [= _ ->] Hn.
  destruct p1 as [mon1 cell1 s1|status]; [|by rewrite interleave_terminated in Hrest].
  destruct thread; cbn [Process.process_step] in Hstep.
  - destruct (monitor_step mon cell) as [es3 [[mon3 cell3]|status]]; [|done].
    injection Hstep as _ <- <- <-. by eapply IH.
  - destruct (main_step cell s) as [es3 [s3|]] eqn:Hmain; [|done].
    injection Hstep as _ <- <- <-. apply main_step_held in Hmain; [|lia].
    eapply IH; [done|]. lia.
Qed.

(** C20. The main thread never leaks a descriptor, whatever the scheduler, the peer and the
    service manager do: between two of its steps it holds what it held when it was
    launched and the stream of the session it is serving, so nothing at all while it is
    connecting or waiting to; each failed connection, refused handshake, broken or closed
    session and readiness notification has closed what it opened. *)
Theorem descriptors_released (read_to_string : string → result Error string)
    (from_str : string → result string Config) (args : list string) (spawned : result Error unit)
    (w : W) (u : St) (schedule : list Thread) (es : list (Event (ID := ID)))
    (mon : Mon) (cell : option (list (ID * Value ID))) (ses : Ses) :
  interleave schedule (launch read_to_string from_str args spawned w u)
    = (es, Alive mon cell ses) →
  held ses.(s_world) = held u + streams ses.
Proof using Type*.
  unfold launch. destruct (start _ _ _ _) as [status said|config reconcile].
  - by rewrite interleave_terminated.
  - intros Hi. eapply interleave_held; [exact Hi|]. by rewrite N.add_0_r.
Qed.
End descriptors.
