(* ===== verification/EndToEnd.v ===== *)
(** What managers read, once the kernel is quiet: under every interleaving of
    the two threads, after a few steps of the monitor thread each request finds
    the table of exactly the kernel's links. *)

From S2P Require Import Prelude BTree Link Agentx Mib Duration Monitor MonitorRuns Timed Recovery.
From S2P Require Import Netlink NetlinkSource Config Notify Session Main System Freshness Process.
Open Scope N_scope.

(** ** The monitor thread by itself *)

Section monitor_thread.
Context {ID : Type} `{IdLaws ID} {W : Type} `{!Acquisition W}.

(** [k] steps of the monitor thread: the actions it makes, and where it is
    then. *)
Fixpoint plays (k : nat) (mon : Mon (ID := ID) (W := W))
    : option (list (Monitor.Action ID) * Mon (ID := ID) (W := W)) :=
  match k with
  | O => Some ([], mon)
  | S k =>
      match mon.(m_pending) with
      | act :: pending =>
          '(acts, mon') ← plays k (mkMon mon.(m_config) pending); Some (act :: acts, mon')
      | [] =>
          '(acts, c) ← run_step mon.(m_config); plays k (mkMon c acts)
      end
  end.

Lemma plays_app a b mon acts mon' :
  plays a mon = Some (acts, mon') →
  plays (a + b) mon = '(acts', mon'') ← plays b mon'; Some (acts ++ acts', mon'').
Proof.
  revert mon acts. induction a as [|a IH]; intros mon acts; cbn.
  - intros [= <- <-]. by destruct (plays b mon) as [[acts' mon'']|].
  - destruct (m_pending mon) as [|act pending].
    + destruct (run_step _) as [[acts1 c1]|]; [|done]. cbn. apply IH.
    + destruct (plays a _) as [[acts1 mon1]|] eqn:Hp; [|done]. cbn. intros [= <- <-].
      rewrite (IH _ _ Hp). by destruct (plays b mon1) as [[acts' mon'']|].
Qed.

(** The actions owed are made first. *)
Lemma plays_pending c pending :
  plays (length pending) (mkMon c pending) = Some (pending, mkMon c []).
Proof. induction pending as [|act pending IH]; [done|]. cbn. by rewrite IH. Qed.

(** An iteration takes a step, and one for each of its actions. *)
Lemma plays_iteration c acts c' :
  run_step c = Some (acts, c') →
  plays (S (length acts)) (mkMon c []) = Some (acts, mkMon c' []).
Proof. intros Hs. cbn. rewrite Hs. cbn. apply plays_pending. Qed.

Context (clock : W → N) `{!AcquisitionLaws W clock}.
Context (limit : N) (fresh : list ObservedLink → Prop) (healthy : bool → W → Prop).
Context (Hworks : works clock limit fresh healthy).
Context (interval : N) (Hlimit : N.max MAX_DELAY interval ≤ limit).

(** From a working source on, no action takes a fresh table away. *)
Lemma plays_fresh k mon :
  on_track clock healthy interval mon.(m_config) → Forall (serves_fresh fresh) mon.(m_pending) →
  ∃ acts mon', plays k mon = Some (acts, mon') ∧ on_track clock healthy interval mon'.(m_config) ∧
    Forall (serves_fresh fresh) acts ∧ Forall (serves_fresh fresh) mon'.(m_pending).
Proof using Hlimit Hworks H AcquisitionLaws0.
  revert mon. induction k as [|k IH]; intros mon Hc Hp; [by eexists _, _|]. cbn.
  destruct (m_pending mon) as [|act pending].
  - destruct (on_track_step clock limit fresh healthy Hworks interval Hlimit _ Hc) as (acts & c & -> & Hc' & Ha & _).
    cbn. by apply IH.
  - apply Forall_cons in Hp as [Hact Hp].
    destruct (IH (mkMon mon.(m_config) pending)) as (acts & mon' & -> & ? & ? & ?); [done..|].
    cbn. eexists _, _. split; [done|]. split_and!; [done|by constructor|done].
Qed.

(** An iteration that publishes, and what follows. *)
Lemma plays_publishing c acts c' m n :
  run_step c = Some (acts, c') → on_track clock healthy interval c' → Forall (serves_fresh fresh) acts →
  Publish m ∈ acts → (S (length acts) <= n)%nat →
  ∃ acts' mon', plays n (mkMon c []) = Some (acts', mon') ∧ on_track clock healthy interval mon'.(m_config) ∧
    Forall (serves_fresh fresh) mon'.(m_pending) ∧
    ∀ cl, holds_fresh fresh (foldl apply_action cl acts').
Proof using Hlimit Hworks H AcquisitionLaws0.
  intros Hs Hc' Ha Hm Hn.
  destruct (plays_fresh (n - S (length acts)) (mkMon c' [])) as (acts' & mon' & Hp & Hmon & Ha' & Hpend);
    [done|constructor|].
  exists (acts ++ acts'), mon'. rewrite (Nat.le_add_sub (S (length acts)) n) by done.
  rewrite (plays_app _ _ _ _ _ (plays_iteration _ _ _ Hs)), Hp. split; [done|].
  split; [done|]. split; [done|]. intros cl.
  apply list_elem_of_split in Hm as (l1 & l2 & ->). rewrite <- app_assoc, foldl_app. cbn.
  apply Forall_app in Ha as [_ Ha]. apply Forall_cons in Ha as [Hm Ha].
  apply serves_fresh_cell; [by apply Forall_app|by exists m].
Qed.

(** Once it has made the actions it owes, eight steps publish a fresh table,
    and nothing after that takes it away. *)
Lemma plays_publish k mon :
  on_track clock healthy interval mon.(m_config) → (length mon.(m_pending) + 8 <= k)%nat →
  ∃ acts mon', plays k mon = Some (acts, mon') ∧ on_track clock healthy interval mon'.(m_config) ∧
    Forall (serves_fresh fresh) mon'.(m_pending) ∧
    ∀ cl, holds_fresh fresh (foldl apply_action cl acts).
Proof using Hlimit Hworks H AcquisitionLaws0.
  intros Hc Hk. destruct mon as [c pending]. cbn in Hc, Hk.
  rewrite (Nat.le_add_sub (length pending) k) by lia.
  rewrite (plays_app _ _ _ _ _ (plays_pending c pending)).
  assert (8 <= k - length pending)%nat as Hn by lia. revert Hn. generalize (k - length pending)%nat.
  intros n Hn.
  destruct (on_track_step clock limit fresh healthy Hworks interval Hlimit c Hc)
    as (acts1 & c1 & Hs1 & Hc1 & Ha1 & Hl1 & [[m Hm]|[Hno Hyes]]).
  - destruct (plays_publishing c acts1 c1 m n) as (acts' & mon' & -> & Hmon & Hpend & Hcell);
      [done..|lia|].
    cbn. eexists _, _. split; [done|]. split_and!; [done..|]. intros cl. by rewrite foldl_app.
  - destruct (on_track_step clock limit fresh healthy Hworks interval Hlimit c1 Hc1)
      as (acts2 & c2 & Hs2 & Hc2 & Ha2 & Hl2 & [[m Hm]|[Hno2 _]]); [|congruence].
    rewrite (Nat.le_add_sub (S (length acts1)) n) by lia.
    rewrite (plays_app _ _ _ _ _ (plays_iteration _ _ _ Hs1)).
    destruct (plays_publishing c1 acts2 c2 m (n - S (length acts1))%nat)
      as (acts' & mon' & -> & Hmon & Hpend & Hcell); [done..|lia|].
    cbn. eexists _, _. split; [done|]. split_and!; [done..|]. intros cl. by rewrite !foldl_app.
Qed.
End monitor_thread.

(** ** The monitor thread among the others *)

(** How often a schedule picks the monitor thread. *)
Definition monitor_turns (schedule : list Thread) : nat :=
  length (base.filter (λ thread, thread = MonitorThread) schedule).

Section interleaved.
Context {ID : Type} `{IdLaws ID, !PduOps ID}.
Context {W : Type} `{!Acquisition W} {St : Type} `{!Stream St}.
Context {SocketAddr : Type} (from_abstract_name from_pathname : string → result Error SocketAddr).
Context (unbound : St → result Error unit * St).
Context (send_to_addr : string → SocketAddr → St → result Error unit * St) (release : St → St).
Context (var_os : string → option string).
Context (sleep : N → St → St) (retries : positive).
Context (incoming outgoing : St → list N) (timeout : St → option N) (st_clock : St → N).
Context `{!StreamLaws St incoming outgoing timeout st_clock}.

Notation interleave := (interleave (ID := ID) (W := W) from_abstract_name from_pathname unbound
  send_to_addr release var_os sleep retries).

(** The monitor thread plays its own part, whatever the main thread does. *)
Lemma interleave_plays schedule : ∀ mon cell ses es mon' cell' ses',
  long_responses (ID := ID) →
  interleave schedule (Alive mon cell ses) = (es, Alive mon' cell' ses') →
  plays (monitor_turns schedule) mon = Some (acted es, mon').
Proof using Type*.
  induction schedule as [|thread schedule IH]; intros mon cell ses es mon' cell' ses' Hlong;
    cbn [Process.interleave]; [by intros [= <- <- _ _]|].
  destruct (process_step _ _ _ _ _ _ _ _ thread _) as [es1 p1] eqn:Hstep.
  destruct (interleave schedule p1) as [es2 p2] eqn:Hrest. intros [= <- ->].
  rewrite acted_app. destruct p1 as [mon1 cell1 ses1|status]; [|by rewrite interleave_terminated in Hrest].
  specialize (IH _ _ _ _ _ _ _ Hlong Hrest).
  destruct thread; cbn [Process.process_step] in Hstep.
  - unfold monitor_turns. rewrite filter_cons_True by done. cbn [length plays].
    fold (monitor_turns schedule). unfold monitor_step in Hstep.
    destruct (m_pending mon) as [|act pending].
    + destruct (run_step (m_config mon)) as [[acts c]|]; [|done].
      injection Hstep as <- <- _ _. exact IH.
    + injection Hstep as <- <- _ _. rewrite IH. done.
  - unfold monitor_turns. rewrite filter_cons_False by done. fold (monitor_turns schedule).
    destruct (main_step_spec from_abstract_name from_pathname unbound send_to_addr release var_os
      sleep retries incoming outgoing timeout st_clock cell ses Hlong)
      as (es' & s' & Hmain & Hacted & _). rewrite Hmain in Hstep.
    injection Hstep as <- <- _ _. by rewrite Hacted.
Qed.
End interleaved.

(** ** Over the netlink source *)

Section system.
Context {ID : Type} `{IdLaws ID, !PduOps ID}.
Context {IO Socket : Type} `{!DatagramIo IO Socket} {St : Type} `{!Stream St}.
Context (deserialize : list N → result string NetlinkMessage).
Context (serialize_get_link : N → N → list N).
Context {SocketAddr : Type} (from_abstract_name from_pathname : string → result Error SocketAddr).
Context (unbound : St → result Error unit * St).
Context (send_to_addr : string → SocketAddr → St → result Error unit * St) (release : St → St).
Context (var_os : string → option string).
Context (sleep : N → St → St) (retries : positive).
Context (incoming outgoing : St → list N) (timeout : St → option N) (st_clock : St → N).
Context `{!StreamLaws St incoming outgoing timeout st_clock}.
Context (io_clock : IO → N) `{!IoLaws IO Socket io_clock}.
Context (limit : N) (links : list ObservedLink) (good : option Socket → IO → Prop).
Context (Hquiet : quiet_kernel deserialize serialize_get_link io_clock limit links good).

#[local] Instance netlink_source : Acquisition (NetlinkSource IO Socket) :=
  netlink deserialize serialize_get_link.

Notation interleave := (interleave (ID := ID) (W := NetlinkSource IO Socket) from_abstract_name
  from_pathname unbound send_to_addr release var_os sleep retries).

(** A launched process whose monitor has reached such a kernel. *)
Lemma launch_on_track (read_to_string : string → result Error string)
    (from_str : string → result string Config) (args : list string) (spawned : result Error unit)
    (w : IO) (u : St) config interval schedule es mon cell ses :
  long_responses (ID := ID) →
  start read_to_string from_str args spawned = Supervising config interval →
  interleave schedule (launch read_to_string from_str args spawned (with_io w) u)
    = (es, Alive mon cell ses) →
  good mon.(m_config).(world).(notification) mon.(m_config).(world).(io) →
  on_track (source_clock io_clock) (source_good io_clock good) interval mon.(m_config).
Proof using IoLaws0 StreamLaws0 H.
  intros Hlong Hstart Hi Hg.
  assert (AcquisitionLaws (NetlinkSource IO Socket) (source_clock io_clock)) as Hlaws
    by exact (netlink_laws deserialize serialize_get_link io_clock).
  apply (launch_leads_to from_abstract_name from_pathname unbound send_to_addr release var_os sleep
    retries incoming outgoing timeout st_clock) in Hi; [|done].
  rewrite Hstart in Hi. destruct Hi as (mon' & ? & ? & n & acts & [= <- <- <-] & Hrun & _).
  apply (on_track_start (source_clock io_clock) _ interval (with_io w) n acts); [exact Hrun|].
  by eapply (quiet_in_health deserialize serialize_get_link io_clock good).
Qed.

(** C2. What managers read is current, end to end and under every interleaving: from any
    moment of any execution at which the kernel answers and its links stay as they are,
    once the monitor thread has made the actions it owes and eight more steps, every
    request looked at finds the ifStackTable of the topology of exactly those links, and
    is reacted to from it as RFC 2741 asks. The kernel's waits must last their timeouts
    as long as these do not exceed 30 seconds or the configured interval. *)
Theorem requests_see_links (read_to_string : string → result Error string)
    (from_str : string → result string Config) (args : list string) (spawned : result Error unit)
    (w : IO) (u : St) (config : Config) (interval : N) (before during after : list Thread) (es0 es1 es2 : list (Event (ID := ID)))
    (mon : Mon) (cell : option (list (ID * Value ID))) (ses : Ses)
    (p1 p2 : Process (ID := ID) (W := NetlinkSource IO Socket) (St := St))
    (session : N) (header : Header) (bytes : list N) (mib : option (list (ID * Value ID)))
    (out : option (result Error Reaction)) :
  long_responses (ID := ID) →
  start read_to_string from_str args spawned = Supervising config interval →
  N.max MAX_DELAY interval ≤ limit →
  interleave before (launch read_to_string from_str args spawned (with_io w) u)
    = (es0, Alive mon cell ses) →
  good mon.(m_config).(world).(notification) mon.(m_config).(world).(io) →
  interleave during (Alive mon cell ses) = (es1, p1) →
  (length mon.(m_pending) + 8 <= monitor_turns during)%nat →
  interleave after p1 = (es2, p2) →
  Looked session header bytes mib out ∈ es2 →
  ∃ m r, mib = Some m ∧ links_table links m ∧
    out = Some r ∧ ∀ x, r = Ok x ↔ reacts session header bytes mib x.
Proof.
  intros Hlong Hstart Hlimit Hbefore Hg Hduring Hturns Hafter Hin.
  assert (AcquisitionLaws (NetlinkSource IO Socket) (source_clock io_clock)) as Hlaws
    by exact (netlink_laws deserialize serialize_get_link io_clock).
  set (healthy := source_good io_clock good).
  assert (works (source_clock io_clock) limit (λ l, l = links) healthy) as Hworks
    by exact (quiet_kernel_works _ _ _ _ _ _ Hquiet).
  assert (on_track (source_clock io_clock) healthy interval mon.(m_config)) as Htrack.
  { by eapply launch_on_track. }
  pose proof (interleave_leads_to from_abstract_name from_pathname unbound send_to_addr release var_os
    sleep retries incoming outgoing timeout st_clock) as Hleads.
  pose proof (interleave_plays (W := NetlinkSource IO Socket) from_abstract_name from_pathname unbound
    send_to_addr release var_os sleep retries incoming outgoing timeout st_clock) as Hplays.
  pose proof (Hleads during mon cell ses Hlong) as Hd. rewrite Hduring in Hd.
  destruct Hd as (mon1 & cell1 & ses1 & n1 & acts1 & -> & _ & _ & Hcell1 & _).
  apply Hplays in Hduring; [|done].
  destruct (plays_publish (source_clock io_clock) limit _ healthy Hworks interval Hlimit _ _ Htrack Hturns)
    as (acts & mon' & Hp & Htrack1 & Hpend & Hfresh).
  rewrite Hp in Hduring. injection Hduring as -> ->. specialize (Hfresh cell). rewrite <- Hcell1 in Hfresh.
  pose proof (Hleads after mon1 cell1 ses1 Hlong) as Ha. rewrite Hafter in Ha.
  destruct Ha as (mon2 & cell2 & ses2 & n2 & acts2 & -> & _ & _ & _ & Hlook & _).
  apply Hplays in Hafter; [|done].
  destruct (plays_fresh (source_clock io_clock) limit _ healthy Hworks interval Hlimit (monitor_turns after)
      _ Htrack1 Hpend)
    as (acts & mon' & Hp2 & _ & Hserve & _).
  rewrite Hp2 in Hafter. injection Hafter as -> _.
  apply list_elem_of_split in Hin as (pre & post & Heq).
  destruct (Hlook _ _ _ Heq) as [Hmib Hout].
  rewrite Heq, acted_app in Hserve. apply Forall_app in Hserve as [Hserve _].
  destruct (serves_fresh_cell _ _ _ Hserve Hfresh) as (m & Hm & Hlinks%fresh_links).
  destruct (react_spec session header bytes mib Hlong) as (r & Hr & Hx).
  exists m, r. split_and!; [congruence|done|congruence|done].
Qed.
End system.
