(* ===== verification/Scenarios.v ===== *)
(** Concrete environments that satisfy the contracts the theorems assume: an
    acquisition source, a datagram interface, a message crate, a PDU crate
    and a stream, each simulated by a few lines. The witnesses of the theorems run
    the program in them. *)

From S2P Require Import Prelude BTree Link Agentx Mib Duration Monitor MonitorRuns Responsive.
From S2P Require Import Netlink NetlinkSource SocketIo Timing Delivery System Freshness Stack Production Sockets Config Session Promptness Main Process Descriptors.
Open Scope N_scope.

(** ** Links *)

(** The builders of [ObservedLink] the repository's own tests use. *)
Definition of_kind (i : N) (n : string) (k : LinkKind) : ObservedLink :=
  mkLink i n k None None None None.
Definition plain (i : N) (n : string) : ObservedLink := of_kind i n Other.
Definition with_controller (c : N) (l : ObservedLink) : ObservedLink :=
  mkLink l.(index) l.(name) l.(kind) (Some c) l.(lower) l.(lower_netnsid) l.(vxlan_lower).
Definition with_lower (lw : N) (l : ObservedLink) : ObservedLink :=
  mkLink l.(index) l.(name) l.(kind) l.(controller) (Some lw) l.(lower_netnsid) l.(vxlan_lower).
Definition with_remote_lower (lw : N) (l : ObservedLink) : ObservedLink :=
  mkLink l.(index) l.(name) l.(kind) l.(controller) (Some lw) (Some 0%Z) l.(vxlan_lower).
Definition with_vxlan_lower (v : N) (l : ObservedLink) : ObservedLink :=
  mkLink l.(index) l.(name) l.(kind) l.(controller) l.(lower) l.(lower_netnsid) (Some v).

(** A bond of two ports with a VLAN on top, and two tunnels. *)
Definition bonded : list ObservedLink :=
  [plain 1 "lo";
   with_controller 4 (plain 2 "eth0");
   with_controller 4 (plain 3 "eth1");
   of_kind 4 "bond0" Bond;
   with_lower 4 (of_kind 5 "bond0.10" Vlan);
   with_vxlan_lower 5 (of_kind 6 "vxlan0" Vxlan);
   with_remote_lower 9 (of_kind 7 "vxlan1" Vxlan)].

(** A remote VLAN is refused, as the repository's tests expect. *)
Example remote_lower_refused :
  is_ok (from_observed [plain 4 "eth0"; with_remote_lower 4 (of_kind 5 "v" Vlan)]) = false.
Proof. vm_compute. reflexivity. Qed.

(** ** A simulated acquisition source *)

(** What the next calls meet: a call takes the head if it is of its kind and
    otherwise succeeds in the plainest way. *)
Inductive SimEvent :=
| SubscribeFails
| Links (links : list ObservedLink)
| InventoryFails
| InventoryLost
| Changed
| WaitFails.

Record Sim := mkSim { sim_clock : N; sim_script : list SimEvent }.

Definition tick (d : N) (w : Sim) : Sim := mkSim (w.(sim_clock) + d) w.(sim_script).
Definition sim_rest (w : Sim) : Sim := mkSim w.(sim_clock) (tail w.(sim_script)).
Definition sim_error : Error := error_other "simulated".

Definition sim_subscribe (w : Sim) : result Error unit * Sim :=
  match w.(sim_script) with
  | SubscribeFails :: _ => (Err sim_error, tick 1 (sim_rest w))
  | _ => (Ok tt, tick 1 w)
  end.

Definition sim_inventory (a : Attempt) (w : Sim) : result AcquisitionError Inventory * Sim :=
  match w.(sim_script) with
  | Links links :: _ => (Ok (mkInventory a links empty_batch), tick 1 (sim_rest w))
  | InventoryFails :: _ => (Err (Ordinary sim_error empty_batch), tick 1 (sim_rest w))
  | InventoryLost :: _ => (Err (Lost sim_error empty_batch), tick 1 (sim_rest w))
  | _ => (Ok (mkInventory a [] empty_batch), tick 1 w)
  end.

Definition sim_wait (d : N) (w : Sim) : result Error WaitOutcome * Sim :=
  match w.(sim_script) with
  | Changed :: _ => (Ok (LinkChanged (w.(sim_clock) + 1)), tick 1 (sim_rest w))
  | WaitFails :: _ => (Err sim_error, tick 1 (sim_rest w))
  | _ => (Ok Deadline, tick d w)
  end.

#[export] Instance Sim_acquisition : Acquisition Sim := {|
  acq_now w := (w.(sim_clock), w);
  acq_subscribe := sim_subscribe;
  acq_inventory := sim_inventory;
  acq_wait := sim_wait;
|}.

#[export] Instance Sim_laws : AcquisitionLaws Sim sim_clock.
Proof.
  constructor; cbn [acq_now acq_subscribe acq_inventory acq_wait Sim_acquisition].
  - intros w t w' [= <- <-]. lia.
  - intros w r w'. unfold sim_subscribe.
    destruct (sim_script w) as [|[] ?]; intros [= <- <-]; simpl; lia.
  - intros a w r w'. unfold sim_inventory.
    destruct (sim_script w) as [|[] ?]; intros [= <- <-]; simpl; split_and!; done || lia.
  - intros d w r w'. unfold sim_wait.
    destruct (sim_script w) as [|[] ?]; intros [= <- <-]; simpl; split_and!; done || lia.
Qed.

#[export] Instance Sim_timing : AcqTiming Sim sim_clock 1 1.
Proof.
  constructor; cbn [acq_now acq_subscribe acq_inventory acq_wait Sim_acquisition].
  - intros w t w' [= <- <-]. lia.
  - intros w r w'. unfold sim_subscribe.
    destruct (sim_script w) as [|[] ?]; intros [= <- <-]; simpl; lia.
  - intros a w r w'. unfold sim_inventory.
    destruct (sim_script w) as [|[] ?]; intros [= <- <-]; simpl; lia.
  - intros d w r w'. unfold sim_wait.
    destruct (sim_script w) as [|[] ?]; intros [= <- <-]; simpl; lia.
Qed.

(** ** A simulated message crate *)

(** A sixteen-byte header (length, type, flags, sequence number, port) and for
    a link message its index and a one-letter name. *)
Definition sim_message (kind flags sequence : N) (rest : list N) : list N :=
  let n := 16 + len rest in
  [n; 0; 0; 0; kind; 0; flags; 0; sequence; 0; 0; 0; 0; 0; 0; 0] ++ rest.

Definition sim_name (c : N) : string := String (Ascii.ascii_of_N c) EmptyString.

Definition sim_deserialize (bytes : list N) : result string NetlinkMessage :=
  match bytes with
  | _ :: _ :: _ :: _ :: kind :: _ :: flags :: _ :: sequence :: _ :: rest =>
      match kind, drop 6 rest with
      | 3, _ => Ok (mkMessage sequence flags (Done 0))
      | 16, [index; letter] =>
          Ok (mkMessage sequence flags
                (InnerMessage (NewLink (mkLinkMessage index [IfName (sim_name letter)]))))
      | _, _ => Ok (mkMessage sequence flags OtherPayload)
      end
  | _ => Err "short message"
  end.

Definition sim_request (flags sequence : N) : list N := [flags; sequence].

(** ** A simulated datagram interface *)

(** One socket; every poll reports the dump readable, and receiving takes the
    datagrams in order. *)
Record SimIo := mkSimIo { io_clock : N; io_queue : list (list N) }.

Definition io_tick (d : N) (w : SimIo) : SimIo := mkSimIo (w.(io_clock) + d) w.(io_queue).

Definition sim_receive (w : SimIo) : result Error Datagram * SimIo :=
  match w.(io_queue) with
  | bytes :: queue => (Ok (mkDatagram bytes true false), mkSimIo w.(io_clock) queue)
  | [] => (Err sim_error, w)
  end.

#[export] Instance SimIo_datagram_io : DatagramIo SimIo unit := {|
  io_open _ w := (Ok tt, w);
  io_send _ _ w := (Ok tt, w);
  io_wait _ dump t w :=
    match dump with
    | Some _ => (Ok (mkReady false true false false), io_tick 1 w)
    | None => (Ok (mkReady false false false false), io_tick (t + 1) w)
    end;
  io_receive _ w := sim_receive w;
  io_drop _ w := w;
  io_now w := (w.(io_clock), w);
  io_sleep d w := io_tick d w;
|}.

#[export] Instance SimIo_laws : IoLaws SimIo unit io_clock.
Proof.
  constructor; simpl.
  - intros w t w' [= <- <-]. lia.
  - by intros g w r w' [= <- <-].
  - by intros s b w r w' [= <- <-].
  - intros n [d|] t w r w' [= <- <-]; simpl; lia.
  - intros s w r w'. unfold sim_receive. destruct (io_queue w); by intros [= <- <-].
  - done.
  - intros t w. simpl. lia.
Qed.

Lemma SimIo_advances : waits_advance io_clock.
Proof. intros n [d|] t w r w' [= <- <-]; simpl; lia. Qed.

#[export] Instance SimIo_timing : IoTiming SimIo unit io_clock 1.
Proof.
  constructor; simpl.
  - intros w t w' [= <- <-]. lia.
  - intros g w r w' [= <- <-]. lia.
  - intros s b w r w' [= <- <-]. lia.
  - intros n [d|] t w r w' [= <- <-]; simpl; lia.
  - intros s w r w'. unfold sim_receive. destruct (io_queue w); intros [= <- <-]; simpl; lia.
  - intros s w. simpl. lia.
  - intros t w. simpl. lia.
Qed.

(** A dump of two links, cut into two datagrams. *)
Definition two_links : SimIo :=
  mkSimIo 10 [sim_message 16 0 1 [7; 97] ++ [0; 0]; sim_message 16 0 1 [9; 98] ++ [0; 0] ++
              sim_message 3 0 1 []].

(** ** A kernel that answers *)

(** Its two links never change, and each request is answered by the same dump,
    in two datagrams, with the sequence number of the request. *)
Record KernelIo := mkKernelIo { k_clock : N; k_queue : list (list N) }.

Definition k_tick (d : N) (w : KernelIo) : KernelIo := mkKernelIo (w.(k_clock) + d) w.(k_queue).

Definition kernel_first (seq : N) : list N := sim_message 16 0 seq [7; 97] ++ [0; 0].
Definition kernel_last (seq : N) : list N :=
  sim_message 16 0 seq [9; 98] ++ [0; 0] ++ sim_message 3 0 seq [].
Definition kernel_links : list ObservedLink := [plain 7 "a"; plain 9 "b"].

#[export] Instance KernelIo_datagram_io : DatagramIo KernelIo unit | 10 := {|
  io_open _ w := (Ok tt, k_tick 1 w);
  io_send _ request w :=
    match request with
    | [_; seq] => (Ok tt, mkKernelIo (w.(k_clock) + 1) [kernel_first seq; kernel_last seq])
    | _ => (Err sim_error, w)
    end;
  io_wait _ dump t w :=
    match dump with
    | Some _ => (Ok (mkReady false true false false), k_tick 1 w)
    | None => (Ok (mkReady false false false false), k_tick (t + 1) w)
    end;
  io_receive _ w :=
    match w.(k_queue) with
    | bytes :: queue => (Ok (mkDatagram bytes true false), mkKernelIo w.(k_clock) queue)
    | [] => (Err sim_error, w)
    end;
  io_drop _ w := mkKernelIo w.(k_clock) [];
  io_now w := (w.(k_clock), w);
  io_sleep d w := k_tick d w;
|}.

#[export] Instance KernelIo_laws : IoLaws KernelIo unit k_clock.
Proof.
  constructor; simpl.
  - intros w t w' [= <- <-]. lia.
  - intros g w r w' [= <- <-]. simpl. lia.
  - intros s b w r w'. destruct b as [|? [|? [|]]]; intros [= <- <-]; simpl; lia.
  - intros n [d|] t w r w' [= <- <-]; simpl; lia.
  - intros s w r w'. destruct (k_queue w); intros [= <- <-]; simpl; lia.
  - intros s w. simpl. lia.
  - intros t w. simpl. lia.
Qed.

#[export] Instance KernelIo_timing : IoTiming KernelIo unit k_clock 1.
Proof.
  constructor; simpl.
  - intros w t w' [= <- <-]. lia.
  - intros g w r w' [= <- <-]. simpl. lia.
  - intros s b w r w'. destruct b as [|? [|? [|]]]; intros [= <- <-]; simpl; lia.
  - intros n [d|] t w r w' [= <- <-]; simpl; lia.
  - intros s w r w'. destruct (k_queue w); intros [= <- <-]; simpl; lia.
  - intros s w. simpl. lia.
  - intros t w. simpl. lia.
Qed.

Lemma kernel_entry seq i c :
  dump_entry seq
    (mkMessage seq 0 (InnerMessage (NewLink (mkLinkMessage i [IfName (sim_name c)])))) (plain i (sim_name c)).
Proof. split; [done|]. split; [done|]. eexists. by split. Qed.

Lemma kernel_first_part seq :
  Forall2 (part sim_deserialize seq) [kernel_first seq] [[plain 7 "a"]].
Proof.
  constructor; [|constructor]. split; [done|]. eexists. split; [done|].
  constructor; [apply kernel_entry|constructor].
Qed.

Lemma kernel_last_part seq : last_part sim_deserialize seq (kernel_last seq) [plain 9 "b"].
Proof.
  split; [done|]. eexists [_], _. split; [done|].
  split; [constructor; [apply kernel_entry|constructor]|by split_and!].
Qed.

Lemma KernelIo_quiet limit :
  quiet_kernel (Socket := unit) sim_deserialize sim_request k_clock limit kernel_links (λ _ _, True).
Proof.
  constructor.
  - pose proof (from_observed_spec kernel_links) as Hs. vm_compute from_observed in Hs. apply Hs.
  - done.
  - intros t w _. split; [done|]. simpl. lia.
  - intros w _. by eexists _, _.
  - intros n t w _ _. eexists. split; [done|]. split; [done|]. simpl. lia.
  - intros n w seq _. eexists tt, _, _, _, _, [kernel_first seq], [[plain 7 "a"]], (kernel_last seq),
      [plain 9 "b"], _.
    do 3 (split; [done|]). split.
    { assert (2 < INVENTORY_TIMEOUT) by done.
      do 4 eexists. do 4 (split; [done || (simpl; lia)|]).
      do 4 eexists. do 4 (split; [done || (simpl; lia)|]). done. }
    split; [exact (kernel_first_part seq)|]. split; [exact (kernel_last_part seq)|]. by split.
Qed.

(** The same kernel behind its system calls. *)
#[export] Instance KernelIo_sys : Sys KernelIo unit | 10 := {|
  sys_socket _ k := (Ok tt, k_tick 1 k);
  sys_bind _ _ _ k := (Ok tt, k);
  sys_connect _ _ _ k := (Ok tt, k);
  sys_set_non_blocking _ _ k := (Ok tt, k);
  sys_send _ request _ k :=
    match request with
    | [_; seq] => (Ok (len request), mkKernelIo (k.(k_clock) + 1) [kernel_first seq; kernel_last seq])
    | _ => (Err sim_error, k)
    end;
  sys_poll ds t k :=
    match ds with
    | [_; _] => (Ok (λ i, if (i =? 1)%nat then POLLIN else 0), k_tick 1 k)
    | _ => (Ok (λ _, 0), k_tick (t * NANOS_PER_MILLI + 1) k)
    end;
  sys_recv_from _ c _ k :=
    match k.(k_queue) with
    | bytes :: queue =>
        (Ok (len bytes, take (N.to_nat (N.min (len bytes) c)) bytes, 0), mkKernelIo k.(k_clock) queue)
    | [] => (Err sim_error, k)
    end;
  sys_close _ k := mkKernelIo k.(k_clock) [];
  sys_now k := (k.(k_clock), k);
  sys_sleep d k := k_tick d k;
|}.

#[export] Instance KernelIo_sys_laws : SysLaws KernelIo unit k_clock.
Proof.
  constructor; intros *; try (intros [= <- <-]; simpl; lia); simpl; try lia.
  - destruct b as [|? [|? [|]]]; intros [= <- <-]; simpl; lia.
  - destruct d as [|? [|? [|]]]; intros [= <- <-]; simpl; lia.
  - destruct (k_queue k); intros [= <- <-]; simpl; lia.
Qed.

#[export] Instance KernelIo_sys_timing : SysTiming KernelIo unit k_clock 1.
Proof.
  constructor; intros *; try (intros [= <- <-]; simpl; lia); simpl; try lia.
  - destruct b as [|? [|? [|]]]; intros [= <- <-]; simpl; lia.
  - destruct d as [|? [|? [|]]]; intros [= <- <-]; simpl; lia.
  - destruct (k_queue k); intros [= <- <-]; simpl; lia.
Qed.

Lemma KernelIo_quiet_system :
  quiet_system (Fd := unit) sim_deserialize sim_request k_clock kernel_links (λ _ _, True).
Proof.
  pose proof (KernelIo_quiet 0) as Hq. constructor.
  - apply Hq.
  - done.
  - intros t k _. split; [done|]. simpl. lia.
  - intros k _. eexists tt, _. split; [|done]. by do 3 eexists.
  - intros n ms k _ _. eexists _, _. split; [done|]. split; [done|]. split; [done|]. simpl. lia.
  - intros n k seq _. eexists tt, _, _, _, _, [kernel_first seq], [[plain 7 "a"]], (kernel_last seq),
      [plain 9 "b"], _.
    split; [by do 3 eexists|]. do 2 (split; [done|]). split.
    { assert (2 < INVENTORY_TIMEOUT) by done.
      do 9 eexists. do 9 (split; [done || (simpl; lia)|]).
      do 9 eexists. do 9 (split; [done || (simpl; lia)|]). done. }
    split; [exact (kernel_first_part seq)|]. split; [exact (kernel_last_part seq)|]. by split.
Qed.

(** ** Simulated system calls *)

(** One socket over the same queue: a poll reports the second descriptor
    readable, or waits for its timeout if there is none, and [recv_from]
    cuts a datagram to the buffer. *)
#[export] Instance SimIo_sys : Sys SimIo unit := {|
  sys_socket _ k := (Ok tt, k);
  sys_bind _ _ _ k := (Ok tt, k);
  sys_connect _ _ _ k := (Ok tt, k);
  sys_set_non_blocking _ _ k := (Ok tt, k);
  sys_send _ b _ k := (Ok (len b), k);
  sys_poll ds t k :=
    match ds with
    | [_; _] => (Ok (λ i, if (i =? 1)%nat then POLLIN else 0), io_tick 1 k)
    | _ => (Ok (λ _, 0), io_tick (t * NANOS_PER_MILLI + 1) k)
    end;
  sys_recv_from _ c _ k :=
    match k.(io_queue) with
    | bytes :: queue =>
        (Ok (len bytes, take (N.to_nat (N.min (len bytes) c)) bytes, 0), mkSimIo k.(io_clock) queue)
    | [] => (Err sim_error, k)
    end;
  sys_close _ k := k;
  sys_now k := (k.(io_clock), k);
  sys_sleep d k := io_tick d k;
|}.

Lemma sim_poll_clock ds t k r k' :
  sys_poll ds t k = (r, k') →
  io_clock k < io_clock k' ∧ io_clock k' ≤ io_clock k + t * NANOS_PER_MILLI + 1.
Proof. destruct ds as [|? [|? [|]]]; intros [= <- <-]; simpl; lia. Qed.

#[export] Instance SimIo_sys_laws : SysLaws SimIo unit io_clock.
Proof.
  constructor; intros *; try (intros [= <- <-]; simpl; lia).
  - intros [? _]%sim_poll_clock. lia.
  - simpl. destruct (io_queue k); intros [= <- <-]; simpl; lia.
  - done.
  - simpl. lia.
Qed.

#[export] Instance SimIo_sys_timing : SysTiming SimIo unit io_clock 1.
Proof.
  constructor; intros *; try (intros [= <- <-]; simpl; lia).
  - by intros [_ ?]%sim_poll_clock.
  - simpl. destruct (io_queue k); intros [= <- <-]; simpl; lia.
  - simpl. lia.
  - simpl. lia.
Qed.

Lemma SimIo_polls_advance : polls_advance (K := SimIo) (Fd := unit) io_clock.
Proof.
  intros [|d [|d1 [|d2 ds]]] t k r k' [= <- <-]; simpl; lia.
Qed.

Lemma SimIo_few_signals retries : FewSignals SimIo unit retries.
Proof.
  assert (∀ {A} (call : SimIo → SimIo + A) k, (∃ out, call k = inr out) →
    ∃ out, iterate retries call k = inr out) as Honce.
  { intros A call k [out Ho]. exists out. apply (iterate_leaves _ 1); [|lia]. simpl. by rewrite Ho. }
  constructor; intros; apply Honce.
  - unfold send_once. simpl. case_match; eauto.
  - unfold receive_once. simpl. destruct (io_queue k); eauto.
  - unfold poll_once. destruct ds as [|? [|? [|]]]; simpl; eauto.
Qed.

#[export] Instance SimIo_recv_laws : RecvLaws SimIo unit.
Proof.
  constructor. intros *. simpl. destruct (io_queue k) as [|bytes queue]; [done|].
  intros [= <- <- <- <-]. unfold len. rewrite length_take. lia.
Qed.

(** ** A table of descriptors *)

(** Numbered descriptors over the simulated system calls: a call on one that
    is not open fails, as [EBADF] does. *)
Record FdTable := mkFdTable { t_io : SimIo; t_next : N; t_open : list N }.

Fixpoint remove_one (s : N) (l : list N) : list N :=
  match l with
  | [] => []
  | x :: l => if x =? s then l else x :: remove_one s l
  end.

Lemma remove_one_perm s l : s ∈ l → s :: remove_one s l ≡ₚ l.
Proof.
  induction l as [|x l IH]; [by intros ?%elem_of_nil|]. simpl.
  destruct (N.eqb_spec x s) as [->|Hne]; [done|].
  intros [->|Hin]%elem_of_cons; [done|]. rewrite Permutation_swap. by rewrite IH.
Qed.

Definition bad_descriptor : Error := mkError OtherKind [Lit "Bad file descriptor"].

Definition on_fd {A} (s : N) (call : SimIo → result Error A * SimIo) (k : FdTable)
    : result Error A * FdTable :=
  if bool_decide (s ∈ k.(t_open)) then
    let '(r, io) := call k.(t_io) in (r, mkFdTable io k.(t_next) k.(t_open))
  else (Err bad_descriptor, k).

#[export] Instance FdTable_sys : Sys FdTable N := {|
  sys_socket _ k := (Ok k.(t_next), mkFdTable k.(t_io) (k.(t_next) + 1) (k.(t_next) :: k.(t_open)));
  sys_bind s p g := on_fd s (sys_bind tt p g);
  sys_connect s p g := on_fd s (sys_connect tt p g);
  sys_set_non_blocking s b := on_fd s (sys_set_non_blocking tt b);
  sys_send s b f := on_fd s (sys_send tt b f);
  sys_poll ds t k :=
    let '(r, io) := sys_poll (map (λ d, mkPollFd tt d.(events) d.(revents)) ds) t k.(t_io) in
    (r, mkFdTable io k.(t_next) k.(t_open));
  sys_recv_from s c f := on_fd s (sys_recv_from tt c f);
  sys_close s k := mkFdTable k.(t_io) k.(t_next) (remove_one s k.(t_open));
  sys_now k := (k.(t_io).(io_clock), k);
  sys_sleep d k := mkFdTable (io_tick d k.(t_io)) k.(t_next) k.(t_open);
|}.

#[export] Instance FdTable_ownership limit : SysOwnership FdTable N t_open limit.
Proof.
  assert (∀ A s (call : SimIo → result Error A * SimIo) k r k',
    on_fd s call k = (r, k') → t_open k' ≡ₚ t_open k) as Hfd.
  { intros A s call k r k'. unfold on_fd. case_bool_decide; [|by intros [= <- <-]].
    destruct (call (t_io k)). by intros [= <- <-]. }
  constructor; intros *; try (by intros ?%Hfd).
  - by intros [= <- <-].
  - cbn [sys_poll FdTable_sys]. destruct (sys_poll _ _ (t_io k)) as [r1 io]. by intros [= <- <-].
  - apply remove_one_perm.
  - by intros [= <- <-].
  - done.
Qed.

(** ** A simulated PDU crate *)

Definition be (n : nat) (x : N) : list N :=
  map (λ i, N.shiftr x (8 * N.of_nat i) mod 256) (rev (seq 0 n)).

Definition from_be (l : list N) : N := foldl (λ acc b, 256 * acc + b) 0 l.

Definition sim_type_code (t : Type_) : N :=
  match t with
  | TOpen => 1 | TClose => 2 | TRegister => 3 | TGet => 5 | TGetNext => 6 | TGetBulk => 7
  | TTestSet => 8 | TCommitSet => 9 | TUndoSet => 10 | TCleanupSet => 11 | TPing => 13
  | TResponse => 18 | TOther c => c
  end.

Definition sim_type (c : N) : Type_ :=
  match c with
  | 1 => TOpen | 2 => TClose | 3 => TRegister | 5 => TGet | 6 => TGetNext | 7 => TGetBulk
  | 8 => TTestSet | 9 => TCommitSet | 10 => TUndoSet | 11 => TCleanupSet | 13 => TPing
  | 18 => TResponse | _ => TOther c
  end.

(** Headers in network byte order. *)
Definition sim_header (h : Header) : list N :=
  [h.(version); sim_type_code h.(ty); h.(flags); 0] ++ be 4 h.(session_id) ++
  be 4 h.(transaction_id) ++ be 4 h.(packet_id) ++ be 4 h.(payload_length).

Definition sim_header_from (b : list N) : result Error Header :=
  match b with
  | v :: t :: f :: _ :: rest =>
      Ok (mkHeader v (sim_type t) f (from_be (take 4 rest)) (from_be (take 4 (drop 4 rest)))
            (from_be (take 4 (drop 8 rest))) (from_be (take 4 (drop 12 rest))))
  | _ => Err sim_error
  end.

Definition sim_error_code (e : ResError) : N :=
  match e with
  | NoAgentXError => 0 | NotOpen => 257 | UnsupportedContext => 262 | ParseError => 266
  | RequestDenied => 267 | ProcessingError => 268 | ResOther c => c
  end.

#[export] Instance Oid_pdu : PduOps Oid := {|
  open_new _ := mkOpen (mkHeader 1 TOpen 0 0 0 0 0) 0;
  register_new table := mkRegister (mkHeader 1 TRegister 0 0 0 0 0) table 127;
  response_from_header h :=
    mkResponse (mkHeader h.(version) TResponse h.(flags) h.(session_id) h.(transaction_id)
                  h.(packet_id) 8) NoAgentXError 0 None;
  open_to_bytes o := Ok (sim_header o.(o_header));
  register_to_bytes r := Ok (sim_header r.(g_header));
  response_to_bytes r :=
    Ok (sim_header r.(r_header) ++ be 4 0 ++ be 2 (sim_error_code r.(res_error)) ++
        be 2 r.(res_index));
  header_from_bytes := sim_header_from;
  res_error_from_bytes b order :=
    Ok (if from_be b =? 0 then NoAgentXError else ResOther (from_be b));
  get_from_bytes _ := Ok [mkRange (mkOid TABLE 0) (mkOid [] 0)];
  get_bulk_from_bytes _ := Ok ([mkRange (mkOid TABLE 0) (mkOid [] 0)], 0, 10);
  test_set_from_bytes _ := Ok [];
  ping_from_bytes _ := Ok tt;
  close_from_bytes _ := Ok tt;
  try_from_error := sim_error;
  type_debug _ := "type";
  res_error_debug _ := "error";
|}.

Lemma length_be n x : length (be n x) = n.
Proof. unfold be. by rewrite length_map, length_rev, length_seq. Qed.

Lemma Oid_long_responses : long_responses (ID := Oid).
Proof.
  intros r bytes [= <-]. cbn [length app]. repeat (rewrite length_app || rewrite length_be).
  simpl. lia.
Qed.

(** ** A simulated stream *)

(** The peer's bytes arrive at most [st_chunk + 1] at a time. *)
Record SimStream := mkSimStream {
  st_in : list N;
  st_out : list N;
  st_chunk : nat;
  st_timeout : option N;
  st_clock : N;
}.

Definition st_tick (w : SimStream) : SimStream :=
  mkSimStream w.(st_in) w.(st_out) w.(st_chunk) w.(st_timeout) (w.(st_clock) + 1).

#[export] Instance SimStream_stream : Stream SimStream := {|
  st_connect _ w := (Ok tt, w);
  st_set_read_timeout t w :=
    (Ok tt, mkSimStream w.(st_in) w.(st_out) w.(st_chunk) t w.(st_clock));
  st_set_write_timeout _ w := (Ok tt, w);
  st_read_timeout w := (Ok w.(st_timeout), w);
  st_read n w :=
    let k := Nat.min n (S w.(st_chunk)) in
    (Ok (take k w.(st_in)),
     mkSimStream (drop k w.(st_in)) w.(st_out) w.(st_chunk) w.(st_timeout) (w.(st_clock) + 1));
  st_write_all b w :=
    (Ok tt, mkSimStream w.(st_in) (w.(st_out) ++ b) w.(st_chunk) w.(st_timeout) w.(st_clock));
  st_drop w := w;
  st_now w := (w.(st_clock), w);
|}.

#[export] Instance SimStream_laws : StreamLaws SimStream st_in st_out st_timeout st_clock.
Proof.
  constructor; simpl.
  - intros n w r w' [= <- <-]. simpl. split_and!; [done|done|lia| |].
    + rewrite length_take. lia.
    + by rewrite take_drop.
  - intros t w r w' [= <- <-]. simpl. by split_and!.
  - intros w r w' [= <- <-]. simpl. split_and!; [done..|lia|]. by intros t [= <-].
  - intros b w r w' [= <- <-]. simpl. by split_and!.
  - intros p w r w' [= <- <-]. by split_and!.
  - intros t w r w' [= <- <-]. by split_and!.
  - intros w t w' [= <- <-]. split_and!; done || lia.
Qed.

Lemma SimStream_advances : reads_advance st_clock.
Proof. intros n w r w' [= <- <-]. simpl. lia. Qed.

#[export] Instance SimStream_prompt : Prompt st_in st_clock 1.
Proof.
  constructor; simpl.
  - intros w t w' [= <- <-]. lia.
  - intros t w. eexists. split; [done|]. simpl. lia.
  - intros w. eexists _, _. split; [done|]. simpl. lia.
  - intros n w Hn Hin. eexists _, _. split; [done|]. split; [|simpl; lia].
    destruct n as [|n]; [lia|]. by destruct (st_in w).
  - intros p w. eexists. split; [done|]. simpl. lia.
  - intros t w. eexists. split; [done|]. simpl. lia.
  - intros b w. eexists. split; [done|]. simpl. lia.
Qed.

(** ** A stream that counts its descriptors *)

Record Counted := mkCounted { c_stream : SimStream; c_open : N }.

Definition on_stream {A} (call : SimStream → A * SimStream) (w : Counted) : A * Counted :=
  let '(r, u) := call w.(c_stream) in (r, mkCounted u w.(c_open)).

Definition c_opened (w : Counted) : Counted := mkCounted w.(c_stream) (w.(c_open) + 1).
Definition c_closed (w : Counted) : Counted := mkCounted w.(c_stream) (w.(c_open) - 1).

#[export] Instance Counted_stream : Stream Counted := {|
  st_connect p w := (Ok tt, c_opened w);
  st_set_read_timeout t := on_stream (st_set_read_timeout t);
  st_set_write_timeout t := on_stream (st_set_write_timeout t);
  st_read_timeout := on_stream st_read_timeout;
  st_read n := on_stream (st_read n);
  st_write_all b := on_stream (st_write_all b);
  st_drop := c_closed;
  st_now := on_stream st_now;
|}.

(** A service manager's socket is a descriptor, too. *)
Definition c_unbound (w : Counted) : result Error unit * Counted := (Ok tt, c_opened w).
Definition c_send_to (b : string) (a : unit) (w : Counted) : result Error unit * Counted := (Ok tt, w).
Definition c_sleep (t : N) (w : Counted) : Counted := w.

#[export] Instance Counted_ownership :
  MainOwnership c_open c_unbound c_send_to c_closed c_sleep.
Proof.
  assert (∀ A (call : SimStream → A * SimStream) w r w',
    on_stream call w = (r, w') → c_open w' = c_open w) as Hkeep.
  { intros A call w r w'. unfold on_stream. destruct (call (c_stream w)). by intros [= <- <-]. }
  constructor.
  - intros n. constructor; intros *; by intros ->%Hkeep.
  - by intros p w r w' [= <- <-].
  - intros w Hw. simpl. lia.
  - by intros w r w' [= <- <-].
  - by intros b a w r w' [= <- <-].
  - intros w Hw. simpl. lia.
  - done.
Qed.

(** A master that acknowledges both administrative PDUs, asks for a walk step
    and closes, four bytes at a time. *)
Definition sim_ack (session packet : N) : list N :=
  sim_header (mkHeader 1 TResponse 16 session 0 packet 8) ++ be 4 0 ++ [0; 0; 0; 0].

Definition master : SimStream :=
  mkSimStream (sim_ack 42 1 ++ sim_ack 42 2 ++ sim_header (mkHeader 1 TGetNext 16 42 5 6 0) ++
               sim_header (mkHeader 1 TClose 16 42 0 7 0)) [] 3 None 0.
