(* ===== verification/Conformance.v ===== *)
(** The unit tests of [src/src/monitor.rs] run against the model: the scripted
    source the tests use, and the runs whose outcome they assert. Each
    example is one of the repository's tests with its expected times. *)

From stdpp Require Import pretty.
From S2P Require Import Prelude Link Agentx Mib Duration Monitor MonitorRuns Scenarios.
Open Scope N_scope.

Inductive InventoryStep :=
| Complete (links : list ObservedLink) (elapsed : N) (events : EventBatch) (stale : bool)
| StepOrdinary
| StepLost
| OrdinaryWithEvents (events : EventBatch)
| LostWithEvents (events : EventBatch).

Inductive WaitStep := Change | Loss | Stop.

(** [struct Controlled]; the availability the tests observe through the shared
    reader is collected by [run_until_stop], and [stopped] stands for the
    test-only outcome that ends the loop. *)
Record Controlled := mkControlled {
  c_now : N;
  subscriptions : list bool;
  inventories : list InventoryStep;
  waits : list (N * WaitStep);
  subscription_times : list N;
  acquisition_times : list N;
  stopped : bool;
}.

Definition Controlled_new : Controlled := mkControlled 0 [true] [] [] [] [] false.

(** [Controlled::complete] *)
Definition complete (i : N) : InventoryStep :=
  Complete [plain i ("link" +:+ pretty i)] 0 empty_batch false.

Definition controlled_subscribe (c : Controlled) : result Error unit * Controlled :=
  let ok := default true (head c.(subscriptions)) in
  let c := mkControlled c.(c_now) (tail c.(subscriptions)) c.(inventories) c.(waits)
             (c.(subscription_times) ++ [c.(c_now)]) c.(acquisition_times) c.(stopped) in
  if ok then (Ok tt, c) else (Err (error_other "scripted subscription failure"), c).

Definition controlled_inventory (attempt : Attempt) (c : Controlled)
    : result AcquisitionError Inventory * Controlled :=
  let step := default (complete 1) (head c.(inventories)) in
  let after d := mkControlled (c.(c_now) + d) c.(subscriptions) (tail c.(inventories)) c.(waits)
                   c.(subscription_times) (c.(acquisition_times) ++ [c.(c_now)]) c.(stopped) in
  match step with
  | Complete links elapsed events stale =>
      let echoed := if stale then mkAttempt (attempt.(attempt_continuity) - 1) else attempt in
      (Ok (mkInventory echoed links events), after elapsed)
  | StepOrdinary =>
      (Err (Ordinary (error_other "scripted inventory failure") empty_batch), after 0)
  | StepLost => (Err (Lost (error_other "scripted continuity loss") empty_batch), after 0)
  | OrdinaryWithEvents events =>
      (Err (Ordinary (error_other "scripted inventory failure with events") events), after 0)
  | LostWithEvents events =>
      (Err (Lost (error_other "scripted continuity loss with events") events), after 0)
  end.

Definition controlled_wait (timeout : N) (c : Controlled)
    : result Error WaitOutcome * Controlled :=
  let deadline := c.(c_now) + timeout in
  let at_time t ws stop := mkControlled t c.(subscriptions) c.(inventories) ws
                             c.(subscription_times) c.(acquisition_times) stop in
  match c.(waits) with
  | [] => (Ok Deadline, at_time c.(c_now) [] true)
  | (t, step) :: ws =>
      if deadline <? t then (Ok Deadline, at_time deadline c.(waits) false)
      else
        let c' := at_time (N.max t c.(c_now)) ws in
        match step with
        | Change => (Ok (LinkChanged t), c' false)
        | Loss => (Err (error_other "scripted notification loss"), c' false)
        | Stop => (Ok Deadline, c' true)
        end
  end.

#[export] Instance Controlled_acquisition : Acquisition Controlled := {|
  acq_now c := (c.(c_now), c);
  acq_subscribe := controlled_subscribe;
  acq_inventory := controlled_inventory;
  acq_wait := controlled_wait;
|}.

(** [monitor::run] until the script stops it, with whether a table was
    available at each wait. *)
Fixpoint run_until_stop (fuel : nat) (c : Config Oid Controlled)
    : option (list bool * Config Oid Controlled) :=
  match fuel with
  | O => None
  | S fuel' =>
      if c.(world).(stopped) then Some ([], c)
      else
        '(acts, c') ← run_step c;
        '(seen, c'') ← run_until_stop fuel' c';
        let waited := existsb (λ a, match a with Wait _ _ => true | _ => false end) acts in
        Some ((if waited then [bool_decide (is_Some (snapshot c.(cell)))] else []) ++ seen, c'')
  end.

(** What a test asserts about: acquisition and subscription times in
    milliseconds, availability at the waits and in the end. *)
Definition outcome (source : Controlled) (reconcile : N)
    : option (list N * list N * list bool * bool) :=
  '(seen, c) ← run_until_stop 200 (run_start source reconcile);
  Some (as_millis <$> c.(world).(acquisition_times), as_millis <$> c.(world).(subscription_times),
        seen, bool_decide (is_Some (snapshot c.(cell)))).

Definition scripted (subs : list bool) (steps : list InventoryStep) (ws : list (N * WaitStep))
    : Controlled :=
  mkControlled 0 subs steps ws [] [] false.

Definition millis (n : N) : N := n * NANOS_PER_MILLI.
Definition secs_step (p : N * WaitStep) : N * WaitStep := (from_secs p.1, p.2).
Definition hour : N := from_secs 3600.
Definition one_event (t : N) : EventBatch := mkBatch (Some t) (Some t).

(** ** The tests *)

Definition startup_run := outcome (scripted [true] [complete 2] []) hour.
Example startup_publishes : startup_run = Some ([0], [0], [true], true).
Proof. vm_compute. reflexivity. Qed.

Definition pending_run :=
  outcome (scripted [true] [complete 1] [(from_secs 10, Change); (millis 10500, Stop)]) hour.
Example table_remains_available_while_pending : pending_run = Some ([0], [0], [true; true], true).
Proof. vm_compute. reflexivity. Qed.

Definition event_backoff_run :=
  outcome (scripted [true] (replicate 8 (complete 1))
    (map secs_step [(10, Change); (12, Change); (15, Change); (16, Change); (20, Change);
                    (29, Change); (46, Change); (77, Change); (108, Stop)])) hour.
Example event_backoff_is_exact : option_map (λ o, o.1.1.1) event_backoff_run =
  Some (map (λ s, s * 1000) [0; 11; 14; 19; 28; 45; 76; 107]).
Proof. vm_compute. reflexivity. Qed.

Definition event_reset_run :=
  outcome (scripted [true] (replicate 4 (complete 1))
    (map secs_step [(10, Change); (69, Change); (70, Change); (131, Change); (133, Stop)])) hour.
Example event_backoff_resets_after_quiet : option_map (λ o, o.1.1.1) event_reset_run =
  Some (map (λ s, s * 1000) [0; 11; 71; 132]).
Proof. vm_compute. reflexivity. Qed.

Definition failure_backoff_run :=
  outcome (scripted [true] (replicate 7 StepOrdinary ++ [complete 1; StepOrdinary; complete 1])
    (map secs_step [(92, Change); (95, Stop)])) hour.
Example failure_backoff_is_exact : option_map (λ o, o.1.1.1) failure_backoff_run =
  Some (map (λ s, s * 1000) [0; 1; 3; 7; 15; 31; 61; 91; 93; 94]).
Proof. vm_compute. reflexivity. Qed.

Definition subscription_run :=
  outcome (scripted [false; false; true] [complete 1] [(from_secs 4, Stop)]) hour.
Example failed_subscription_retries : option_map (λ o, (o.1.1.2, o.1.1.1)) subscription_run =
  Some ([0; 1000; 3000], [3000]).
Proof. vm_compute. reflexivity. Qed.

Definition not_before_run :=
  outcome (scripted [true] [complete 1; StepOrdinary; complete 2; complete 3]
    [(from_secs 10, Change); (millis 11500, Change); (from_secs 25, Stop)]) (from_secs 11).
Example nothing_bypasses_not_before : option_map (λ o, o.1.1.1) not_before_run =
  Some [0; 11000; 12000; 23000].
Proof. vm_compute. reflexivity. Qed.

Definition preserve_run :=
  outcome (scripted [true] [complete 1; StepOrdinary; complete 2; StepLost; complete 3]
    (map secs_step [(10, Change); (20, Change); (30, Stop)])) hour.
Example ordinary_preserves_loss_removes : option_map (λ o, (o.1.2, o.2)) preserve_run =
  Some ([true; true; true; true; true; false; true], true).
Proof. vm_compute. reflexivity. Qed.

Definition during_run :=
  outcome (scripted [true] [Complete [plain 1 "first"] (millis 600) (one_event (millis 500)) false;
                            complete 2] [(from_secs 2, Stop)]) hour.
Example notifications_during_inventory_pend : option_map (λ o, (o.1.1.1, o.2)) during_run =
  Some ([0; 1500], true).
Proof. vm_compute. reflexivity. Qed.

Definition retained_run (lost : bool) :=
  let batch := one_event (from_secs 11) in
  outcome (scripted [true]
    [complete 1; if lost then LostWithEvents batch else OrdinaryWithEvents batch;
     complete 2; complete 3] (map secs_step [(10, Change); (70, Change); (75, Stop)])) hour.
Example failed_inventories_retain_backoff :
  option_map (λ o, o.1.1) (retained_run false) = Some ([0; 11000; 12000; 74000], [0]) ∧
  option_map (λ o, o.1.1) (retained_run true) = Some ([0; 11000; 12000; 74000], [0; 12000]).
Proof. vm_compute. split; reflexivity. Qed.

Definition stale_run :=
  outcome (scripted [true] [complete 1; Complete [plain 2 "stale"] 0 empty_batch true; complete 3]
    (map secs_step [(10, Loss); (14, Stop)])) hour.
Example stale_completion_cannot_restore :
  option_map (λ o, (o.1.1.1, existsb negb o.1.2, o.2)) stale_run =
  Some ([0; 11000; 13000], true, true).
Proof. vm_compute. reflexivity. Qed.
