(* ===== verification/UnitTests.v ===== *)
(** The unit tests of [src/src/link.rs] and [src/src/mib.rs] run against the
    model: each definition computes what one test observes, and the example
    after it is the test's assertion. *)

From Stdlib Require Import Ascii.
From stdpp Require Import pretty.
From S2P Require Import Prelude BTree Link Agentx Mib Scenarios.
Open Scope N_scope.

(** ** Messages as text *)

Definition quote : string := String "034"%char EmptyString.

(** What [format!] prints for the strings of the tests, none of which needs
    an escape. *)
Definition print_piece (p : Piece) : string :=
  match p with
  | Lit s => s
  | DebugStr s => quote +:+ s +:+ quote
  | DisplayStr s => s
  | DisplayInt n => pretty n
  end.
Definition print (message : list Piece) : string :=
  foldr (λ p s, print_piece p +:+ s) EmptyString message.

(** An expected message, written with apostrophes for its quotation marks. *)
Fixpoint quoted (s : string) : string :=
  match s with
  | EmptyString => EmptyString
  | String c s => String (if Ascii.eqb c "'" then "034"%char else c) (quoted s)
  end.

(** ** link.rs *)

(** [fn relationships] *)
Definition relationships_of (t : Topology) : list (N * N) :=
  map (λ r, (rel_higher r, rel_lower r)) (bs_iter t.(relationships)).

Definition observe (links : list ObservedLink) : result Error (list N * list (N * N)) :=
  t ← from_observed links; Ok (bs_iter t.(interfaces), relationships_of t).

Definition direct_relationships := observe
  [with_controller 9 (plain 3 "member"); of_kind 9 "bond" Bond; plain 10 "standalone"].
Example topology_keeps_direct_relationships :
  direct_relationships = Ok ([3; 9; 10], [(9, 3)]).
Proof. vm_compute. reflexivity. Qed.

Definition supported_links := snd <$> observe
  ([plain 2 "lower"; of_kind 9 "bond" Bond; of_kind 10 "bridge" Bridge;
    with_controller 9 (plain 3 "bond-member"); with_controller 10 (plain 4 "bridge-member")] ++
   map (λ p, with_lower 2 (of_kind p.1 ("link" +:+ pretty p.1) p.2))
     [(20, Vlan); (21, MacVlan); (22, IpVlan); (23, MacVtap)] ++
   [with_vxlan_lower 2 (of_kind 24 "vxlan" Vxlan)]).
Example supported_links_are_related :
  supported_links = Ok [(9, 3); (10, 4); (20, 2); (21, 2); (22, 2); (23, 2); (24, 2)].
Proof. vm_compute. reflexivity. Qed.

Definition unsupported_links := snd <$> observe
  [plain 1 "lo"; of_kind 2 "vrf" Other; with_controller 2 (plain 3 "ens3");
   with_remote_lower 5 (of_kind 4 "veth0" Veth); with_lower 4 (of_kind 5 "veth1" Veth)].
Example unsupported_links_are_not_related : unsupported_links = Ok [].
Proof. vm_compute. reflexivity. Qed.

Definition in_netns (nsid : Z) (l : ObservedLink) : ObservedLink :=
  mkLink l.(index) l.(name) l.(kind) l.(controller) l.(lower) (Some nsid) l.(vxlan_lower).

Definition standalone_vxlans := map (λ vxlan, snd <$> observe [plain 2 "lower"; vxlan])
  [of_kind 10 "vxlan" Vxlan; with_vxlan_lower 99 (of_kind 10 "vxlan" Vxlan);
   in_netns 0 (with_vxlan_lower 2 (of_kind 10 "vxlan" Vxlan))].
Example standalone_vxlans_are_not_related : standalone_vxlans = [Ok []; Ok []; Ok []].
Proof. vm_compute. reflexivity. Qed.

(** [fn assert_rejected_with_message] *)
Definition rejected_with (links : list ObservedLink) (expected : string) : bool :=
  match from_observed links with
  | Err e => bool_decide (e.(error_kind) = InvalidData)
             && String.eqb (print e.(error_message)) (quoted expected)
  | Ok _ => false
  end.

(** Every case of a table of links and messages is rejected as expected. *)
Definition all_rejected (cases : list (list ObservedLink * string)) : bool :=
  forallb (λ c, rejected_with c.1 c.2) cases.

(** The four kinds that need a lower layer, with an index for each. *)
Definition stacked (f : N → ObservedLink → ObservedLink) (i : N) (n : string) (k : LinkKind) (l : N)
    : list ObservedLink := [f l (of_kind i n k)].

Definition invalid_index := all_rejected
  [([plain 0 "zero"], "interface 'zero' has invalid index 0");
   ([plain (i32_max + 1) "large"], "interface 'large' has invalid index 2147483648")].
Example invalid_index_named : invalid_index = true.
Proof. vm_compute. reflexivity. Qed.

Definition invalid_name := all_rejected
  [([plain 7 EmptyString], "interface at index 7 has an empty name")].
Example invalid_name_named : invalid_name = true.
Proof. vm_compute. reflexivity. Qed.

Definition duplicate_index := all_rejected
  [([plain 7 "first"; plain 7 "second"],
    "interface 'second' duplicates index 7 of interface 'first'")].
Example duplicate_index_named : duplicate_index = true.
Proof. vm_compute. reflexivity. Qed.

Definition duplicate_name := all_rejected
  [([plain 7 "same"; plain 8 "same"],
    "interface 'same' (index 8) duplicates the name of interface at index 7")].
Example duplicate_name_named : duplicate_name = true.
Proof. vm_compute. reflexivity. Qed.

Definition unknown_controller := all_rejected
  [([with_controller 99 (plain 7 "member")],
    "interface 'member' (index 7) references unknown controller index 99")].
Example unknown_controller_named : unknown_controller = true.
Proof. vm_compute. reflexivity. Qed.

Definition missing_lower := all_rejected
  [([of_kind 7 "vlan" Vlan], "interface 'vlan' (index 7) has no lower sub-layer reference");
   ([of_kind 8 "macvlan" MacVlan],
    "interface 'macvlan' (index 8) has no lower sub-layer reference");
   ([of_kind 9 "ipvlan" IpVlan], "interface 'ipvlan' (index 9) has no lower sub-layer reference");
   ([of_kind 10 "macvtap" MacVtap],
    "interface 'macvtap' (index 10) has no lower sub-layer reference")].
Example missing_lower_named : missing_lower = true.
Proof. vm_compute. reflexivity. Qed.

Definition unknown_lower := all_rejected
  [(stacked with_lower 7 "vlan" Vlan 99,
    "interface 'vlan' (index 7) references unknown lower sub-layer index 99");
   (stacked with_lower 8 "macvlan" MacVlan 98,
    "interface 'macvlan' (index 8) references unknown lower sub-layer index 98");
   (stacked with_lower 9 "ipvlan" IpVlan 97,
    "interface 'ipvlan' (index 9) references unknown lower sub-layer index 97");
   (stacked with_lower 10 "macvtap" MacVtap 96,
    "interface 'macvtap' (index 10) references unknown lower sub-layer index 96")].
Example unknown_lower_named : unknown_lower = true.
Proof. vm_compute. reflexivity. Qed.

Definition remote_lower := all_rejected
  [(stacked with_remote_lower 7 "vlan" Vlan 99,
    "interface 'vlan' (index 7) references lower sub-layer index 99 in another network namespace");
   (stacked with_remote_lower 8 "macvlan" MacVlan 98,
    "interface 'macvlan' (index 8) references lower sub-layer index 98 in another network namespace");
   (stacked with_remote_lower 9 "ipvlan" IpVlan 97,
    "interface 'ipvlan' (index 9) references lower sub-layer index 97 in another network namespace");
   (stacked with_remote_lower 10 "macvtap" MacVtap 96,
    "interface 'macvtap' (index 10) references lower sub-layer index 96 in another network namespace")].
Example remote_lower_named : remote_lower = true.
Proof. vm_compute. reflexivity. Qed.

(** [fn every_link_kind]: that the list is exhaustive is a lemma here. *)
Definition every_link_kind : list LinkKind :=
  [Bond; Bridge; Vlan; MacVlan; IpVlan; MacVtap; Vxlan; Veth; Other].
Lemma every_link_kind_complete k : k ∈ every_link_kind.
Proof. destruct k; vm_compute; repeat constructor. Qed.

Definition self_controller := all_rejected
  (map (λ k, ([with_controller 7 (of_kind 7 "self" k)],
              "interface 'self' (index 7) references itself as controller")) every_link_kind).
Example self_controller_named : self_controller = true.
Proof. vm_compute. reflexivity. Qed.

Definition self_stack := all_rejected
  [(stacked with_lower 7 "vlan" Vlan 7,
    "interface 'vlan' (index 7) references itself as lower sub-layer");
   (stacked with_lower 8 "macvlan" MacVlan 8,
    "interface 'macvlan' (index 8) references itself as lower sub-layer");
   (stacked with_lower 9 "ipvlan" IpVlan 9,
    "interface 'ipvlan' (index 9) references itself as lower sub-layer");
   (stacked with_lower 10 "macvtap" MacVtap 10,
    "interface 'macvtap' (index 10) references itself as lower sub-layer");
   (stacked with_vxlan_lower 11 "vxlan" Vxlan 11,
    "interface 'vxlan' (index 11) references itself as lower sub-layer");
   (stacked with_controller 12 "bond" Bond 12,
    "interface 'bond' (index 12) references itself as controller");
   (stacked with_controller 13 "bridge" Bridge 13,
    "interface 'bridge' (index 13) references itself as controller");
   (stacked with_controller 14 "other" Other 14,
    "interface 'other' (index 14) references itself as controller")].
Example self_stack_named : self_stack = true.
Proof. vm_compute. reflexivity. Qed.

Definition both_layers := snd <$> observe
  [of_kind 2 "bond" Bond; with_lower 2 (with_controller 2 (of_kind 3 "vlan" Vlan))].
Example one_interface_can_be_both : both_layers = Ok [(2, 3); (3, 2)].
Proof. vm_compute. reflexivity. Qed.

(** ** mib.rs *)

(** [fn oid] *)
Definition oid (suffix : list N) : Oid := mkOid (STATUS ++ suffix) 0.
Definition inclusive (o : Oid) : Oid := id_set_include 1 o.
(** [ID::default()] *)
Definition null_oid : Oid := mkOid [] 0.

(** [fn table] *)
Definition table (rows : list (N * N)) : list (Oid * Value Oid) := default [] (from_rows rows).

Definition data_at (m : list (Oid * Value Oid)) (o : Oid) : option (Value Oid) :=
  vb_data <$> get m o.

Definition boundary_rows :=
  t ← from_observed [with_controller 10 (plain 2 "member"); of_kind 10 "bond" Bond;
                     plain 20 "standalone"];
  ok_or (m ← from_topology t;
         Some (map (λ s, data_at m (oid s)) [[0; 10]; [0; 20]; [2; 0]; [10; 2]; [20; 0]],
               map (λ s, data_at m (oid s)) [[0; 2]; [10; 0]])) (error_other "panic").
Example missing_sides_become_rows :
  boundary_rows = Ok (replicate 5 (Some (VInteger 1%Z)), replicate 2 (Some VNoSuchInstance)).
Proof. vm_compute. reflexivity. Qed.

Definition missing_gets :=
  let m := table [(2, 10)] in
  (data_at m (oid [2; 10]), map (λ s, data_at m (oid s)) [[]; [2]; [2; 11]; [2; 10; 0]],
   map (data_at m) [mkOid TABLE 0; mkOid [1; 3; 6; 1; 2; 1; 31; 1; 2; 1; 30] 0]).
Example get_distinguishes_missing :
  missing_gets = (Some (VInteger 1%Z), replicate 4 (Some VNoSuchInstance),
                  replicate 2 (Some VNoSuchObject)).
Proof. vm_compute. reflexivity. Qed.

(** [n] steps of a walk: the answers, each followed by a search from its name. *)
Fixpoint walk_steps (m : list (Oid * Value Oid)) (n : nat) (range : SearchRange Oid)
    : list (VarBind Oid) :=
  match n with
  | O => []
  | S n => let next := get_next m range in next :: walk_steps m n (set_start range next.(vb_name))
  end.

Definition numeric_walk :=
  walk_steps (table [(10, 2); (2, 10); (2, 2)]) 4 (mkRange (oid []) null_oid).
Example walk_is_numeric :
  numeric_walk = [mkVarBind (oid [2; 2]) (VInteger 1%Z); mkVarBind (oid [2; 10]) (VInteger 1%Z);
                  mkVarBind (oid [10; 2]) (VInteger 1%Z); mkVarBind (oid [10; 2]) VEndOfMibView].
Proof. vm_compute. reflexivity. Qed.

Definition bounded_next :=
  let m := table [(2, 2); (2, 10)] in
  (get_next m (mkRange (inclusive (oid [2; 2])) (oid [2; 10])),
   map (λ r, get_next m (mkRange r.1 r.2))
     [(oid [2; 2], oid [2; 10]); (inclusive (oid [2; 2]), inclusive (oid [2; 2]));
      (oid [9], oid [1])],
   vb_data (get_next (table []) (mkRange null_oid null_oid))).
Example next_honors_bounds :
  bounded_next =
  (mkVarBind (oid [2; 2]) (VInteger 1%Z),
   map (λ o, mkVarBind o VEndOfMibView) [oid [2; 2]; oid [2; 2]; oid [9]], VEndOfMibView).
Proof. vm_compute. reflexivity. Qed.

Definition bulk_ranges : list (SearchRange Oid) :=
  [mkRange (oid []) null_oid; mkRange (inclusive (oid [2; 2])) (oid [10]);
   mkRange (oid [2; 10]) null_oid].
Definition bulk_interleaving :=
  let m := table [(2, 2); (2, 10); (10, 2)] in
  (get_bulk m bulk_ranges 1 10, length (get_bulk m bulk_ranges 1 0),
   length (get_bulk m bulk_ranges 20 20), length (get_bulk m [] 0 20)).
Example bulk_interleaves_repeaters :
  bulk_interleaving =
  ([mkVarBind (oid [2; 2]) (VInteger 1%Z);
    mkVarBind (oid [2; 2]) (VInteger 1%Z); mkVarBind (oid [10; 2]) (VInteger 1%Z);
    mkVarBind (oid [2; 10]) (VInteger 1%Z); mkVarBind (oid [10; 2]) VEndOfMibView;
    mkVarBind (oid [2; 10]) VEndOfMibView; mkVarBind (oid [10; 2]) VEndOfMibView], 1%nat, 3%nat,
   0%nat).
Proof. vm_compute. reflexivity. Qed.

(** The response to an unbounded GETBULK over ten thousand rows is cut at the
    cap: by [get_bulk_saturates], since the table is too large to evaluate. *)
Definition many_rows : list (N * N) := map (λ i, (N.of_nat i, 0)) (seq 1 (N.to_nat 9999)).
Definition bulk_growth : nat :=
  length (get_bulk (table many_rows) [mkRange null_oid null_oid] 0 (N.to_nat 65535)).
Example bulk_bounds_response_growth : bulk_growth = MAX_BULK_BINDINGS.
Proof.
  unfold bulk_growth, table. destruct (from_rows_spec (ID := Oid) many_rows) as (m & Hm & _).
  rewrite Hm. assert (MAX_BULK_BINDINGS <= N.to_nat 9999)%nat as Hlen by (apply Nat.leb_le; vm_compute; reflexivity).
  apply (get_bulk_saturates many_rows m); [exact Hm| | | | |].
  - apply NoDup_fmap_2; [|apply NoDup_seq]. by intros i j [= ?%Nat2N.inj].
  - unfold many_rows. by rewrite length_map, length_seq.
  - by eexists.
  - done.
  - etrans; [exact Hlen|lia].
Qed.
