(* ===== verification/NetlinkTests.v ===== *)
(** The unit tests of [src/src/netlink.rs] run against the model: the scripted
    datagram interfaces of the tests, over a message crate that follows the
    layout of rtnetlink messages, and what each test observes. The test that
    reads the interfaces of the machine it runs on has no counterpart. *)

From Stdlib Require Import Ascii.
From Stdlib Require String.
From S2P Require Import Prelude BTree Link Agentx Mib Duration Monitor.
From S2P Require Import Netlink NetlinkSource SocketIo UnitTests.
Open Scope N_scope.

(** ** A message crate *)

(** Little-endian fields of [n] bytes. *)
Fixpoint le (n : nat) (x : N) : list N :=
  match n with O => [] | S n => x mod 256 :: le n (x / 256) end.

Definition string_bytes (s : string) : list N := N_of_ascii <$> String.list_ascii_of_string s.
Definition bytes_string (l : list N) : string := String.string_of_list_ascii (ascii_of_N <$> l).

(** One attribute: its length and type, its value, and padding. *)
Definition attribute (ty : N) (value : list N) : list N :=
  le 2 (4 + len value) ++ le 2 ty ++ value ++
  replicate (N.to_nat ((4 - len value mod 4) mod 4)) 0.

(** The names the kernel gives its link types; no test uses another. *)
Definition kind_names : list (InfoKind * string) :=
  [(KBond, "bond"); (KBridge, "bridge"); (KVlan, "vlan"); (KMacVlan, "macvlan");
   (KIpVlan, "ipvlan"); (KMacVtap, "macvtap"); (KVxlan, "vxlan"); (KVeth, "veth")].

#[export] Instance InfoKind_eq_dec : EqDecision InfoKind.
Proof. solve_decision. Defined.

Definition kind_name (k : InfoKind) : string :=
  from_option snd "other" (head (List.filter (λ p, bool_decide (p.1 = k)) kind_names)).
Definition kind_of_name (s : string) : InfoKind :=
  from_option fst KOther (head (List.filter (λ p, String.eqb p.2 s) kind_names)).

Definition vxlan_bytes (a : InfoVxlan) : list N :=
  match a with VxLink v => attribute 3 (le 4 v) | VxOther => attribute 1 (le 4 0) end.
Definition info_bytes (i : LinkInfo) : list N :=
  match i with
  | InfoKindOf k => attribute 1 (string_bytes (kind_name k) ++ [0])
  | InfoDataOf (DataVxlan l) => attribute 2 (l ≫= vxlan_bytes)
  | InfoDataOf DataOther | InfoOther => attribute 9 []
  end.
Definition attribute_bytes (a : LinkAttribute) : list N :=
  match a with
  | IfName s => attribute 3 (string_bytes s ++ [0])
  | ALink v => attribute 5 (le 4 v)
  | AController v => attribute 10 (le 4 v)
  | ALinkInfo l => attribute 18 (l ≫= info_bytes)
  | LinkNetNsId v => attribute 37 (le 4 (Z.to_N v))
  | OtherAttribute => attribute 99 []
  end.
Definition link_bytes (l : LinkMessage) : list N :=
  replicate 4 0 ++ le 4 l.(msg_index) ++ replicate 8 0 ++ (l.(attributes) ≫= attribute_bytes).

(** The type and the bytes of a payload. *)
Definition payload_bytes (p : NetlinkPayload) : N * list N :=
  match p with
  | InnerMessage (NewLink l) => (16, link_bytes l)
  | InnerMessage (DelLink l) => (17, link_bytes l)
  | InnerMessage OtherRoute => (18, replicate 16 0)
  | Noop => (1, [])
  | PError _ => (2, le 4 1)
  | Done code => (3, le 4 (Z.to_N code))
  | Overrun => (4, [])
  | OtherPayload => (0, [])
  end.

(** [fn encoded] *)
Definition encoded (m : NetlinkMessage) : list N :=
  let '(ty, bytes) := payload_bytes m.(payload) in
  le 4 (16 + len bytes) ++ le 2 ty ++ le 2 m.(flags) ++ le 4 m.(sequence_number) ++ le 4 0 ++ bytes.

(** The attributes of a message, as types and values. *)
Fixpoint split_attributes (fuel : nat) (bytes : list N) : list (N * list N) :=
  match fuel, bytes with
  | O, _ | _, [] => []
  | S fuel, _ =>
      let n := N.to_nat (from_le_bytes (take 2 bytes)) in
      (from_le_bytes (take 2 (drop 2 bytes)), take (n - 4) (drop 4 bytes)) ::
      split_attributes fuel (drop (Nat.max 4 (4 * ((n + 3) / 4))) bytes)
  end.
Definition nested {A} (f : N * list N → A) (bytes : list N) : list A :=
  f <$> split_attributes (length bytes) bytes.

(** A string without its final zero byte. *)
Definition c_string (bytes : list N) : string := bytes_string (removelast bytes).

Definition parse_vxlan (a : N * list N) : InfoVxlan :=
  match a with (3, v) => VxLink (from_le_bytes v) | _ => VxOther end.
Definition parse_info (a : N * list N) : LinkInfo :=
  match a with
  | (1, v) => InfoKindOf (kind_of_name (c_string v))
  | (2, v) => InfoDataOf (DataVxlan (nested parse_vxlan v))
  | _ => InfoOther
  end.
Definition parse_attribute (a : N * list N) : LinkAttribute :=
  match a with
  | (3, v) => IfName (c_string v)
  | (5, v) => ALink (from_le_bytes v)
  | (10, v) => AController (from_le_bytes v)
  | (18, v) => ALinkInfo (nested parse_info v)
  | (37, v) => LinkNetNsId (Z.of_N (from_le_bytes v))
  | _ => OtherAttribute
  end.
Definition parse_link (bytes : list N) : LinkMessage :=
  mkLinkMessage (from_le_bytes (take 4 (drop 4 bytes))) (nested parse_attribute (drop 16 bytes)).

Definition parse_message (bytes : list N) : result string NetlinkMessage :=
  let body := drop 16 bytes in
  let message p :=
    Ok (mkMessage (from_le_bytes (take 4 (drop 8 bytes))) (from_le_bytes (take 2 (drop 6 bytes))) p) in
  match from_le_bytes (take 2 (drop 4 bytes)) with
  | 1 => message Noop
  | 2 => message (PError (error_other "netlink error"))
  | 3 => message (Done (Z.of_N (from_le_bytes (take 4 body))))
  | 4 => message Overrun
  | 16 => message (InnerMessage (NewLink (parse_link body)))
  | 17 => message (InnerMessage (DelLink (parse_link body)))
  | 18 => message (InnerMessage OtherRoute)
  | _ => Err "unknown message type"
  end.

(** The request of [dump_request]. *)
Definition get_link_request (flags sequence : N) : list N :=
  encoded (mkMessage sequence flags (InnerMessage OtherRoute)).

(** ** Messages of the tests *)

(** [fn typed_link_message] *)
Definition typed_link_message (sequence i : N) (n : string) (attributes : list LinkAttribute)
    : list N :=
  encoded (mkMessage sequence 0 (InnerMessage (NewLink (mkLinkMessage i (IfName n :: attributes))))).

(** [fn link_message] *)
Definition link_message (sequence i : N) (n : string) : list N := typed_link_message sequence i n [].

(** [fn done_message] *)
Definition done_message (sequence flags : N) : list N := encoded (mkMessage sequence flags (Done 0)).

(** [fn datagram] *)
Definition datagram (bytes : list N) : Datagram := mkDatagram bytes true false.
Definition truncated_datagram (bytes : list N) : Datagram := mkDatagram bytes true true.

(** ** A scripted interface *)

(** [struct ScriptIo], with the clock; a wait of [None] stands for the
    test-only readiness that ends the loop. The observer is in
    [run_observed]. *)
Record ScriptIo := mkScriptIo {
  opens : list (result Error N);
  waits : list (option (result Error Ready));
  receives : gmap N (list (result Error Datagram));
  script_clock : N;
  stopped : bool;
}.

(** [ScriptIo::subscribed] *)
Definition subscribed_io : ScriptIo := mkScriptIo [Ok 1] [] ∅ 0 false.

(** The scripts' [push_back] and [extend]. *)
Definition then_open (r : list (result Error N)) (io : ScriptIo) : ScriptIo :=
  mkScriptIo (io.(opens) ++ r) io.(waits) io.(receives) io.(script_clock) io.(stopped).
Definition then_wait (r : list (option (result Error Ready))) (io : ScriptIo) : ScriptIo :=
  mkScriptIo io.(opens) (io.(waits) ++ r) io.(receives) io.(script_clock) io.(stopped).
(** [ScriptIo::receive] *)
Definition then_receive (socket : N) (r : result Error Datagram) (io : ScriptIo) : ScriptIo :=
  mkScriptIo io.(opens) io.(waits)
    (<[socket := default [] (io.(receives) !! socket) ++ [r]]> io.(receives))
    io.(script_clock) io.(stopped).

Definition script_open (io : ScriptIo) : result Error N * ScriptIo :=
  match io.(opens) with
  | r :: rest => (r, mkScriptIo rest io.(waits) io.(receives) io.(script_clock) io.(stopped))
  | [] => (Err (error_other "unexpected open"), io)
  end.

Definition script_wait (io : ScriptIo) : result Error Ready * ScriptIo :=
  let after rest stop := mkScriptIo io.(opens) rest io.(receives) io.(script_clock) stop in
  match io.(waits) with
  | Some r :: rest => (r, after rest io.(stopped))
  | None :: rest => (Ok (mkReady false false false false), after rest true)
  | [] => (Err (error_other "unexpected wait"), io)
  end.

Definition script_receive (socket : N) (io : ScriptIo) : result Error Datagram * ScriptIo :=
  match io.(receives) !! socket with
  | Some (r :: rest) =>
      (r, mkScriptIo io.(opens) io.(waits) (<[socket := rest]> io.(receives)) io.(script_clock)
            io.(stopped))
  | _ => (Err (error_other "unexpected receive"), io)
  end.

#[export] Instance ScriptIo_datagram_io : DatagramIo ScriptIo N := {|
  io_open _ := script_open;
  io_send _ _ io := (Ok tt, io);
  io_wait _ _ _ := script_wait;
  io_receive := script_receive;
  io_drop _ io := io;
  io_now io := (io.(script_clock), io);
  io_sleep d io :=
    mkScriptIo io.(opens) io.(waits) io.(receives) (io.(script_clock) + d) io.(stopped);
|}.

(** Failures the scripts use. *)
Definition enobufs : Error := mkError OtherKind [Lit "No buffer space available"].
Definition ready_dump : option (result Error Ready) := Some (Ok (mkReady false true false false)).
Definition ready_notification : option (result Error Ready) :=
  Some (Ok (mkReady true false false false)).

(** A source over the script, once subscribed, and an inventory of it. *)
Definition subscribed_source (io : ScriptIo) : NetlinkSource ScriptIo N := (subscribe (with_io io)).2.
Definition inventory_of (continuity : N) (io : ScriptIo) :=
  inventory parse_message get_link_request (mkAttempt continuity) (subscribed_source io).
Definition wait_of (io : ScriptIo) := NetlinkSource.wait parse_message 0 (subscribed_source io).

(** A script with one readable dump of [bytes]. *)
Definition dump_script (d : Datagram) : ScriptIo :=
  then_receive 2 (Ok d) (then_wait [ready_dump] (then_open [Ok 2] subscribed_io)).

(** ** The tests *)

Definition decoded_link := decode_link (mkLinkMessage 10
  [IfName "vlan0"; ALink 2; AController 9; ALinkInfo [InfoKindOf KVlan]]).
Example link_message_types_decode :
  decoded_link = Ok (mkLink 10 "vlan0" Vlan (Some 9) (Some 2) None None).
Proof. vm_compute. reflexivity. Qed.

Definition interrupted_done := consume_dump parse_message (done_message 7 NLM_F_DUMP_INTR) 7 [].
Example final_done_interruption_rejects :
  interrupted_done = Err (error_other "interface inventory dump was interrupted").
Proof. vm_compute. reflexivity. Qed.

Definition typed_inventory :=
  (inventory_of 4 (dump_script (datagram (link_message 1 2 "lower" ++ done_message 1 0)))).1.
Example complete_typed_inventory_decodes :
  typed_inventory = Ok (mkInventory (mkAttempt 4) [mkLink 2 "lower" Other None None None None]
                          empty_batch).
Proof. vm_compute. reflexivity. Qed.

Definition every_relationship :=
  let kind k := ALinkInfo [InfoKindOf k] in
  let packets :=
    [typed_link_message 1 2 "lower" [];
     typed_link_message 1 9 "bond" [kind KBond];
     typed_link_message 1 3 "member" [AController 9];
     typed_link_message 1 10 "vlan" [ALink 9; kind KVlan];
     typed_link_message 1 11 "macvlan" [ALink 2; kind KMacVlan];
     typed_link_message 1 12 "ipvlan" [ALink 2; kind KIpVlan];
     typed_link_message 1 13 "macvtap" [ALink 2; kind KMacVtap];
     typed_link_message 1 14 "vxlan"
       [ALink 99; ALinkInfo [InfoKindOf KVxlan; InfoDataOf (DataVxlan [VxLink 2])]];
     typed_link_message 1 20 "veth" [ALink 2; kind KVeth]] in
  match (inventory_of 0 (dump_script (datagram (mjoin packets ++ done_message 1 0)))).1 with
  | Ok inv => topology ← from_observed inv.(inv_links); Ok (relationships_of topology)
  | Err _ => Err (error_other "no inventory")
  end.
Example packets_build_every_relationship :
  every_relationship = Ok [(9, 3); (10, 9); (11, 2); (12, 2); (13, 2); (14, 2)].
Proof. vm_compute. reflexivity. Qed.

Definition interrupted_inventory :=
  (inventory_of 0 (dump_script (datagram (done_message 1 NLM_F_DUMP_INTR)))).1.
Example acquisition_checks_interruption :
  interrupted_inventory =
  Err (Ordinary (error_other "interface inventory dump was interrupted") empty_batch).
Proof. vm_compute. reflexivity. Qed.

(** One notification, and then a failure of the dump or of the notifications. *)
Definition failed_acquisition (continuity_lost : bool) :=
  let io := then_receive 1 (Ok (datagram (link_message 0 3 "changed")))
              (then_wait [ready_notification] (then_open [Ok 2] subscribed_io)) in
  let io := if continuity_lost
            then then_receive 1 (Err enobufs) (then_wait [ready_notification] io)
            else then_receive 2 (Ok (truncated_datagram (done_message 1 0)))
                   (then_wait [ready_dump] io) in
  let '(r, s) := inventory_of 0 io in
  (match r with
   | Err (Ordinary _ events) => Some (false, events)
   | Err (Lost _ events) => Some (true, events)
   | Ok _ => None
   end, bool_decide (s.(notification) = None)).
Example failed_acquisitions_return_events :
  map failed_acquisition [false; true] =
  map (λ lost, (Some (lost, mkBatch (Some 0) (Some 0)), lost)) [false; true].
Proof. vm_compute. reflexivity. Qed.

Inductive Failure := FPoll | FReceive | FTermination | FTruncation | FMalformed | FOverrun.

Definition failure_script (failure : Failure) : ScriptIo :=
  let received r := then_receive 1 r (then_wait [ready_notification] subscribed_io) in
  match failure with
  | FPoll => then_wait [Some (Err enobufs)] subscribed_io
  | FReceive => received (Err enobufs)
  | FTermination => received (Ok (datagram []))
  | FTruncation => received (Ok (truncated_datagram (link_message 0 2 "link")))
  | FMalformed => received (Ok (datagram (replicate 15 0)))
  | FOverrun => received (Ok (datagram (encoded (mkMessage 0 0 Overrun))))
  end.
Definition notification_failures :=
  map (λ f, let '(r, s) := wait_of (failure_script f) in
            (is_ok r, bool_decide (s.(notification) = None)))
    [FPoll; FReceive; FTermination; FTruncation; FMalformed; FOverrun].
Example notification_failures_lose_continuity : notification_failures = replicate 6 (false, true).
Proof. vm_compute. reflexivity. Qed.

Definition resubscriptions :=
  let s0 := with_io (then_open [Err (error_other "scripted resubscription failure"); Ok 2]
                       subscribed_io) in
  let '(r1, s1) := subscribe s0 in
  let '(r2, s2) := subscribe s1 in
  let '(r3, s3) := subscribe s2 in
  map is_ok [r1; r2; r3].
Example failed_resubscription_can_be_retried : resubscriptions = [true; false; true].
Proof. vm_compute. reflexivity. Qed.

Definition unsubscribed_wait := (NetlinkSource.wait parse_message 0 (with_io subscribed_io)).1.
Example waiting_needs_no_socket : unsubscribed_wait = Ok Deadline.
Proof. vm_compute. reflexivity. Qed.

(** The monitor over the script until it stops, with whether a table was
    available at each wait on the interface. *)
#[local] Instance script_source : Acquisition (NetlinkSource ScriptIo N) :=
  NetlinkSource_acquisition parse_message get_link_request.
Fixpoint run_observed (fuel : nat) (c : Monitor.Config Oid (NetlinkSource ScriptIo N))
    : option (list bool * Monitor.Config Oid (NetlinkSource ScriptIo N)) :=
  match fuel with
  | O => None
  | S fuel =>
      if c.(world).(io).(stopped) then Some ([], c)
      else
        '(_, c') ← run_step c;
        '(seen, c'') ← run_observed fuel c';
        let waited := (length c.(world).(io).(waits) - length c'.(world).(io).(waits))%nat in
        Some (replicate waited (bool_decide (is_Some (snapshot c.(cell)))) ++ seen, c'')
  end.

Definition recovery_script : ScriptIo :=
  let dump sequence i n := Ok (datagram (link_message sequence i n ++ done_message sequence 0)) in
  then_receive 4 (dump 2 2 "recovered")
    (then_receive 1 (Err enobufs)
      (then_receive 2 (dump 1 1 "initial")
        (then_wait [ready_dump; ready_notification; ready_dump; None]
          (then_open [Ok 2; Err (error_other "scripted resubscription failure"); Ok 3; Ok 4]
            subscribed_io)))).
Definition recovery_run :=
  '(seen, c) ← run_observed 100 (run_start (with_io recovery_script) (from_secs 3600));
  Some (seen, bool_decide (is_Some (snapshot c.(cell)))).
Example loss_and_recovery_drive_publication :
  recovery_run = Some ([false; true; false; true], true).
Proof. vm_compute. reflexivity. Qed.

Definition malformed_datagrams :=
  map (λ bytes, decode_datagram parse_message bytes)
    [[]; replicate 15 0; [15; 0; 0; 0; 0; 0; 0; 0; 0; 0; 0; 0; 0; 0; 0; 0]].
Example malformed_bytes_are_rejected :
  map (λ r, match r with Ok ms => Some (length ms) | Err _ => None end) malformed_datagrams =
  [Some 0%nat; None; None].
Proof. vm_compute. reflexivity. Qed.

(** ** Repeated inventories *)

(** [struct CountingIo]: sockets are numbered, each remembers the sequence
    number of the request sent on it, every third socket fails, and the open
    sockets are counted. A failed assertion of the test is an error here. *)
Record CountingIo := mkCountingIo { active : N; next_id : N; sequences : gmap N N }.

Definition counting_open (io : CountingIo) : result Error N * CountingIo :=
  (Ok (io.(next_id) + 1), mkCountingIo (io.(active) + 1) (io.(next_id) + 1) io.(sequences)).

(** [CountedSocket::drop] *)
Definition counted_drop (io : CountingIo) : CountingIo :=
  mkCountingIo (io.(active) - 1) io.(next_id) io.(sequences).

Definition counting_send (socket : N) (bytes : list N) (io : CountingIo)
    : result Error unit * CountingIo :=
  if socket <=? 1 then (Err (error_other "the notification socket received a dump request"), io)
  else match decode_datagram parse_message bytes with
  | Ok [request] =>
      (Ok tt, mkCountingIo io.(active) io.(next_id) (<[socket := request.(sequence_number)]> io.(sequences)))
  | Ok _ => (Err (error_other "not one request"), io)
  | Err e => (Err e, io)
  end.

Definition counting_wait (dump : option N) (io : CountingIo) : result Error Ready * CountingIo :=
  match dump with
  | Some dump =>
      let multiple := dump mod 3 =? 0 in
      (Ok (mkReady false (negb multiple) false multiple), io)
  | None => (Err (error_other "inventory wait has a dump socket"), io)
  end.

Definition counting_receive (socket : N) (io : CountingIo) : result Error Datagram * CountingIo :=
  match io.(sequences) !! socket with
  | Some sequence =>
      (Ok (datagram (done_message sequence 0)),
       mkCountingIo io.(active) io.(next_id) (delete socket io.(sequences)))
  | None => (Err (error_other "dump request recorded its sequence"), io)
  end.

#[export] Instance CountingIo_datagram_io : DatagramIo CountingIo N := {|
  io_open _ := counting_open;
  io_send := counting_send;
  io_wait _ dump _ := counting_wait dump;
  io_receive := counting_receive;
  io_drop _ := counted_drop;
  io_now io := (0, io);
  io_sleep _ io := io;
|}.

(** The loop of the test from [continuity] on: whether each inventory failed
    exactly on a socket that is a multiple of three and left one socket open. *)
Fixpoint counting_loop (n : nat) (continuity : N) (s : NetlinkSource CountingIo N)
    : list bool * NetlinkSource CountingIo N :=
  match n with
  | O => ([], s)
  | S n =>
      let s := if continuity mod 10 =? 0 then (subscribe s).2 else s in
      let dump_id := s.(io).(next_id) + 1 in
      let '(r, s) := inventory parse_message get_link_request (mkAttempt continuity) s in
      let ok := bool_decide (is_ok r = negb (dump_id mod 3 =? 0)) && (s.(io).(active) =? 1) in
      let '(oks, s) := counting_loop n (continuity + 1) s in (ok :: oks, s)
  end.

(** The loop and the end of the source: the sockets still open. *)
Definition repeated_inventories : list bool * N :=
  let '(oks, s) := counting_loop 100 0 (subscribe (with_io (mkCountingIo 0 0 ∅))).2 in
  (oks, (drop_socket s.(notification) s.(io)).(active)).
Example repeated_inventories_release_sockets : repeated_inventories = (replicate 100 true, 0).
Proof. vm_compute. reflexivity. Qed.
