(* ===== verification/SessionTests.v ===== *)
(** The unit tests of [src/src/session.rs] run against the model, with the
    PDUs and the stream of Scenarios.v, and a stream whose bytes arrive one at
    a time at given moments. *)

From S2P Require Import Prelude BTree Link Agentx Mib Duration Monitor Config Session Scenarios.
Open Scope N_scope.

(** ** Requests before the first inventory *)

Definition unpublished_reads : list (option (result Error ResError)) :=
  map (λ t, let header := mkHeader 1 t 0 0 0 0 0 in
            option_map (fmap (λ p, res_error p.1))
              (dispatch (ID := Oid) header (sim_header header) publication))
    [TGet; TGetNext; TGetBulk].
Example reads_report_processing_error :
  unpublished_reads = replicate 3 (Some (Ok ProcessingError)).
Proof. vm_compute. reflexivity. Qed.

(** ** Acknowledgements with a list of bindings *)

(** The response of the fake master: a header with [payload] bytes after it,
    of which the first eight are the uptime, the error and the index. *)
Definition ack_response (session : N) (request : Header) (payload : nat) : list N :=
  let fixed := [1; sim_type_code TResponse; NETWORK_ORDER; 0] ++ be 4 session ++
               be 4 request.(transaction_id) ++ be 4 request.(packet_id) ++
               be 4 (N.of_nat payload) ++ be 4 31223731 ++ be 2 0 ++ be 2 0 in
  fixed ++ replicate (20 + payload - length fixed) 0.

Definition ack_requests : list (Header * nat) :=
  [(set_ids 0 1 (set_flags NETWORK_ORDER (mkHeader 1 TOpen 0 0 0 0 0)), 40%nat);
   (set_ids 21 2 (set_flags NETWORK_ORDER (mkHeader 1 TRegister 0 0 0 0 0)), 32%nat)].

Definition long_acknowledgements : list (option (result Error N)) :=
  map (λ p, let w := mkSimStream (ack_response 21 p.1 p.2) [] 64 None 0 in
            option_map (fmap session_id) (acknowledge (ID := Oid) 5 p.1 w).1) ack_requests.
Example acknowledgement_accepts_bindings : long_acknowledgements = replicate 2 (Some (Ok 21)).
Proof. vm_compute. reflexivity. Qed.

(** ** Frames that arrive slowly *)

(** The bytes to come with the times they arrive, the read timeout and the
    clock. *)
Record Drip := mkDrip { arrivals : list (N * N); d_timeout : option N; d_clock : N }.

(** [fn drip_frame]: the sender's schedule. *)
Definition drip_frame (frame : list N) (initial_delay gap : N) : list (N * N) :=
  imap (λ i b, (initial_delay + N.of_nat i * gap, b)) frame.

(** A read waits for the next byte up to the timeout; with the sender gone it
    is at the end. *)
Definition drip_read (n : nat) (w : Drip) : result Error (list N) * Drip :=
  match w.(arrivals) with
  | [] => (Ok [], w)
  | (t, b) :: rest =>
      let late := match w.(d_timeout) with Some d => w.(d_clock) + d <? t | None => false end in
      if late then
        (Err (mkError WouldBlock []),
         mkDrip w.(arrivals) w.(d_timeout) (w.(d_clock) + default 0 w.(d_timeout)))
      else (Ok (take n [b]), mkDrip (if (n =? 0)%nat then w.(arrivals) else rest) w.(d_timeout)
                               (N.max t w.(d_clock)))
  end.

#[export] Instance Drip_stream : Stream Drip := {|
  st_connect _ w := (Ok tt, w);
  st_set_read_timeout t w := (Ok tt, mkDrip w.(arrivals) t w.(d_clock));
  st_set_write_timeout _ w := (Ok tt, w);
  st_read_timeout w := (Ok w.(d_timeout), w);
  st_read := drip_read;
  st_write_all _ w := (Ok tt, w);
  st_drop w := w;
  st_now w := (w.(d_clock), w);
|}.

Definition millis (n : N) : N := n * NANOS_PER_MILLI.
Definition ping_frame : list N := sim_header (mkHeader 1 TPing 0 0 0 0 0).

(** What [receive] makes of a frame dripped within a budget of 100 ms, and
    how long it took. *)
Definition dripped (initial_delay gap : N) : result Error Type_ * N :=
  let '(r, w) := receive (ID := Oid) 5 (millis 100)
                   (mkDrip (drip_frame ping_frame (millis initial_delay) (millis gap)) None 0) in
  (r ≫= λ p, Ok (ty p.1), as_millis w.(d_clock)).
Example a_started_frame_is_bounded : dripped 0 25 = (Err frame_deadline, 100).
Proof. vm_compute. reflexivity. Qed.
Example an_idle_connection_is_not : dripped 150 3 = (Ok TPing, 150 + 19 * 3).
Proof. vm_compute. reflexivity. Qed.
