(* ===== verification/ProcessTests.v ===== *)
(** The unit tests of [src/src/config.rs], [src/src/notify.rs] and
    [src/src/main.rs] run against the model. What the toml crate makes of a
    file's text is given with the file. *)

From S2P Require Import Prelude UnitTests.
From S2P Require Config Notify Session Main.
Import Config.
Open Scope N_scope.

(** ** config.rs *)

(** A file system with one file, [None] where there is no file, and the
    parser that knows its text. *)
Definition path : string := "/tmp/config.toml".
Definition read_file (file : option string) (p : string) : result Error string :=
  match file with
  | Some text => if String.eqb p path then Ok text else Err (mkError NotFound [Lit "not found"])
  | None => Err (mkError NotFound [Lit "not found"])
  end.
Definition load_with (file : option string) (parsed : result string Config) (args : list string)
    : result (list Piece) Action :=
  load (read_file file) (λ _, parsed) args path.

Definition all_four_keys :=
  load_with (Some "socket = '/run/agentx/master'...") (Ok (mkConfig "/run/agentx/master" 1 255 LTrace))
    ["--config"; path].
Example real_file_sets_all_four_keys :
  all_four_keys = Ok (Run (mkConfig "/run/agentx/master" 1 255 LTrace)) ∧
  filter LTrace = FilterTrace.
Proof. vm_compute. split; reflexivity. Qed.

Definition absent_default := load_with None (Err "not read") [].
Example absent_default_uses_defaults :
  absent_default = Ok (Run (mkConfig "/var/agentx/master" 3600 127 LInfo)) ∧
  filter LInfo = FilterInfo.
Proof. vm_compute. split; reflexivity. Qed.

Definition absent_explicit := load_with None (Err "not read") ["--config"; path].
Example absent_explicit_is_an_error :
  option_map print (match absent_explicit with Err e => Some e | Ok _ => None end)
  = Some "config /tmp/config.toml: not found".
Proof. vm_compute. reflexivity. Qed.

(** The new key loads, the old one is refused, with the text of the parser's
    error. *)
Definition renamed_key : bool * result (list Piece) Action :=
  (is_ok (load_with (Some "reconcile = 7") (Ok (mkConfig "/var/agentx/master" 7 127 LInfo)) []),
   load_with (Some "refresh = 7") (Err "unknown field `refresh`") []).
Example refresh_has_no_alias :
  renamed_key.1 = true ∧
  option_map print (match renamed_key.2 with Err e => Some e | Ok _ => None end)
  = Some "/tmp/config.toml: unknown field `refresh`".
Proof. vm_compute. split; reflexivity. Qed.

Definition contains (key s : string) : bool :=
  match String.index 0 key s with Some _ => true | None => false end.

(** The files of the test with their keys: those that parse have an empty or
    zero value, the others are refused with a text that shows the key or its
    line. *)
Definition invalid_values : list (string * string * result string Config) :=
  let value c key config := (c, key, Ok config) in
  let refused c key := (c, key, Err ("in line 1: " +:+ c)) in
  [refused "sockett = 'master'" "sockett";
   value "socket = ''" "socket" (mkConfig EmptyString 3600 127 LInfo);
   refused "socket = 42" "socket";
   refused "reconcile = 'five'" "reconcile";
   value "reconcile = 0" "reconcile" (mkConfig "/var/agentx/master" 0 127 LInfo);
   refused "reconcile = -1" "reconcile";
   refused "reconcile = 1.5" "reconcile";
   value "priority = 0" "priority" (mkConfig "/var/agentx/master" 3600 0 LInfo);
   refused "priority = 256" "priority";
   refused "priority = -1" "priority";
   refused "log_level = 'verbose'" "log_level";
   refused "log_level = 'off'" "log_level";
   refused "log_level = 'INFO'" "log_level";
   refused "reconcile = [" "reconcile"].
Definition named_keys : list bool :=
  map (λ '(contents, key, parsed),
    match load_with (Some contents) parsed [] with
    | Err e => contains key (print e)
    | Ok _ => false
    end) invalid_values.
Example invalid_files_name_the_key : named_keys = replicate 14 true.
Proof. vm_compute. reflexivity. Qed.

Definition cli_overrides :=
  map (load_with (Some "socket = 'file-socket'...") (Ok (mkConfig "file-socket" 3600 1 LInfo)))
    [["--config"; path; "--socket"; "cli-socket"]; ["--socket"; "cli-socket"; "--config"; path]].
Example cli_socket_overrides_file :
  cli_overrides = replicate 2 (Ok (Run (mkConfig "cli-socket" 3600 1 LInfo))).
Proof. vm_compute. reflexivity. Qed.

(** ** notify.rs *)

(** The two kinds of address, as the standard library tells them apart. *)
Inductive Addr := Pathname (p : string) | Abstract (name : string).

Definition address_of (s : string) : result Error Addr :=
  Notify.address (λ n, Ok (Abstract n)) (λ p, Ok (Pathname p)) s.

Definition path_address := address_of "/run/systemd/notify".
Example an_absolute_path_is_a_file : path_address = Ok (Pathname "/run/systemd/notify").
Proof. reflexivity. Qed.

Definition abstract_address := address_of "@systemd/notify".
Example a_leading_at_sign_is_abstract : abstract_address = Ok (Abstract "systemd/notify").
Proof. reflexivity. Qed.

Definition unusable_addresses := map address_of [EmptyString; "@"; "run/systemd/notify"].
Example unusable_addresses_are_errors :
  map (λ r, match r with Err e => Some e.(error_kind) | Ok _ => None end) unusable_addresses =
  replicate 3 (Some InvalidInput).
Proof. reflexivity. Qed.

(** ** main.rs *)

Definition panic_status := Main.run_monitor Main.Panicked.
Example a_monitor_panic_stops_the_process : panic_status = 70.
Proof. reflexivity. Qed.
