(* ===== verification/IntegrationTests.v ===== *)
(** The integration tests that drive the built program from its command line
    ([src/tests/config_cli.rs]) and as a service ([src/tests/systemd_readiness.rs])
    run against the model of the process. What the toml crate makes of a file's
    text is given with the file; the master is a simulated stream. *)

From S2P Require Import Prelude BTree Link Agentx Mib Duration Monitor MonitorRuns.
From S2P Require Import Netlink NetlinkSource Config Notify Session Main System Process.
From S2P Require Import Scenarios UnitTests ProcessTests.
Open Scope N_scope.

(** ** config_cli.rs *)

(** [fn finish] on a command: how the process starts with a file. *)
Definition started (file : option string) (parsed : result string Config) (args : list string) : Startup :=
  start (read_file file) (λ _, parsed) args (Ok tt).

Definition failed (s : Startup) : bool :=
  match s with Exit status _ => status =? EXIT_FAILURE | Supervising _ _ => false end.

Definition said (s : Startup) : option Output :=
  match s with Exit _ out => Some out | Supervising _ _ => None end.

Definition master_socket : string := "/tmp/master".

(** Each file with what becomes of it: none, a refused text, or a value that
    [load] itself refuses. *)
Definition invalid_files : list (option string * result string Config) :=
  [(None, Err "not read");
   (Some "reconcile = 0", Ok (mkConfig "/var/agentx/master" 0 127 LInfo));
   (Some "refresh = 0", Err "unknown field `refresh`");
   (Some "priority = 256", Err "invalid value for `priority`");
   (Some "sockett = 'master'", Err "unknown field `sockett`");
   (Some "log_level = 'off'", Err "unknown variant for `log_level`");
   (Some "refresh = [", Err "invalid array")].
Definition invalid_configuration : list Startup :=
  map (λ f, started f.1 f.2 ["--config"; path; "--socket"; master_socket]) invalid_files.
Example invalid_configuration_exits : map failed invalid_configuration = replicate 7 true.
Proof. vm_compute. reflexivity. Qed.

Definition fatal_error : Startup :=
  started (Some "refresh = 0") (Err "unknown field `refresh`") ["--config"; path].
Example fatal_error_is_visible :
  failed fatal_error = true ∧
  match said fatal_error with Some (Stderr line) => contains "refresh" (print line) | _ => false end = true.
Proof. vm_compute. split; reflexivity. Qed.

Definition help_and_version : list Startup :=
  map (λ option, started None (Err "not read") ["--config"; "/tmp/absent.toml"; option])
    ["--help"; "-h"; "--version"].
Definition help_text : string := Eval vm_compute in print help.
Example help_and_version_exit :
  map said help_and_version =
    [Some (Stdout help); Some (Stdout help); Some (Stdout [Lit "agentx-ifstack "; Lit CARGO_PKG_VERSION])] ∧
  map (λ s, match s with Exit status _ => status | _ => 70 end) help_and_version = replicate 3 EXIT_SUCCESS ∧
  forallb (λ flag, contains flag help_text) ["--config"; "--socket"; "--version"; "--help"] = true.
Proof. vm_compute. split_and!; reflexivity. Qed.

Definition invalid_arguments : list Startup :=
  map (started (Some "") (Ok default_config))
    [["--config"]; ["--socket"]; ["--socket"; EmptyString]; ["--config"; "--socket"]; ["--unknown"]].
Example invalid_arguments_exit : map failed invalid_arguments = replicate 5 true.
Proof. vm_compute. reflexivity. Qed.

Definition empty_socket : result string Config := Ok (mkConfig EmptyString 3600 127 LInfo).
Definition empty_file_socket : Startup :=
  started (Some "socket = ''") empty_socket ["--config"; path].
Example an_empty_file_socket_is_rejected : failed empty_file_socket = true.
Proof. vm_compute. reflexivity. Qed.

(** ** The program as a service *)

(** A stream that remembers what it connected to and the messages for the
    service manager; [listening] is whether there is a master. *)
Record Service := mkService {
  v_stream : SimStream;
  v_listening : bool;
  v_connected : list string;
  v_notified : list (string * Addr);
}.

Definition on_service {A} (call : SimStream → A * SimStream) (w : Service) : A * Service :=
  let '(r, u) := call w.(v_stream) in
  (r, mkService u w.(v_listening) w.(v_connected) w.(v_notified)).

#[export] Instance Service_stream : Stream Service := {|
  st_connect p w :=
    (if w.(v_listening) then Ok tt else Err (mkError NotFound [Lit "no listener"]),
     mkService w.(v_stream) w.(v_listening) (w.(v_connected) ++ [p]) w.(v_notified));
  st_set_read_timeout t := on_service (st_set_read_timeout t);
  st_set_write_timeout t := on_service (st_set_write_timeout t);
  st_read_timeout := on_service st_read_timeout;
  st_read n := on_service (st_read n);
  st_write_all b := on_service (st_write_all b);
  st_drop w := w;
  st_now := on_service st_now;
|}.

Definition notified (message : string) (address : Addr) (w : Service) : result Error unit * Service :=
  (Ok tt, mkService w.(v_stream) w.(v_listening) w.(v_connected) (w.(v_notified) ++ [(message, address)])).

#[local] Instance service_source : Acquisition (NetlinkSource SimIo unit) :=
  netlink sim_deserialize sim_request.

(** The world of the main thread after [steps] of its steps. *)
Definition service (file : option string) (parsed : result string Config) (args : list string)
    (notify : option string) (steps : nat) (w : Service) : option Service :=
  match (interleave (ID := Oid) (λ n, Ok (Abstract n)) (λ p, Ok (Pathname p)) (λ w, (Ok tt, w))
           notified (λ w, w) (λ v, if String.eqb v SOCKET then notify else None) (λ _ w, w) 100
           (replicate steps MainThread)
           (launch (read_file file) (λ _, parsed) args (Ok tt) (with_io two_links) w)).2
  with
  | Alive _ _ ses => Some ses.(s_world)
  | Terminated _ => None
  end.

(** The override reaches validation, so that the process starts and connects. *)
Definition overridden_socket : option Service :=
  service (Some "socket = ''") empty_socket ["--config"; path; "--socket"; master_socket] None 1
    (mkService master true [] []).
Example cli_socket_overrides_an_empty_file_socket :
  v_connected <$> overridden_socket = Some [master_socket].
Proof. vm_compute. reflexivity. Qed.

(** ** systemd_readiness.rs *)

(** [AgentxMaster::connect]: a master that acknowledges with session 100, three
    bytes at a time. *)
Definition readiness_master : SimStream :=
  mkSimStream (sim_ack 100 1 ++ sim_ack 100 2) [] 2 None 0.

(** [fn spawn] with a master or without one, and the main thread's steps. *)
Definition spawn (notify : string) (listening : bool) (steps : nat) : option Service :=
  service (Some "socket = '/tmp/master'") (Ok (mkConfig master_socket 3600 127 LInfo))
    ["--config"; path] (Some notify) steps (mkService readiness_master listening [] []).

Definition readiness : option Service := spawn "/tmp/notify" true 1.
Example readiness_once_registered :
  v_notified <$> readiness = Some [("READY=1", Pathname "/tmp/notify")] ∧
  (λ w, (st_in (v_stream w), st_out (v_stream w))) <$> readiness =
    Some ([], sim_header (o_header (open_pdu (ID := Oid))) ++
              sim_header (g_header (register_pdu (mkHeader 1 TResponse 16 100 0 1 8) 127 (mkOid TABLE 0)))).
Proof. vm_compute. split; reflexivity. Qed.

Definition abstract_readiness : option Service := spawn "@agentx-ifstack-test" true 1.
Example an_abstract_socket_receives_the_same_message :
  v_notified <$> abstract_readiness = Some [("READY=1", Abstract "agentx-ifstack-test")].
Proof. vm_compute. reflexivity. Qed.

(** Five failed connections, with the pauses in between. *)
Definition without_a_master : option Service := spawn "/tmp/notify" false 10.
Example a_subagent_without_a_master_reports_nothing :
  (λ w, (length (v_connected w), v_notified w)) <$> without_a_master = Some (5%nat, []).
Proof. vm_compute. reflexivity. Qed.
