(* ===== verification/Witnesses.v ===== *)
(** The theorems at concrete inputs: each lemma runs the program in one of the
    scenarios and applies one theorem there, with its hypotheses discharged by
    evaluation. *)

From S2P Require Import Prelude BTree Link Agentx Mib Duration Monitor MonitorRuns.
From S2P Require Import Netlink NetlinkSource SocketIo Config Session Main System Scenarios.
Open Scope N_scope.

Ltac eval_done := vm_compute; reflexivity.

(** The topology and the table of [bonded]. *)
Definition bonded_topology : Topology := Eval vm_compute in
  match from_observed bonded with Ok t => t | Err _ => mkTopology [] [] end.
Definition bonded_table : list (Oid * Value Oid) := Eval vm_compute in
  default [] (from_topology bonded_topology).

Lemma bonded_table_of : table_of (table_row bonded_topology) bonded_table.
Proof.
  destruct (from_topology_spec (ID := Oid) bonded_topology) as (m & Hm & Ht).
  assert (from_topology bonded_topology = Some bonded_table) as Hb by eval_done.
  rewrite Hm in Hb. by injection Hb as <-.
Qed.

(** ** Whole system *)

#[local] Instance sim_netlink : Acquisition (NetlinkSource SimIo unit) :=
  netlink sim_deserialize sim_request.

Lemma tables_from_kernel_witness :
  ∃ acts c, Monitor.run 2 (monitor_start (ID := Oid) two_links 3600)
              = Some (acts, c) ∧
    is_Some (snapshot (cell c)) ∧
    ∀ m, snapshot (cell c) = Some m → 
      from_kernel sim_deserialize sim_request received (with_io two_links) c.(world) m.
Proof.
  eexists _, _. split; [eval_done|]. split; [vm_compute; eauto|].
  eapply (tables_from_kernel (ID := Oid) sim_deserialize sim_request two_links 3600 2).
  eval_done.
Defined.

Definition get_next_header : Header := mkHeader 1 TGetNext 16 42 5 6 0.

Lemma reads_serve_kernel_tables_witness :
  ∃ acts c m vbs, Monitor.run 2 (monitor_start (ID := Oid) two_links 3600)
              = Some (acts, c) ∧
    snapshot (cell c) = Some m ∧
    dispatch get_next_header [] (snapshot (cell c))
      = Some (Ok (set_vb vbs (reply get_next_header), None)) ∧ length vbs = 1%nat.
Proof.
  eassert (match snapshot (cell ?[c]) with
           | None => dispatch get_next_header [] (snapshot (cell ?c))
                     = Some (Ok (set_error ProcessingError (reply get_next_header), None))
           | Some m => from_kernel sim_deserialize sim_request received (with_io two_links) (world ?c) m ∧
               ∃ vbs, read_answer get_next_header m [mkRange (mkOid TABLE 0) (mkOid [] 0)] None vbs ∧
               dispatch get_next_header [] (snapshot (cell ?c))
                 = Some (Ok (set_vb vbs (reply get_next_header), None))
           end) as Hr.
  { eapply (reads_serve_kernel_tables (ID := Oid) sim_deserialize sim_request two_links 3600 2).
    - eval_done.
    - eval_done.
    - split; [by split|]. repeat constructor; vm_compute; by repeat constructor. }
  cbn in Hr. destruct Hr as (_ & vbs & Hvbs & Hd).
  eexists _, _, _, vbs. split; [eval_done|]. split; [eval_done|]. split; [exact Hd|].
  vm_compute in Hvbs. by rewrite Hvbs.
Defined.

(** ** Topology and table *)

Lemma from_observed_topology_witness : topology_of bonded bonded_topology.
Proof. apply from_observed_topology. eval_done. Defined.

Lemma from_observed_order_independent_witness : from_observed (rev bonded) = Ok bonded_topology.
Proof.
  apply (from_observed_order_independent bonded); [apply Permutation_rev|eval_done].
Defined.

Lemma from_topology_table_witness :
  ∃ m : list (Oid * Value Oid), from_topology bonded_topology = Some m ∧
    table_of (table_row bonded_topology) m.
Proof. apply from_topology_table. Defined.

Lemma get_next_least_witness :
  ∃ id v, (id, v) ∈ bonded_table ∧
    get_next bonded_table (mkRange (mkOid TABLE 0) (mkOid [] 0)) = binding id v.
Proof.
  destruct (get_next_least (ID := Oid) bonded_table (mkRange (mkOid TABLE 0) (mkOid [] 0)))
    as [(id & v & Hin & _ & Hg & _)|[Hno _]].
  - apply (table_wf _ _ bonded_table_of).
  - by exists id, v.
  - exfalso. eapply Hno; [left|]. split; left; eval_done.
Defined.

Lemma walk_complete_witness :
  ∃ vbs, walk (S (length bonded_table)) bonded_table (mkRange (mkOid TABLE 0) (mkOid [] 0))
           = Some vbs ∧ length vbs = 11%nat.
Proof.
  destruct (walk_complete (ID := Oid) bonded_topology bonded_table
    (mkRange (mkOid TABLE 0) (mkOid [] 0))) as (vbs & Hvbs & _).
  - eval_done.
  - exists [1; 3]. eval_done.
  - eval_done.
  - exists vbs. split; [exact Hvbs|]. vm_compute in Hvbs. by injection Hvbs as <-.
Defined.

Lemma get_bulk_reference_witness :
  take MAX_BULK_BINDINGS
    (map (get_next bonded_table) [] ++
     repetitions bonded_table 3 [mkRange (mkOid TABLE 0) (mkOid [] 0)]) =
  get_bulk bonded_table [mkRange (mkOid TABLE 0) (mkOid [] 0)] 0 3.
Proof.
  symmetry. apply (get_bulk_reference (ID := Oid) bonded_table [mkRange (mkOid TABLE 0) (mkOid [] 0)] 0 3).
Defined.

Lemma get_answers_witness :
  ∃ vb, get bonded_table (mkOid (STATUS ++ [4; 2]) 1) = Some vb ∧ vb_data vb = VInteger 1%Z.
Proof.
  destruct (get_answers (ID := Oid) bonded_topology bonded_table (mkOid (STATUS ++ [4; 2]) 1))
    as (vb & Hvb & _); [eval_done|].
  exists vb. split; [exact Hvb|]. vm_compute in Hvb. by injection Hvb as <-.
Defined.

Lemma get_bulk_walk_witness :
  ∃ vbs last, get_bulk bonded_table [mkRange (mkOid TABLE 0) (mkOid [] 0)] 0 20
    = vbs ++ [binding last VEndOfMibView].
Proof.
  destruct (get_bulk_walk (ID := Oid) bonded_topology bonded_table
    (mkRange (mkOid TABLE 0) (mkOid [] 0)) 20) as (vbs & last & _ & Hb).
  - eval_done.
  - vm_compute. lia.
  - apply Nat.ltb_lt. eval_done.
  - by exists vbs, last.
Defined.

(** ** Monitor *)

(** An idle, freshly published state at second 100. *)
Definition idle_state : Monitor.State :=
  mkState (from_secs 3600) 0 true false None INITIAL_DELAY None INITIAL_DELAY None
    (Some (from_secs 100)).

Lemma idle_state_inv : state_inv idle_state.
Proof. constructor; simpl; try done; try apply initial_delay_backoff; try (by intros [? ?]); eauto. Qed.

Lemma next_deadline_exact_witness :
  (would_act idle_state (from_secs 3700) = true ↔
   next_deadline idle_state (from_secs 100) ≤ from_secs 3700) ∧
  0 < saturating_sub (next_deadline idle_state (from_secs 100)) (from_secs 100).
Proof.
  apply (next_deadline_exact idle_state (from_secs 100) (from_secs 3700));
    [apply idle_state_inv|eval_done|by vm_compute].
Defined.

Lemma failure_backoff_witness :
  retry_not_before (foldl fail (State_new (from_secs 3600)) ([5; 6; 7] ++ [8])) =
    Some (saturating_add 8 (from_secs 8)).
Proof. apply (failure_backoff (State_new (from_secs 3600)) [5; 6; 7] 8). eval_done. Defined.

Definition evented_state : Monitor.State :=
  mkState (from_secs 3600) 0 true false None INITIAL_DELAY None INITIAL_DELAY
    (Some (from_secs 100)) (Some (from_secs 100)).

Lemma event_backoff_witness :
  event_deadline (record_event (foldl event_round evented_state [from_secs 110; from_secs 120])
                    (from_secs 130)) = Some (saturating_add (from_secs 130) (from_secs 4)) ∧
  event_deadline (record_event (foldl event_round evented_state [from_secs 110; from_secs 120])
                    (from_secs 200)) = Some (saturating_add (from_secs 200) (from_secs 1)).
Proof.
  destruct (event_backoff evented_state [from_secs 110; from_secs 120] (from_secs 100)
    (from_secs 130)) as [Hs Hq]; [done..|].
  split.
  - apply Hs. repeat constructor; by vm_compute.
  - apply Hq. by vm_compute.
Defined.

Lemma inventory_events_stay_pending_witness :
  event_deadline (fail (retain_failed_events (start_acquisition evented_state)
    (mkBatch (Some (from_secs 101)) (Some (from_secs 102)))) (from_secs 103)) =
  Some (saturating_add (from_secs 101) INITIAL_DELAY).
Proof.
  eapply (inventory_events_stay_pending evented_state (from_secs 101) (from_secs 102)
    (from_secs 103) (mkAttempt 0) bonded bonded_topology).
  vm_compute. reflexivity.
Defined.

(** ** Monitor runs *)

(** A failed and a lost inventory, then a good one, with a change later. *)
Definition sim_start : Sim :=
  mkSim 0 [InventoryFails; InventoryLost; Links bonded; Changed; Links bonded].

Definition sim_config : Monitor.Config Oid Sim := run_start sim_start (from_secs 3600).

(** The configuration and the actions after [n] iterations. *)
Definition config_after (n : nat) (c : Monitor.Config Oid Sim) : Monitor.Config Oid Sim :=
  match Monitor.run n c with Some (_, c') => c' | None => c end.
Definition actions_of (n : nat) (c : Monitor.Config Oid Sim) : list (Monitor.Action Oid) :=
  match Monitor.run n c with Some (acts, _) => acts | None => [] end.

Definition sim_config1 : Monitor.Config Oid Sim := Eval vm_compute in config_after 1 sim_config.
Definition sim_floor : N := Eval vm_compute in
  default 0 (retry_not_before (Monitor.state sim_config1)).

Lemma run_total_witness : ∃ acts c', Monitor.run 20 sim_config = Some (acts, c').
Proof. apply (run_total (ID := Oid) 20 sim_config). Defined.

Lemma run_refines_actor_witness :
  ∃ acts c', Monitor.run 9 sim_config = Some (acts, c') ∧
    steps (view sim_clock sim_config) acts (view sim_clock c').
Proof.
  eexists _, _. split; [eval_done|]. apply (run_refines_actor sim_clock 9). eval_done.
Defined.

Lemma run_invariant_witness :
  ∃ acts c, Monitor.run 9 sim_config = Some (acts, c) ∧ is_Some (snapshot (cell c)) ∧
    state_inv (Monitor.state c) ∧
    ∃ pre inv post,
      chain source_call sim_start
        (pre ++ SInventory (mkAttempt (continuity (Monitor.state c))) (Ok inv) :: post) (world c).
Proof.
  eexists _, _. split; [eval_done|]. split; [vm_compute; eauto|].
  edestruct (run_invariant (ID := Oid) sim_clock sim_start (from_secs 3600) 9) as [Hs Hm];
    [eval_done|]. split; [exact Hs|].
  edestruct Hm as (_ & _ & pre & inv & post & Hc & _); [reflexivity|]. by exists pre, inv, post.
Defined.

Lemma retry_floor_holds_witness :
  0 < sim_floor ∧
  ∀ act t, act ∈ actions_of 8 sim_config1 → attempt_time act = Some t → sim_floor ≤ t.
Proof.
  split; [by vm_compute|].
  apply (retry_floor_holds (ID := Oid) sim_clock sim_start (from_secs 3600) 1 8
    (actions_of 1 sim_config) (actions_of 8 sim_config1) sim_config1 (config_after 8 sim_config1)
    sim_floor); eval_done.
Defined.

Lemma failed_attempts_spaced_witness :
  actions_of 9 sim_config = take 1 (actions_of 9 sim_config) ++ Acquire 1 (mkAttempt 0) ::
    drop 2 (actions_of 9 sim_config) ∧
  ∀ act' t', act' ∈ drop 2 (actions_of 9 sim_config) → attempt_time act' = Some t' →
    saturating_add 1 INITIAL_DELAY ≤ t'.
Proof.
  split; [eval_done|].
  apply (failed_attempts_spaced (ID := Oid) sim_clock sim_start (from_secs 3600) 9
    (take 1 (actions_of 9 sim_config)) (drop 2 (actions_of 9 sim_config))
    (Acquire 1 (mkAttempt 0)) (config_after 9 sim_config) 1); [eval_done| |eval_done].
  by vm_compute.
Defined.

Lemma availability_needs_inventory_witness :
  ∃ acts c' m, Monitor.run 9 sim_config = Some (acts, c') ∧ snapshot (cell c') = Some m ∧
    ∃ t, Subscribe t true ∈ acts.
Proof.
  eexists _, _, _. split; [eval_done|]. split; [eval_done|].
  edestruct (availability_needs_inventory (ID := Oid) sim_clock 9) as
    (pre & now & post & Hacts & _ & Hsub).
  - exact (eq_refl : snapshot (cell sim_config) = None).
  - eval_done.
  - eval_done.
  - destruct Hsub as [t Ht]; [eval_done|]. exists t. cbv beta.
    rewrite Hacts. apply elem_of_app. by left.
Defined.

(** ** Netlink *)

Definition two_frames : list N := sim_message 16 0 1 [9; 98] ++ [0; 0] ++ sim_message 3 0 1 [].

Lemma decode_datagram_framing_witness :
  ∃ m1 m2, decode_datagram sim_deserialize two_frames = Ok [m1; m2] ∧
    framed sim_deserialize two_frames [m1; m2].
Proof.
  destruct (decode_datagram_framing sim_deserialize two_frames) as (_ & Hf & _).
  - repeat constructor.
  - eexists _, _. split; [eval_done|]. apply Hf. eval_done.
Defined.

Lemma decode_datagram_roundtrip_witness :
  ∃ m1 m2,
    decode_datagram sim_deserialize (pack ([sim_message 16 0 1 [9; 98]] ++ [sim_message 3 0 1 []]))
      = Ok ([m1] ++ [m2]).
Proof.
  eexists _, _.
  apply (decode_datagram_roundtrip sim_deserialize [sim_message 16 0 1 [9; 98]] [_]
    (sim_message 3 0 1 [])).
  - constructor; [|constructor]. split; [by vm_compute|]. split; eval_done.
  - split; [by vm_compute|]. split; eval_done.
  - repeat constructor.
  - repeat constructor.
Defined.

Lemma inventory_returns_witness :
  ∃ out, iterate INVENTORY_FUEL
    (inventory_step sim_deserialize (mkAttempt 0) tt 1 (10 + INVENTORY_TIMEOUT))
    (mkProgress (set_io two_links (mkSource two_links (Some tt) 0 1)) [] 0 empty_batch) = inr out.
Proof.
  destruct (inventory_returns sim_deserialize io_clock (mkAttempt 0) tt 1 10
    (mkSource two_links (Some tt) 0 1) two_links [] 0 empty_batch) as (out & Hout & _).
  - apply SimIo_advances.
  - eval_done.
  - by exists out.
Defined.

Lemma inventory_is_complete_witness :
  ∃ inv s', inventory sim_deserialize sim_request (mkAttempt 3) (mkSource two_links (Some tt) 0 0)
      = (Ok inv, s') ∧ map name (inv_links inv) = ["a"; "b"]%string ∧
    ∃ cs w w', chain (io_call received (Some tt) tt) w cs w' ∧
      complete_dump sim_deserialize 1 (dump_reads cs) (inv_links inv).
Proof.
  eexists _, _. split; [eval_done|]. split; [eval_done|].
  edestruct (inventory_is_complete sim_deserialize sim_request (mkAttempt 3)
    (mkSource two_links (Some tt) 0 0)) as (_ & dump & w1 & w2 & cs & w3 & _ & _ & Hcs & _ & Hc);
    [eval_done|].
  destruct dump. exists cs, w2, w3. split; [exact Hcs|exact Hc].
Defined.

Lemma loss_drops_socket_witness :
  notification (NetlinkSource.wait sim_deserialize 5 (mkSource two_links (Some tt) 0 0)).2 = Some tt.
Proof.
  destruct (loss_drops_socket sim_deserialize sim_request (mkAttempt 0) 5
    (mkSource two_links (Some tt) 0 0) tt eq_refl) as [_ Hw].
  vm_compute in Hw |- *. exact Hw.
Defined.

Lemma netlink_source_contract_witness :
  AcquisitionLaws (NetlinkSource SimIo unit) (source_clock io_clock).
Proof. apply (netlink_source_contract sim_deserialize sim_request io_clock). Defined.

Lemma sequences_cycle_witness :
  (next_sequence (sequence_after 1 (mkSource two_links (Some tt) 0 4294967294))).1 = 1.
Proof.
  destruct (sequences_cycle (mkSource two_links (Some tt) 0 4294967294) 1 2) as (Hn & _).
  - by vm_compute.
  - rewrite Hn. eval_done.
Defined.

(** ** Session *)

Lemma dispatch_exact_witness :
  ∃ out, dispatch get_next_header [] (Some bonded_table) = Some out.
Proof.
  destruct (dispatch_exact (ID := Oid) get_next_header [] (Some bonded_table)) as (out & Ho & _).
  by exists out.
Defined.

(** The master once the session is registered. *)
Definition registered_master : SimStream :=
  mkSimStream (drop 56 (st_in master)) [] 3 None 0.

Lemma session_rounds_witness :
  ∃ w' xs out, iterate 5 (serve_step (ID := Oid) (λ _, Some bonded_table) 1000 42) registered_master
    = inr (Some (Ok tt), w') ∧
    rounds st_in st_out st_timeout (λ _, Some bonded_table) 42 registered_master
      (xs ++ [Finish out]) w'.
Proof.
  pose proof (session_rounds (ID := Oid) st_in st_out st_timeout st_clock
    (λ _, Some bonded_table) 1000 42 5 registered_master Oid_long_responses) as Hr.
  destruct (iterate 5 _ registered_master) as [w'|[[[[]|e]|] w']] eqn:Hi;
    try (vm_compute in Hi; discriminate Hi).
  destruct Hr as (xs & out & Hr & _). exists w', xs, out. split; [reflexivity|exact Hr].
Defined.

Lemma receive_exact_frame_witness :
  ∃ h bytes w', receive (ID := Oid) 1000 IO_TIMEOUT registered_master = (Ok (h, bytes), w') ∧
    frame (ID := Oid) h bytes ∧ st_in registered_master = bytes ++ st_in w'.
Proof.
  eexists _, _, _. split; [eval_done|].
  edestruct (receive_exact_frame (ID := Oid) st_in st_out st_timeout st_clock 1000 IO_TIMEOUT
    registered_master) as (Hf & Hi & _); [eval_done|].
  split; [exact Hf|exact Hi].
Defined.

Lemma read_before_returns_witness :
  ∃ out, iterate FRAME_FUEL (read_before_step 19 (0 + IO_TIMEOUT)) ([], registered_master) = inr out.
Proof.
  destruct (read_before_returns st_in st_out st_timeout st_clock 19 0 IO_TIMEOUT registered_master
    registered_master) as (out & Ho & _).
  - apply SimStream_advances.
  - eval_done.
  - done.
  - by exists out.
Defined.

Definition sim_file : Config.Config := default_config.

Lemma handshake_exact_witness :
  ∃ w', handshake (ID := Oid) (λ w, w) 1000 sim_file master = (Some (Ok 42), w') ∧
    handshaken (ID := Oid) st_in st_out st_timeout sim_file master 42 w'.
Proof.
  eexists. split; [eval_done|].
  edestruct (handshake_exact (ID := Oid) st_in st_out st_timeout st_clock (λ w, w) 1000 sim_file
    master) as (w0 & Hh & Hw); [eval_done|]. rewrite Hw. exact Hh.
Defined.



(** ** Process *)

Lemma reconnect_backoff_witness :
  ∃ log last, supervise (ID := Oid) (λ _, None) (λ w, w) (λ _ w, w) 1000 10 4 sim_file
      (from_secs 1) master = (log, last) ∧
    Forall (λ p, from_secs 1 ≤ p.2 ≤ from_secs 30) log.
Proof.
  eexists _, _. split; [eval_done|].
  eapply (reconnect_backoff (ID := Oid) (λ _, None) (λ w, w) (λ _ w, w) 1000 10 4 sim_file master).
  eval_done.
Defined.
