(* ===== verification/SystemWitnesses.v ===== *)
(** The theorems on the composed program at concrete inputs, in the scenarios
    of Scenarios.v. *)

From S2P Require Import Prelude BTree Link Agentx Mib Duration Monitor MonitorRuns Recovery Responsive.
From S2P Require Import Netlink NetlinkSource SocketIo Timing Delivery Config Notify Session.
From S2P Require Import Promptness Main System Stack Sockets Process Descriptors Freshness Production EndToEnd Scenarios.
Open Scope N_scope.

Ltac eval_done := vm_compute; reflexivity.

(** ** The whole process *)

#[local] Instance sim_source : Acquisition (NetlinkSource SimIo unit) :=
  netlink sim_deserialize sim_request.

(** No configuration file, no service manager. *)
Definition no_file (p : string) : result Error string := Err (mkError NotFound []).
Definition no_parser (s : string) : result string Config := Err "unread".
Definition no_addr (s : string) : result Error unit := Ok tt.
Definition no_socket (w : SimStream) : result Error unit * SimStream := (Ok tt, w).
Definition no_send (m : string) (a : unit) (w : SimStream) : result Error unit * SimStream := (Ok tt, w).
Definition no_release (w : SimStream) : SimStream := w.
Definition no_env (v : string) : option string := None.
Definition pause (d : N) (w : SimStream) : SimStream := w.

Definition launched : Process (ID := Oid) (W := NetlinkSource SimIo unit) (St := SimStream) :=
  launch no_file no_parser [] (Ok tt) (with_io two_links) master.
Definition play (schedule : list Thread) :=
  interleave (ID := Oid) no_addr no_addr no_socket no_send no_release no_env pause 100 schedule launched.

(** The master's request is in hand before the monitor has published, and is
    looked at after. *)
Definition schedule : list Thread :=
  [MainThread; MonitorThread; MainThread; MonitorThread; MonitorThread; MonitorThread;
   MainThread; MainThread].

Lemma interleaving_linearizes_witness :
  ∃ es p mon cell ses, play schedule = (es, p) ∧ p = Alive mon cell ses ∧
    is_Some cell ∧ cell = cell_after es.
Proof.
  pose proof (interleaving_linearizes (ID := Oid) no_addr no_addr no_socket no_send no_release no_env pause 100
    st_in st_out st_timeout st_clock no_file no_parser [] (Ok tt) (with_io two_links) master schedule
    (play schedule).1 (play schedule).2 Oid_long_responses) as Hl.
  specialize (Hl ltac:(eval_done)). cbn in Hl.
  destruct Hl as (mon & cell & ses & n & Hp & Hc & _).
  eexists _, _, mon, cell, ses. split; [apply surjective_pairing|].
  split; [exact Hp|]. split; [|exact Hc]. rewrite Hc. vm_compute. eauto.
Defined.

(** The request in hand, and what was found for it. *)
Definition looks : list (Header * list N * list (Oid * Value Oid) * option (result Error Reaction)) :=
  Eval vm_compute in
  omap (λ e, if e is Looked _ h b (Some m) out then Some (h, b, m, out) else None) (play schedule).1.

Lemma interleaved_reads_serve_kernel_witness :
  ∃ h b m out s s', looks = [(h, b, m, out)] ∧ length m = 4%nat ∧
    System.from_kernel sim_deserialize sim_request received s s' m.
Proof.
  eexists _, _, _, _.
  edestruct (interleaved_reads_serve_kernel (ID := Oid) sim_deserialize sim_request no_addr no_addr
    no_socket no_send no_release no_env pause 100 st_in st_out st_timeout st_clock no_file no_parser [] (Ok tt)
    two_links master schedule (take 3 (play schedule).1) (drop 4 (play schedule).1) (play schedule).2 42)
    as [(before & after & mon & cell & ses & _ & _ & _ & Hk) _].
  - exact Oid_long_responses.
  - eval_done.
  - eexists _, _. split; [reflexivity|]. split; [reflexivity|]. apply Hk. reflexivity.
Defined.

(** ** The production stack *)

Lemma production_stack_witness :
  ∃ acts c m, Monitor.run (Acquisition0 := Stack.netlink_source 4 sim_deserialize sim_request) 2
      (run_start (new 4 two_links) 3600)
        = Some (acts, c) ∧
    Publish m ∈ acts ∧
    from_recv (ID := Oid) 4 sim_deserialize sim_request (new 4 two_links) c.(world) m.
Proof.
  eexists _, _, _. split; [eval_done|].
  assert (∀ (a b : Monitor.Action Oid) m l, Publish m ∈ a :: b :: Publish m :: l) as Hin
    by (intros; right; right; left).
  split; [apply Hin|].
  edestruct (production_stack (ID := Oid) 4 sim_deserialize sim_request io_clock two_links 3600 2)
    as [_ Hm]; [eval_done|]. apply Hm, Hin.
Defined.

(** A subscribed source. *)
Definition two_source : NetlinkSource SimIo unit := mkSource two_links (Some tt) 0 0.

Lemma production_inventory_bounded_witness :
  ∃ r s', inventory (DatagramIo0 := SocketIo_datagram_io 4) sim_deserialize sim_request
      (mkAttempt 0) two_source = (r, s') ∧
    io_clock (io s') ≤ 10 + INVENTORY_TIMEOUT + 10 * io_delta 4 1 ∧ batch_ok (events_of r).
Proof.
  destruct (inventory (DatagramIo0 := SocketIo_datagram_io 4) sim_deserialize sim_request
    (mkAttempt 0) two_source) as [r s'] eqn:Hi.
  exists r, s'. split; [reflexivity|].
  destruct (production_inventory_bounded 4 sim_deserialize sim_request io_clock 1 (mkAttempt 0)
    two_source s' r SimIo_polls_advance (SimIo_few_signals 4) SimIo_sys_timing Hi) as (Ht & Hb & _).
  split; [exact Ht|]. apply Hb. by vm_compute.
Defined.

(** ** Sockets *)

(** Descriptors 1 and 2 are taken; the dumps find nothing to receive and fail,
    and the monitor waits in between. *)
Definition descriptors_at_start : FdTable := mkFdTable (mkSimIo 10 []) 3 [1; 2].

Lemma sockets_released_witness :
  ∃ acts c, Monitor.run (ID := Oid) (Acquisition0 := Stack.netlink_source 4 sim_deserialize sim_request)
      3 (run_start (new 4 descriptors_at_start) 1) = Some (acts, c) ∧
    length (t_open (io (world c))) = 3%nat.
Proof.
  eexists _, _. split; [eval_done|].
  edestruct (sockets_released (ID := Oid) 4 sim_deserialize sim_request t_open 4 descriptors_at_start
    [1; 2] 1 3) as [_ Hlen].
  - reflexivity.
  - by vm_compute.
  - eval_done.
  - exact Hlen.
Defined.

(** ** Descriptors *)

Definition with_manager (v : string) : option string := Some "@manager".

(** The session of [master], from its connection to its end and on to the next
    one, with the readiness notification sent and one descriptor held by
    others. *)
Definition sessions (steps : nat) :=
  interleave (ID := Oid) no_addr no_addr c_unbound c_send_to c_closed with_manager c_sleep 100
    (replicate steps MainThread)
    (launch no_file no_parser [] (Ok tt) (with_io two_links) (mkCounted master 1)).

(** A stream is held while the session is served and closed when it is over. *)
Lemma descriptors_released_witness :
  (∃ es mon cell ses, sessions 2 = (es, Alive mon cell ses) ∧ c_open (s_world ses) = 2) ∧
  (∃ es mon cell ses, sessions 7 = (es, Alive mon cell ses) ∧ c_open (s_world ses) = 1).
Proof.
  split; eexists _, _, _, _; (split; [eval_done|]); (etrans; [|eval_done]).
  - eapply (descriptors_released (ID := Oid) no_addr no_addr c_unbound c_send_to c_closed with_manager
      c_sleep 100 c_open no_file no_parser [] (Ok tt) (with_io two_links) (mkCounted master 1)
      (replicate 2 MainThread)). eval_done.
  - eapply (descriptors_released (ID := Oid) no_addr no_addr c_unbound c_send_to c_closed with_manager
      c_sleep 100 c_open no_file no_parser [] (Ok tt) (with_io two_links) (mkCounted master 1)
      (replicate 7 MainThread)). eval_done.
Defined.

(** ** Deadlines and delivery *)

Lemma inventory_meets_deadline_witness :
  ∃ inv s', inventory sim_deserialize sim_request (mkAttempt 0) two_source = (Ok inv, s') ∧
    io_clock (io s') ≤ 10 + INVENTORY_TIMEOUT + 10 ∧
    is_ok (record_batch (State_new 5) (inv_events inv)) = true.
Proof.
  edestruct (inventory_meets_deadline sim_deserialize sim_request io_clock 1 (State_new 5) 20
    two_source) as [Ht Hb]; [eval_done|].
  eexists _, _. split; [eval_done|]. split; [exact Ht|]. by apply Hb.
Defined.

(** The two datagrams of [two_links] and their links. *)
Definition first_chunk : list N := sim_message 16 0 1 [7; 97] ++ [0; 0].
Definition second_chunk : list N := sim_message 16 0 1 [9; 98] ++ [0; 0] ++ sim_message 3 0 1 [].

Lemma inventory_accepts_witness :
  ∃ s', inventory sim_deserialize sim_request (mkAttempt 3) two_source =
    (Ok (mkInventory (mkAttempt 3) ([plain 7 "a"] ++ [] ++ [plain 9 "b"]) empty_batch), s').
Proof.
  destruct (inventory_accepts sim_deserialize sim_request (mkAttempt 3) two_source tt tt two_links
    two_links two_links (mkSimIo 12 []) 10 [first_chunk] [[plain 7 "a"]] second_chunk [plain 9 "b"])
    as (s' & Hi & _).
  - reflexivity.
  - reflexivity.
  - reflexivity.
  - reflexivity.
  - do 4 eexists. do 4 (split; [eval_done|]). do 4 eexists. do 4 (split; [eval_done|]). reflexivity.
  - constructor; [|constructor]. split; [done|]. eexists. split; [eval_done|].
    constructor; [|constructor]. split; [done|]. split; [done|]. eexists. split; eval_done.
  - split; [done|]. eexists [_], _. split; [eval_done|]. split; [|by split_and!].
    constructor; [|constructor]. split; [done|]. split; [done|]. eexists. split; eval_done.
  - by vm_compute.
  - exists s'. exact Hi.
Defined.

(** ** Recovery and types *)

(** A source that loses its subscription once and works from then on. *)
Definition unlucky : Sim := mkSim 5 [InventoryLost].
Definition works_now_on (subscribed : bool) (w : Sim) : Prop := sim_script w = [].

Lemma Sim_works limit : works sim_clock limit (λ links, links = []) works_now_on.
Proof.
  constructor; unfold works_now_on.
  - by intros b w t w' Hw [= <- <-].
  - intros [c s]; simpl; intros ->. by eexists.
  - intros a [c s]; simpl; intros ->. eexists _, _. split; [done|]. split; [done|]. split; [|by split].
    pose proof (from_observed_spec []) as Hs. vm_compute from_observed in Hs. apply Hs.
  - intros d b [c s]; simpl; intros -> _. eexists. split; [done|]. split; [done|]. simpl. lia.
Qed.

Definition lost_once : Monitor.Config Oid Sim := Eval vm_compute in
  match Monitor.run 1 (run_start unlucky (from_secs 3600)) with
  | Some (_, c) => c | None => run_start unlucky (from_secs 3600) end.

Lemma recovery_live_witness :
  snapshot (cell lost_once) = None ∧
  ∃ acts c, Monitor.run 2 lost_once = Some (acts, c) ∧ is_Some (snapshot (cell c)).
Proof.
  split; [eval_done|].
  edestruct (recovery_live (ID := Oid) sim_clock (from_secs 3600) _ works_now_on (Sim_works _)
    (from_secs 3600) ltac:(by vm_compute) unlucky 1)
    as (acts & c & m & Hr & _ & Hc & _); [eval_done|reflexivity|].
  exists acts, c. split; [exact Hr|exact Hc].
Defined.

(** The loss is waited out for a second, and the table is back at once. *)
Lemma recovery_in_time_witness :
  ∃ k acts c, Monitor.run k lost_once = Some (acts, c) ∧ is_Some (snapshot (cell c)) ∧
    sim_clock (world c) ≤ 1000000020.
Proof.
  edestruct (recovery_in_time (ID := Oid) sim_clock 1 1 (from_secs 3600) _ works_now_on
    (Sim_works _) (from_secs 3600) ltac:(by vm_compute) unlucky 1) as (k & acts & c & m & _ & Hr & _ & Hc & _ & Ht & _); [eval_done|reflexivity|].
  exists k, acts, c. split; [exact Hr|]. split; [by exists m|].
  etrans; [exact Ht|]. by vm_compute.
Defined.

(** From its start, over a kernel that answers. *)
Lemma kernel_links_published_witness :
  ∃ k acts c m,
    Monitor.run (ID := Oid) (Acquisition0 := netlink sim_deserialize sim_request) k
      (monitor_start (mkKernelIo 10 []) (from_secs 3600)) = Some (acts, c) ∧
    snapshot (cell c) = Some m ∧ links_table (ID := Oid) kernel_links m ∧
    source_clock k_clock (world c) ≤ INVENTORY_TIMEOUT + 42.
Proof.
  edestruct (kernel_links_published (ID := Oid) sim_deserialize sim_request k_clock 1 (from_secs 3600)
    kernel_links (λ _ _, True) (KernelIo_quiet _) (mkKernelIo 10 []) (from_secs 3600) 0)
    as [(k & acts & c & m & _ & Hr & _ & Hc & Hm & Htime & _) _]; [by vm_compute|reflexivity|exact I|].
  exists k, acts, c, m. split; [exact Hr|]. split; [exact Hc|]. split; [exact Hm|]. exact Htime.
Defined.

(** The same from the system calls up. *)
Lemma production_links_published_witness :
  ∃ j acts c m,
    Monitor.run (ID := Oid) (Acquisition0 := Stack.netlink_source 4 sim_deserialize sim_request) j
      (run_start (new 4 (mkKernelIo 10 [])) (from_secs 3600)) = Some (acts, c) ∧
    snapshot (cell c) = Some m ∧ links_table (ID := Oid) kernel_links m ∧
    source_clock k_clock (world c) ≤ INVENTORY_TIMEOUT + 42 * io_delta 4 1.
Proof.
  edestruct (production_links_published (ID := Oid) 4 sim_deserialize sim_request k_clock 1 kernel_links
    (λ _ _, True) (mkKernelIo 10 []) (from_secs 3600) 0)
    as [(j & acts & c & m & _ & Hr & _ & Hc & Hm & Htime & _) _];
    [exact KernelIo_sys_timing|exact KernelIo_quiet_system|by vm_compute|reflexivity|exact I|].
  exists j, acts, c, m. split; [exact Hr|]. split; [exact Hc|]. split; [exact Hm|]. exact Htime.
Defined.

(** The monitor thread takes eight steps over a kernel that answers, the master's
    request is looked at after them. *)
Definition quiet_start : Process (ID := Oid) (W := NetlinkSource KernelIo unit) (St := SimStream) :=
  launch no_file no_parser [] (Ok tt) (with_io (mkKernelIo 10 [])) master.
Definition quiet_play (schedule : list Thread)
    (p : Process (ID := Oid) (W := NetlinkSource KernelIo unit) (St := SimStream)) :=
  interleave (ID := Oid) (W := NetlinkSource KernelIo unit)
    (Acquisition0 := netlink sim_deserialize sim_request) no_addr no_addr no_socket
    no_send no_release no_env pause 100 schedule p.
Definition settled_process := (quiet_play (replicate 8 MonitorThread) quiet_start).2.
Definition requested := quiet_play [MainThread; MainThread; MainThread] settled_process.

Lemma requests_see_links_witness :
  ∃ session header bytes m out,
    requested.1 = [Looked session header bytes (Some m) out] ∧ length m = 4%nat ∧
    links_table (ID := Oid) kernel_links m.
Proof.
  eexists _, _, _, _, _. split; [eval_done|]. split; [eval_done|].
  edestruct (requests_see_links (ID := Oid) sim_deserialize sim_request no_addr no_addr no_socket
    no_send no_release no_env pause 100 st_in st_out st_timeout st_clock k_clock (from_secs 3600)
    kernel_links (λ _ _, True) (KernelIo_quiet _) no_file no_parser [] (Ok tt) (mkKernelIo 10 []) master
    default_config (from_secs 3600) []
    (replicate 8 MonitorThread) [MainThread; MainThread; MainThread] [])
    as (m & r & Hm & Hlinks & _).
  - exact Oid_long_responses.
  - reflexivity.
  - by vm_compute.
  - reflexivity.
  - exact I.
  - apply surjective_pairing.
  - by vm_compute; lia.
  - apply surjective_pairing.
  - apply (list_elem_of_lookup_2 _ 0). eval_done.
  - injection Hm as <-. exact Hlinks.
Defined.

(** A link change after the first table: its update is acquired a second
    later. *)
Definition changed_once : Sim := mkSim 5 [Links bonded; Changed].

Lemma attempts_on_time_witness :
  ∃ pre c acts c' wait t att post, Monitor.run (ID := Oid) 2 (run_start changed_once (from_secs 3600)) = Some (pre, c) ∧
    Monitor.run 2 c = Some (acts, c') ∧ acts = [wait] ++ Acquire t att :: post ∧
    event_deadline (state c) = Some 1000000008 ∧ t ≤ 1000000008 + 5.
Proof.
  edestruct (attempts_on_time (ID := Oid) sim_clock 1 1 changed_once (from_secs 3600) 2 2)
    as (Hatt & _ & _ & _); [eval_done|eval_done|].
  eexists _, _, _, _, _, _, _, _. split; [eval_done|]. split; [eval_done|]. split; [reflexivity|].
  split; [eval_done|]. etrans.
  - eapply (Hatt [_]); [reflexivity|repeat constructor|reflexivity].
  - by vm_compute.
Defined.

Lemma published_tables_typed_witness :
  ∃ acts c m, Monitor.run 1 (run_start (mkSim 0 [Links bonded]) (from_secs 3600)) = Some (acts, c) ∧
    snapshot (cell c) = Some m ∧ length m = 11%nat ∧ well_typed (ID := Oid) m.
Proof.
  eexists _, _, _. split; [eval_done|]. split; [eval_done|]. split; [eval_done|].
  eapply (published_tables_typed (ID := Oid) sim_clock (mkSim 0 [Links bonded]) (from_secs 3600) 1);
    eval_done.
Defined.

(** ** A served request *)

Definition waiting : SimStream :=
  mkSimStream (sim_header (mkHeader 1 TGetNext 16 42 5 6 0) ++ [1; 2]) [] 3 None 0.

Lemma request_served_witness :
  ∃ w w', serve_step (ID := Oid) (λ _, None) 100 42 w = inl w' ∧ st_in w' = [1; 2] ∧
    length (st_out w') = 28%nat.
Proof.
  edestruct (request_served (ID := Oid) st_in st_out st_timeout st_clock (λ _, None) 100 1 42
    (mkHeader 1 TGetNext 16 42 5 6 0) (sim_header (mkHeader 1 TGetNext 16 42 5 6 0)) [1; 2] waiting)
    as (w1 & _ & Hs).
  - split; [eval_done|]. split; eval_done.
  - eval_done.
  - by vm_compute.
  - exact Oid_long_responses.
  - edestruct Hs as (w' & Hi & Ho & _ & Hstep).
    + eapply reacts_request; [done..| |].
      * left. eapply answers_unpublished; [done| |done]. split; [by split|].
        repeat constructor; vm_compute; by repeat constructor.
      * eval_done.
    + exists waiting, w'. split; [exact Hstep|]. split; [exact Hi|]. rewrite Ho. eval_done.
Defined.

(** The master acknowledges both PDUs of the handshake, and has a request to make. *)
Lemma handshake_succeeds_witness :
  ∃ w, handshake (ID := Oid) (λ w, w) 100 default_config master = (Some (Ok 42), w) ∧
    st_in w = sim_header (mkHeader 1 TGetNext 16 42 5 6 0) ++
              sim_header (mkHeader 1 TClose 16 42 0 7 0) ∧
    length (st_out w) = 40%nat.
Proof.
  edestruct (handshake_succeeds (ID := Oid) st_in st_out st_timeout st_clock 100 1 (λ w, w)
    default_config (mkOid TABLE 0) (sim_header (o_header (open_pdu (ID := Oid))))
    (sim_header (g_header (register_pdu (mkHeader 1 TResponse 16 42 0 1 8) (priority default_config)
       (mkOid TABLE 0))))
    (sim_ack 42 1) (sim_ack 42 2)
    (sim_header (mkHeader 1 TGetNext 16 42 5 6 0) ++ sim_header (mkHeader 1 TClose 16 42 0 7 0))
    (mkHeader 1 TResponse 16 42 0 1 8) (mkHeader 1 TResponse 16 42 0 2 8) master)
    as (w & Hh & Hi & Ho & _).
  - reflexivity.
  - reflexivity.
  - split; [eval_done|]. split; eval_done.
  - constructor; try reflexivity. by left.
  - reflexivity.
  - split; [eval_done|]. split; eval_done.
  - constructor; try reflexivity. by right.
  - reflexivity.
  - by vm_compute.
  - by vm_compute.
  - exists w. split; [exact Hh|]. split; [exact Hi|]. rewrite Ho. eval_done.
Defined.

(** What the main thread of [schedule] says, and the answer that the request it
    looked at is owed. *)
Definition said : list (Event (ID := Oid)) := Eval vm_compute in spoken (play schedule).1.
Definition answered : list N :=
  Eval vm_compute in
  match said with [_; Sent out] => out | _ => [] end.

Lemma responses_follow_requests_witness :
  ∃ session h b mib x, list.head said = Some (Looked session h b mib (Some (Ok x))) ∧
    (x = Reply answered ∨ x = Finish answered).
Proof.
  pose proof (responses_follow_requests (ID := Oid) no_addr no_addr no_socket no_send no_release no_env pause
    100 no_file no_parser [] (Ok tt) (with_io two_links) master schedule
    (play schedule).1 (play schedule).2) as Hr.
  specialize (Hr ltac:(eval_done)).
  exact (Hr (take 1 said) (Sent answered) [] ltac:(eval_done)).
Defined.
